(* ===== verification/_CoqProject ===== *)
-Q . S2P
Prelude.v
Float64.v
Frame.v
Replay.v
Delivery.v
Health.v
SendQueue.v
Scheduler.v
FecCodec.v
FecEncoder.v
FecDecoder.v
FecRecovery.v
FecStreams.v
FecIsolation.v
Sha256.v
Crypto.v
Session.v
Config.v
TunnelParams.v
Server.v
Client.v
ClientProps.v
Wire.v
Handshake.v
CodedLink.v
Tunnel.v
Uplink.v
CodedUplink.v
Downlink.v
CodedDownlink.v
EndToEnd.v
Reload.v
Ipv4.v
FakeTCP.v
Icmp.v
Transports.v
Lifecycle.v
Telemetry.v
Process.v
