(* ===== verification/Prelude.v ===== *)
(** * FlexBraid: a verification development

    FlexBraid (src/README.md, src/docs/DESIGN.md) carries a WireGuard tunnel
    over several uplinks (WANs). A client takes datagrams from the local
    WireGuard, protects them with forward error correction, seals them with an
    AEAD and spreads them over its WANs; a server authenticates them, recovers
    what was lost, hands the datagrams to its WireGuard peer and sends the
    answers back over the paths it has learnt. This library models both ends,
    from the configuration file to the raw sockets, as executable functions and
    proves what the code promises, and in some places what it fails to keep.

    ** The parts and how they interact

    - The _data plane_. [Frame] is the wire format; [Crypto] over [Sha256] seals
      it; [Replay] refuses numbers seen before; [Session] keeps the identities,
      the counters and the two tables of the server. [FecCodec], [FecEncoder],
      [FecDecoder], [FecRecovery], [FecStreams] and [FecIsolation] are the erasure
      code, [Delivery] the in-order buffer of the client, [SendQueue] the paced
      queue of a WAN.
    - The _control plane_. [Health] estimates loss and round trips of a path and
      declares it degraded or down; [Scheduler] chooses the path of a frame;
      [Config] validates the document and [TunnelParams] turns it into codec
      parameters, weights and monitor options, on the client also from what
      the server announced.
    - The _two ends_. [Client] and [Server] put these together: each loop body
      or handler is one function on the state of its end. [ClientProps] has what
      all client steps keep, [Wire] what a WAN sends at once or through its queue,
      [Handshake] runs client and server against each other and [CodedLink]
      carries a coded block from one to the other. [Tunnel] is
      the whole system of both ends and an adversarial network between them,
      [Uplink], [Downlink], [CodedUplink] and [CodedDownlink] prove what that
      network cannot do, without and with coding.
    - The _transports_. [Ipv4], [FakeTCP] and [Icmp] are the two raw transports,
      [Transports] the plain UDP one, the binding of sockets to an uplink and
      the interface the tunnel sees, a type class with laws.
    - The _process_. [Lifecycle] is start and shutdown of both ends over any
      lawful transport, [Telemetry] the snapshots, [Reload] the reload of a
      running end and [Process] the command: start-up, exit codes, SIGHUP.

    ** Files and sources (paths under src/)

    - Prelude: results, machine integers, bytes, map iteration, shared lemmas.
    - Float64: the float64 of the Go language, with its rounding.
    - Frame: internal/frame/frame.go.
    - Replay: [ReplayWindow] of internal/crypto/crypto.go.
    - Sha256, Crypto: internal/crypto/crypto.go ([hkdfExpand], [NewAEAD], [Seal],
      [Open], nonces) and pfs.go.
    - Session: internal/session/session.go, all of it.
    - Delivery: internal/tunnel/delivery.go. SendQueue: wanqueue.go.
    - Health: internal/health/health.go. Scheduler: internal/scheduler/scheduler.go.
    - FecCodec, FecEncoder, FecDecoder, FecRecovery, FecStreams, FecIsolation:
      internal/fec/fec.go; FecRecovery has the parity payload and the guarantee
      for one block, FecStreams that for any number of coded streams, FecIsolation
      what a decoder keeps for one session whatever it is fed for the others.
    - Config: the document and [Validate] of internal/config/config.go.
    - TunnelParams: the parameter functions of internal/tunnel/tunnel.go and
      server.go ([fecParamsFor], [effectiveCapacity], [healthOptions],
      [applyAnnounce], ...).
    - Server: the handlers of internal/tunnel/server.go. A [server] has the
      session manager, [sv_states] per session ([sessState], [pathState]) and the
      one decoder; an [event] is a received buffer ([handleClientFrame]), a
      datagram of the WireGuard peer ([egress_datagram], the body of the egress
      reader), [fecTick], [healthTick] or [sweep].
    - Client: the loops of internal/tunnel/tunnel.go. A [client] has the session,
      the codec objects on a heap (several WANs may point to one), the links and
      the delivery buffer; a [client_event] is a handshake or keepalive tick of a
      WAN, an inner datagram ([ingress]), a received buffer ([recv_frame]) or one
      of the shared ticks.
    - Wire: the consumer of a WAN's queue as the ends see it ([consume]): a frame
      popped is a frame sent; the token bucket, which delays it, is in SendQueue.
    - Handshake, CodedLink: no source of their own; client and server against
      each other, for single frames and for a coded block.
    - Tunnel, Uplink, CodedUplink, Downlink, CodedDownlink, EndToEnd: no source of
      their own; the system of [client_step], [server_step] and the queue
      consumers, its four theorems and runs of it.
    - Reload: internal/tunnel/reload.go. Telemetry: stats.go.
    - Ipv4, FakeTCP, Icmp: internal/transport/faketcp.go and icmp.go.
    - Transports: transport.go, udp.go, bind.go, bind_linux.go, bind_freebsd.go,
      bind_other.go, faketcp_raw.go, icmp_raw.go, faketcp_other.go of
      internal/transport, and [newTransport] of tunnel.go.
    - Lifecycle: [Start] and [Run] of tunnel.go and server.go.
    - Process: cmd/flexbraid/main.go, [Load] of config.go.

    ** What the theorems show

    - _Formats_: frames, sealed frames and TCP segments come back as they were
      ([encode_decode_roundtrip], [seal_open_inverse], [segment_roundtrip]);
      the raw parsers panic exactly when the total length field leaves less than
      they read behind the IPv4 header ([parsers_panic_iff]); HKDF is that of RFC 5869 ([hkdf_rfc5869]).
    - _Replay and identity_: the bitmap implements the abstract window
      ([replay_refines_spec]); a forged buffer does nothing
      ([unauthenticated_ignored]); an authentic frame acts once
      ([frame_acts_once]); nonces of a session do not repeat
      ([session_nonces_unique]); nothing but hellos before the key exchange
      ([nothing_before_kex]).
    - _Coding and order_: any k frames of a block give it back ([fec_recovers]);
      encoders and a decoder over a lossy network never invent, repeat or mix up
      a datagram ([coded_streams_safe]); the encoder keeps every datagram
      ([encoder_conserves]); a flushed block stays silent (the lemma
      [flushed_block_silent]); delivery is strictly increasing, for numbers below
      2^31, and complete on runs without holes ([delivery_in_order], [delivery_reassembles]); the send
      queue is FIFO, bounded and live ([sendqueue_fifo], [consumer_progress]).
    - _Paths_: estimates stay in range under float64 rounding (the lemma
      [monitor_wellformed]), and a tick changes the state exactly on missed probes
      or when a condition was sustained, DEGRADED having one timer for its two
      ([monitor_hysteresis]); a pick is correct, moves no foreign flow and is
      fair ([pick_correct], [flow_minimal_migration], [wrr_fair]).
    - _Both ends_: the handshake establishes one key, one path and one coding, up
      to the overrides of the WANs ([handshake_establishes], [announce_agreement]);
      a datagram crosses in either direction where no coding holds it back, on the
      way back at once or after the gap timeout
      ([datagram_through], [datagram_back]); with per-WAN coding on, a
      block crosses when any k of its k + p frames do, a parity frame among them,
      and the server's WireGuard gets its k datagrams once and in order
      ([coded_block_through]); a control frame in
      between stalls the way back (the lemma [pong_stalls_downlink]); the tables of the
      server are bounded in every run ([server_bounded]).
    - _The tunnel over an adversarial network_: whatever the network loses,
      repeats, reorders, redirects or injects, the server's WireGuard gets only
      datagrams of the client's, each at most as often as it was sent
      ([uplink_integrity]), and the client's gets a subsequence of what the
      server's sent ([downlink_in_order]); for tunnels without coding. In
      cross-path mode, where a decoder files frames under their session alone, both
      hold with the erasure code on, adaptive or not: up whatever the other
      sessions send to the same decoder ([coded_uplink_integrity]), down with
      recovered frames going through the delivery buffer as well
      ([coded_downlink_in_order]). With a code per WAN it takes that frames arrive
      from the address of the WAN that sent them, as [coded_streams_safe] supposes:
      a parity frame redirected to the address of another WAN makes the decoder
      invent a datagram ([rerouted_parity_forges]).
    - _Transports_: a FakeTCP exchange ([faketcp_exchange]); what one ICMP
      request carries and returns, which requests are served, how long a reply
      queue may get ([icmp_pull], [request_marker], and the lemma
      [icmp_queue_bounded]); to which uplink a socket is pinned (the lemma
      [uplink_binding]).
    - _Process_: accepted documents satisfy the rules and validation is
      idempotent ([validate_correct]); the derived parameters keep a sealed frame
      within 1500 bytes, though not its packet ([fec_params_sound],
      [parity_fragments]); start-up and shutdown leak no descriptor
      ([client_lifecycle], [server_sockets], [startup_safe]); SIGHUP never loses
      what is running and is refused exactly on a structural change ([hup_safe]); the snapshot lists the paths of the sessions
      (the lemma [server_snapshot_paths]).

    Beside these stand the theorems that show a defect or a stale comment of the
    source, such as [delivery_bound_not_enforced], [first_replay_after_expiry],
    [unanswered_path_flaps], [failed_announce_crashes], [report_confuses_paths],
    [overlong_parity_panics], [codec_cache_poisoned], [short_blocks_wait],
    [pong_stalls_downlink], [parity_fragments].

    ** Conventions

    - A fallible call returns [res E A]: a value, an error value or a panic (nil
      dereference, index out of range). Integers are [Z] with the wrap-around of
      their type written out; times and durations are nanoseconds.
    - A handler runs under the mutex of its end and is one step. It reads the
      clock once, an argument; what it writes to sockets is its list of outputs.
      Writing to an open socket succeeds. Interleavings are sequences of steps;
      the queue and its consumer goroutine, which do not share a lock over the
      whole of their work, interleave at their own granularity in [SendQueue].
    - Iteration over a Go map takes any order: [RangeOrder] is a permutation
      of the entries and theorems hold for every instance. Objects shared by
      pointer (server sessions, codec objects) live on a heap.
    - The network of [Tunnel] is an adversary: the logs of an [ends] record what
      went out, and an [admissible] step delivers any buffer at all, except that
      one which opens under the session key is one that was sent.
    - Random numbers, dialled descriptors, the answers of system calls and of
      the network are inputs of the step that asks for them. Open descriptors
      are a set, so that a leak can be stated.
    - Code outside the repository is a class with its documented laws: the AEAD
      ciphers and X25519 ([Crypto]), Reed-Solomon coding ([FecCodec]), the JSON
      encoding of the announce (the argument [marshal] with its inverse, in
      [TunnelParams] and [Handshake]), the random generator ([Scheduler]). Each
      has a concrete instance that the witnesses run on.

    ** Fuel and bounds

    Recursion is structural wherever the source ranges over a slice. The other
    loops carry fuel that a lemma shows to be enough: the blocks of [hkdfExpand]
    ([hkdf_count_spec]), the binary search of [sort.Search]
    ([sort_search_spec]), the drain loops of the delivery buffer and of the raw
    counters ([drain_spec], [drain_ok]), evictions of the send queue
    ([evict_spec]), the carries of a checksum ([fold_carry_onec]). [Itoa] has one
    unit of fuel more than its argument, which has fewer digits.

    ** Not modelled

    - Logging, except the level it is set to. Goroutine creation and waiting,
      tickers and contexts: the model has the bodies of the loops and lets them
      run in any order.
    - Flag parsing, the HTTP server of the telemetry and the formatting of its
      answers, YAML decoding (its result is an input of [Load]), signals.
    - The system calls themselves, which the environment of [Transports] answers.
    - Runs with a code per WAN over the network of [Tunnel]: their integrity fails
      there, as [rerouted_parity_forges] shows. [coded_streams_safe] has it at the
      decoder, for a network that keeps a frame on its stream, and
      [coded_block_through] has one block between the two ends. *)

From stdpp Require Export base numbers list gmap strings sorting.
From Stdlib Require Export ZArith Lia Strings.Byte.

#[local] Open Scope Z_scope.

(** ** Shared notations *)

Declare Scope go_scope.
Delimit Scope go_scope with go.
#[global] Open Scope go_scope.

(** Outcome of a Go call that may return an error value or panic. *)
Inductive res (E A : Type) : Type :=
| Ok (a : A)
| Err (e : E)
| Panic.
Arguments Ok {E A} a.
Arguments Err {E A} e.
Arguments Panic {E A}.

Definition res_bind {E A B} (m : res E A) (f : A → res E B) : res E B :=
  match m with
  | Ok a => f a
  | Err e => Err e
  | Panic => Panic
  end.

Notation "'let?' x ':=' m 'in' k" := (res_bind m (λ x, k))
  (at level 10, x name, m at level 100, k at level 200) : go_scope.

Lemma bind_Ok {E A B} (m : res E A) (f : A → res E B) b :
  res_bind m f = Ok b → ∃ a, m = Ok a ∧ f a = Ok b.
Proof. destruct m; [by eexists|done|done]. Qed.

Definition is_Ok {E A} (r : res E A) : bool := match r with Ok _ => true | _ => false end.

Definition ok_or {E A} (d : A) (r : res E A) : A := match r with Ok a => a | _ => d end.
Lemma ok_or_Ok {E A} (d : A) (r : res E A) : is_Ok r = true → r = Ok (ok_or d r).
Proof. by destruct r. Qed.

(** ** Machine integers

    A Go integer of width [w] is a [Z] in range; arithmetic that can leave the
    range is followed by the wrap-around of its type. *)

Definition u8 (z : Z) : Z := z mod 2 ^ 8.
Definition u16 (z : Z) : Z := z mod 2 ^ 16.
Definition u32 (z : Z) : Z := z mod 2 ^ 32.
Definition u64 (z : Z) : Z := z mod 2 ^ 64.
Definition i32 (z : Z) : Z := (z + 2 ^ 31) mod 2 ^ 32 - 2 ^ 31.
Definition i64 (z : Z) : Z := (z + 2 ^ 63) mod 2 ^ 64 - 2 ^ 63.

Definition is_u8 (z : Z) : Prop := 0 ≤ z < 2 ^ 8.
Definition is_u16 (z : Z) : Prop := 0 ≤ z < 2 ^ 16.
Definition is_u32 (z : Z) : Prop := 0 ≤ z < 2 ^ 32.
Definition is_u64 (z : Z) : Prop := 0 ≤ z < 2 ^ 64.

Create HintDb goint.

Ltac unfold_int :=
  unfold is_u8, is_u16, is_u32, is_u64, u8, u16, u32, u64, i32, i64 in *.

Lemma u32_range z : is_u32 (u32 z).
Proof. unfold_int. apply Z.mod_pos_bound. lia. Qed.

Lemma u64_range z : is_u64 (u64 z).
Proof. unfold_int. apply Z.mod_pos_bound. lia. Qed.

Lemma u32_small z : is_u32 z → u32 z = z.
Proof. unfold_int. intros. by apply Z.mod_small. Qed.

Lemma u64_small z : is_u64 z → u64 z = z.
Proof. unfold_int. intros. by apply Z.mod_small. Qed.

(** [int32(a - b)] on [uint32] operands is the signed circular distance: it is
    negative exactly when [a] is behind [b] on the 2^32 ring. *)
Lemma i32_small z : - 2 ^ 31 ≤ z < 2 ^ 31 → i32 z = z.
Proof. unfold_int. intros. rewrite Z.mod_small; lia. Qed.

Lemma i64_small z : - 2 ^ 63 ≤ z < 2 ^ 63 → i64 z = z.
Proof. unfold_int. intros. rewrite Z.mod_small; lia. Qed.

Lemma i32_u32 z : i32 (u32 z) = i32 z.
Proof. unfold_int. by rewrite Z.add_mod_idemp_l by lia. Qed.

#[export] Hint Resolve u32_range u64_range : goint.

(** ** Bytes and big-endian encodings *)

Definition b2z (b : byte) : Z := Z.of_N (Byte.to_N b).
Definition z2b (z : Z) : byte :=
  match Byte.of_N (Z.to_N (z mod 256)) with Some b => b | None => x00 end.

Lemma b2z_range b : 0 ≤ b2z b < 256.
Proof. unfold b2z. pose proof (Byte.to_N_bounded b). lia. Qed.

Lemma b2z_z2b z : b2z (z2b z) = z mod 256.
Proof.
  unfold b2z, z2b. pose proof (Z.mod_pos_bound z 256 eq_refl).
  destruct (Byte.of_N (Z.to_N (z mod 256))) as [b|] eqn:Hb.
  - apply Byte.to_of_N in Hb. rewrite Hb. lia.
  - apply Byte.of_N_None_iff in Hb. lia.
Qed.

Lemma z2b_b2z b : z2b (b2z b) = b.
Proof.
  unfold z2b. rewrite Z.mod_small by apply b2z_range.
  unfold b2z. by rewrite N2Z.id, Byte.of_to_N.
Qed.

#[export] Instance byte_eq_dec : EqDecision byte := Byte.byte_eq_dec.

(** [binary.BigEndian.PutUintN]: the [n] big-endian bytes of [z]. *)
Fixpoint be_put (n : nat) (z : Z) : list byte :=
  match n with
  | O => []
  | S m => z2b (z / 256 ^ Z.of_nat m) :: be_put m z
  end.

(** [binary.BigEndian.UintN] on exactly the given bytes. *)
Definition be_get (l : list byte) : Z :=
  foldl (λ acc b, acc * 256 + b2z b) 0 l.

Lemma length_be_put n z : length (be_put n z) = n.
Proof. induction n; simpl; congruence. Qed.

Lemma be_get_acc l a :
  foldl (λ acc b, acc * 256 + b2z b) a l = a * 256 ^ Z.of_nat (length l) + be_get l.
Proof.
  unfold be_get. revert a. induction l as [|b l IH]; intros a; simpl; [lia|].
  rewrite IH, (IH (0 * 256 + b2z b)). rewrite Nat2Z.inj_succ, Z.pow_succ_r by lia. ring.
Qed.

Lemma be_get_cons b l : be_get (b :: l) = b2z b * 256 ^ Z.of_nat (length l) + be_get l.
Proof. unfold be_get at 1. simpl. by rewrite be_get_acc. Qed.

Lemma be_get_range l : 0 ≤ be_get l < 256 ^ Z.of_nat (length l).
Proof.
  induction l as [|b l IH]; [by vm_compute|].
  rewrite be_get_cons. simpl length. rewrite Nat2Z.inj_succ, Z.pow_succ_r by lia.
  pose proof (b2z_range b). nia.
Qed.

Lemma be_get_put n z : be_get (be_put n z) = z mod 256 ^ Z.of_nat n.
Proof.
  induction n as [|n IH]; [by rewrite Z.mod_1_r|].
  change (be_put (S n) z) with (z2b (z / 256 ^ Z.of_nat n) :: be_put n z).
  rewrite be_get_cons, length_be_put, b2z_z2b, IH.
  rewrite Nat2Z.inj_succ, Z.pow_succ_r, (Z.mul_comm 256) by lia.
  rewrite Z.rem_mul_r by lia. ring.
Qed.

Lemma be_get_put_small n z : 0 ≤ z < 256 ^ Z.of_nat n → be_get (be_put n z) = z.
Proof. intros. rewrite be_get_put. by apply Z.mod_small. Qed.

Lemma be_put_get l : be_put (length l) (be_get l) = l.
Proof.
  induction l as [|b l IH]; [done|].
  change (length (b :: l)) with (S (length l)). simpl be_put. f_equal.
  - rewrite be_get_cons.
    rewrite Z.div_add_l, Z.div_small, Z.add_0_r by (apply be_get_range || lia).
    apply z2b_b2z.
  - transitivity (be_put (length l) (be_get l)); [|done].
    rewrite be_get_cons. clear IH. generalize (b2z b) (be_get l).
    intros x y. assert (H : ∀ n m, (n ≤ m)%nat →
      be_put n (x * 256 ^ Z.of_nat m + y) = be_put n y).
    { induction n as [|n IH]; intros m Hm; [done|]. simpl. rewrite IH by lia. f_equal.
      replace (256 ^ Z.of_nat m) with (256 ^ (Z.of_nat m - Z.of_nat n - 1) * 256 * 256 ^ Z.of_nat n).
      2:{ rewrite <- (Z.pow_1_r 256) at 2. rewrite <- !Z.pow_add_r by lia. f_equal. lia. }
      rewrite !Z.mul_assoc, Z.div_add_l by lia.
      unfold z2b. do 3 f_equal.
      rewrite (Z.add_comm _ (y / _)). by rewrite Z.mod_add by lia. }
    apply H. lia.
Qed.

Lemma be_put_get' n l : length l = n → be_put n (be_get l) = l.
Proof. intros <-. apply be_put_get. Qed.

(** Only the low bytes matter. *)
Lemma be_put_u32 z : be_put 4 (u32 z) = be_put 4 z.
Proof.
  rewrite <-(be_put_get' 4 (be_put 4 z)) by apply length_be_put. by rewrite be_get_put.
Qed.

(** ** Exclusive or of bytes *)

Definition bxor (a b : byte) : byte := z2b (Z.lxor (b2z a) (b2z b)).

Lemma b2z_inj a b : b2z a = b2z b → a = b.
Proof. intros E. by rewrite <-(z2b_b2z a), E, z2b_b2z. Qed.

Lemma b2z_bxor a b : b2z (bxor a b) = Z.lxor (b2z a) (b2z b).
Proof.
  unfold bxor. rewrite b2z_z2b. apply Z.mod_small.
  pose proof (b2z_range a). pose proof (b2z_range b). split; [apply Z.lxor_nonneg; lia|].
  assert (Hm : Z.lxor (b2z a) (b2z b) mod 2 ^ 8 = Z.lxor (b2z a) (b2z b)).
  { rewrite <-Z.land_ones by lia. apply Z.bits_inj'. intros n Hn. rewrite Z.land_spec, Z.lxor_spec.
    destruct (Z.ltb_spec n 8); [rewrite Z.ones_spec_low by lia; by rewrite andb_true_r|].
    rewrite Z.ones_spec_high by lia.
    rewrite <-(Z.mod_small (b2z a) (2 ^ 8)), <-(Z.mod_small (b2z b) (2 ^ 8)) by lia.
    rewrite !Z.mod_pow2_bits_high by lia. done. }
  rewrite <-Hm. by apply Z.mod_pos_bound.
Qed.

Lemma bxor_comm a b : bxor a b = bxor b a.
Proof. apply b2z_inj. rewrite !b2z_bxor. apply Z.lxor_comm. Qed.
Lemma bxor_assoc a b c : bxor a (bxor b c) = bxor (bxor a b) c.
Proof. apply b2z_inj. rewrite !b2z_bxor. symmetry. apply Z.lxor_assoc. Qed.
Lemma bxor_self a : bxor a a = x00.
Proof. apply b2z_inj. rewrite b2z_bxor. apply Z.lxor_nilpotent. Qed.
Lemma bxor_0_l a : bxor x00 a = a.
Proof. apply b2z_inj. by rewrite b2z_bxor. Qed.

(** ** Byte slices *)

(** [copy(buf[off:], src)] for a [src] that fits: bytes past it are kept. *)
Definition put_at (off : nat) (src buf : list byte) : list byte :=
  take off buf ++ src ++ drop (off + length src) buf.

(** [b[lo:hi]] within bounds. *)
Definition slice {A} (lo hi : nat) (l : list A) : list A := take (hi - lo) (drop lo l).

(** ** Time

    A [time.Time] is the number of nanoseconds since the zero [Time] (January 1
    of year 1), a [time.Duration] is a number of nanoseconds. *)

Definition time := Z.
Definition duration := Z.

Definition millisecond : duration := 1000000.
Definition second : duration := 1000000000.
Definition minute : duration := 60 * second.

(** [t.IsZero()]. *)
Definition is_zero (t : time) : bool := t =? 0.

(** [a.Sub(b)]: saturates at the int64 range. *)
Definition time_sub (a b : time) : duration :=
  Z.max (- 2 ^ 63) (Z.min (2 ^ 63 - 1) (a - b)).

(** [time.Unix(0, n)]: 62135596800 s separate year 1 from the Unix epoch. *)
Definition unix_nano (n : Z) : time := n + 62135596800 * second.

(** ** Ranging over a Go map

    The iteration order of a Go map is unspecified. Every loop over a map takes
    its order from an instance of this class, and theorems hold for every
    instance. *)

Class RangeOrder (K V : Type) `{Countable K} := {
  range : gmap K V → list (K * V);
  range_perm : ∀ m, range m ≡ₚ map_to_list m;
}.

(** One possible order, used when a definition is evaluated. *)
Definition key_order (K V : Type) `{Countable K} : RangeOrder K V :=
  {| range := map_to_list; range_perm := λ m, reflexivity _ |}.

Lemma elem_of_range `{RangeOrder K V} (m : gmap K V) k v :
  (k, v) ∈ range m ↔ m !! k = Some v.
Proof. rewrite range_perm. apply elem_of_map_to_list. Qed.

(** The loop [for k, v := range m { if f { ...; delete(m, k) } }]: the
    accumulator sees the selected entries in order, the map loses their keys. *)
Lemma delete_loop {K V B} `{Countable K} (f : K * V → bool) (g : B → K * V → B) l b (t : gmap K V) :
  foldl (λ acc kv, if f kv then (g acc.1 kv, delete kv.1 acc.2) else acc) (b, t) l =
  (foldl g b (filter (λ kv, f kv = true) l),
   foldl (λ t k, delete k t) t (filter (λ kv, f kv = true) l).*1).
Proof.
  revert b t. induction l as [|kv l IH]; intros b t; [done|].
  cbn [foldl]. rewrite filter_cons. destruct (f kv) eqn:E.
  - rewrite decide_True by done. cbn [foldl fmap list_fmap fst snd]. apply IH.
  - rewrite decide_False by done. apply IH.
Qed.

Lemma delete_list_lookup {K V} `{Countable K} (ks : list K) (t : gmap K V) k :
  foldl (λ t k, delete k t) t ks !! k = if decide (k ∈ ks) then None else t !! k.
Proof.
  revert t. induction ks as [|k' ks IH]; intros t; cbn [foldl].
  { by rewrite decide_False by apply not_elem_of_nil. }
  rewrite IH, lookup_delete. destruct (decide (k ∈ ks)) as [Hin|Hin].
  - rewrite decide_True; [done|]. apply elem_of_cons. by right.
  - destruct (decide (k' = k)) as [->|Hne].
    + by rewrite decide_True by (apply elem_of_cons; by left).
    + rewrite decide_False; [done|]. rewrite elem_of_cons. intros [->|]; done.
Qed.

(** The map such a loop over the whole map leaves behind. *)
Lemma range_delete_lookup `{RangeOrder K V} (f : K * V → bool) (m : gmap K V) k :
  foldl (λ t k, delete k t) m (filter (λ kv, f kv = true) (range m)).*1 !! k =
  match m !! k with Some v => if f (k, v) then None else Some v | None => None end.
Proof.
  rewrite delete_list_lookup.
  assert (Hin : k ∈ (filter (λ kv, f kv = true) (range m)).*1 ↔
    ∃ v, m !! k = Some v ∧ f (k, v) = true).
  { rewrite list_elem_of_fmap. split.
    - intros ([k' v] & -> & [Hf Hv]%list_elem_of_filter). apply elem_of_range in Hv. by exists v.
    - intros (v & Hv & Hf). exists (k, v). split; [done|].
      apply list_elem_of_filter. split; [done|]. by apply elem_of_range. }
  destruct (decide (k ∈ _)) as [(v & -> & ->)%Hin|Hn]; [done|].
  destruct (m !! k) as [v|] eqn:Hv; [|done]. destruct (f (k, v)) eqn:Hf; [|done].
  exfalso. apply Hn, Hin. by exists v.
Qed.

Lemma delete_list_size {K V} `{Countable K} (ks : list K) (t : gmap K V) :
  NoDup ks → (∀ k, k ∈ ks → is_Some (t !! k)) →
  (length ks + size (foldl (λ t k, delete k t) t ks) = size t)%nat.
Proof.
  intros Hnd. revert t. induction Hnd as [|k ks Hk _ IH]; intros t Ht; [done|].
  cbn [foldl length].
  assert (size (delete k t) = pred (size t)) as Hs
    by (apply map_size_delete_Some, Ht, elem_of_cons; by left).
  assert (0 < size t)%nat.
  { destruct (Ht k) as [v Hv]; [apply elem_of_cons; by left|].
    apply Nat.neq_0_lt_0. intros E%map_size_empty_inv. by rewrite E, lookup_empty in Hv. }
  rewrite Nat.add_succ_l, (IH (delete k t)); [lia|].
  intros k' Hk'. rewrite lookup_delete_ne by (intros ->; done). apply Ht, elem_of_cons. by right.
Qed.

Lemma range_delete_size `{RangeOrder K V} (f : K * V → bool) (m : gmap K V) :
  let sel := filter (λ kv, f kv = true) (range m) in
  (length sel + size (foldl (λ t k, delete k t) m sel.*1) = size m)%nat.
Proof.
  cbn zeta. rewrite <- (length_fmap fst). apply delete_list_size.
  - assert (Hp : (range m).*1 ≡ₚ (map_to_list m).*1) by (by rewrite range_perm).
    assert (Hnd : NoDup (range m).*1) by (rewrite Hp; apply NoDup_fst_map_to_list).
    clear Hp. induction (range m) as [|kv l IH]; [constructor|].
    cbn in Hnd. apply NoDup_cons in Hnd as [Hn Hnd]. rewrite filter_cons.
    destruct (decide _); [|by apply IH]. cbn. apply NoDup_cons. split; [|by apply IH].
    intros (kv' & E & Hin)%list_elem_of_fmap. apply Hn. rewrite E.
    apply list_elem_of_fmap. exists kv'. split; [done|]. by apply list_elem_of_filter in Hin as [_ ?].
  - intros k (kv & -> & [_ Hin]%list_elem_of_filter)%list_elem_of_fmap.
    destruct kv as [k v]. apply elem_of_range in Hin. by exists v.
Qed.

(** The loop [for k := range m] that keeps the smallest key under [lt],
    starting from a candidate. *)
Definition range_min {V} (lt : Z → Z → bool) (init : Z) (kvs : list (Z * V)) : Z :=
  foldl (λ lo kv, if lt kv.1 lo then kv.1 else lo) init kvs.

Lemma range_min_spec {V} (lt : Z → Z → bool) (P : Z → Prop) init (kvs : list (Z * V)) :
  P init → (∀ k v, (k, v) ∈ kvs → P k) →
  (∀ a b, P a → P b → lt a b = (a <? b)) →
  let lo := range_min lt init kvs in
  (lo = init ∨ ∃ v, (lo, v) ∈ kvs) ∧ lo ≤ init ∧ (∀ k v, (k, v) ∈ kvs → lo ≤ k).
Proof.
  intros Hi Hk Hlt. unfold range_min. revert init Hi.
  induction kvs as [|[k v] kvs IH]; intros init Hi; simpl.
  { split_and!; [by left|lia|]. by intros ? ? ?%elem_of_nil. }
  assert (Pk : P k) by (eapply Hk, elem_of_cons; by left).
  rewrite Hlt by done.
  destruct (IH ltac:(intros k' v' ?; eapply Hk, elem_of_cons; by right)
    (if k <? init then k else init)) as (H1 & H2 & H3); [by destruct (k <? init)|].
  split_and!.
  - destruct H1 as [->|[v' Hv']]; [|by right; exists v'; apply elem_of_cons; right].
    destruct (k <? init); [right; exists v; apply elem_of_cons; by left|by left].
  - destruct (Z.ltb_spec k init); lia.
  - intros k' v' [[= -> ->]|Hin]%elem_of_cons; [destruct (Z.ltb_spec k init); lia|by eapply H3].
Qed.
