(* ===== verification/Float64.v ===== *)
(** * Go's float64

    The IEEE 754 binary64 arithmetic the source computes with. Every finite
    double is an integer multiple of 2^-1074, so [Fin z] stands for
    [z * 2^-1074]: equality of finite values is Leibniz equality, their order is
    the order of [Z], and each operation is the exact result rounded to the
    nearest representable value, ties to even. The two zeros are identified;
    the only division by zero in the source has the positive zero [1 - 1]
    below the bar. *)

From S2P Require Import Prelude.

#[local] Open Scope Z_scope.

Inductive f64 : Type :=
| Fin (z : Z)
| Inf (neg : bool)
| NaN.

#[export] Instance f64_eq_dec : EqDecision f64.
Proof. solve_decision. Defined.

(** One in units of 2^-1074, and the overflow threshold 2^1024. *)
Definition one_u : Z := 2 ^ 1074.
Definition huge_u : Z := 2 ^ 2098.

(** Round-to-nearest-even of [n / d] to an integer. *)
Definition rne (n d : Z) : Z :=
  let m := n / d in
  let r := n mod d in
  if 2 * r <? d then m
  else if d <? 2 * r then m + 1
  else if Z.even m then m else m + 1.

(** Exponent of the last significand bit of [n / d]: 53 bits are kept. *)
Definition ulp_exp (n d : Z) : Z :=
  let q := n / d in
  if q <? 2 ^ 53 then 0 else Z.log2 q - 52.

(** Magnitude of [n / d] (both nonnegative) rounded to 53 bits. *)
Definition rnd_mag (n d : Z) : Z :=
  let e := ulp_exp n d in
  rne n (d * 2 ^ e) * 2 ^ e.

(** The same on reduced fractions: common factors of two go first, which is what
    keeps the evaluation cheap ([rnd_fast_eq]). *)
Fixpoint strip (p q : positive) : positive * positive :=
  match p, q with
  | xO p, xO q => strip p q
  | _, _ => (p, q)
  end.

Definition reduce (n d : Z) : Z * Z :=
  match n, d with
  | Zpos p, Zpos q => let '(p, q) := strip p q in (Zpos p, Zpos q)
  | _, _ => (n, d)
  end.

Definition rnd_fast (n d : Z) : Z :=
  let '(n, d) := reduce n d in
  let e := ulp_exp n d in
  let '(n, d) := reduce n (d * 2 ^ e) in
  rne n d * 2 ^ e.

(** [n / d] units rounded to a double. *)
Definition round (n d : Z) : f64 :=
  let a := rnd_fast (Z.abs n) d in
  if huge_u <=? a then Inf (n <? 0) else Fin (Z.sgn n * a).

(** ** Conversions *)

(** [float64(z)] of an integer, and the decimal literal [n/d]. *)
Definition of_Z (z : Z) : f64 := round (z * one_u) 1.
Definition of_dec (n d : Z) : f64 := round (n * one_u) d.

(** [int(x)] and [time.Duration(x)]: truncation towards zero; a value out of
    range gives the amd64 "integer indefinite" value. *)
Definition to_int (x : f64) : Z :=
  match x with
  | Fin z =>
      let t := Z.quot z one_u in
      if (- 2 ^ 63 <=? t) && (t <? 2 ^ 63) then t else - 2 ^ 63
  | _ => - 2 ^ 63
  end.

(** [math.Ceil]. *)
Definition fceil (x : f64) : f64 :=
  match x with
  | Fin z => Fin (- ((- z) / one_u) * one_u)
  | _ => x
  end.

(** ** Arithmetic *)

Definition fneg (x : f64) : f64 :=
  match x with
  | Fin z => Fin (- z)
  | Inf s => Inf (negb s)
  | NaN => NaN
  end.

Definition fadd (x y : f64) : f64 :=
  match x, y with
  | Fin a, Fin b => round (a + b) 1
  | Inf s, Inf t => if Bool.eqb s t then Inf s else NaN
  | Inf s, Fin _ => Inf s
  | Fin _, Inf t => Inf t
  | _, _ => NaN
  end.

Definition fsub (x y : f64) : f64 := fadd x (fneg y).

Definition fmul (x y : f64) : f64 :=
  match x, y with
  | Fin a, Fin b => round (a * b) one_u
  | Inf s, Inf t => Inf (xorb s t)
  | Inf s, Fin b => if b =? 0 then NaN else Inf (xorb s (b <? 0))
  | Fin a, Inf t => if a =? 0 then NaN else Inf (xorb (a <? 0) t)
  | _, _ => NaN
  end.

Definition fdiv (x y : f64) : f64 :=
  match x, y with
  | Fin a, Fin b =>
      if b =? 0 then (if a =? 0 then NaN else Inf (a <? 0))
      else round (a * one_u * Z.sgn b) (Z.abs b)
  | Fin _, Inf _ => Fin 0
  | Inf s, Fin b => Inf (xorb s (b <? 0))
  | _, _ => NaN
  end.

(** ** Comparisons: false on NaN, as in Go. *)

Definition fltb (x y : f64) : bool :=
  match x, y with
  | Fin a, Fin b => a <? b
  | Fin _, Inf t => negb t
  | Inf s, Fin _ => s
  | Inf s, Inf t => s && negb t
  | _, _ => false
  end.

Definition feqb (x y : f64) : bool :=
  match x, y with
  | Fin a, Fin b => a =? b
  | Inf s, Inf t => Bool.eqb s t
  | _, _ => false
  end.

Definition fleb (x y : f64) : bool := fltb x y || feqb x y.

Definition fmin (x y : f64) : f64 :=
  match x, y with
  | Inf true, _ | _, Inf true => Inf true
  | NaN, _ | _, NaN => NaN
  | _, _ => if fltb y x then y else x
  end.

Notation "x ⊞ y" := (fadd x y) (at level 50, left associativity) : go_scope.
Notation "x ⊟ y" := (fsub x y) (at level 50, left associativity) : go_scope.
Notation "x ⊠ y" := (fmul x y) (at level 40, left associativity) : go_scope.
Notation "x ⊘ y" := (fdiv x y) (at level 40, left associativity) : go_scope.
Notation "x <.? y" := (fltb x y) (at level 70) : go_scope.
Notation "x <=.? y" := (fleb x y) (at level 70) : go_scope.
Notation "x =.? y" := (feqb x y) (at level 70) : go_scope.

Definition f0 : f64 := Fin 0.
Definition f1 : f64 := Fin one_u.

(** Known double values, compared with their bit patterns: 0.1 is
    3602879701896397 / 2^55, and 0.1 + 0.2 is not 0.3. *)
Example of_dec_tenth : of_dec 1 10 = Fin (3602879701896397 * 2 ^ 1019).
Proof. vm_compute. reflexivity. Qed.

Example tenth_plus_fifth : ((of_dec 1 10 ⊞ of_dec 2 10) =.? of_dec 3 10) = false.
Proof. vm_compute. reflexivity. Qed.

Example of_Z_one : of_Z 1 = f1.
Proof. vm_compute. reflexivity. Qed.

Example one_third_times_three : (f1 ⊘ of_Z 3) ⊠ of_Z 3 = f1.
Proof. vm_compute. reflexivity. Qed.

(** ** Rounding is monotone *)

Lemma rne_bounds n d : 0 < d → n / d ≤ rne n d ≤ n / d + 1.
Proof. intros. unfold rne. repeat case_match; lia. Qed.

Lemma floor_mono n d n' d' : 0 < d → 0 < d' → n * d' ≤ n' * d → n / d ≤ n' / d'.
Proof.
  intros Hd Hd' Hle. apply Z.div_le_lower_bound; [done|].
  apply (Z.mul_le_mono_pos_l _ _ d); [done|].
  pose proof (Z.mul_div_le n d Hd). nia.
Qed.

Lemma rne_mono n d n' d' :
  0 < d → 0 < d' → n * d' ≤ n' * d → rne n d ≤ rne n' d'.
Proof.
  intros Hd Hd' Hle.
  pose proof (Z.div_mod n d ltac:(lia)) as Hn.
  pose proof (Z.div_mod n' d' ltac:(lia)) as Hn'.
  pose proof (Z.mod_pos_bound n d Hd). pose proof (Z.mod_pos_bound n' d' Hd').
  pose proof (rne_bounds n d Hd). pose proof (rne_bounds n' d' Hd').
  set (m := n / d) in *. set (m' := n' / d') in *.
  set (r := n mod d) in *. set (r' := n' mod d') in *.
  assert (m ≤ m') as Hm by (by apply floor_mono).
  destruct (decide (m = m')) as [Heq|]; [|lia].
  assert (r * d' ≤ r' * d) as Hr.
  { rewrite Hn, Hn', <- Heq in Hle. lia. }
  unfold rne. fold m m' r r'. rewrite <- Heq.
  destruct (Z.ltb_spec (2 * r) d), (Z.ltb_spec (2 * r') d'),
    (Z.ltb_spec d (2 * r)), (Z.ltb_spec d' (2 * r')); try lia; try nia;
    destruct (Z.even m); lia || nia.
Qed.

Lemma ulp_exp_nonneg n d : 0 ≤ ulp_exp n d.
Proof.
  unfold ulp_exp. destruct (Z.ltb_spec (n / d) (2 ^ 53)) as [|Hq]; [done|].
  pose proof (Z.log2_le_mono _ _ Hq) as Hl. rewrite Z.log2_pow2 in Hl by lia. lia.
Qed.

(** A positive exponent keeps exactly 53 bits; exponent 0 keeps at most 53. *)
Lemma ulp_exp_spec n d :
  0 ≤ n → 0 < d →
  n / d < 2 ^ (53 + ulp_exp n d) ∧ (0 < ulp_exp n d → 2 ^ (52 + ulp_exp n d) ≤ n / d).
Proof.
  intros Hn Hd. unfold ulp_exp.
  destruct (Z.ltb_spec (n / d) (2 ^ 53)) as [|Hq].
  - split; [by rewrite Z.add_0_r|lia].
  - destruct (Z.log2_spec (n / d)) as [Hlo Hhi]; [lia|].
    replace (53 + (Z.log2 (n / d) - 52)) with (Z.succ (Z.log2 (n / d))) by lia.
    replace (52 + (Z.log2 (n / d) - 52)) with (Z.log2 (n / d)) by lia. done.
Qed.

Lemma ulp_exp_mono n d n' d' :
  0 ≤ n → 0 < d → 0 < d' → n * d' ≤ n' * d → ulp_exp n d ≤ ulp_exp n' d'.
Proof.
  intros Hn Hd Hd' Hle.
  assert (n / d ≤ n' / d') as Hq.
  { by apply floor_mono. }
  pose proof (ulp_exp_nonneg n' d').
  unfold ulp_exp in *. destruct (Z.ltb_spec (n / d) (2 ^ 53)); [done|].
  rewrite (proj2 (Z.ltb_ge _ _)) by lia.
  pose proof (Z.log2_le_mono _ _ Hq). lia.
Qed.

Lemma div_pow2_exp n d e : 0 < d → 0 ≤ e → n / (d * 2 ^ e) = n / d / 2 ^ e.
Proof. intros. rewrite Z.div_div; [done|lia|]. apply Z.pow_pos_nonneg; lia. Qed.

(** Both roundings agree. *)
Lemma strip_spec p q :
  ∃ k, 0 ≤ k ∧ Zpos p = Zpos (strip p q).1 * 2 ^ k ∧ Zpos q = Zpos (strip p q).2 * 2 ^ k.
Proof.
  revert q. induction p as [p IH|p IH|]; intros [q|q|]; cbn; try (exists 0; rewrite Z.pow_0_r; lia).
  destruct (IH q) as (k & Hk & Hp & Hq). exists (Z.succ k). rewrite Z.pow_succ_r by done. lia.
Qed.

Lemma reduce_spec n d :
  reduce n d = (n, d) ∨
  ∃ n' d' k, reduce n d = (n', d') ∧ 0 < d' ∧ 0 ≤ k ∧ n = n' * 2 ^ k ∧ d = d' * 2 ^ k.
Proof.
  destruct n as [|p|p], d as [|q|q]; try (by left). right. cbn.
  destruct (strip_spec p q) as (k & Hk & Hp & Hq). destruct (strip p q) as [p' q'].
  exists (Zpos p'), (Zpos q'), k. split_and!; done.
Qed.

Lemma rne_scale n d c : 0 < d → 0 < c → rne (n * c) (d * c) = rne n d.
Proof.
  intros. unfold rne. rewrite Z.div_mul_cancel_r, Z.mul_mod_distr_r by lia. cbn zeta.
  repeat (match goal with |- context [?a <? ?b] => destruct (Z.ltb_spec a b) end); try nia; done.
Qed.

Lemma rnd_fast_eq n d : rnd_fast n d = rnd_mag n d.
Proof.
  assert (Hr : ∀ n d, let '(n', d') := reduce n d in ulp_exp n' d' = ulp_exp n d ∧
    rne n' d' = rne n d ∧ ∀ e, 0 ≤ e → rne n' (d' * 2 ^ e) = rne n (d * 2 ^ e)).
  { clear. intros n d. destruct (reduce_spec n d) as [->|(n' & d' & k & -> & Hd & Hk & -> & ->)]; [done|].
    assert (0 < 2 ^ k) by (by apply Z.pow_pos_nonneg). split_and!.
    - unfold ulp_exp. by rewrite Z.div_mul_cancel_r by lia.
    - by rewrite rne_scale.
    - intros e He. replace (d' * 2 ^ k * 2 ^ e) with (d' * 2 ^ e * 2 ^ k) by lia.
      rewrite rne_scale; [done| |done]. apply Z.mul_pos_pos; [done|]. by apply Z.pow_pos_nonneg. }
  unfold rnd_fast, rnd_mag. pose proof (Hr n d) as H1. destruct (reduce n d) as [n1 d1].
  destruct H1 as (-> & _ & H1). specialize (Hr n1 (d1 * 2 ^ ulp_exp n d)).
  destruct (reduce n1 _) as [n2 d2]. destruct Hr as (_ & -> & _). by rewrite H1 by apply ulp_exp_nonneg.
Qed.

Lemma round_def n d :
  round n d = let a := rnd_mag (Z.abs n) d in if huge_u <=? a then Inf (n <? 0) else Fin (Z.sgn n * a).
Proof. unfold round. by rewrite rnd_fast_eq. Qed.

Lemma rnd_mag_upper n d : 0 ≤ n → 0 < d → rnd_mag n d ≤ 2 ^ (53 + ulp_exp n d).
Proof.
  intros Hn Hd. unfold rnd_mag. set (e := ulp_exp n d).
  destruct (ulp_exp_spec n d Hn Hd) as [Hub _]. fold e in Hub.
  assert (0 ≤ e) as He by apply ulp_exp_nonneg.
  assert (0 < 2 ^ e) as Hp by (apply Z.pow_pos_nonneg; lia).
  pose proof (rne_bounds n (d * 2 ^ e) ltac:(nia)) as Hb.
  rewrite div_pow2_exp in Hb by done.
  rewrite Z.pow_add_r in * by lia.
  assert (n / d / 2 ^ e < 2 ^ 53) by (apply Z.div_lt_upper_bound; lia).
  nia.
Qed.

Lemma rnd_mag_lower n d :
  0 ≤ n → 0 < d → 0 < ulp_exp n d → 2 ^ (52 + ulp_exp n d) ≤ rnd_mag n d.
Proof.
  intros Hn Hd Hpos. unfold rnd_mag. set (e := ulp_exp n d) in *.
  destruct (ulp_exp_spec n d Hn Hd) as [_ Hlb]. fold e in Hlb. specialize (Hlb Hpos).
  assert (0 < 2 ^ e) as Hp by (apply Z.pow_pos_nonneg; lia).
  pose proof (rne_bounds n (d * 2 ^ e) ltac:(nia)) as Hb.
  rewrite div_pow2_exp in Hb by lia.
  rewrite Z.pow_add_r in * by lia.
  assert (2 ^ 52 ≤ n / d / 2 ^ e) by (apply Z.div_le_lower_bound; lia).
  nia.
Qed.

Lemma rnd_mag_mono n d n' d' :
  0 ≤ n → 0 < d → 0 < d' → n * d' ≤ n' * d → rnd_mag n d ≤ rnd_mag n' d'.
Proof.
  intros Hn Hd Hd' Hle. assert (0 ≤ n') by nia.
  pose proof (ulp_exp_mono n d n' d' Hn Hd Hd' Hle) as He.
  pose proof (ulp_exp_nonneg n d).
  destruct (decide (ulp_exp n d = ulp_exp n' d')) as [Heq|Hne].
  - unfold rnd_mag. rewrite Heq in *. set (e := ulp_exp n' d') in *.
    assert (0 < 2 ^ e) as Hp by (apply Z.pow_pos_nonneg; lia).
    apply Z.mul_le_mono_nonneg_r; [lia|]. apply rne_mono; nia.
  - etrans; [by apply rnd_mag_upper|]. etrans; [|apply rnd_mag_lower; lia].
    apply Z.pow_le_mono_r; lia.
Qed.

Lemma rnd_mag_nonneg n d : 0 ≤ n → 0 < d → 0 ≤ rnd_mag n d.
Proof.
  intros. unfold rnd_mag. pose proof (ulp_exp_nonneg n d).
  assert (0 < 2 ^ ulp_exp n d) by (apply Z.pow_pos_nonneg; lia).
  pose proof (rne_bounds n (d * 2 ^ ulp_exp n d) ltac:(nia)).
  pose proof (Z.div_pos n (d * 2 ^ ulp_exp n d)). nia.
Qed.

(** ** Representable values *)

(** [repr z]: the finite value [z * 2^-1074] is a double. *)
Definition repr (z : Z) : Prop := rnd_mag (Z.abs z) 1 = Z.abs z ∧ Z.abs z < huge_u.

Definition is_f64 (x : f64) : Prop := match x with Fin z => repr z | _ => True end.

#[export] Instance repr_dec z : Decision (repr z).
Proof. unfold repr. apply _. Defined.

(** The rounded value before the overflow test. *)
Definition rndz (n d : Z) : Z := Z.sgn n * rnd_mag (Z.abs n) d.

Lemma rne_exact m d : 0 < d → rne (m * d) d = m.
Proof.
  intros. unfold rne. rewrite Z.div_mul, Z.mod_mul by lia.
  by rewrite (proj2 (Z.ltb_lt _ _)) by lia.
Qed.

Lemma rne_error n d : 0 < d → 2 * n - d ≤ 2 * (rne n d * d) ≤ 2 * n + d.
Proof.
  intros. pose proof (Z.div_mod n d ltac:(lia)). pose proof (Z.mod_pos_bound n d ltac:(lia)).
  unfold rne. destruct (Z.ltb_spec (2 * (n mod d)) d), (Z.ltb_spec d (2 * (n mod d)));
    try destruct (Z.even (n / d)); nia.
Qed.

(** Any integer of at most 53 bits, shifted, is kept by the rounding. *)
Lemma rnd_mag_exact m k : 0 ≤ m ≤ 2 ^ 53 → 0 ≤ k → rnd_mag (m * 2 ^ k) 1 = m * 2 ^ k.
Proof.
  intros Hm Hk. set (a := m * 2 ^ k).
  assert (0 < 2 ^ k) as Hpk by (apply Z.pow_pos_nonneg; lia).
  assert (0 ≤ a) as Ha by nia.
  destruct (ulp_exp_spec a 1 Ha eq_refl) as [_ Hlo].
  pose proof (ulp_exp_nonneg a 1) as He0.
  unfold rnd_mag. set (e := ulp_exp a 1) in *. rewrite Z.div_1_r in Hlo. rewrite Z.mul_1_l.
  assert (∃ c, a = c * 2 ^ e) as [c Hc].
  { destruct (decide (e ≤ k)).
    - exists (m * 2 ^ (k - e)). unfold a. rewrite <- Z.mul_assoc, <- Z.pow_add_r by lia.
      do 2 f_equal. lia.
    - specialize (Hlo ltac:(lia)).
      assert (a ≤ 2 ^ (53 + k)) as Hhi.
      { rewrite Z.pow_add_r by lia. unfold a. apply Z.mul_le_mono_nonneg_r; lia. }
      assert (52 + e ≤ 53 + k) by (apply (Z.pow_le_mono_r_iff 2); lia).
      exists (2 ^ 52). rewrite <- Z.pow_add_r by lia.
      replace (52 + e) with (53 + k) in * by lia. lia. }
  rewrite Hc. rewrite rne_exact; [done|]. apply Z.pow_pos_nonneg; lia.
Qed.

Lemma rnd_mag_shape n d :
  0 ≤ n → 0 < d → ∃ m k, rnd_mag n d = m * 2 ^ k ∧ 0 ≤ m ≤ 2 ^ 53 ∧ 0 ≤ k.
Proof.
  intros Hn Hd. exists (rne n (d * 2 ^ ulp_exp n d)), (ulp_exp n d).
  pose proof (ulp_exp_nonneg n d). split; [done|].
  pose proof (rnd_mag_upper n d Hn Hd) as Hu. pose proof (rnd_mag_nonneg n d Hn Hd) as H0.
  unfold rnd_mag in *. rewrite Z.pow_add_r in Hu by lia.
  assert (0 < 2 ^ ulp_exp n d) by (apply Z.pow_pos_nonneg; lia). split; [|done]. nia.
Qed.

Lemma rnd_mag_idem n d : 0 ≤ n → 0 < d → rnd_mag (rnd_mag n d) 1 = rnd_mag n d.
Proof.
  intros Hn Hd. destruct (rnd_mag_shape n d Hn Hd) as (m & k & -> & Hm & Hk).
  by apply rnd_mag_exact.
Qed.

Lemma rnd_mag_0 d : 0 < d → rnd_mag 0 d = 0.
Proof.
  intros. unfold rnd_mag. replace (ulp_exp 0 d) with 0
    by (unfold ulp_exp; by rewrite Z.div_0_l by lia).
  rewrite Z.pow_0_r, !Z.mul_1_r. by apply (rne_exact 0 d).
Qed.

Lemma rndz_abs n d : 0 < d → Z.abs (rndz n d) = rnd_mag (Z.abs n) d.
Proof.
  intros Hd. unfold rndz.
  pose proof (rnd_mag_nonneg (Z.abs n) d ltac:(lia) Hd).
  destruct (Z.lt_trichotomy n 0) as [|[->|]].
  - rewrite Z.sgn_neg; lia.
  - simpl. by rewrite rnd_mag_0.
  - rewrite Z.sgn_pos; lia.
Qed.

Lemma rndz_mono n d n' d' : 0 < d → 0 < d' → n * d' ≤ n' * d → rndz n d ≤ rndz n' d'.
Proof.
  intros Hd Hd' Hle. unfold rndz.
  pose proof (rnd_mag_nonneg (Z.abs n) d ltac:(lia) Hd).
  pose proof (rnd_mag_nonneg (Z.abs n') d' ltac:(lia) Hd').
  destruct (Z.lt_trichotomy n 0) as [Hn|[->|Hn]], (Z.lt_trichotomy n' 0) as [Hn'|[->|Hn']];
    rewrite ?(Z.sgn_neg n), ?(Z.sgn_neg n'), ?(Z.sgn_pos n), ?(Z.sgn_pos n') by lia;
    simpl Z.sgn; try nia.
  - pose proof (rnd_mag_mono (Z.abs n') d' (Z.abs n) d). nia.
  - pose proof (rnd_mag_mono (Z.abs n) d (Z.abs n') d'). nia.
Qed.

Lemma rndz_repr z : repr z → rndz z 1 = z.
Proof. intros [H _]. unfold rndz. rewrite H, Z.mul_comm. apply Z.abs_sgn. Qed.

Lemma round_rndz n d :
  0 < d → Z.abs (rndz n d) < huge_u → round n d = Fin (rndz n d).
Proof.
  intros Hd Hb. rewrite round_def. cbn zeta. rewrite rndz_abs in Hb by done.
  by rewrite (proj2 (Z.leb_gt _ _)).
Qed.

Lemma repr_rndz n d : 0 < d → Z.abs (rndz n d) < huge_u → repr (rndz n d).
Proof.
  intros Hd Hb. split; [|done]. rewrite rndz_abs by done. apply rnd_mag_idem; lia.
Qed.

Lemma round_is_f64 n d : 0 < d → is_f64 (round n d).
Proof.
  intros Hd. rewrite round_def. cbn zeta. destruct (Z.leb_spec huge_u (rnd_mag (Z.abs n) d)); [done|].
  apply repr_rndz; [done|]. by rewrite rndz_abs.
Qed.

Lemma repr_0 : repr 0.
Proof. by vm_compute. Qed.

Lemma repr_1 : repr one_u.
Proof. by vm_compute. Qed.

Lemma repr_opp z : repr z → repr (- z).
Proof. unfold repr. by rewrite Z.abs_opp. Qed.

(** Rounding never leaves an interval with representable ends. *)
Lemma round_between n d lo hi :
  0 < d → repr lo → repr hi → lo * d ≤ n ≤ hi * d →
  ∃ z, round n d = Fin z ∧ lo ≤ z ≤ hi ∧ repr z ∧ z = rndz n d.
Proof.
  intros Hd Hlo Hhi [H1 H2].
  pose proof (rndz_mono lo 1 n d ltac:(lia) Hd ltac:(lia)) as M1.
  pose proof (rndz_mono n d hi 1 Hd ltac:(lia) ltac:(lia)) as M2.
  rewrite rndz_repr in M1, M2 by done. destruct Hlo as [_ Hlo], Hhi as [_ Hhi].
  assert (Z.abs (rndz n d) < huge_u) by lia.
  exists (rndz n d). split_and!; [by apply round_rndz|done|done|by apply repr_rndz|done].
Qed.

(** An exact result is returned as is. *)
Lemma round_exact z : repr z → round z 1 = Fin z.
Proof. intros H. rewrite round_rndz; rewrite ?rndz_repr by done; [done|lia|]. by destruct H. Qed.

Lemma round_0 d : 0 < d → round 0 d = Fin 0.
Proof.
  intros Hd. destruct (round_between 0 d 0 0) as (z & -> & Hz & _); [done|apply repr_0..|lia|].
  by replace z with 0 by lia.
Qed.

(** Integers of at most 53 bits convert exactly. *)
Lemma repr_int z : Z.abs z ≤ 2 ^ 53 → repr (z * one_u).
Proof.
  intros Hz. split.
  - rewrite Z.abs_mul, (Z.abs_eq one_u) by done. apply rnd_mag_exact; lia.
  - rewrite Z.abs_mul. apply Z.le_lt_trans with (2 ^ 53 * 2 ^ 1074).
    + apply Z.mul_le_mono_nonneg; [lia|done|lia|done].
    + by vm_compute.
Qed.

Lemma of_Z_exact z : Z.abs z ≤ 2 ^ 53 → of_Z z = Fin (z * one_u).
Proof. intros. by apply round_exact, repr_int. Qed.

#[export] Hint Resolve repr_0 repr_1 repr_opp : goint.

(** ** Values in the unit interval, and exponential moving averages *)

Definition in_unit (x : f64) : Prop := ∃ z, x = Fin z ∧ 0 ≤ z ≤ one_u ∧ repr z.

(** A smoothing weight strictly between 0 and 1. *)
Definition weight (x : f64) : Prop := ∃ z, x = Fin z ∧ 0 < z < one_u ∧ repr z.

Lemma in_unit_0 : in_unit f0.
Proof. exists 0. split_and!; done || apply repr_0. Qed.

Lemma in_unit_1 : in_unit f1.
Proof. exists one_u. split_and!; done || apply repr_1. Qed.

(** Below one, rounding is off by at most 2^-53. *)
Lemma rnd_mag_error_unit n : 0 ≤ n ≤ one_u → rnd_mag n 1 ≤ n + 2 ^ 1021.
Proof.
  intros Hn. pose proof (ulp_exp_mono n 1 one_u 1 ltac:(lia) eq_refl eq_refl ltac:(lia)) as He.
  replace (ulp_exp one_u 1) with 1022 in He by (by vm_compute).
  pose proof (ulp_exp_nonneg n 1).
  unfold rnd_mag. rewrite Z.mul_1_l.
  pose proof (rne_error n (2 ^ ulp_exp n 1) ltac:(apply Z.pow_pos_nonneg; lia)).
  assert (2 ^ ulp_exp n 1 ≤ 2 ^ 1022) by (apply Z.pow_le_mono_r; lia).
  replace (2 ^ 1022) with (2 * 2 ^ 1021) in * by (by vm_compute). lia.
Qed.

(** 1 + 2^-53 is a tie and rounds to the even neighbour 1. *)
Lemma rndz_one_tie : rndz (one_u + 2 ^ 1021) 1 = one_u.
Proof. by vm_compute. Qed.

(** The smoothing step [x + alpha*(s - x)] in double arithmetic, sample above
    the estimate: the estimate does not decrease and stays in [0,1], rounding
    included. *)
Lemma ewma_rise x s alpha :
  in_unit x → in_unit s → weight alpha → (x <.? s) = true →
  in_unit (x ⊞ (alpha ⊠ (s ⊟ x))) ∧ (x <=.? (x ⊞ (alpha ⊠ (s ⊟ x)))) = true.
Proof.
  intros (zx & -> & Hx & Rx) (zs & -> & Hs & Rs) (a & -> & Ha & Ra) Hlt.
  cbn in Hlt. apply Z.ltb_lt in Hlt. cbn [fsub fneg fadd].
  destruct (round_between (zs + - zx) 1 0 zs) as (t & -> & Ht & Rt & Et);
    [lia|apply repr_0|done|lia|].
  cbn [fmul]. destruct (round_between (a * t) one_u 0 t) as (u & -> & Hu & Ru & _);
    [done|apply repr_0|done|nia|].
  cbn [fadd].
  assert (t ≤ zs - zx + 2 ^ 1021) as Herr.
  { rewrite Et. unfold rndz. rewrite Z.sgn_pos, Z.abs_eq by lia.
    pose proof (rnd_mag_error_unit (zs + - zx)). lia. }
  pose proof (rndz_mono (zx + u) 1 (one_u + 2 ^ 1021) 1 ltac:(lia) ltac:(lia) ltac:(lia)) as Hhi.
  rewrite rndz_one_tie in Hhi.
  pose proof (rndz_mono zx 1 (zx + u) 1 ltac:(lia) ltac:(lia) ltac:(lia)) as Hlo.
  rewrite rndz_repr in Hlo by done.
  assert (Z.abs (rndz (zx + u) 1) < huge_u) as Hb by (apply Z.le_lt_trans with one_u; [lia|done]).
  rewrite round_rndz by done. split.
  - eexists. split_and!; [done|lia|lia|by apply repr_rndz].
  - unfold fleb. cbn. lia.
Qed.

(** Sample at or below the estimate: the estimate does not increase and stays
    in [0,1]. *)
Lemma ewma_decay x s alpha :
  in_unit x → in_unit s → weight alpha → (x <.? s) = false →
  in_unit (x ⊞ (alpha ⊠ (s ⊟ x))) ∧ ((x ⊞ (alpha ⊠ (s ⊟ x))) <=.? x) = true.
Proof.
  intros (zx & -> & Hx & Rx) (zs & -> & Hs & Rs) (a & -> & Ha & Ra) Hlt.
  cbn in Hlt. apply Z.ltb_ge in Hlt. cbn [fsub fneg fadd].
  destruct (round_between (zs + - zx) 1 (- zx) 0) as (t & -> & Ht & Rt & _);
    [lia|by apply repr_opp|apply repr_0|lia|].
  cbn [fmul]. destruct (round_between (a * t) one_u t 0) as (u & -> & Hu & Ru & _);
    [done|done|apply repr_0|nia|].
  cbn [fadd]. destruct (round_between (zx + u) 1 0 zx) as (v & -> & Hv & Rv & _);
    [lia|apply repr_0|done|lia|].
  split; [by exists v; split_and!; [|lia|lia|]|]. unfold fleb. cbn. lia.
Qed.

(** A decimal fraction constant such as [0.2] rounds to a weight. *)
Lemma weight_decimal n d : 0 < n < d → d ≤ 100 → weight (of_dec n d).
Proof.
  intros Hn Hd. unfold of_dec.
  assert (E : one_u = 128 * 2 ^ 1067) by reflexivity.
  assert (R1 : repr (1 * 2 ^ 1067)).
  { split; [|reflexivity]. rewrite Z.abs_eq by lia. apply rnd_mag_exact; lia. }
  assert (R2 : repr (127 * 2 ^ 1067)).
  { split; [|reflexivity]. rewrite Z.abs_eq by lia. apply rnd_mag_exact; lia. }
  assert (0 < 2 ^ 1067) by reflexivity. set (u := 2 ^ 1067) in *.
  destruct (round_between (n * one_u) d (1 * u) (127 * u)) as (z & -> & Hz & Rz & _);
    [lia|done|done|rewrite E; split; nia|]. exists z. split_and!; [done|lia|lia|done].
Qed.

(** ** Non-negative values *)

(** At least [lo] units: a representable number, or +Inf. *)
Definition above (lo : Z) (x : f64) : Prop :=
  match x with Fin z => lo ≤ z ∧ repr z | Inf s => s = false | NaN => False end.

Lemma above_weaken lo lo' x : lo' ≤ lo → above lo x → above lo' x.
Proof. destruct x; cbn [above]; [|done|done]. intros ? (?&?). split; [lia|done]. Qed.

Lemma round_above lo n d : 0 ≤ lo → repr lo → 0 < d → lo * d ≤ n → above lo (round n d).
Proof.
  intros H0 Hr Hd Hn. pose proof (rndz_mono lo 1 n d ltac:(lia) Hd ltac:(lia)) as M.
  rewrite rndz_repr in M by done.
  destruct (Z.ltb_spec (Z.abs (rndz n d)) huge_u) as [Hlt|Hge].
  - rewrite round_rndz by done. split; [done|by apply repr_rndz].
  - rewrite round_def. cbn zeta. rewrite rndz_abs in Hge by done. rewrite (proj2 (Z.leb_le _ _)) by done.
    cbn [above]. apply Z.ltb_ge. nia.
Qed.

Lemma above_add lo x y : 0 ≤ lo → repr lo → above 0 x → above lo y → above lo (x ⊞ y).
Proof.
  intros H0 Hr Hx Hy. destruct x as [a|s|]; destruct y as [b|t|]; cbn in *; try done.
  - apply round_above; [done|done|lia|]. lia.
  - by rewrite Hx, Hy.
Qed.

Lemma above_mul lo a b :
  0 ≤ lo → repr lo → 0 ≤ a → 0 ≤ b → lo * one_u ≤ a * b → above lo (Fin a ⊠ Fin b).
Proof. intros. cbn [fmul]. by apply round_above. Qed.

#[export] Hint Resolve in_unit_0 in_unit_1 : goint.
#[global] Opaque one_u huge_u.
