(* ===== verification/Frame.v ===== *)
(** * The wire frame format (internal/frame/frame.go)

    The 28-byte big-endian header followed by the plaintext payload:
    [Encode], [DecodeHeader] and [Decode], with the round trips in both
    directions and the exact set of accepted buffers. *)

From S2P Require Import Prelude.

#[local] Open Scope Z_scope.

Definition Magic : Z := 0x464C5842.
Definition Version : Z := 0x02.
Definition HeaderSize : nat := 28.
Definition TagSize : nat := 16.
Definition MaxPayload : Z := Z.shiftl 1 16 - 1.

Definition FlagFECParity : Z := Z.shiftl 1 0.
Definition FlagKeepalive : Z := Z.shiftl 1 1.
Definition FlagControl : Z := Z.shiftl 1 2.
Definition FlagFirst : Z := Z.shiftl 1 3.
Definition FlagPong : Z := Z.shiftl 1 4.
Definition FlagKex : Z := Z.shiftl 1 5.
Definition FlagPassSeq : Z := Z.shiftl 1 6.

(** [Frame]: integer fields are kept at their Go widths by [wf_frame]. *)
Record frame := mkFrame {
  f_version : Z;
  f_flags : Z;
  f_session : Z;
  f_seq : Z;
  f_block : Z;
  f_payload : list byte;
}.

Record wf_frame (f : frame) : Prop := {
  wf_version : is_u8 (f_version f);
  wf_flags : is_u8 (f_flags f);
  wf_session : is_u64 (f_session f);
  wf_seq : is_u32 (f_seq f);
  wf_block : is_u32 (f_block f);
}.

(** A composite literal [&frame.Frame{Flags, SessionID, Seq, BlockSeq, Payload}]:
    the source never sets [Version]. *)
Definition new_frame (flags session seq block : Z) (payload : list byte) : frame :=
  mkFrame 0 flags session seq block payload.

Definition set_version (v : Z) (f : frame) : frame :=
  mkFrame v (f_flags f) (f_session f) (f_seq f) (f_block f) (f_payload f).
Definition set_flags (x : Z) (f : frame) : frame :=
  mkFrame (f_version f) x (f_session f) (f_seq f) (f_block f) (f_payload f).
Definition set_seq (x : Z) (f : frame) : frame :=
  mkFrame (f_version f) (f_flags f) (f_session f) x (f_block f) (f_payload f).
Definition set_block (x : Z) (f : frame) : frame :=
  mkFrame (f_version f) (f_flags f) (f_session f) (f_seq f) x (f_payload f).
Definition set_payload (p : list byte) (f : frame) : frame :=
  mkFrame (f_version f) (f_flags f) (f_session f) (f_seq f) (f_block f) p.

#[export] Instance frame_eq_dec : EqDecision frame.
Proof. solve_decision. Defined.

(** [f.HasFlag(flag)]. *)
Definition HasFlag (f : frame) (flag : Z) : bool := negb (Z.land (f_flags f) flag =? 0).

Inductive frame_error : Type :=
| ErrPayloadTooLarge (n : Z)
| ErrFrameTooShort
| ErrBadMagic
| ErrUnsupportedVersion (v : Z)
| ErrLengthMismatch (plen have : Z).

(** [Encode]: a zeroed buffer filled field by field at its offset. *)
Definition Encode (f : frame) : res frame_error (list byte) :=
  if MaxPayload <? Z.of_nat (length (f_payload f)) then
    Err (ErrPayloadTooLarge (Z.of_nat (length (f_payload f))))
  else
    let buf := replicate (HeaderSize + length (f_payload f)) x00 in
    let buf := put_at 0 (be_put 4 Magic) buf in
    let buf := put_at 4 (be_put 1 Version) buf in
    let buf := put_at 5 (be_put 1 (f_flags f)) buf in
    let buf := put_at 8 (be_put 8 (f_session f)) buf in
    let buf := put_at 16 (be_put 4 (f_seq f)) buf in
    let buf := put_at 20 (be_put 4 (f_block f)) buf in
    let buf := put_at 24 (be_put 2 (u16 (Z.of_nat (length (f_payload f))))) buf in
    Ok (put_at HeaderSize (f_payload f) buf).

(** [DecodeHeader]: the payload of the returned frame is nil. *)
Definition DecodeHeader (b : list byte) : res frame_error frame :=
  if (length b <? HeaderSize)%nat then Err ErrFrameTooShort
  else if negb (be_get (slice 0 4 b) =? Magic) then Err ErrBadMagic
  else if negb (be_get (slice 4 5 b) =? Version) then
    Err (ErrUnsupportedVersion (be_get (slice 4 5 b)))
  else Ok (mkFrame (be_get (slice 4 5 b)) (be_get (slice 5 6 b))
             (be_get (slice 8 16 b)) (be_get (slice 16 20 b))
             (be_get (slice 20 24 b)) []).

(** [Decode]: the buffer must hold exactly the announced payload. *)
Definition Decode (b : list byte) : res frame_error frame :=
  let? f := DecodeHeader b in
  let plen := Z.to_nat (be_get (slice 24 26 b)) in
  if negb (length b =? HeaderSize + plen)%nat then
    Err (ErrLengthMismatch (Z.of_nat plen) (Z.of_nat (length b) - Z.of_nat HeaderSize))
  else Ok (set_payload (slice HeaderSize (HeaderSize + plen) b) f).

(** ** Layout lemmas *)

(** The header of a frame as one concatenation. *)
Definition header_bytes (f : frame) : list byte :=
  be_put 4 Magic ++ be_put 1 Version ++ be_put 1 (f_flags f) ++ [x00; x00] ++
  be_put 8 (f_session f) ++ be_put 4 (f_seq f) ++ be_put 4 (f_block f) ++
  be_put 2 (Z.of_nat (length (f_payload f))) ++ [x00; x00].

Lemma length_header_bytes f : length (header_bytes f) = HeaderSize.
Proof. reflexivity. Qed.

(** The buffer a successful [Encode] returns is header then payload. *)
Lemma Encode_layout f :
  Z.of_nat (length (f_payload f)) ≤ MaxPayload →
  Encode f = Ok (header_bytes f ++ f_payload f).
Proof.
  intros Hlen. unfold Encode. rewrite (proj2 (Z.ltb_ge _ _)) by done.
  replace (u16 (Z.of_nat (length (f_payload f)))) with (Z.of_nat (length (f_payload f)))
    by (unfold u16; rewrite Z.mod_small; [done|change MaxPayload with 65535 in Hlen; lia]).
  unfold header_bytes. set (n := length (f_payload f)).
  generalize (Z.of_nat n). intros zn.
  replace (replicate (HeaderSize + n) x00) with (replicate 28 x00 ++ replicate n x00)
    by (unfold HeaderSize; by rewrite replicate_add).
  unfold put_at, HeaderSize. cbn [be_put length Nat.add replicate app take drop].
  rewrite drop_ge by (rewrite length_replicate; lia).
  by rewrite app_nil_r.
Qed.

Lemma Encode_too_large f :
  MaxPayload < Z.of_nat (length (f_payload f)) →
  Encode f = Err (ErrPayloadTooLarge (Z.of_nat (length (f_payload f)))).
Proof. intros. unfold Encode. by rewrite (proj2 (Z.ltb_lt _ _)). Qed.

Lemma Encode_Ok f b :
  Encode f = Ok b →
  Z.of_nat (length (f_payload f)) ≤ MaxPayload ∧ b = header_bytes f ++ f_payload f.
Proof.
  intros H. destruct (Z.le_gt_cases (Z.of_nat (length (f_payload f))) MaxPayload) as [Hl|Hl].
  - rewrite Encode_layout in H by done. split; [done|congruence].
  - rewrite Encode_too_large in H; [done|lia].
Qed.

Lemma length_Encode f b : Encode f = Ok b → length b = (HeaderSize + length (f_payload f))%nat.
Proof. intros [_ ->]%Encode_Ok. by rewrite length_app, length_header_bytes. Qed.

(** The header survives any suffix: this is what lets the receiver parse a
    sealed frame before decrypting it. *)
Lemma DecodeHeader_header f rest :
  wf_frame f →
  DecodeHeader (header_bytes f ++ rest) = Ok (set_payload [] (set_version Version f)).
Proof.
  intros [_ Hfl Hs Hq Hb]. unfold DecodeHeader.
  rewrite length_app, length_header_bytes.
  rewrite (proj2 (Nat.ltb_ge _ _)) by lia.
  unfold header_bytes, slice. cbn [be_put app take drop Nat.sub].
  change [z2b (Magic / 256 ^ Z.of_nat 3); z2b (Magic / 256 ^ Z.of_nat 2);
          z2b (Magic / 256 ^ Z.of_nat 1); z2b (Magic / 256 ^ Z.of_nat 0)] with (be_put 4 Magic).
  change [z2b (Version / 256 ^ Z.of_nat 0)] with (be_put 1 Version).
  change [z2b (f_flags f / 256 ^ Z.of_nat 0)] with (be_put 1 (f_flags f)).
  repeat match goal with
  | |- context [z2b (?x / 256 ^ Z.of_nat 7) :: ?a :: ?b :: ?c :: ?d :: ?e :: ?g :: ?h :: []] =>
      change (z2b (x / 256 ^ Z.of_nat 7) :: a :: b :: c :: d :: e :: g :: h :: []) with (be_put 8 x)
  | |- context [z2b (?x / 256 ^ Z.of_nat 3) :: ?a :: ?b :: ?c :: []] =>
      change (z2b (x / 256 ^ Z.of_nat 3) :: a :: b :: c :: []) with (be_put 4 x)
  end.
  rewrite !be_get_put_small; try done.
Qed.

Lemma DecodeHeader_Ok b f :
  DecodeHeader b = Ok f →
  (HeaderSize ≤ length b)%nat ∧ be_get (slice 0 4 b) = Magic ∧ be_get (slice 4 5 b) = Version ∧
  f = mkFrame Version (be_get (slice 5 6 b)) (be_get (slice 8 16 b))
        (be_get (slice 16 20 b)) (be_get (slice 20 24 b)) [].
Proof.
  unfold DecodeHeader. intros H.
  destruct (Nat.ltb_spec (length b) HeaderSize); [done|].
  destruct (Z.eqb_spec (be_get (slice 0 4 b)) Magic); [|done].
  destruct (Z.eqb_spec (be_get (slice 4 5 b)) Version) as [Hv|]; [|done].
  cbn [negb] in H. rewrite Hv in H. by inversion H.
Qed.

Lemma Decode_Ok b f :
  Decode b = Ok f →
  ∃ h, DecodeHeader b = Ok h ∧
    length b = (HeaderSize + Z.to_nat (be_get (slice 24 26 b)))%nat ∧
    f = set_payload (drop HeaderSize b) h.
Proof.
  unfold Decode. destruct (DecodeHeader b) as [h| |]; cbn [res_bind]; [|done|done].
  intros H. exists h.
  destruct (Nat.eqb_spec (length b) (HeaderSize + Z.to_nat (be_get (slice 24 26 b)))) as [Hl|];
    cbn [negb] in H; [|done].
  injection H as <-. repeat split; [done|]. f_equal.
  apply take_ge. rewrite length_drop. unfold HeaderSize in *. lia.
Qed.

(** Every field a decoder returns has its Go width. *)
Lemma DecodeHeader_wf b f : DecodeHeader b = Ok f → wf_frame f.
Proof.
  intros (Hl & _ & _ & ->)%DecodeHeader_Ok. unfold HeaderSize in Hl.
  assert (Hr : ∀ lo hi, (lo ≤ hi ≤ 28)%nat →
    0 ≤ be_get (slice lo hi b) < 256 ^ Z.of_nat (hi - lo)).
  { intros lo hi Hh. pose proof (be_get_range (slice lo hi b)) as Hb.
    unfold slice in *. rewrite length_take, length_drop, Nat.min_l in Hb by lia. done. }
  split; cbn; unfold_int.
  - done.
  - apply (Hr 5 6)%nat; lia.
  - apply (Hr 8 16)%nat; lia.
  - apply (Hr 16 20)%nat; lia.
  - apply (Hr 20 24)%nat; lia.
Qed.

Lemma Decode_wf b f : Decode b = Ok f → wf_frame f.
Proof.
  intros (h & Hh & _ & ->)%Decode_Ok. apply DecodeHeader_wf in Hh. by destruct Hh.
Qed.

Lemma Decode_Encode f b :
  wf_frame f → Encode f = Ok b → Decode b = Ok (set_version Version f).
Proof.
  intros Hwf [Hlen ->]%Encode_Ok. unfold Decode.
  rewrite DecodeHeader_header by done. cbn [res_bind].
  replace (slice 24 26 (header_bytes f ++ f_payload f))
    with (be_put 2 (Z.of_nat (length (f_payload f)))) by reflexivity.
  change MaxPayload with 65535 in Hlen.
  rewrite be_get_put_small by (simpl; lia). rewrite Nat2Z.id.
  rewrite length_app, length_header_bytes, Nat.eqb_refl. cbn [negb].
  unfold slice. rewrite drop_app_length' by done. rewrite take_ge by lia. by destruct f.
Qed.

(** C13 — Encode/Decode round trip. Every frame that [Encode] accepts decodes
    to itself: flags, session id, sequence number, block sequence and payload
    come back unchanged, with the version field set to the wire version. *)
Theorem encode_decode_roundtrip f b :
  wf_frame f → Encode f = Ok b → Decode b = Ok (set_version Version f).
Proof. apply Decode_Encode. Qed.

Lemma encode_decode_roundtrip_witness :
  Decode (header_bytes (new_frame FlagKeepalive 77 5 0 [x01; x02]) ++ [x01; x02])
  = Ok (mkFrame 2 2 77 5 0 [x01; x02]).
Proof.
  apply (encode_decode_roundtrip (new_frame FlagKeepalive 77 5 0 [x01; x02])).
  - by split.
  - reflexivity.
Defined.

(** Canonical decoding. A buffer that [Decode] accepts and whose four
    reserved bytes are zero is exactly the encoding of the frame it decodes
    to, so no two distinct such buffers carry the same frame. *)
Theorem decode_encode_canonical b f :
  Decode b = Ok f → slice 6 8 b = [x00; x00] → slice 26 28 b = [x00; x00] →
  Encode f = Ok b.
Proof.
  intros (h & Hh & Hl & ->)%Decode_Ok Hr1 Hr2.
  apply DecodeHeader_Ok in Hh as (Hge & Hm & Hv & ->). unfold HeaderSize in *.
  do 28 (destruct b as [|? b]; [simpl in Hge; lia|]).
  cbv [slice] in *. cbn [take drop Nat.sub length] in *.
  assert (Hlb : length b = Z.to_nat (be_get [b24; b25])) by lia.
  pose proof (be_get_range [b24; b25]) as Hr.
  change (256 ^ _) with 65536 in Hr.
  rewrite Encode_layout by (change (Z.of_nat (length b) ≤ 65535); lia).
  unfold header_bytes. cbn [set_payload f_flags f_session f_seq f_block f_payload drop].
  rewrite drop_0, Hlb, Z2Nat.id by lia. rewrite <- Hm, <- Hv.
  injection Hr1 as -> ->. rewrite take_0 in Hr2.
  injection Hr2 as -> ->.
  by rewrite !be_put_get' by done.
Qed.

Lemma decode_encode_canonical_witness :
  Encode (mkFrame 2 2 77 5 0 [x01; x02]) =
  Ok (header_bytes (new_frame 2 77 5 0 [x01; x02]) ++ [x01; x02]).
Proof. apply decode_encode_canonical; reflexivity. Defined.
