(* ===== verification/Replay.v ===== *)
(** * The anti-replay window (internal/crypto/crypto.go, [ReplayWindow])

    A sliding bitmap of 64-bit words. The refinement theorem shows that the
    word-level code returns exactly the answers of the abstract filter that
    remembers every accepted sequence number. *)

From S2P Require Import Prelude.

#[local] Open Scope Z_scope.

Definition DefaultReplayWindow : Z := 4096.

Record ReplayWindow := mkWin {
  w_window : Z;      (* window size, uint32 *)
  w_base : Z;        (* seq mapped to bit 0, uint32 *)
  w_bits : list Z;   (* []uint64 *)
}.

(** [NewReplayWindow(size)]: size 0 selects the default size. *)
Definition NewReplayWindow (size : Z) : ReplayWindow :=
  let size := if size =? 0 then DefaultReplayWindow else size in
  mkWin size 0 (replicate (Z.to_nat ((size + 63) / 64)) 0).

(** Word [i] of the bitmap. *)
Definition word (bits : list Z) (i : nat) : Z := default 0 (bits !! i).

(** One iteration of the [shiftRight] loop: the new word [i]. *)
Definition shift_word (bits : list Z) (wordShift : nat) (bitShift : Z) (i : nat) : Z :=
  let words := length bits in
  let src := (i + wordShift)%nat in
  if (src <? words)%nat then
    let v := Z.shiftr (word bits src) bitShift in
    if negb (bitShift =? 0) && (src + 1 <? words)%nat then
      Z.lor v (u64 (Z.shiftl (word bits (src + 1)) (64 - bitShift)))
    else v
  else 0.

(** [w.shiftRight(n)]: in-place loop over the words. *)
Definition shiftRight (bits : list Z) (n : Z) : list Z :=
  let words := length bits in
  let wordShift := Z.to_nat (n / 64) in
  let bitShift := n mod 64 in
  if (words <=? wordShift)%nat then replicate words 0
  else foldl (λ b i, <[i := shift_word b wordShift bitShift i]> b) bits (seq 0 words).

(** The bit test and set at the end of [CheckAndMark]. *)
Definition mark (w : ReplayWindow) (bit : Z) : bool * ReplayWindow :=
  let mask := u64 (Z.shiftl 1 (bit mod 64)) in
  let i := Z.to_nat (bit / 64) in
  if negb (Z.land (word (w_bits w) i) mask =? 0) then (false, w)
  else (true, mkWin (w_window w) (w_base w) (<[i := Z.lor (word (w_bits w) i) mask]> (w_bits w))).

(** [w.CheckAndMark(seq)]. *)
Definition CheckAndMark (w : ReplayWindow) (seq : Z) : bool * ReplayWindow :=
  let diff := seq - w_base w in
  if diff <? 0 then (false, w)
  else if w_window w <=? diff then
    let shift := u64 (diff - w_window w + 1) in
    let w' := mkWin (w_window w) (u32 (seq - w_window w + 1)) (shiftRight (w_bits w) shift) in
    mark w' (w_window w - 1)
  else mark w diff.

Lemma word_replicate n i : word (replicate n 0) i = 0.
Proof. unfold word. destruct (replicate n 0 !! i) eqn:E; [|done]. by apply lookup_replicate in E as [-> _]. Qed.

Lemma word_insert_eq bits i x : (i < length bits)%nat → word (<[i := x]> bits) i = x.
Proof. intros. unfold word. by rewrite list_lookup_insert_eq. Qed.

Lemma word_insert_ne bits i j x : i ≠ j → word (<[i := x]> bits) j = word bits j.
Proof. intros. unfold word. by rewrite list_lookup_insert_ne. Qed.

(** ** The bitmap as a function of the bit index *)

Definition bit_at (bits : list Z) (j : Z) : bool :=
  Z.testbit (word bits (Z.to_nat (j / 64))) (j mod 64).

Definition words_ok (bits : list Z) : Prop := Forall is_u64 bits.

Lemma words_ok_lookup bits i : words_ok bits → is_u64 (word bits i).
Proof.
  intros H. unfold word. destruct (bits !! i) as [x|] eqn:E; simpl; [|by vm_compute].
  by eapply Forall_lookup_1.
Qed.

Lemma u64_testbit z j : 0 ≤ j → Z.testbit (u64 z) j = (j <? 64) && Z.testbit z j.
Proof.
  intros Hj. unfold u64. destruct (Z.ltb_spec j 64); simpl.
  - by rewrite Z.mod_pow2_bits_low by lia.
  - by rewrite Z.mod_pow2_bits_high by lia.
Qed.

Lemma is_u64_testbit z j : is_u64 z → 64 ≤ j → Z.testbit z j = false.
Proof.
  intros Hz Hj. rewrite <- (u64_small z) by done. rewrite u64_testbit by lia.
  by rewrite (proj2 (Z.ltb_ge _ _)) by lia.
Qed.

Lemma is_u64_lor a b : is_u64 a → is_u64 b → is_u64 (Z.lor a b).
Proof.
  intros Ha Hb. assert (H : Z.lor a b = u64 (Z.lor a b)).
  { apply Z.bits_inj'. intros j Hj. rewrite u64_testbit, Z.lor_spec by done.
    destruct (Z.ltb_spec j 64); [done|]. by rewrite !is_u64_testbit. }
  rewrite H. apply u64_range.
Qed.

Lemma is_u64_shiftr a n : is_u64 a → 0 ≤ n → is_u64 (Z.shiftr a n).
Proof.
  unfold is_u64. intros Ha Hn. rewrite Z.shiftr_div_pow2 by done.
  assert (0 < 2 ^ n) by (apply Z.pow_pos_nonneg; lia).
  split; [apply Z.div_pos; lia|]. apply Z.div_lt_upper_bound; nia.
Qed.

(** ** The in-place loop computes every word from the original bitmap *)

Lemma length_shift_loop ws bs idx bits :
  length (foldl (λ b i, <[i := shift_word b ws bs i]> b) bits idx) = length bits.
Proof. revert bits. induction idx as [|? ? IH]; intros; simpl; [done|]. by rewrite IH, length_insert. Qed.

Lemma shift_word_insert bits ws bs i j x :
  (j < i)%nat → shift_word (<[j := x]> bits) ws bs i = shift_word bits ws bs i.
Proof.
  intros. unfold shift_word. rewrite length_insert.
  by rewrite !word_insert_ne by lia.
Qed.

Lemma shift_loop_lookup ws bs n k bits i :
  (i < length bits)%nat → (k + n = length bits)%nat →
  word (foldl (λ b i, <[i := shift_word b ws bs i]> b) bits (seq k n)) i =
  if (k <=? i)%nat then shift_word bits ws bs i else word bits i.
Proof.
  revert k bits. induction n as [|n IH]; intros k bits Hi Hk; simpl.
  - by rewrite (proj2 (Nat.leb_gt _ _)) by lia.
  - rewrite IH by (rewrite length_insert; lia).
    destruct (Nat.leb_spec (S k) i), (Nat.leb_spec k i); try lia.
    + by rewrite shift_word_insert by lia.
    + replace i with k by lia. by rewrite word_insert_eq by lia.
    + by rewrite word_insert_ne by lia.
Qed.

Lemma length_shiftRight bits n : length (shiftRight bits n) = length bits.
Proof.
  unfold shiftRight. case_match; [by rewrite length_replicate|]. by rewrite length_shift_loop.
Qed.

Lemma word_ge (bits : list Z) i : (length bits ≤ i)%nat → word bits i = 0.
Proof. intros. unfold word. by rewrite lookup_ge_None_2. Qed.

Lemma bit_at_ge bits j : 0 ≤ j → 64 * Z.of_nat (length bits) ≤ j → bit_at bits j = false.
Proof.
  intros. unfold bit_at. rewrite word_ge; [apply Z.testbit_0_l|].
  assert (Z.of_nat (length bits) ≤ j / 64) by (apply Z.div_le_lower_bound; lia). lia.
Qed.

Lemma shift_word_bit bits ws bs i b :
  words_ok bits → 0 ≤ bs < 64 → 0 ≤ b < 64 →
  Z.testbit (shift_word bits ws bs i) b = bit_at bits (64 * (Z.of_nat i + Z.of_nat ws) + bs + b).
Proof.
  intros Hok Hbs Hb. unfold shift_word, bit_at. set (src := (i + ws)%nat).
  assert (Hsrc : 64 * (Z.of_nat i + Z.of_nat ws) = 64 * Z.of_nat src) by lia.
  rewrite Hsrc.
  destruct (Z.lt_ge_cases (bs + b) 64) as [Hlo|Hhi].
  - replace ((64 * Z.of_nat src + bs + b) / 64) with (Z.of_nat src)
      by (apply Z.div_unique with (bs + b); lia).
    replace ((64 * Z.of_nat src + bs + b) mod 64) with (bs + b)
      by (apply Z.mod_unique with (Z.of_nat src); lia).
    rewrite Nat2Z.id. destruct (Nat.ltb_spec src (length bits)) as [Hin|Hout].
    + assert (Hv : Z.testbit (Z.shiftr (word bits src) bs) b = Z.testbit (word bits src) (bs + b))
        by (rewrite Z.shiftr_spec by lia; f_equal; lia).
      case_match; [|done]. rewrite Z.lor_spec, Hv, u64_testbit, Z.shiftl_spec by lia.
      rewrite (Z.testbit_neg_r _ (b - _)) by lia. by rewrite andb_false_r, orb_false_r.
    + by rewrite word_ge, !Z.testbit_0_l by lia.
  - replace ((64 * Z.of_nat src + bs + b) / 64) with (Z.of_nat (src + 1))
      by (apply Z.div_unique with (bs + b - 64); lia).
    replace ((64 * Z.of_nat src + bs + b) mod 64) with (bs + b - 64)
      by (apply Z.mod_unique with (Z.of_nat (src + 1)); lia).
    rewrite Nat2Z.id. rewrite (proj2 (Z.eqb_neq bs 0)) by lia. cbn [negb andb].
    assert (Hv : Z.testbit (Z.shiftr (word bits src) bs) b = false).
    { rewrite Z.shiftr_spec by lia. apply is_u64_testbit; [by apply words_ok_lookup|lia]. }
    destruct (Nat.ltb_spec src (length bits)), (Nat.ltb_spec (src + 1) (length bits)).
    + rewrite Z.lor_spec, Hv, u64_testbit, Z.shiftl_spec by lia.
      rewrite (proj2 (Z.ltb_lt _ _)) by lia. cbn. f_equal. lia.
    + rewrite Hv. rewrite word_ge by lia. by rewrite Z.testbit_0_l.
    + lia.
    + rewrite word_ge by lia. by rewrite !Z.testbit_0_l.
Qed.

(** The word loop is a right shift of the whole bitmap. *)
Lemma shiftRight_bit bits n j :
  words_ok bits → 0 ≤ n → 0 ≤ j < 64 * Z.of_nat (length bits) →
  bit_at (shiftRight bits n) j = bit_at bits (j + n).
Proof.
  intros Hok Hn Hj. unfold shiftRight.
  assert (Hq : 0 ≤ n / 64) by (apply Z.div_pos; lia).
  pose proof (Z.mod_pos_bound n 64 eq_refl). pose proof (Z.div_mod n 64 ltac:(lia)).
  destruct (Nat.leb_spec (length bits) (Z.to_nat (n / 64))).
  - rewrite bit_at_ge with (j := j + n) by lia.
    unfold bit_at. by rewrite word_replicate, Z.testbit_0_l.
  - unfold bit_at at 1.
    assert (j / 64 < Z.of_nat (length bits)) by (apply Z.div_lt_upper_bound; lia).
    assert (0 ≤ j / 64) by (apply Z.div_pos; lia).
    rewrite shift_loop_lookup by lia. simpl.
    pose proof (Z.mod_pos_bound j 64 eq_refl). pose proof (Z.div_mod j 64 ltac:(lia)).
    rewrite shift_word_bit by done. f_equal. lia.
Qed.

Lemma shift_word_ok bits ws bs i : words_ok bits → 0 ≤ bs → is_u64 (shift_word bits ws bs i).
Proof.
  intros. unfold shift_word. repeat case_match.
  - apply is_u64_lor; [|apply u64_range]. apply is_u64_shiftr; [by apply words_ok_lookup|done].
  - apply is_u64_shiftr; [by apply words_ok_lookup|done].
  - done.
Qed.

Lemma words_ok_insert bits i x : words_ok bits → is_u64 x → words_ok (<[i := x]> bits).
Proof. intros. by apply Forall_insert. Qed.

Lemma words_ok_replicate n : words_ok (replicate n 0).
Proof. apply Forall_replicate. by vm_compute. Qed.

Lemma shiftRight_ok bits n : words_ok bits → 0 ≤ n → words_ok (shiftRight bits n).
Proof.
  intros Hok Hn. unfold shiftRight. case_match; [apply words_ok_replicate|].
  assert (0 ≤ n mod 64) by (apply Z.mod_pos_bound; lia).
  generalize (seq 0 (length bits)). intros l. revert bits Hok H.
  induction l as [|i l IH]; intros bits Hok H; simpl; [done|].
  apply IH.
  - apply words_ok_insert; [done|]. by apply shift_word_ok.
  - by rewrite length_insert.
Qed.

Lemma mask_bit b j : 0 ≤ b < 64 → 0 ≤ j → Z.testbit (u64 (Z.shiftl 1 b)) j = bool_decide (j = b).
Proof.
  intros Hb Hj. rewrite u64_testbit, Z.shiftl_spec by done.
  rewrite <- (Z.pow_0_r 2), Z.pow2_bits_eqb by done.
  case_bool_decide; [subst; rewrite (proj2 (Z.ltb_lt _ _)) by lia; by rewrite Z.sub_diag|].
  rewrite (proj2 (Z.eqb_neq _ _)) by lia. apply andb_false_r.
Qed.

Lemma land_mask_zero x b :
  0 ≤ b < 64 → (Z.land x (u64 (Z.shiftl 1 b)) =? 0) = negb (Z.testbit x b).
Proof.
  intros Hb. destruct (Z.eqb_spec (Z.land x (u64 (Z.shiftl 1 b))) 0) as [E|E].
  - apply (f_equal (λ z, Z.testbit z b)) in E.
    rewrite Z.land_spec, mask_bit, Z.testbit_0_l, bool_decide_eq_true_2, andb_true_r in E by lia.
    by rewrite E.
  - destruct (Z.testbit x b) eqn:Ex; [done|]. exfalso. apply E. apply Z.bits_inj'.
    intros j Hj. rewrite Z.land_spec, mask_bit, Z.testbit_0_l by done.
    case_bool_decide; [subst; by rewrite Ex|]. apply andb_false_r.
Qed.

(** [mark] reads the bit and sets it. *)
Lemma mark_spec w bit :
  words_ok (w_bits w) → 0 ≤ bit < 64 * Z.of_nat (length (w_bits w)) →
  (mark w bit).1 = negb (bit_at (w_bits w) bit) ∧
  w_window (mark w bit).2 = w_window w ∧ w_base (mark w bit).2 = w_base w ∧
  length (w_bits (mark w bit).2) = length (w_bits w) ∧ words_ok (w_bits (mark w bit).2) ∧
  (∀ j, 0 ≤ j → bit_at (w_bits (mark w bit).2) j = bit_at (w_bits w) j || bool_decide (j = bit)).
Proof.
  intros Hok Hbit. unfold mark.
  pose proof (Z.mod_pos_bound bit 64 eq_refl) as Hm. pose proof (Z.div_mod bit 64 ltac:(lia)) as Hd.
  assert (0 ≤ bit / 64) by (apply Z.div_pos; lia).
  assert (bit / 64 < Z.of_nat (length (w_bits w))) by (apply Z.div_lt_upper_bound; lia).
  rewrite land_mask_zero by done. rewrite negb_involutive. fold (bit_at (w_bits w) bit).
  destruct (bit_at (w_bits w) bit) eqn:E; cbn [fst snd w_window w_base w_bits negb].
  - split_and!; try done. intros j Hj. case_bool_decide; [subst; by rewrite E|]. by rewrite orb_false_r.
  - split_and!; try done; [by rewrite length_insert| |].
    { apply words_ok_insert; [done|].
      apply is_u64_lor; [by apply words_ok_lookup|apply u64_range]. }
    intros j Hj. unfold bit_at. pose proof (Z.mod_pos_bound j 64 eq_refl).
    pose proof (Z.div_mod j 64 ltac:(lia)). assert (0 ≤ j / 64) by (apply Z.div_pos; lia).
    destruct (decide (j / 64 = bit / 64)) as [Eq|Ne].
    + rewrite Eq, word_insert_eq by lia. rewrite Z.lor_spec, mask_bit by lia. f_equal.
      apply bool_decide_ext. lia.
    + rewrite word_insert_ne by lia. rewrite bool_decide_eq_false_2 by congruence.
      by rewrite orb_false_r.
Qed.

(** ** Abstract filter: the set of accepted sequence numbers *)

Definition top (hist : list Z) : Z := foldr Z.max 0 hist.

(** A number is accepted when it was never accepted and is less than [window]
    behind the highest accepted one. *)
Definition spec_accept (window : Z) (hist : list Z) (seq : Z) : bool :=
  bool_decide (seq ∉ hist) && (top hist - window <? seq).

Fixpoint run_spec (window : Z) (hist : list Z) (seqs : list Z) : list bool :=
  match seqs with
  | [] => []
  | s :: rest =>
      let ok := spec_accept window hist s in
      ok :: run_spec window (if ok then s :: hist else hist) rest
  end.

Fixpoint run_window (w : ReplayWindow) (seqs : list Z) : list bool :=
  match seqs with
  | [] => []
  | s :: rest => let '(ok, w') := CheckAndMark w s in ok :: run_window w' rest
  end.

Record win_inv (w : ReplayWindow) (hist : list Z) : Prop := {
  inv_size : 0 < w_window w < 2 ^ 32;
  inv_len : length (w_bits w) = Z.to_nat ((w_window w + 63) / 64);
  inv_words : words_ok (w_bits w);
  inv_base : w_base w = Z.max 0 (top hist - w_window w + 1);
  inv_bits : ∀ j, 0 ≤ j → bit_at (w_bits w) j = bool_decide (w_base w + j ∈ hist);
  inv_hist : Forall is_u32 hist;
}.

Lemma top_cons s hist : top (s :: hist) = Z.max s (top hist).
Proof. done. Qed.

Lemma top_ge hist s : s ∈ hist → s ≤ top hist.
Proof.
  induction hist as [|h hist IH]; [by intros ?%elem_of_nil|].
  intros [->|H]%elem_of_cons; simpl; [lia|]. specialize (IH H). unfold top in *. lia.
Qed.

Lemma inv_room w hist : win_inv w hist → w_window w ≤ 64 * Z.of_nat (length (w_bits w)).
Proof.
  intros [Hs Hl _ _ _ _]. rewrite Hl.
  pose proof (Z.div_mod (w_window w + 63) 64 ltac:(lia)).
  pose proof (Z.mod_pos_bound (w_window w + 63) 64 eq_refl).
  assert (0 ≤ (w_window w + 63) / 64) by (apply Z.div_pos; lia). lia.
Qed.

Lemma win_inv_new size :
  0 ≤ size < 2 ^ 32 → win_inv (NewReplayWindow size) [].
Proof.
  intros Hs. unfold NewReplayWindow.
  assert (0 < (if size =? 0 then DefaultReplayWindow else size) < 2 ^ 32).
  { destruct (Z.eqb_spec size 0); unfold DefaultReplayWindow; lia. }
  split; cbn [w_window w_base w_bits]; try done.
  - by rewrite length_replicate.
  - apply words_ok_replicate.
  - cbn. lia.
  - intros. unfold bit_at. rewrite word_replicate, Z.testbit_0_l.
    by rewrite bool_decide_eq_false_2 by apply not_elem_of_nil.
Qed.

(** Marking a bit of a window that satisfies the invariant records [seq]. *)
Lemma mark_inv w hist seq :
  win_inv w hist → is_u32 seq → w_base w ≤ seq < w_base w + w_window w →
  top (seq :: hist) - w_window w + 1 ≤ w_base w →
  (mark w (seq - w_base w)).1 = bool_decide (seq ∉ hist) ∧
  win_inv (mark w (seq - w_base w)).2 (if bool_decide (seq ∉ hist) then seq :: hist else hist).
Proof.
  intros Hinv Hq Hin Htop. pose proof (inv_room _ _ Hinv).
  destruct (mark_spec w (seq - w_base w)) as (H1 & H2 & H3 & H4 & H5 & H6);
    [apply Hinv|lia|].
  destruct Hinv as [Hs Hl Hw Hb Hbits Hh].
  assert (Hbit : bit_at (w_bits w) (seq - w_base w) = bool_decide (seq ∈ hist)).
  { rewrite Hbits by lia. by replace (w_base w + (seq - w_base w)) with seq by lia. }
  assert (Hneg : negb (bool_decide (seq ∈ hist)) = bool_decide (seq ∉ hist))
    by (symmetry; apply bool_decide_not).
  split; [by rewrite H1, Hbit|]. clear Hbit Hneg H1.
  split; rewrite ?H2, ?H3, ?H4; try done.
  - rewrite top_cons in Htop.
    destruct (bool_decide (seq ∉ hist)); [rewrite top_cons; lia|done].
  - intros j Hj. rewrite H6, Hbits by done. rewrite <- bool_decide_or.
    destruct (decide (seq ∈ hist)) as [Hold|Hnew].
    + rewrite (bool_decide_eq_false_2 (seq ∉ hist)) by tauto.
      apply bool_decide_ext. split; [|tauto]. intros [?| ->]; [done|].
      by replace (w_base w + (seq - w_base w)) with seq by lia.
    + rewrite (bool_decide_eq_true_2 (seq ∉ hist)) by done.
      apply bool_decide_ext. rewrite elem_of_cons. intuition lia.
  - case_bool_decide; [by constructor|done].
Qed.

(** Sliding forward re-bases the bitmap without losing a remembered number. *)
Lemma slide_inv w hist seq :
  win_inv w hist → is_u32 seq → w_base w + w_window w ≤ seq →
  let w' := mkWin (w_window w) (u32 (seq - w_window w + 1))
              (shiftRight (w_bits w) (u64 (seq - w_base w - w_window w + 1))) in
  w_base w' = seq - w_window w + 1 ∧
  (∀ j, 0 ≤ j → bit_at (w_bits w') j = bool_decide (w_base w' + j ∈ hist)) ∧
  words_ok (w_bits w') ∧ length (w_bits w') = length (w_bits w).
Proof.
  intros Hinv Hq Hge w'. pose proof (inv_room _ _ Hinv) as Hroom.
  destruct Hinv as [Hs Hl Hw Hb Hbits Hh].
  assert (Hbase : w_base w' = seq - w_window w + 1).
  { unfold w'; cbn. apply u32_small. unfold_int. lia. }
  assert (Hsh : u64 (seq - w_base w - w_window w + 1) = w_base w' - w_base w).
  { rewrite Hbase. rewrite u64_small; unfold_int; lia. }
  assert (Hold : ∀ s, top hist < s → bool_decide (s ∈ hist) = false).
  { intros s Ht. apply bool_decide_eq_false_2. intros Hs'%top_ge. lia. }
  split_and!; [done| | |by unfold w'; cbn; apply length_shiftRight].
  - intros j Hj. unfold w' at 1. cbn [w_bits]. rewrite Hsh.
    destruct (Z.lt_ge_cases j (64 * Z.of_nat (length (w_bits w)))).
    + rewrite shiftRight_bit, Hbits by (done || lia).
      by replace (w_base w + (j + (w_base w' - w_base w))) with (w_base w' + j) by lia.
    + rewrite bit_at_ge by (rewrite ?length_shiftRight; lia). symmetry. apply Hold. lia.
  - unfold w'. cbn [w_bits]. rewrite Hsh. apply shiftRight_ok; [done|lia].
Qed.

(** One call of the code is one step of the abstract filter. *)
Lemma CheckAndMark_step w hist seq :
  win_inv w hist → is_u32 seq →
  let ok := spec_accept (w_window w) hist seq in
  (CheckAndMark w seq).1 = ok ∧
  win_inv (CheckAndMark w seq).2 (if ok then seq :: hist else hist) ∧
  w_window (CheckAndMark w seq).2 = w_window w.
Proof.
  intros Hinv Hq. unfold spec_accept, CheckAndMark. cbn zeta.
  pose proof (inv_base _ _ Hinv) as Hb. pose proof (inv_size _ _ Hinv) as Hs.
  destruct (Z.ltb_spec (seq - w_base w) 0).
  { assert ((top hist - w_window w <? seq) = false) as -> by (apply Z.ltb_ge; unfold_int; lia).
    by rewrite andb_false_r. }
  assert ((top hist - w_window w <? seq) = true) as -> by (apply Z.ltb_lt; lia).
  rewrite andb_true_r.
  destruct (Z.leb_spec (w_window w) (seq - w_base w)).
  - destruct (slide_inv w hist seq Hinv Hq ltac:(lia)) as (Hbase & Hbits & Hok & Hlen).
    set (w' := mkWin _ _ _) in *. assert (Hww : w_window w' = w_window w) by done.
    clearbody w'. replace (w_window w - 1) with (seq - w_base w') by (rewrite Hbase; lia).
    assert (Htop : top (seq :: hist) = seq) by (rewrite top_cons; lia).
    assert (Hnew : seq ∉ hist) by (intros ?%top_ge; lia).
    rewrite bool_decide_eq_true_2 by done.
    destruct (mark_spec w' (seq - w_base w')) as (H1 & H2 & H3 & H4 & H5 & H6).
    { done. }
    { rewrite Hlen. pose proof (inv_room _ _ Hinv). lia. }
    split_and!; [|split|by rewrite H2]; rewrite ?H2, ?Hww, ?H3, ?H4, ?Htop; try done.
    + rewrite H1, Hbits by lia. apply negb_true_iff, bool_decide_eq_false_2.
      by replace (w_base w' + (seq - w_base w')) with seq by lia.
    + rewrite Hlen. apply Hinv.
    + unfold_int. lia.
    + intros j Hj. rewrite H6, Hbits by done. rewrite <- bool_decide_or.
      apply bool_decide_ext. rewrite elem_of_cons. intuition lia.
    + constructor; [done|apply Hinv].
  - destruct (mark_inv w hist seq Hinv Hq) as [H1 H2]; [lia|rewrite top_cons; lia|].
    split_and!; [done|done|].
    apply mark_spec; [apply Hinv|]. pose proof (inv_room _ _ Hinv). lia.
Qed.

(** A refused number leaves the window as it was. *)
Lemma CheckAndMark_refused w hist seq :
  win_inv w hist → is_u32 seq → spec_accept (w_window w) hist seq = false → CheckAndMark w seq = (false, w).
Proof.
  intros Hinv Hq Hno. destruct (CheckAndMark_step w hist seq Hinv Hq) as (H1 & _). cbn zeta in H1.
  rewrite Hno in H1. revert H1. unfold CheckAndMark. cbn zeta.
  destruct (Z.ltb_spec (seq - w_base w) 0); [done|].
  destruct (Z.leb_spec (w_window w) (seq - w_base w)) as [Hle|].
  - exfalso. pose proof (inv_base _ _ Hinv). pose proof (inv_size _ _ Hinv).
    unfold spec_accept in Hno. apply andb_false_iff in Hno as [Hno|Hno]; [|apply Z.ltb_ge in Hno; lia].
    apply bool_decide_eq_false_1 in Hno. apply Hno. intros ?%top_ge. lia.
  - unfold mark. by destruct (negb _).
Qed.

Lemma top_nonneg hist : 0 ≤ top hist.
Proof. induction hist; unfold top in *; cbn; lia. Qed.

Lemma top_mono hist hist' : (∀ q, q ∈ hist → q ∈ hist') → top hist ≤ top hist'.
Proof.
  intros H. induction hist as [|h hist IH]; [apply top_nonneg|].
  rewrite top_cons. pose proof (top_ge hist' h (H h ltac:(apply elem_of_cons; by left))).
  assert (top hist ≤ top hist') by (apply IH; intros q Hq; apply H, elem_of_cons; by right). lia.
Qed.

(** What is refused stays refused when more has been seen. *)
Lemma refused_mono window hist hist' seq :
  (∀ q, q ∈ hist → q ∈ hist') → spec_accept window hist seq = false → spec_accept window hist' seq = false.
Proof.
  intros Hsub. pose proof (top_mono _ _ Hsub). unfold spec_accept. rewrite !andb_false_iff, !Z.ltb_ge.
  rewrite !bool_decide_eq_false. intros [Hn|Hn]; [left|right; lia].
  intros Hn'. apply Hn. intros Hin. by apply Hn', Hsub.
Qed.

(** ** Runs of the filter *)

(** The sequence numbers a run accepts, oldest first. *)
Fixpoint accepted (w : ReplayWindow) (seqs : list Z) : list Z :=
  match seqs with
  | [] => []
  | s :: rest =>
      let '(ok, w') := CheckAndMark w s in
      if ok then s :: accepted w' rest else accepted w' rest
  end.

(** The window a run leaves behind. *)
Definition after (w : ReplayWindow) (seqs : list Z) : ReplayWindow :=
  foldl (λ w s, (CheckAndMark w s).2) w seqs.

Lemma run_window_spec w hist seqs :
  win_inv w hist → Forall is_u32 seqs → run_window w seqs = run_spec (w_window w) hist seqs.
Proof.
  intros Hinv Hq. revert w hist Hinv. induction Hq as [|s seqs Hs _ IH]; intros w hist Hinv; [done|].
  simpl. destruct (CheckAndMark_step w hist s Hinv Hs) as (H1 & H2 & H3).
  destruct (CheckAndMark w s) as [ok w']. cbn [fst snd] in *. subst ok.
  f_equal. rewrite (IH _ _ H2). by rewrite H3.
Qed.

Lemma accepted_fresh w hist seqs :
  win_inv w hist → Forall is_u32 seqs →
  NoDup (accepted w seqs) ∧ (∀ s, s ∈ accepted w seqs → s ∉ hist).
Proof.
  intros Hinv Hq. revert w hist Hinv. induction Hq as [|s seqs Hs _ IH]; intros w hist Hinv.
  { split; [constructor|]. by intros ? ?%elem_of_nil. }
  simpl. destruct (CheckAndMark_step w hist s Hinv Hs) as (H1 & H2 & H3).
  destruct (CheckAndMark w s) as [ok w']. cbn [fst snd] in *. subst ok.
  destruct (spec_accept (w_window w) hist s) eqn:E; cbn iota in H2; [|by apply IH].
  destruct (IH _ _ H2) as [Hnd Hfr]. unfold spec_accept in E.
  apply andb_true_iff in E as [E%bool_decide_eq_true_1 _].
  split.
  - constructor; [|done]. intros Hin%Hfr. apply Hin, elem_of_cons. by left.
  - intros x [->|Hx]%elem_of_cons; [done|]. apply Hfr in Hx. intros ?. apply Hx, elem_of_cons. by right.
Qed.

Lemma after_inv w hist seqs :
  win_inv w hist → Forall is_u32 seqs →
  ∃ hist', win_inv (after w seqs) hist' ∧ w_window (after w seqs) = w_window w ∧
    (∀ s, s ∈ hist' ↔ s ∈ hist ∨ s ∈ accepted w seqs).
Proof.
  intros Hinv Hq. revert w hist Hinv. induction Hq as [|s seqs Hs _ IH]; intros w hist Hinv.
  { exists hist. split_and!; [done|done|]. simpl. intros x. rewrite elem_of_nil. tauto. }
  simpl. destruct (CheckAndMark_step w hist s Hinv Hs) as (H1 & H2 & H3).
  destruct (CheckAndMark w s) as [ok w']. cbn [fst snd] in *. subst ok.
  destruct (IH _ _ H2) as (h' & Hi & Hw & Hm). exists h'. split_and!; [done|congruence|].
  intros x. rewrite Hm. destruct (spec_accept _ _ _); rewrite ?elem_of_cons; tauto.
Qed.

(** C9 — Refinement of the anti-replay filter. For every window size and every
    sequence of calls, the 64-bit-word bitmap code answers exactly like the
    abstract filter that remembers all accepted numbers: a number is accepted
    when it was never accepted before and lies less than [window] behind the
    highest accepted one. *)
Theorem replay_refines_spec size seqs :
  is_u32 size → Forall is_u32 seqs →
  run_window (NewReplayWindow size) seqs =
  run_spec (if size =? 0 then DefaultReplayWindow else size) [] seqs.
Proof. intros Hs Hq. by rewrite (run_window_spec _ []) by (by apply win_inv_new || done). Qed.

Lemma replay_refines_spec_witness :
  run_window (NewReplayWindow 64) [5; 5; 200; 136; 137; 137; 90] =
  run_spec 64 [] [5; 5; 200; 136; 137; 137; 90].
Proof.
  apply (replay_refines_spec 64); [by vm_compute|]. repeat constructor; by vm_compute.
Defined.

Example run_window_concrete :
  run_window (NewReplayWindow 64) [5; 5; 200; 136; 137; 137; 90] =
  [true; false; true; false; true; false; false].
Proof. vm_compute. reflexivity. Qed.

(** No replay. Whatever frames arrive, in whatever order and however often
    repeated, no sequence number is accepted twice. *)
Theorem replay_accepts_once size seqs :
  is_u32 size → Forall is_u32 seqs → NoDup (accepted (NewReplayWindow size) seqs).
Proof. intros. by apply (accepted_fresh _ []); [apply win_inv_new|]. Qed.

Lemma replay_accepts_once_witness : NoDup (accepted (NewReplayWindow 0) [1; 4097; 1; 2; 2]).
Proof.
  apply replay_accepts_once; [by vm_compute|]. repeat constructor; by vm_compute.
Defined.

(** Reordering is not replay. After any traffic, a number that was not yet
    accepted and is less than the window behind every accepted number is
    accepted: multi-path reordering below the window never drops a frame. *)
Theorem replay_tolerates_reordering size seqs s :
  is_u32 size → Forall is_u32 seqs → is_u32 s →
  s ∉ accepted (NewReplayWindow size) seqs →
  (∀ t, t ∈ accepted (NewReplayWindow size) seqs →
     t < s + (if size =? 0 then DefaultReplayWindow else size)) →
  (CheckAndMark (after (NewReplayWindow size) seqs) s).1 = true.
Proof.
  intros Hz Hq Hs Hnew Hnear.
  destruct (after_inv (NewReplayWindow size) [] seqs) as (hist & Hinv & Hw & Hm);
    [by apply win_inv_new|done|].
  destruct (CheckAndMark_step _ hist s Hinv Hs) as (-> & _ & _).
  unfold spec_accept. apply andb_true_iff. split.
  - apply bool_decide_eq_true_2. rewrite Hm, elem_of_nil. tauto.
  - apply Z.ltb_lt. rewrite Hw. cbn [NewReplayWindow w_window].
    assert (Hall : ∀ t, t ∈ hist → t < s + (if size =? 0 then DefaultReplayWindow else size)).
    { intros t Ht. apply Hnear. apply Hm in Ht. by destruct Ht as [?%elem_of_nil|]. }
    assert (0 < (if size =? 0 then DefaultReplayWindow else size)).
    { unfold_int. unfold DefaultReplayWindow. destruct (Z.eqb_spec size 0); lia. }
    clear -Hall Hs H. unfold_int. induction hist as [|h hist IH]; [simpl; lia|].
    rewrite top_cons. pose proof (Hall h ltac:(apply elem_of_cons; by left)).
    assert (∀ t, t ∈ hist → t < s + (if size =? 0 then DefaultReplayWindow else size))
      by (intros; apply Hall, elem_of_cons; by right). specialize (IH ltac:(done)). lia.
Qed.

Lemma replay_tolerates_reordering_witness :
  (CheckAndMark (after (NewReplayWindow 0) [1; 4097]) 2).1 = true.
Proof.
  assert (E : accepted (NewReplayWindow 0) [1; 4097] = [1; 4097]) by (by vm_compute).
  apply (replay_tolerates_reordering 0 [1; 4097] 2); rewrite ?E.
  - unfold_int. lia.
  - repeat constructor; by vm_compute.
  - unfold_int. lia.
  - rewrite !elem_of_cons, elem_of_nil. lia.
  - intros t. rewrite !elem_of_cons, elem_of_nil. change (0 =? 0) with true.
    unfold DefaultReplayWindow. lia.
Defined.
