(* ===== verification/Delivery.v ===== *)
(** * The delivery buffer (internal/tunnel/delivery.go)

    In-order reassembly of the server-to-client stream: frames are held until
    the sequence number they wait for arrives or the gap timer expires. *)

From S2P Require Import Prelude Frame.

#[local] Open Scope Z_scope.

Record deliveryBuffer := mkDelivery {
  d_next : Z;                 (* next expected seq, uint32 *)
  d_pending : gmap Z frame;
  d_gapSince : time;          (* zero = no gap *)
  d_gapTimeout : duration;
  d_maxPending : Z;
  d_drops : Z;                (* uint64 *)
}.

Definition newDeliveryBuffer (gapTimeout : duration) (maxPending : Z) : deliveryBuffer :=
  mkDelivery 1 ∅ 0
    (if gapTimeout <=? 0 then 100 * millisecond else gapTimeout)
    (if maxPending <=? 0 then 4096 else maxPending) 0.

(** [Reload]: only positive values replace the current tuning. *)
Definition Delivery_Reload (d : deliveryBuffer) (gapTimeout : duration) (maxPending : Z) :
    deliveryBuffer :=
  mkDelivery (d_next d) (d_pending d) (d_gapSince d)
    (if 0 <? gapTimeout then gapTimeout else d_gapTimeout d)
    (if 0 <? maxPending then maxPending else d_maxPending d) (d_drops d).

Definition pendingCount (d : deliveryBuffer) : Z := Z.of_nat (size (d_pending d)).
Definition dropsTotal (d : deliveryBuffer) : Z := d_drops d.

(** The loop of [drainContiguous]: the run of pending frames starting at
    [next]. Every iteration deletes an entry, so the number of entries is
    enough fuel. *)
Fixpoint drain (fuel : nat) (next : Z) (pending : gmap Z frame) : list frame * Z * gmap Z frame :=
  match fuel with
  | O => ([], next, pending)
  | S fuel =>
      match pending !! next with
      | None => ([], next, pending)
      | Some f =>
          let '(out, next', pending') := drain fuel (u32 (next + 1)) (delete next pending) in
          (f :: out, next', pending')
      end
  end.

(** [drainContiguous]: drain, then clear the gap timer when nothing is left. *)
Definition drainContiguous (d : deliveryBuffer) : list frame * deliveryBuffer :=
  let '(out, next, pending) := drain (size (d_pending d)) (d_next d) (d_pending d) in
  (out, mkDelivery next pending (if (size pending =? 0)%nat then 0 else d_gapSince d)
          (d_gapTimeout d) (d_maxPending d) (d_drops d)).

(** [int32(a - b) < 0]: [a] is behind [b] on the sequence ring. *)
Definition behind (a b : Z) : bool := i32 (u32 (a - b)) <? 0.

Section ops.
Context `{!RangeOrder Z frame}.

(** Insertion of an out-of-order frame, with the bound on the buffer. *)
Definition hold (d : deliveryBuffer) (f : frame) : deliveryBuffer :=
  match d_pending d !! f_seq f with
  | Some _ => d
  | None =>
      let full := d_maxPending d <=? Z.of_nat (size (d_pending d)) in
      let lo := range_min behind (f_seq f) (range (d_pending d)) in
      let pending := if full then delete lo (d_pending d) else d_pending d in
      let drops := if full then u64 (d_drops d + 1) else d_drops d in
      mkDelivery (d_next d) (<[f_seq f := f]> pending) (d_gapSince d)
        (d_gapTimeout d) (d_maxPending d) drops
  end.

(** One iteration of the loop of [Push]. *)
Definition push_one (now : time) (d : deliveryBuffer) (f : frame) : list frame * deliveryBuffer :=
  if behind (f_seq f) (d_next d) then ([], d)
  else if f_seq f =? d_next d then
    let '(out, d') := drainContiguous
      (mkDelivery (u32 (d_next d + 1)) (d_pending d) (d_gapSince d)
         (d_gapTimeout d) (d_maxPending d) (d_drops d)) in
    (f :: out, d')
  else
    let d' := hold d f in
    ([], mkDelivery (d_next d') (d_pending d')
           (if is_zero (d_gapSince d') then now else d_gapSince d')
           (d_gapTimeout d') (d_maxPending d') (d_drops d')).

(** [Push]. *)
Fixpoint Delivery_Push (now : time) (d : deliveryBuffer) (fs : list frame) :
    list frame * deliveryBuffer :=
  match fs with
  | [] => ([], d)
  | f :: fs =>
      let '(out, d) := push_one now d f in
      let '(out', d) := Delivery_Push now d fs in
      (out ++ out', d)
  end.

(** [Tick]: the lowest pending seq, 0 standing for "none" as in the source. *)
Definition Delivery_Tick (now : time) (d : deliveryBuffer) : list frame * deliveryBuffer :=
  if is_zero (d_gapSince d) || (time_sub now (d_gapSince d) <? d_gapTimeout d) then ([], d)
  else
    let lo := range_min (λ seq lo, (lo =? 0) || behind seq lo) 0 (range (d_pending d)) in
    if lo =? 0 then
      ([], mkDelivery (u32 (d_next d + 1)) (d_pending d) 0
             (d_gapTimeout d) (d_maxPending d) (d_drops d))
    else
      drainContiguous (mkDelivery lo (d_pending d) (d_gapSince d)
                         (d_gapTimeout d) (d_maxPending d) (d_drops d)).
End ops.

(** ** Correctness while the sequence space does not wrap

    The receiver's anti-replay window rejects every number below its base, so a
    session never wraps; numbers in [1, 2^31) keep the circular comparison of
    the source equal to the order of the numbers. *)

Definition seq_ok (s : Z) : Prop := 1 ≤ s < 2 ^ 31.

Lemma behind_spec a b : 0 ≤ a < 2 ^ 31 → 0 ≤ b ≤ 2 ^ 31 → behind a b = (a <? b).
Proof.
  intros Ha Hb. unfold behind. rewrite i32_u32, i32_small by lia.
  destruct (Z.ltb_spec a b); [apply Z.ltb_lt|apply Z.ltb_ge]; lia.
Qed.

(** Every pending frame is stored under its own number, above [lo]. *)
Definition pending_ok (lo : Z) (pending : gmap Z frame) : Prop :=
  ∀ s f, pending !! s = Some f → f_seq f = s ∧ lo ≤ s < 2 ^ 31.

Lemma pending_ok_delete lo pending :
  pending_ok lo pending → pending_ok (lo + 1) (delete lo pending).
Proof.
  intros H s f [Hne Hs]%lookup_delete_Some. apply H in Hs as [-> ?]. split; [done|lia].
Qed.

(** A frame ahead of the one awaited, on an empty buffer: it is held, and comes
    out at a tick exactly when the gap timer has expired. *)
Lemma Delivery_future `{!RangeOrder Z frame} now d f :
  d_pending d = ∅ → d_gapSince d = 0 → 0 < d_maxPending d → 0 < now →
  1 ≤ d_next d < f_seq f → f_seq f < 2 ^ 31 →
  ∃ d', Delivery_Push now d [f] = ([], d') ∧
    ∀ t, (Delivery_Tick t d').1 = if time_sub t now <? d_gapTimeout d then [] else [f].
Proof.
  intros Hp Hg Hm Hnow Hn Hs. cbn [Delivery_Push]. unfold push_one.
  rewrite behind_spec, (proj2 (Z.ltb_ge _ _)), (proj2 (Z.eqb_neq _ _)) by lia.
  unfold hold. rewrite Hp, lookup_empty, map_size_empty. rewrite (proj2 (Z.leb_gt _ _)) by lia.
  cbn [d_next d_pending d_gapSince d_gapTimeout d_maxPending d_drops]. rewrite Hg.
  change (is_zero 0) with true. cbn iota. eexists. split; [reflexivity|].
  intros t. unfold Delivery_Tick. cbn [d_next d_pending d_gapSince d_gapTimeout d_maxPending d_drops].
  unfold is_zero at 1. rewrite (proj2 (Z.eqb_neq now 0)) by lia. cbn [orb].
  destruct (time_sub t now <? d_gapTimeout d); [done|].
  assert (Hr : range (<[f_seq f := f]> ∅) = [(f_seq f, f)]).
  { apply Permutation_singleton_r. etrans; [apply range_perm|]. rewrite insert_empty. by rewrite map_to_list_singleton. }
  rewrite Hr. cbn [range_min foldl fst]. change (0 =? 0) with true. cbn [orb].
  rewrite (proj2 (Z.eqb_neq (f_seq f) 0)) by lia.
  unfold drainContiguous. cbn [d_pending d_next]. rewrite insert_empty, map_size_singleton. cbn [drain].
  by rewrite lookup_singleton_eq.
Qed.

(** The frame awaited, on an empty buffer, is delivered at once. *)
Lemma Delivery_next `{!RangeOrder Z frame} now d f :
  d_pending d = ∅ → f_seq f = d_next d → 1 ≤ d_next d < 2 ^ 31 → ∃ d', Delivery_Push now d [f] = ([f], d').
Proof.
  intros Hp Hf Hn. cbn [Delivery_Push]. unfold push_one.
  rewrite behind_spec, (proj2 (Z.ltb_ge _ _)), (proj2 (Z.eqb_eq _ _)) by lia.
  unfold drainContiguous. cbn [d_pending d_next]. rewrite Hp, map_size_empty. cbn [drain]. by eexists.
Qed.

Lemma drain_spec fuel next pending out next' pending' :
  drain fuel next pending = (out, next', pending') →
  1 ≤ next ≤ 2 ^ 31 → pending_ok next pending → (size pending ≤ fuel)%nat →
  next ≤ next' ≤ 2 ^ 31 ∧ f_seq <$> out = seqZ next (next' - next) ∧
  (∀ s f, pending' !! s = Some f ↔ pending !! s = Some f ∧ next' < s) ∧
  (∀ f, f ∈ out ↔ pending !! f_seq f = Some f ∧ f_seq f < next') ∧
  pending !! next' = None.
Proof.
  revert next pending out. induction fuel as [|fuel IH]; intros next pending out Hd Hn Hp Hf.
  { assert (pending = ∅) as -> by (apply map_size_empty_inv; lia).
    injection Hd as <- <- <-. rewrite Z.sub_diag. split_and!; [lia|lia|done| | |].
    - intros s f. rewrite lookup_empty. by split; [|intros []].
    - intros f. rewrite lookup_empty, elem_of_nil. by split; [|intros []].
    - apply lookup_empty. }
  simpl in Hd. destruct (pending !! next) as [f|] eqn:Ef.
  - destruct (drain fuel (u32 (next + 1)) (delete next pending)) as [[o n] p] eqn:Er.
    injection Hd as <- <- <-. destruct (Hp _ _ Ef) as [Hfs Hr].
    rewrite u32_small in Er by (unfold_int; lia).
    destruct (IH _ _ _ Er) as (H1 & H2 & H3 & H4 & H5).
    { lia. } { by apply pending_ok_delete. }
    { rewrite map_size_delete_Some by eauto. lia. }
    split_and!; [lia|lia| | | |].
    + rewrite seqZ_cons by lia. rewrite fmap_cons, H2, Hfs. do 2 f_equal; lia.
    + intros s g. rewrite H3, lookup_delete_Some. split; [tauto|]. intros [? ?].
      split; [|done]. split; [lia|done].
    + intros g. rewrite elem_of_cons, H4, lookup_delete_Some. split.
      * intros [->|[[? ?] ?]]; [rewrite Hfs; split; [done|lia]|done].
      * intros [Hg ?]. destruct (decide (f_seq g = next)) as [E|E]; [|by auto].
        left. rewrite E in Hg. congruence.
    + rewrite lookup_delete_ne in H5 by lia. done.
  - injection Hd as <- <- <-. rewrite Z.sub_diag. split_and!; [lia|lia|done| | |done].
    + intros s f. split; [|tauto]. intros Hs. split; [done|].
      assert (s ≠ next) by (intros ->; congruence). apply Hp in Hs. lia.
    + intros f. rewrite elem_of_nil. split; [done|]. intros [Hs ?]. apply Hp in Hs. lia.
Qed.

(** The buffer invariant: [out] is everything delivered so far. *)
Record dinv (d : deliveryBuffer) (out : list frame) : Prop := {
  di_next : 1 ≤ d_next d ≤ 2 ^ 31;
  di_pending : pending_ok (d_next d + 1) (d_pending d);
  di_gap : d_gapSince d = 0 ↔ d_pending d = ∅;
  di_sorted : StronglySorted Z.lt (f_seq <$> out);
  di_below : Forall (λ f, f_seq f < d_next d) out;
}.

Lemma dinv_new gt mp : dinv (newDeliveryBuffer gt mp) [].
Proof. split; cbn; [lia|intros ? ? ?; by simplify_map_eq|done|constructor|constructor]. Qed.

Lemma StronglySorted_seqZ m n : StronglySorted Z.lt (seqZ m n).
Proof.
  destruct (Z.le_gt_cases n 0) as [|Hn]; [rewrite seqZ_nil by done; constructor|].
  revert m. rewrite <- (Z2Nat.id n) by lia. generalize (Z.to_nat n). clear.
  induction n as [|n IH]; intros m; [rewrite seqZ_nil by lia; constructor|].
  rewrite seqZ_cons by lia. constructor.
  - by replace (Z.pred (Z.of_nat (S n))) with (Z.of_nat n) by lia.
  - apply Forall_seqZ. lia.
Qed.

(** Draining from a next expected number with all older frames delivered. *)
Lemma drainContiguous_inv d out pre :
  1 ≤ d_next d ≤ 2 ^ 31 → pending_ok (d_next d) (d_pending d) →
  (d_gapSince d = 0 → d_pending d = ∅) →
  StronglySorted Z.lt (f_seq <$> out ++ pre) → Forall (λ f, f_seq f < d_next d) (out ++ pre) →
  let '(o, d') := drainContiguous d in
  dinv d' (out ++ pre ++ o) ∧ d_next d ≤ d_next d' ∧
  f_seq <$> o = seqZ (d_next d) (d_next d' - d_next d) ∧
  (∀ f, d_pending d !! f_seq f = Some f ↔ f ∈ o ∨ d_pending d' !! f_seq f = Some f) ∧
  d_maxPending d' = d_maxPending d.
Proof.
  intros Hn Hp Hg Hs Hb. unfold drainContiguous.
  destruct (drain (size (d_pending d)) (d_next d) (d_pending d)) as [[o n'] p'] eqn:E.
  destruct (drain_spec _ _ _ _ _ _ E Hn Hp ltac:(done)) as (H1 & H2 & H3 & H4 & H5).
  cbn [d_next d_pending d_maxPending]. split_and!; [|lia|done| |done].
  - split; cbn [d_next d_pending d_gapSince]; [lia| | | |].
    + intros s f Hsf. apply H3 in Hsf as [Hsf ?]. apply Hp in Hsf. split; [tauto|lia].
    + destruct (Nat.eqb_spec (size p') 0) as [Ez|Ez]; [apply map_size_empty_inv in Ez; done|].
      split; [intros Hz|intros ->; by rewrite map_size_empty in Ez].
      specialize (Hg Hz). exfalso. apply Ez. rewrite map_size_empty_iff. apply map_empty.
      intros s. destruct (p' !! s) as [f|] eqn:Ef; [|done]. apply H3 in Ef as [Ef _].
      rewrite Hg in Ef. by rewrite lookup_empty in Ef.
    + rewrite app_assoc, fmap_app, H2. apply StronglySorted_app. split_and!.
      * intros x y [f [-> Hf]]%list_elem_of_fmap [Hy _]%elem_of_seqZ.
        rewrite Forall_forall in Hb. specialize (Hb f Hf). cbn in Hb. lia.
      * done.
      * apply StronglySorted_seqZ.
    + rewrite app_assoc. apply Forall_app. split.
      * eapply Forall_impl; [done|]. cbn. lia.
      * apply Forall_forall. intros f Hf%H4. lia.
  - intros f. rewrite H4, H3. split; [|tauto]. intros Hf. destruct (decide (f_seq f < n')); [by left|].
    right. split; [done|].
    assert (f_seq f ≠ n') by congruence. lia.
Qed.

Section proofs.
Context `{!RangeOrder Z frame}.

Lemma hold_spec d f :
  pending_ok (d_next d + 1) (d_pending d) → d_next d < f_seq f < 2 ^ 31 →
  pending_ok (d_next d + 1) (d_pending (hold d f)) ∧
  d_next (hold d f) = d_next d ∧ d_gapSince (hold d f) = d_gapSince d ∧
  d_maxPending (hold d f) = d_maxPending d ∧ d_pending (hold d f) ≠ ∅ ∧
  (∀ s g, d_pending (hold d f) !! s = Some g → g = f ∨ d_pending d !! s = Some g) ∧
  (Z.of_nat (size (d_pending d)) < d_maxPending d → d_pending d !! f_seq f = None →
   d_pending (hold d f) = <[f_seq f := f]> (d_pending d)).
Proof.
  intros Hp Hf. unfold hold. destruct (d_pending d !! f_seq f) as [g|] eqn:Eg.
  { split_and!; try done; [intros E; rewrite E in Eg; by rewrite lookup_empty in Eg|by auto]. }
  cbn [d_pending d_next d_gapSince d_maxPending]. 
  set (q := if d_maxPending d <=? Z.of_nat (size (d_pending d))
            then delete _ (d_pending d) else d_pending d).
  assert (Hq : ∀ s g, q !! s = Some g → d_pending d !! s = Some g).
  { intros s g. unfold q. case_match; [|done]. by intros [_ ?]%lookup_delete_Some. }
  split_and!; try done.
  - intros s g [[<- <-]|[_ Hg%Hq]]%lookup_insert_Some; [split; [done|lia]|by apply Hp].
  - apply insert_non_empty.
  - intros s g [[_ <-]|[_ Hg%Hq]]%lookup_insert_Some; auto.
  - intros Hlt _. unfold q. by rewrite (proj2 (Z.leb_gt _ _)).
Qed.

(** One pushed frame keeps the invariant, and what comes out or stays is
    the frame itself or was pending. *)
Lemma push_one_inv now d out f :
  dinv d out → seq_ok (f_seq f) → now ≠ 0 →
  let '(o, d') := push_one now d f in
  dinv d' (out ++ o) ∧ d_next d ≤ d_next d' ∧ d_maxPending d' = d_maxPending d ∧
  (∀ g, g ∈ o ∨ d_pending d' !! f_seq g = Some g → g = f ∨ d_pending d !! f_seq g = Some g).
Proof.
  intros Hinv Hf Hnow. pose proof Hinv as [Hn Hp Hg Hs Hb]. unfold push_one.
  unfold seq_ok in Hf. rewrite behind_spec by lia.
  destruct (Z.ltb_spec (f_seq f) (d_next d)).
  { rewrite app_nil_r. split_and!; [done|lia|done|]. intros g [?%elem_of_nil|?]; auto. done. }
  destruct (Z.eqb_spec (f_seq f) (d_next d)) as [Heq|Hne].
  - rewrite u32_small by (unfold_int; lia). set (d0 := mkDelivery _ _ _ _ _ _).
    pose proof (drainContiguous_inv d0 out [f]) as Hd.
    destruct (drainContiguous d0) as [o d'].
    destruct Hd as (H1 & H2 & _ & H4 & H5); cbn [d0 d_next d_pending d_gapSince].
    + lia.
    + done.
    + tauto.
    + rewrite fmap_app. apply StronglySorted_app. split_and!; [|done|by repeat constructor].
      intros x y [g [-> Hin]]%list_elem_of_fmap ->%list_elem_of_singleton.
      rewrite Forall_forall in Hb. specialize (Hb g Hin). cbn in Hb. lia.
    + apply Forall_app. split; [|by repeat constructor; lia].
      eapply Forall_impl; [done|]. cbn. lia.
    + cbn in H2, H4, H5. split_and!; [done|lia|done|].
      intros g. rewrite elem_of_cons, (H4 g). tauto.
  - destruct (hold_spec d f Hp ltac:(lia)) as (H1 & H2 & H3 & H4 & H5 & H6 & _).
    rewrite app_nil_r. cbn [d_next d_pending d_maxPending].
    split_and!; [|lia|done|].
    + split; cbn [d_next d_pending d_gapSince]; rewrite ?H2; try done.
      split; [|done]. unfold is_zero. destruct (Z.eqb_spec (d_gapSince (hold d f)) 0); done.
    + intros g [?%elem_of_nil|?%H6]; tauto.
Qed.

Lemma Delivery_Push_inv now d out fs :
  dinv d out → Forall (λ f, seq_ok (f_seq f)) fs → now ≠ 0 →
  let '(o, d') := Delivery_Push now d fs in
  dinv d' (out ++ o) ∧ d_next d ≤ d_next d' ∧ d_maxPending d' = d_maxPending d ∧
  (∀ g, g ∈ o ∨ d_pending d' !! f_seq g = Some g → g ∈ fs ∨ d_pending d !! f_seq g = Some g).
Proof.
  intros Hinv Hfs Hnow. revert d out Hinv.
  induction Hfs as [|f fs Hf _ IH]; intros d out Hinv; simpl.
  { rewrite app_nil_r. split_and!; [done|lia|done|]. intros g [?|?]; auto. }
  pose proof (push_one_inv now d out f Hinv Hf Hnow) as H1.
  destruct (push_one now d f) as [o d1]. destruct H1 as (I1 & N1 & M1 & G1).
  specialize (IH d1 (out ++ o) I1). destruct (Delivery_Push now d1 fs) as [o' d2].
  destruct IH as (I2 & N2 & M2 & G2). rewrite <- app_assoc in I2.
  split_and!; [done|lia|congruence|]. intros g. rewrite elem_of_app, elem_of_cons.
  intros [[Hg|Hg]|Hg].
  - destruct (G1 g); auto.
  - destruct (G2 g) as [|Hx]; auto. destruct (G1 g); auto.
  - destruct (G2 g) as [|Hx]; auto. destruct (G1 g); auto.
Qed.

(** The candidate [Tick] selects: the lowest pending number. *)
Lemma tick_lowest lo pending :
  pending_ok lo pending → 1 ≤ lo → pending ≠ ∅ →
  let m := range_min (λ seq lo, (lo =? 0) || behind seq lo) 0 (range pending) in
  m ≠ 0 ∧ (∃ f, pending !! m = Some f) ∧ (∀ s f, pending !! s = Some f → m ≤ s).
Proof.
  intros Hp Hlo Hne. cbn zeta. destruct (range pending) as [|[k v] rest] eqn:E.
  { exfalso. apply Hne, map_empty. intros s. destruct (pending !! s) as [f|] eqn:Es; [|done].
    apply elem_of_range in Es. rewrite E in Es. by apply elem_of_nil in Es. }
  assert (Hin : ∀ s f, (s, f) ∈ (k, v) :: rest ↔ pending !! s = Some f)
    by (intros; rewrite <- E; apply elem_of_range).
  assert (Hr : ∀ s f, (s, f) ∈ (k, v) :: rest → seq_ok s).
  { intros s f Hs%Hin. apply Hp in Hs. unfold seq_ok. lia. }
  assert (Hk : seq_ok k) by (eapply Hr, elem_of_cons; by left).
  unfold range_min. cbn [foldl fst]. rewrite Z.eqb_refl. cbn [orb].
  destruct (range_min_spec (λ seq lo, (lo =? 0) || behind seq lo) seq_ok k rest) as (H1 & H2 & H3).
  { done. }
  { intros s f Hs. eapply Hr, elem_of_cons. by right. }
  { intros a b Ha Hb. unfold seq_ok in *. rewrite (proj2 (Z.eqb_neq b 0)) by lia.
    by rewrite behind_spec by lia. }
  fold (range_min (λ seq lo, (lo =? 0) || behind seq lo) k rest).
  set (m := range_min _ k rest) in *.
  assert (Hm : ∃ f, (m, f) ∈ (k, v) :: rest).
  { destruct H1 as [->|[f Hf]]; [exists v|exists f]; apply elem_of_cons; auto. }
  destruct Hm as [f Hm]. split_and!.
  - apply Hr in Hm. unfold seq_ok in Hm. lia.
  - exists f. by apply Hin.
  - intros s g Hs%Hin. apply elem_of_cons in Hs as [[= -> ->]|Hs]; [lia|by eapply H3].
Qed.

Lemma Delivery_Tick_inv now d out :
  dinv d out →
  let '(o, d') := Delivery_Tick now d in
  dinv d' (out ++ o) ∧ d_next d ≤ d_next d' ∧
  (∀ g, g ∈ o ∨ d_pending d' !! f_seq g = Some g → d_pending d !! f_seq g = Some g).
Proof.
  intros Hinv. pose proof Hinv as [Hn Hp Hg Hs Hb]. unfold Delivery_Tick.
  destruct (is_zero (d_gapSince d) || _) eqn:Ec.
  { rewrite app_nil_r. split_and!; [done|lia|]. by intros g [?%elem_of_nil|?]. }
  apply orb_false_iff in Ec as [Ez _]. apply Z.eqb_neq in Ez.
  assert (Hne : d_pending d ≠ ∅) by tauto.
  destruct (tick_lowest _ _ Hp ltac:(lia) Hne) as (H1 & [f H2] & H3).
  set (m := range_min _ _ _) in *. rewrite (proj2 (Z.eqb_neq m 0)) by done.
  destruct (Hp _ _ H2) as [_ Hm]. set (d0 := mkDelivery _ _ _ _ _ _).
  pose proof (drainContiguous_inv d0 out []) as Hd. destruct (drainContiguous d0) as [o d'].
  destruct Hd as (I1 & I2 & _ & I4 & _); cbn [d0 d_next d_pending d_gapSince]; rewrite ?app_nil_r.
  - lia.
  - intros s g Hsg. pose proof (H3 _ _ Hsg). apply Hp in Hsg. split; [tauto|lia].
  - tauto.
  - done.
  - eapply Forall_impl; [done|]. cbn. lia.
  - cbn in I2, I4. split_and!; [done|lia|]. intros g. rewrite (I4 g). tauto.
Qed.
End proofs.

(** ** Runs of the buffer *)

(** What the client's loops do to the buffer: push decoded frames at some time,
    or tick. *)
Inductive devent : Type :=
| EPush (now : time) (fs : list frame)
| ETick (now : time).

Definition pushed (es : list devent) : list frame :=
  es ≫= λ e, match e with EPush _ fs => fs | ETick _ => [] end.

Lemma pushed_cons e es : pushed (e :: es) = pushed [e] ++ pushed es.
Proof. unfold pushed. simpl. by rewrite app_nil_r. Qed.

(** Clock readings are after the zero time and numbers do not wrap. *)
Definition event_ok (e : devent) : Prop :=
  match e with
  | EPush now fs => now ≠ 0 ∧ Forall (λ f, seq_ok (f_seq f)) fs
  | ETick _ => True
  end.

Section runs.
Context `{!RangeOrder Z frame}.

Fixpoint drun (d : deliveryBuffer) (es : list devent) : list frame * deliveryBuffer :=
  match es with
  | [] => ([], d)
  | e :: es =>
      let '(o, d1) := match e with
                      | EPush now fs => Delivery_Push now d fs
                      | ETick now => Delivery_Tick now d
                      end in
      let '(o', d2) := drun d1 es in
      (o ++ o', d2)
  end.

Lemma drun_inv d out es :
  dinv d out → Forall event_ok es →
  let '(o, d') := drun d es in
  dinv d' (out ++ o) ∧
  (∀ g, g ∈ o ∨ d_pending d' !! f_seq g = Some g →
     g ∈ pushed es ∨ d_pending d !! f_seq g = Some g).
Proof.
  intros Hinv Hes. revert d out Hinv.
  induction Hes as [|e es He _ IH]; intros d out Hinv; cbn [drun].
  { rewrite app_nil_r. split; [done|]. by intros g [?%elem_of_nil|]; [|right]. }
  assert (Hstep : let '(o, d1) := match e with
      | EPush now fs => Delivery_Push now d fs | ETick now => Delivery_Tick now d end in
    dinv d1 (out ++ o) ∧ (∀ g, g ∈ o ∨ d_pending d1 !! f_seq g = Some g →
      g ∈ pushed [e] ∨ d_pending d !! f_seq g = Some g)).
  { destruct e as [now fs|now]; cbn [pushed mbind list_bind]; rewrite ?app_nil_r.
    - destruct He as [H0 Hf]. pose proof (Delivery_Push_inv now d out fs Hinv Hf H0) as Hp.
      destruct (Delivery_Push now d fs). tauto.
    - pose proof (Delivery_Tick_inv now d out Hinv) as Ht.
      destruct (Delivery_Tick now d). destruct Ht as (? & _ & Ht). auto. }
  destruct (match e with EPush now fs => _ | ETick now => _ end) as [o d1].
  destruct Hstep as [I1 G1]. specialize (IH d1 (out ++ o) I1).
  destruct (drun d1 es) as [o' d2]. destruct IH as [I2 G2]. rewrite <- app_assoc in I2.
  split; [done|]. intros g. rewrite pushed_cons, !elem_of_app. intros [[Hg|Hg]|Hg].
  - destruct (G1 g); auto.
  - destruct (G2 g); auto. destruct (G1 g); auto.
  - destruct (G2 g); auto. destruct (G1 g); auto.
Qed.

(** C12 — In-order, exactly-once delivery, for sequence numbers in [1, 2^31). For
    every interleaving of pushes of such frames and of ticks, with positive clock
    readings, the frames handed to the inner peer are frames that were pushed,
    and their sequence numbers strictly increase: nothing is reordered,
    duplicated or invented. Beyond 2^31 the circular comparison of the source
    takes old numbers for new ones. *)
Theorem delivery_in_order gapTimeout maxPending es :
  Forall event_ok es →
  let out := (drun (newDeliveryBuffer gapTimeout maxPending) es).1 in
  StronglySorted Z.lt (f_seq <$> out) ∧ (∀ f, f ∈ out → f ∈ pushed es).
Proof.
  intros Hes. pose proof (drun_inv _ [] es (dinv_new gapTimeout maxPending) Hes) as H.
  destruct (drun _ es) as [o d']. destruct H as [Hi Hg]. cbn [fst]. split; [apply Hi|].
  intros f Hf. destruct (Hg f) as [|Hx]; [by left|done|].
  cbn in Hx. by rewrite lookup_empty in Hx.
Qed.

Lemma push_one_complete now d f :
  dinv d [] → d_pending d !! f_seq f = None → seq_ok (f_seq f) → d_next d ≤ f_seq f →
  Z.of_nat (size (d_pending d)) < d_maxPending d →
  let '(o, d') := push_one now d f in
  f_seq <$> o = seqZ (d_next d) (d_next d' - d_next d) ∧
  (∀ g, g = f ∨ d_pending d !! f_seq g = Some g → g ∈ o ∨ d_pending d' !! f_seq g = Some g).
Proof.
  intros Hinv Hnew Hf Hge Hroom. pose proof Hinv as [Hn Hp Hg _ _]. unfold push_one.
  unfold seq_ok in Hf. rewrite behind_spec, (proj2 (Z.ltb_ge _ _)) by lia.
  destruct (Z.eqb_spec (f_seq f) (d_next d)) as [Heq|Hne].
  - rewrite u32_small by (unfold_int; lia). set (d0 := mkDelivery _ _ _ _ _ _).
    pose proof (drainContiguous_inv d0 [] []) as Hd.
    destruct (drainContiguous d0) as [o d'].
    destruct Hd as (_ & H2 & H3 & H4 & _); cbn [d0 d_next d_pending d_gapSince app];
      [lia|done|tauto|constructor|constructor|].
    cbn in H2, H3, H4. split.
    + rewrite fmap_cons, H3, Heq. symmetry. rewrite seqZ_cons by lia. do 2 f_equal; lia.
    + intros g [->|Hx]; [by left; apply elem_of_cons; left|].
      apply H4 in Hx as [|]; [left; apply elem_of_cons|]; auto.
  - destruct (hold_spec d f Hp ltac:(lia)) as (_ & H2 & _ & _ & _ & _ & H7).
    cbn [d_next d_pending]. rewrite H2, Z.sub_diag. split; [done|].
    rewrite H7 by done. intros g [->|Hx]; right; [by rewrite lookup_insert_eq|].
    rewrite lookup_insert_ne; [done|]. intros E. rewrite E in Hnew. congruence.
Qed.

(** Progress of a lossless run: [seen] are the frames processed so far. *)
Record lossless (d : deliveryBuffer) (out seen : list frame) : Prop := {
  ll_inv : dinv d out;
  ll_out : f_seq <$> out = seqZ 1 (d_next d - 1);
  ll_seen : ∀ g, g ∈ seen ↔ g ∈ out ∨ d_pending d !! f_seq g = Some g;
}.

Lemma lossless_size d out seen :
  lossless d out seen → (size (d_pending d) ≤ length seen)%nat.
Proof.
  intros [Hi _ Hs]. rewrite <- length_map_to_list.
  rewrite <- (length_fmap snd (map_to_list _)). apply submseteq_length, NoDup_submseteq.
  - apply (NoDup_fmap_1 f_seq). rewrite <- list_fmap_compose.
    rewrite (list_fmap_ext _ fst); [apply NoDup_fst_map_to_list|].
    intros i [s f] Hl%list_elem_of_lookup_2. apply elem_of_map_to_list in Hl.
    by apply Hi in Hl as [? _].
  - intros g [[s f] [-> Hl]]%list_elem_of_fmap. apply elem_of_map_to_list in Hl.
    apply Hs. right. cbn. pose proof Hl as [-> _]%(di_pending _ _ Hi). done.
Qed.

Lemma lossless_push now d out seen f :
  lossless d out seen → now ≠ 0 → seq_ok (f_seq f) → f_seq f ∉ f_seq <$> seen →
  Z.of_nat (length seen) < d_maxPending d →
  let '(o, d') := push_one now d f in
  lossless d' (out ++ o) (seen ++ [f]) ∧ d_maxPending d' = d_maxPending d.
Proof.
  intros Hll Hnow Hf Hfresh Hroom. pose proof (lossless_size _ _ _ Hll) as Hsz.
  destruct Hll as [Hi Ho Hs]. pose proof (di_next _ _ Hi) as Hn.
  assert (Hge : d_next d ≤ f_seq f).
  { destruct (Z.le_gt_cases (d_next d) (f_seq f)) as [|Hlt]; [done|]. exfalso. apply Hfresh.
    unfold seq_ok in Hf. assert (Hin : f_seq f ∈ f_seq <$> out).
    { rewrite Ho. apply elem_of_seqZ. lia. }
    apply list_elem_of_fmap in Hin as (g & -> & Hg). apply list_elem_of_fmap_2. apply Hs. auto. }
  assert (Hnew : d_pending d !! f_seq f = None).
  { destruct (d_pending d !! f_seq f) as [g|] eqn:Eg; [|done]. exfalso. apply Hfresh.
    pose proof Eg as [E _]%(di_pending _ _ Hi). rewrite <- E in Eg |- *.
    apply list_elem_of_fmap_2. apply Hs. auto. }
  assert (Hi0 : dinv d []) by (destruct Hi; split; try done; constructor).
  pose proof (push_one_complete now d f Hi0 Hnew Hf Hge ltac:(lia)) as Hc.
  pose proof (push_one_inv now d out f Hi Hf Hnow) as Hp.
  destruct (push_one now d f) as [o d']. destruct Hc as [C1 C2], Hp as (P1 & P2 & P3 & P4).
  split; [|done]. split; [done| |].
  - rewrite fmap_app, Ho, C1. replace (d_next d) with (1 + (d_next d - 1)) at 2 by lia.
    rewrite <- seqZ_app by lia. f_equal. lia.
  - intros g. rewrite !elem_of_app, list_elem_of_singleton, Hs. split.
    + intros [[?|Hx]| ->]; [by auto| |].
      * destruct (C2 g); auto.
      * destruct (C2 f); auto.
    + intros [[?|Hx]|Hx]; [by auto| |]; destruct (P4 g); auto.
Qed.

Lemma lossless_pushes now d out seen fs :
  lossless d out seen → now ≠ 0 → Forall (λ f, seq_ok (f_seq f)) fs →
  NoDup (f_seq <$> seen ++ fs) → Z.of_nat (length (seen ++ fs)) ≤ d_maxPending d →
  let '(o, d') := Delivery_Push now d fs in lossless d' (out ++ o) (seen ++ fs).
Proof.
  intros Hll Hnow Hfs. revert d out seen Hll.
  induction Hfs as [|f fs Hf _ IH]; intros d out seen Hll Hnd Hlen; cbn [Delivery_Push].
  { by rewrite !app_nil_r. }
  assert (Hfresh : f_seq f ∉ f_seq <$> seen).
  { rewrite fmap_app in Hnd. apply NoDup_app in Hnd as (_ & Hd & _). intros Hin.
    apply (Hd _ Hin). rewrite fmap_cons. apply elem_of_cons. by left. }
  rewrite length_app in Hlen. cbn [length] in Hlen.
  pose proof (lossless_push now d out seen f Hll Hnow Hf Hfresh ltac:(lia)) as H1.
  destruct (push_one now d f) as [o d1]. destruct H1 as [L1 M1].
  replace (seen ++ f :: fs) with ((seen ++ [f]) ++ fs) in * by (by rewrite <- app_assoc).
  specialize (IH d1 (out ++ o) (seen ++ [f]) L1 Hnd).
  destruct (Delivery_Push now d1 fs) as [o' d2]. rewrite app_assoc. apply IH.
  rewrite !length_app. cbn [length]. lia.
Qed.

(** C25 — Lossless reassembly. When every frame of a contiguous run arrives
    exactly once, in any order, and the run fits the buffer, the buffer
    delivers all of them in sequence order and is left empty — no gap timer
    is involved and no frame is dropped. *)
Theorem delivery_reassembles now gapTimeout maxPending n fs :
  now ≠ 0 → 0 < maxPending → 0 ≤ n ≤ maxPending → n < 2 ^ 31 - 1 →
  f_seq <$> fs ≡ₚ seqZ 1 n →
  let '(out, d) := Delivery_Push now (newDeliveryBuffer gapTimeout maxPending) fs in
  f_seq <$> out = seqZ 1 n ∧ out ≡ₚ fs ∧ d_pending d = ∅ ∧ d_next d = n + 1.
Proof.
  intros Hnow Hmp Hn Hn' Hperm.
  assert (Hseq : ∀ f, f ∈ fs → 1 ≤ f_seq f ≤ n).
  { intros f Hf%(list_elem_of_fmap_2 f_seq). rewrite Hperm in Hf. apply elem_of_seqZ in Hf. lia. }
  assert (Hlen : length fs = Z.to_nat n).
  { by rewrite <- (length_fmap f_seq), Hperm, length_seqZ. }
  pose proof (lossless_pushes now (newDeliveryBuffer gapTimeout maxPending) [] [] fs) as H.
  destruct (Delivery_Push _ _ fs) as [out d].
  destruct H as [Hi Ho Hs].
  { split; [apply dinv_new|done|]. intros g. cbn. rewrite elem_of_nil, lookup_empty.
    split; [done|]. by intros []. }
  { done. }
  { apply Forall_forall. intros f Hf%Hseq. unfold seq_ok. lia. }
  { cbn [app]. rewrite Hperm. apply NoDup_seqZ. }
  { cbn [app newDeliveryBuffer d_maxPending]. rewrite (proj2 (Z.leb_gt _ _)) by lia. lia. }
  cbn [app] in *. pose proof (di_next _ _ Hi).
  assert (Hnext : d_next d = n + 1).
  { destruct (Z.lt_trichotomy (d_next d) (n + 1)) as [Hlt|[|Hgt]]; [|done|].
    - assert (Hin : d_next d ∈ f_seq <$> fs) by (rewrite Hperm; apply elem_of_seqZ; lia).
      apply list_elem_of_fmap in Hin as (g & E & Hg). apply Hs in Hg as [Hg|Hg].
      + pose proof (di_below _ _ Hi) as Hb. rewrite Forall_forall in Hb.
        specialize (Hb g Hg). cbn in Hb. lia.
      + apply (di_pending _ _ Hi) in Hg. lia.
    - assert (Hin : n + 1 ∈ f_seq <$> out) by (rewrite Ho; apply elem_of_seqZ; lia).
      apply list_elem_of_fmap in Hin as (g & E & Hg).
      assert (g ∈ fs) as ?%Hseq by (apply Hs; auto). lia. }
  assert (Hempty : d_pending d = ∅).
  { apply map_empty. intros s. destruct (d_pending d !! s) as [g|] eqn:Eg; [|done].
    pose proof Eg as [E ?]%(di_pending _ _ Hi).
    assert (g ∈ fs) as ?%Hseq by (apply Hs; rewrite E; auto). lia. }
  assert (Hout : f_seq <$> out = seqZ 1 n) by (rewrite Ho, Hnext; f_equal; lia).
  split_and!; try done. apply NoDup_Permutation.
  - apply (NoDup_fmap_1 f_seq). rewrite Hout. apply NoDup_seqZ.
  - apply (NoDup_fmap_1 f_seq). rewrite Hperm. apply NoDup_seqZ.
  - intros g. rewrite Hs, Hempty, lookup_empty. split; [by left|by intros [|]].
Qed.

(** A tick after the timeout delivers the lowest waiting frame first. *)
Lemma delivery_tick_delivers now d out :
  dinv d out → d_pending d ≠ ∅ → d_gapTimeout d ≤ time_sub now (d_gapSince d) →
  let '(o, d') := Delivery_Tick now d in
  ∃ f o', o = f :: o' ∧ d_pending d !! f_seq f = Some f ∧
    (∀ s g, d_pending d !! s = Some g → f_seq f ≤ s) ∧
    (size (d_pending d') < size (d_pending d))%nat.
Proof.
  intros Hi Hne Hto. pose proof Hi as [Hn Hp Hg _ _]. unfold Delivery_Tick.
  rewrite (proj2 (Z.ltb_ge _ _)) by done. unfold is_zero.
  rewrite (proj2 (Z.eqb_neq (d_gapSince d) 0)) by tauto. cbn [orb].
  destruct (tick_lowest _ _ Hp ltac:(lia) Hne) as (H1 & [f H2] & H3).
  set (m := range_min _ _ _) in *. rewrite (proj2 (Z.eqb_neq m 0)) by done.
  pose proof H2 as [Hfm Hm]%Hp. unfold drainContiguous. cbn [d_pending d_next].
  destruct (size (d_pending d)) as [|k] eqn:Esz; [apply map_size_empty_inv in Esz; done|].
  cbn [drain]. rewrite H2.
  destruct (drain k (u32 (m + 1)) (delete m (d_pending d))) as [[o n'] p'] eqn:Ed.
  exists f, o. cbn [d_pending]. split_and!; [done|by rewrite Hfm|by rewrite Hfm|].
  assert (Hsz : size (delete m (d_pending d)) = k) by (rewrite map_size_delete_Some, Esz by eauto; lia).
  rewrite u32_small in Ed by (unfold_int; lia).
  assert (Hpk : pending_ok m (d_pending d)).
  { intros s g Hsg. pose proof (H3 _ _ Hsg). apply Hp in Hsg. split; [tauto|lia]. }
  destruct (drain_spec _ _ _ _ _ _ Ed) as (_ & _ & D3 & _);
    [lia|by apply pending_ok_delete|by rewrite Hsz|].
  rewrite <- Hsz. apply Nat.lt_succ_r, map_subseteq_size.
  apply map_subseteq_spec. intros s g Hs%D3. tauto.
Qed.

(** Bounded head-of-line blocking. Once the gap timer has run for the
    configured time with frames waiting, the next tick delivers: the first
    delivered frame is the lowest waiting one and fewer frames are left. *)
Theorem delivery_gap_skipped now d out :
  dinv d out → d_pending d ≠ ∅ → d_gapTimeout d ≤ time_sub now (d_gapSince d) →
  let '(o, d') := Delivery_Tick now d in
  ∃ f o', o = f :: o' ∧ d_pending d !! f_seq f = Some f ∧
    (∀ s g, d_pending d !! s = Some g → f_seq f ≤ s) ∧
    (size (d_pending d') < size (d_pending d))%nat.
Proof. apply delivery_tick_delivers. Qed.

Lemma Tick_keeps_timer now d out o d' :
  dinv d out → Delivery_Tick now d = (o, d') → d_pending d' ≠ ∅ →
  d_gapSince d' = d_gapSince d ∧ d_gapTimeout d' = d_gapTimeout d.
Proof.
  intros Hi E Hne. pose proof Hi as [Hn Hp Hg _ _]. unfold Delivery_Tick in E.
  destruct (is_zero (d_gapSince d) || _) eqn:Ec; [by injection E as <- <-|].
  apply orb_false_iff in Ec as [Ez _]. apply Z.eqb_neq in Ez.
  destruct (tick_lowest _ _ Hp ltac:(lia) ltac:(tauto)) as (H1 & _).
  set (m := range_min _ _ _) in *. rewrite (proj2 (Z.eqb_neq m 0)) in E by done.
  unfold drainContiguous in E. cbn [d_pending d_next] in E.
  destruct (drain _ _ _) as [[o' n'] p']. injection E as <- <-. cbn in *.
  destruct (Nat.eqb_spec (size p') 0) as [Ez'|]; [|done]. by apply map_size_empty_inv in Ez'.
Qed.

(** The gap timer is not restarted. When a tick skips a hole and frames
    stay behind a further hole, the very next tick, however soon, skips that
    hole too: its waiting time is measured from the start of the first gap. *)
Theorem delivery_next_hole_skipped_at_once now now' d out o d' :
  dinv d out → d_pending d ≠ ∅ → d_gapTimeout d ≤ time_sub now (d_gapSince d) →
  now ≤ now' → Delivery_Tick now d = (o, d') → d_pending d' ≠ ∅ →
  ∃ f o', (Delivery_Tick now' d').1 = f :: o'.
Proof.
  intros Hi Hne Hto Hnow E Hne'. destruct (Tick_keeps_timer _ _ _ _ _ Hi E Hne') as [Hs Ht].
  pose proof (Delivery_Tick_inv now d out Hi) as Hi'. rewrite E in Hi'. destruct Hi' as [Hi' _].
  pose proof (delivery_tick_delivers now' d' _ Hi' Hne') as H. rewrite Hs, Ht in H.
  destruct (Delivery_Tick now' d') as [o2 d2].
  destruct H as (f & o' & -> & _); [|by exists f, o']. unfold time_sub in *. lia.
Qed.

(** Frames [n+1, n, ..., 2] in that order. *)
Fixpoint descending (n : nat) : list frame :=
  match n with
  | O => []
  | S k => new_frame 0 0 (Z.of_nat k + 2) 0 [] :: descending k
  end.

Lemma hold_lowest d f :
  (∀ s g, d_pending d !! s = Some g → f_seq f < s < 2 ^ 31) → 0 ≤ f_seq f < 2 ^ 31 →
  d_pending (hold d f) = <[f_seq f := f]> (d_pending d) ∧ d_next (hold d f) = d_next d.
Proof.
  intros Hk Hf. unfold hold.
  assert (Hnone : d_pending d !! f_seq f = None).
  { destruct (d_pending d !! f_seq f) eqn:E; [|done]. apply Hk in E. lia. }
  rewrite Hnone. cbn [d_pending d_next]. split; [|done].
  destruct (range_min_spec behind (λ s, 0 ≤ s < 2 ^ 31) (f_seq f) (range (d_pending d)))
    as (H1 & H2 & _).
  { done. }
  { intros s g Hs%elem_of_range. apply Hk in Hs. lia. }
  { intros a b Ha Hb. by rewrite behind_spec by lia. }
  assert (Hlo : range_min behind (f_seq f) (range (d_pending d)) = f_seq f).
  { destruct H1 as [|[g Hg%elem_of_range]]; [done|]. apply Hk in Hg. lia. }
  rewrite Hlo. case_match; [|done]. by rewrite delete_id by done.
Qed.

Lemma push_descending now d n :
  d_next d = 1 → Z.of_nat n + 2 < 2 ^ 31 →
  (∀ s g, d_pending d !! s = Some g → Z.of_nat n + 1 < s < 2 ^ 31) →
  size (d_pending (Delivery_Push now d (descending n)).2) = (size (d_pending d) + n)%nat.
Proof.
  revert d. induction n as [|n IH]; intros d Hd Hn Hk; cbn [descending Delivery_Push].
  { cbn. lia. }
  set (f := new_frame _ _ _ _ _). assert (Hf : f_seq f = Z.of_nat n + 2) by done.
  unfold push_one. rewrite Hd, Hf, behind_spec by lia.
  rewrite (proj2 (Z.ltb_ge _ _)), (proj2 (Z.eqb_neq _ _)) by lia.
  destruct (hold_lowest d f) as [Hp Hnx].
  { intros s g Hs%Hk. lia. } { lia. }
  set (d1 := mkDelivery _ _ _ _ _ _).
  specialize (IH d1). destruct (Delivery_Push now d1 (descending n)) as [o d2].
  cbn [snd] in *. rewrite IH; unfold d1; cbn [d_pending d_next].
  - rewrite Hp, map_size_insert_None; [lia|].
    destruct (d_pending d !! f_seq f) eqn:E; [|done]. apply Hk in E. lia.
  - by rewrite Hnx.
  - lia.
  - intros s g. rewrite Hp. intros [[<- _]|[_ Hs%Hk]]%lookup_insert_Some; lia.
Qed.

(** The bound on the reorder buffer is not enforced. Frames that arrive
    in descending order are all held, whatever [maxPending] is: a frame below
    every held one selects itself as the victim, deletes nothing, and is
    inserted. *)
Theorem delivery_bound_not_enforced now gapTimeout maxPending n :
  Z.of_nat n + 2 < 2 ^ 31 →
  pendingCount (Delivery_Push now (newDeliveryBuffer gapTimeout maxPending) (descending n)).2
  = Z.of_nat n.
Proof.
  intros Hn. unfold pendingCount. rewrite push_descending; [done|done|done|].
  intros s g. cbn. by rewrite lookup_empty.
Qed.
End runs.

(** ** Witnesses *)

#[local] Existing Instance key_order.
(** A one-byte data frame of session 7. *)
Definition sample_frame (s : Z) : frame := new_frame 0 7 s 0 [x2a].

Lemma delivery_in_order_witness :
  let es := [EPush 10 [sample_frame 2; sample_frame 1]; EPush 20 [sample_frame 5]; ETick 200000000; EPush 30 [sample_frame 5]] in
  Forall event_ok es ∧
  StronglySorted Z.lt (f_seq <$> (drun (newDeliveryBuffer 0 0) es).1) ∧
  f_seq <$> (drun (newDeliveryBuffer 0 0) es).1 = [1; 2; 5].
Proof.
  cbn zeta. assert (Hok : Forall event_ok
    [EPush 10 [sample_frame 2; sample_frame 1]; EPush 20 [sample_frame 5]; ETick 200000000; EPush 30 [sample_frame 5]]).
  { repeat constructor; unfold seq_ok; cbn; lia. }
  split; [done|]. split; [|by vm_compute]. by apply (delivery_in_order 0 0).
Defined.

Lemma delivery_reassembles_witness :
  let '(out, d) := Delivery_Push 10 (newDeliveryBuffer 0 64) [sample_frame 3; sample_frame 1; sample_frame 2] in
  f_seq <$> out = seqZ 1 3 ∧ out ≡ₚ [sample_frame 3; sample_frame 1; sample_frame 2] ∧ d_pending d = ∅ ∧ d_next d = 3 + 1.
Proof.
  apply (delivery_reassembles 10 0 64 3 [sample_frame 3; sample_frame 1; sample_frame 2]); [done|done|done|done|].
  change (seqZ 1 3) with [1; 2; 3]. cbn.
  rewrite Permutation_swap. apply Permutation_skip, Permutation_swap.
Defined.

Lemma delivery_gap_skipped_witness :
  let d := (Delivery_Push 10 (newDeliveryBuffer 0 64) [sample_frame 3; sample_frame 5]).2 in
  let '(o, d') := Delivery_Tick 200000000 d in
  ∃ f o', o = f :: o' ∧ d_pending d !! f_seq f = Some f ∧
    (∀ s g, d_pending d !! s = Some g → f_seq f ≤ s) ∧
    (size (d_pending d') < size (d_pending d))%nat.
Proof.
  cbn zeta. pose proof (Delivery_Push_inv 10 (newDeliveryBuffer 0 64) [] [sample_frame 3; sample_frame 5]
    (dinv_new _ _) ltac:(repeat constructor; unfold seq_ok; cbn; lia) ltac:(done)) as Hi.
  destruct (Delivery_Push 10 (newDeliveryBuffer 0 64) [sample_frame 3; sample_frame 5]) as [o d] eqn:E.
  destruct Hi as [Hi _]. cbn [snd]. apply (delivery_gap_skipped 200000000 d ([] ++ o)); [done| |].
  - injection E as <- <-. by vm_compute.
  - injection E as <- <-. by vm_compute.
Defined.

Lemma delivery_next_hole_skipped_at_once_witness :
  let d := (Delivery_Push 10 (newDeliveryBuffer 0 64) [sample_frame 3; sample_frame 5]).2 in
  let d' := (Delivery_Tick 200000000 d).2 in
  ∃ f o', (Delivery_Tick 200000001 d').1 = f :: o'.
Proof.
  cbn zeta. pose proof (Delivery_Push_inv 10 (newDeliveryBuffer 0 64) [] [sample_frame 3; sample_frame 5]
    (dinv_new _ _) ltac:(repeat constructor; unfold seq_ok; cbn; lia) ltac:(done)) as Hi.
  destruct (Delivery_Push 10 (newDeliveryBuffer 0 64) [sample_frame 3; sample_frame 5]) as [o d] eqn:E.
  destruct Hi as [Hi _]. cbn [snd].
  apply (delivery_next_hole_skipped_at_once 200000000 200000001 d ([] ++ o)
           (Delivery_Tick 200000000 d).1 (Delivery_Tick 200000000 d).2).
  - done.
  - injection E as <- <-. by vm_compute.
  - injection E as <- <-. by vm_compute.
  - lia.
  - by destruct (Delivery_Tick 200000000 d).
  - injection E as <- <-. by vm_compute.
Defined.

Lemma delivery_bound_not_enforced_witness :
  pendingCount (Delivery_Push 10 (newDeliveryBuffer 0 64) (descending 100)).2 = 100.
Proof. apply (delivery_bound_not_enforced 10 0 64 100). by vm_compute. Defined.
