(* ===== verification/Health.v ===== *)
(** * Path health and circuit breaker (internal/health/health.go)

    The loss/RTT/jitter estimators and the HEALTHY / DEGRADED / DOWN state
    machine of one WAN, on float64 estimates. *)

From S2P Require Import Prelude Float64.

#[local] Open Scope Z_scope.

Inductive State : Type := StateHealthy | StateDegraded | StateDown.

#[export] Instance State_eq_dec : EqDecision State.
Proof. solve_decision. Defined.

(** [State.String]. *)
Definition State_String (s : State) : string :=
  match s with
  | StateHealthy => "healthy"
  | StateDegraded => "degraded"
  | StateDown => "down"
  end.

Record Options := mkOptions {
  o_MaxLoss : f64;
  o_DegradeAfter : duration;
  o_RecoverAfter : duration;
  o_DownAfterMisses : Z;
  o_DownGrace : duration;
  o_LossAlphaFast : f64;
  o_LossAlphaSlow : f64;
  o_JitterAlpha : f64;
}.

Record Monitor := mkMonitor {
  maxLoss : f64;
  degradeAft : duration;
  recoverAft : duration;
  downAftMiss : Z;
  downGrace : duration;
  alphaFast : f64;
  alphaSlow : f64;
  jitterAlpha : f64;
  loss : f64;
  rtt : duration;
  jitter : duration;
  state : State;
  misses : Z;
  missSince : time;
  condSince : time;
  revived : bool;
  inBandBad : Z;
}.

(** Field updates. *)
Definition with_loss (x : f64) (m : Monitor) : Monitor :=
  mkMonitor (maxLoss m) (degradeAft m) (recoverAft m) (downAftMiss m) (downGrace m)
    (alphaFast m) (alphaSlow m) (jitterAlpha m) x (rtt m) (jitter m) (state m)
    (misses m) (missSince m) (condSince m) (revived m) (inBandBad m).
Definition with_rtt (r j : duration) (m : Monitor) : Monitor :=
  mkMonitor (maxLoss m) (degradeAft m) (recoverAft m) (downAftMiss m) (downGrace m)
    (alphaFast m) (alphaSlow m) (jitterAlpha m) (loss m) r j (state m)
    (misses m) (missSince m) (condSince m) (revived m) (inBandBad m).
Definition with_state (s : State) (m : Monitor) : Monitor :=
  mkMonitor (maxLoss m) (degradeAft m) (recoverAft m) (downAftMiss m) (downGrace m)
    (alphaFast m) (alphaSlow m) (jitterAlpha m) (loss m) (rtt m) (jitter m) s
    (misses m) (missSince m) (condSince m) (revived m) (inBandBad m).
Definition with_misses (n : Z) (since : time) (m : Monitor) : Monitor :=
  mkMonitor (maxLoss m) (degradeAft m) (recoverAft m) (downAftMiss m) (downGrace m)
    (alphaFast m) (alphaSlow m) (jitterAlpha m) (loss m) (rtt m) (jitter m) (state m)
    n since (condSince m) (revived m) (inBandBad m).
Definition with_cond (t : time) (m : Monitor) : Monitor :=
  mkMonitor (maxLoss m) (degradeAft m) (recoverAft m) (downAftMiss m) (downGrace m)
    (alphaFast m) (alphaSlow m) (jitterAlpha m) (loss m) (rtt m) (jitter m) (state m)
    (misses m) (missSince m) t (revived m) (inBandBad m).
Definition with_revived (b : bool) (m : Monitor) : Monitor :=
  mkMonitor (maxLoss m) (degradeAft m) (recoverAft m) (downAftMiss m) (downGrace m)
    (alphaFast m) (alphaSlow m) (jitterAlpha m) (loss m) (rtt m) (jitter m) (state m)
    (misses m) (missSince m) (condSince m) b (inBandBad m).
Definition with_inBandBad (n : Z) (m : Monitor) : Monitor :=
  mkMonitor (maxLoss m) (degradeAft m) (recoverAft m) (downAftMiss m) (downGrace m)
    (alphaFast m) (alphaSlow m) (jitterAlpha m) (loss m) (rtt m) (jitter m) (state m)
    (misses m) (missSince m) (condSince m) (revived m) n.

(** [x <= 0 || x >= 1]: the test that makes an option fall back. *)
Definition outside_unit (x : f64) : bool := (x <=.? f0) || (f1 <=.? x).

(** [New]. *)
Definition New (opts : Options) : Monitor :=
  mkMonitor
    (if outside_unit (o_MaxLoss opts) then of_dec 2 10 else o_MaxLoss opts)
    (if o_DegradeAfter opts <=? 0 then 3 * second else o_DegradeAfter opts)
    (if o_RecoverAfter opts <=? 0 then 10 * second else o_RecoverAfter opts)
    (if o_DownAfterMisses opts <=? 0 then 3 else o_DownAfterMisses opts)
    (if o_DownGrace opts <? 0 then 0 else o_DownGrace opts)
    (if outside_unit (o_LossAlphaFast opts) then of_dec 4 10 else o_LossAlphaFast opts)
    (if outside_unit (o_LossAlphaSlow opts) then of_dec 3 100 else o_LossAlphaSlow opts)
    (if outside_unit (o_JitterAlpha opts) then of_dec 1 10 else o_JitterAlpha opts)
    f0 0 0 StateHealthy 0 0 0 false 0.

(** [Reload]: thresholds and weights only; out-of-range values keep the
    current ones, [DownGrace] is always taken. *)
Definition Monitor_Reload (m : Monitor) (opts : Options) : Monitor :=
  mkMonitor
    (if outside_unit (o_MaxLoss opts) then maxLoss m else o_MaxLoss opts)
    (if o_DegradeAfter opts <=? 0 then degradeAft m else o_DegradeAfter opts)
    (if o_RecoverAfter opts <=? 0 then recoverAft m else o_RecoverAfter opts)
    (if o_DownAfterMisses opts <=? 0 then downAftMiss m else o_DownAfterMisses opts)
    (o_DownGrace opts)
    (if outside_unit (o_LossAlphaFast opts) then alphaFast m else o_LossAlphaFast opts)
    (if outside_unit (o_LossAlphaSlow opts) then alphaSlow m else o_LossAlphaSlow opts)
    (if outside_unit (o_JitterAlpha opts) then jitterAlpha m else o_JitterAlpha opts)
    (loss m) (rtt m) (jitter m) (state m) (misses m) (missSince m) (condSince m)
    (revived m) (inBandBad m).

(** [setState]. *)
Definition setState (s : State) (m : Monitor) : Monitor :=
  with_revived false (with_cond 0 (with_state s m)).

(** The fast-rise / slow-decay update shared by the three observers. *)
Definition observe_loss (x : f64) (m : Monitor) : Monitor :=
  if loss m <.? x then with_loss (loss m ⊞ (alphaFast m ⊠ (x ⊟ loss m))) m
  else with_loss (loss m ⊞ (alphaSlow m ⊠ (x ⊟ loss m))) m.

(** [noteAliveLocked], [NoteAlive]. *)
Definition NoteAlive (m : Monitor) : Monitor :=
  let m := with_misses 0 0 m in
  if bool_decide (state m = StateDown) && negb (revived m)
  then with_cond 0 (with_loss f0 (with_revived true m))
  else m.

(** [time.Duration(alpha * float64(d))]. *)
Definition scale_duration (alpha : f64) (d : duration) : duration :=
  to_int (alpha ⊠ of_Z d).

(** [ObserveSample(loss, rtt)]. *)
Definition ObserveSample (x : f64) (r : duration) (m : Monitor) : Monitor :=
  let m := observe_loss x m in
  if 0 <? r then
    let delta := i64 (r - rtt m) in
    let delta := if delta <? 0 then i64 (- delta) else delta in
    let rtt' := if rtt m =? 0 then r
                else i64 (rtt m + scale_duration (jitterAlpha m) (i64 (r - rtt m))) in
    let jitter' := i64 (jitter m + scale_duration (jitterAlpha m) (i64 (delta - jitter m))) in
    NoteAlive (with_rtt rtt' jitter' m)
  else m.

(** [NoteMissedProbe]; [now] is the clock reading. *)
Definition NoteMissedProbe (now : time) (m : Monitor) : Monitor :=
  let m := with_misses (misses m + 1) (missSince m) m in
  if downAftMiss m <=? misses m then
    if downGrace m <=? 0 then
      if bool_decide (state m = StateDown) then m else setState StateDown m
    else if is_zero (missSince m) then with_misses (misses m) now m
    else m
  else m.

(** [ObserveInBand]. *)
Definition ObserveInBand (x : f64) (m : Monitor) : Monitor :=
  let m := observe_loss x m in
  if maxLoss m <.? x then
    let m := with_inBandBad (inBandBad m + 1) m in
    if (2 <=? inBandBad m) && bool_decide (state m = StateHealthy)
    then setState StateDegraded m else m
  else with_inBandBad 0 m.

(** [ObserveRaw]. *)
Definition ObserveRaw (x : f64) (m : Monitor) : Monitor := observe_loss x m.

(** [missedDown] of [tickLocked]. *)
Definition missedDown (now : time) (m : Monitor) : bool :=
  (downAftMiss m <=? misses m) &&
  ((downGrace m <=? 0) ||
   (negb (is_zero (missSince m)) && (downGrace m <=? time_sub now (missSince m)))).

(** The condition timer: start it, or move to [s] once it ran for [after]. *)
Definition sustained (now : time) (after : duration) (s : State) (m : Monitor) : Monitor :=
  if is_zero (condSince m) then with_cond now m
  else if after <=? time_sub now (condSince m) then setState s m
  else m.

(** [tickLocked], [Tick]. *)
Definition Tick (now : time) (m : Monitor) : Monitor :=
  match state m with
  | StateHealthy =>
      if missedDown now m then setState StateDown m
      else if maxLoss m <.? loss m then sustained now (degradeAft m) StateDegraded m
      else with_cond 0 m
  | StateDegraded =>
      if missedDown now m then setState StateDown m
      else if maxLoss m <.? loss m then sustained now (degradeAft m) StateDown m
      else if loss m <.? (maxLoss m ⊠ of_dec 5 10) then sustained now (recoverAft m) StateHealthy m
      else with_cond 0 m
  | StateDown =>
      if loss m <.? (maxLoss m ⊠ of_dec 5 10) then sustained now (recoverAft m) StateHealthy m
      else with_cond 0 m
  end.

(** ** Well-formed monitors *)

(** A numeric option value: any double but NaN. *)
Definition numeric (x : f64) : Prop := is_f64 x ∧ x ≠ NaN.

Record options_ok (o : Options) : Prop := {
  oo_max : numeric (o_MaxLoss o);
  oo_fast : numeric (o_LossAlphaFast o);
  oo_slow : numeric (o_LossAlphaSlow o);
  oo_jit : numeric (o_JitterAlpha o);
}.

Record mon_ok (m : Monitor) : Prop := {
  mo_max : weight (maxLoss m);
  mo_fast : weight (alphaFast m);
  mo_slow : weight (alphaSlow m);
  mo_jit : weight (jitterAlpha m);
  mo_loss : in_unit (loss m);
  mo_degrade : 0 < degradeAft m;
  mo_recover : 0 < recoverAft m;
  mo_down : 0 < downAftMiss m;
}.

Lemma weight_inside x : numeric x → outside_unit x = false → weight x.
Proof.
  intros [Hr Hn] Ho. unfold outside_unit, fleb, fltb, feqb, f0, f1 in Ho.
  destruct x as [z|[]|]; try done. exists z. cbn in Hr. split_and!; [done|lia|lia|done].
Qed.

Lemma weight_default x d n k :
  numeric x → 0 < n < k → k ≤ 100 → d = of_dec n k →
  weight (if outside_unit x then d else x).
Proof.
  intros Hx Hn Hk ->. destruct (outside_unit x) eqn:E; [by apply weight_decimal|by apply weight_inside].
Qed.

Lemma mon_ok_New o : options_ok o → mon_ok (New o).
Proof.
  intros []. split; cbn [New maxLoss alphaFast alphaSlow jitterAlpha loss degradeAft recoverAft downAftMiss].
  - by eapply (weight_default _ _ 2 10).
  - by eapply (weight_default _ _ 4 10).
  - by eapply (weight_default _ _ 3 100).
  - by eapply (weight_default _ _ 1 10).
  - apply in_unit_0.
  - unfold second. destruct (Z.leb_spec (o_DegradeAfter o) 0); lia.
  - unfold second. destruct (Z.leb_spec (o_RecoverAfter o) 0); lia.
  - destruct (Z.leb_spec (o_DownAfterMisses o) 0); lia.
Qed.

Lemma mon_ok_Reload m o : mon_ok m → options_ok o → mon_ok (Monitor_Reload m o).
Proof.
  intros [] []. split; cbn; try done;
    try (destruct (outside_unit _) eqn:?; [done|by apply weight_inside]);
    case_match; (done || lia).
Qed.

Lemma observe_loss_ok x m : mon_ok m → in_unit x → mon_ok (observe_loss x m).
Proof.
  intros [] Hx. unfold observe_loss. destruct (loss m <.? x) eqn:E; split; try done; cbn.
  - by apply ewma_rise.
  - by apply ewma_decay.
Qed.

(** ** Operations and runs *)

(** One call on a monitor, with the clock reading where the code takes one. *)
Inductive op : Type :=
| OSample (x : f64) (r : duration)
| OAlive
| OMiss (now : time)
| OInBand (x : f64)
| ORaw (x : f64)
| OReload (o : Options)
| OTick (now : time).

Definition apply_op (o : op) (m : Monitor) : Monitor :=
  match o with
  | OSample x r => ObserveSample x r m
  | OAlive => NoteAlive m
  | OMiss now => NoteMissedProbe now m
  | OInBand x => ObserveInBand x m
  | ORaw x => ObserveRaw x m
  | OReload o => Monitor_Reload m o
  | OTick now => Tick now m
  end.

(** Samples are loss fractions, options are numeric, clocks are set. *)
Definition op_ok (o : op) : Prop :=
  match o with
  | OSample x _ | OInBand x | ORaw x => in_unit x
  | OReload o => options_ok o
  | OMiss now | OTick now => now ≠ 0
  | OAlive => True
  end.

Lemma apply_op_ok o m : mon_ok m → op_ok o → mon_ok (apply_op o m).
Proof.
  intros Hm Ho. destruct o as [x r| |now|x|x|opts|now]; cbn [apply_op op_ok] in *.
  - unfold ObserveSample. pose proof (observe_loss_ok x m Hm Ho) as Hl.
    case_match; [|done]. unfold NoteAlive. case_match; destruct Hl; split; try done.
    apply in_unit_0.
  - unfold NoteAlive. case_match; destruct Hm; split; try done. apply in_unit_0.
  - unfold NoteMissedProbe. repeat case_match; destruct Hm; by split.
  - unfold ObserveInBand. pose proof (observe_loss_ok x m Hm Ho) as Hl.
    repeat case_match; destruct Hl; by split.
  - by apply observe_loss_ok.
  - by apply mon_ok_Reload.
  - unfold Tick, sustained. repeat case_match; destruct Hm; by split.
Qed.

(** Estimator invariant. Under float64 rounding, for every sequence of
    operations fed with loss fractions in [0,1], the loss estimate stays in
    [0,1], and the weights and thresholds stay in the ranges [New] enforces. *)
Theorem monitor_wellformed opts ops :
  options_ok opts → Forall op_ok ops → mon_ok (foldl (λ m o, apply_op o m) (New opts) ops).
Proof.
  intros Ho Hops. assert (H := mon_ok_New opts Ho). revert H. generalize (New opts).
  induction Hops as [|o ops Hok _ IH]; intros m Hm; cbn [foldl]; [done|].
  by apply IH, apply_op_ok.
Qed.

(** The configuration defaults, as options. *)
Definition default_options : Options :=
  mkOptions (of_dec 2 10) (3 * second) (10 * second) 3 0 (of_dec 4 10) (of_dec 3 100) (of_dec 1 10).

Lemma numeric_decimal n d : 0 < n < d → d ≤ 100 → numeric (of_dec n d).
Proof. intros Hn Hd. destruct (weight_decimal n d Hn Hd) as (z & -> & _ & ?). by split. Qed.

Lemma in_unit_decimal n d : 0 < n < d → d ≤ 100 → in_unit (of_dec n d).
Proof.
  intros Hn Hd. destruct (weight_decimal n d Hn Hd) as (z & -> & ? & ?).
  exists z. split_and!; done || lia.
Qed.

Lemma default_options_ok : options_ok default_options.
Proof. split; by apply numeric_decimal. Qed.

Lemma monitor_wellformed_witness :
  mon_ok (foldl (λ m o, apply_op o m) (New default_options)
            [OSample f1 0; OMiss 5; OInBand (of_dec 3 10); OTick 10; OSample f0 20000000]).
Proof.
  apply monitor_wellformed; [apply default_options_ok|].
  pose proof (in_unit_decimal 3 10 ltac:(lia) ltac:(lia)) as H3.
  repeat constructor; cbn [op_ok]; lia || assumption || apply in_unit_0 || apply in_unit_1.
Defined.

(** ** Transitions *)

(** [loss > maxLoss] and [loss < maxLoss*0.5], the two conditions of [Tick]. *)
Definition over (m : Monitor) : bool := maxLoss m <.? loss m.
Definition under (m : Monitor) : bool := loss m <.? (maxLoss m ⊠ of_dec 5 10).

(** The condition under which the timer of the current state runs. *)
Definition armed (m : Monitor) : bool :=
  match state m with
  | StateHealthy => over m
  | StateDegraded => over m || under m
  | StateDown => under m
  end.

(** What each state change requires of the monitor it happens to. *)
Definition transition_cause (o : op) (m m' : Monitor) : Prop :=
  match o, state m, state m' with
  | OMiss _, _, StateDown => downAftMiss m ≤ misses m + 1 ∧ downGrace m ≤ 0
  | OInBand x, StateHealthy, StateDegraded => (maxLoss m <.? x) = true ∧ 1 ≤ inBandBad m
  | OTick now, StateHealthy, StateDown => missedDown now m = true
  | OTick now, StateHealthy, StateDegraded =>
      over m = true ∧ condSince m ≠ 0 ∧ degradeAft m ≤ time_sub now (condSince m)
  | OTick now, StateDegraded, StateDown =>
      missedDown now m = true ∨
      (over m = true ∧ condSince m ≠ 0 ∧ degradeAft m ≤ time_sub now (condSince m))
  | OTick now, StateDegraded, StateHealthy =>
      under m = true ∧ condSince m ≠ 0 ∧ recoverAft m ≤ time_sub now (condSince m)
  | OTick now, StateDown, StateHealthy =>
      under m = true ∧ condSince m ≠ 0 ∧ recoverAft m ≤ time_sub now (condSince m)
  | _, _, _ => False
  end.

Lemma observe_loss_state x m : state (observe_loss x m) = state m.
Proof. unfold observe_loss. by case_match. Qed.

Lemma NoteAlive_state m : state (NoteAlive m) = state m.
Proof. unfold NoteAlive. by case_match. Qed.

Lemma ObserveSample_state x r m : state (ObserveSample x r m) = state m.
Proof.
  unfold ObserveSample. case_match; rewrite ?NoteAlive_state; cbn; apply observe_loss_state.
Qed.

Lemma sustained_cases now after s m :
  state (sustained now after s m) = state m ∨
  (state (sustained now after s m) = s ∧ condSince m ≠ 0 ∧ after ≤ time_sub now (condSince m)).
Proof.
  unfold sustained, is_zero. destruct (Z.eqb_spec (condSince m) 0); [by left|].
  destruct (Z.leb_spec after (time_sub now (condSince m))); [by right|by left].
Qed.

(** Complete transition table. A state change happens only on a missed
    probe that reaches the threshold without a grace period, on a second
    consecutive bad in-band window, or on a tick with one of the six documented
    conditions; no other operation, and no other pair of states. *)
Theorem monitor_transitions o m :
  state (apply_op o m) = state m ∨ transition_cause o m (apply_op o m).
Proof.
  destruct o as [x r| |now|x|x|opts|now]; cbn [apply_op].
  - left. apply ObserveSample_state.
  - left. apply NoteAlive_state.
  - unfold NoteMissedProbe. cbn. repeat case_match; cbn; try by left. right.
    cbn. split; lia.
  - unfold ObserveInBand. cbn. destruct (maxLoss _ <.? x) eqn:E; cbn; [|left; apply observe_loss_state].
    assert (Hm : maxLoss (observe_loss x m) = maxLoss m) by (unfold observe_loss; by case_match).
    assert (Hi : inBandBad (observe_loss x m) = inBandBad m) by (unfold observe_loss; by case_match).
    rewrite Hm in E. rewrite Hi.
    destruct (Z.leb_spec 2 (inBandBad m + 1)); cbn; [|left; apply observe_loss_state].
    destruct (bool_decide_reflect (state (observe_loss x m) = StateHealthy)) as [Es|];
      cbn; [|left; apply observe_loss_state].
    right. rewrite observe_loss_state in Es. rewrite Es. split; [done|lia].
  - left. apply observe_loss_state.
  - by left.
  - unfold Tick, transition_cause. fold (over m) (under m).
    destruct (state m) eqn:Es.
    + destruct (missedDown now m) eqn:E; [by right|]. destruct (over m) eqn:Ho; [|by left].
      destruct (sustained_cases now (degradeAft m) StateDegraded m) as [->|(-> & ? & ?)]; auto.
    + destruct (missedDown now m) eqn:E; [right; by left|]. destruct (over m) eqn:Ho.
      { destruct (sustained_cases now (degradeAft m) StateDown m) as [->|(-> & ? & ?)]; auto. }
      destruct (under m) eqn:Hu; [|by left].
      destruct (sustained_cases now (recoverAft m) StateHealthy m) as [->|(-> & ? & ?)]; auto.
    + destruct (under m) eqn:Hu; [|by left].
      destruct (sustained_cases now (recoverAft m) StateHealthy m) as [->|(-> & ? & ?)]; auto.
Qed.

(** ** Hysteresis *)

Definition run (m : Monitor) (ops : list op) : Monitor := foldl (λ m o, apply_op o m) m ops.

Lemma run_app m ops ops' : run m (ops ++ ops') = run (run m ops) ops'.
Proof. apply foldl_app. Qed.

(** [P] holds of the monitor at every tick of the run. *)
Fixpoint ticks_hold (P : Monitor → bool) (m : Monitor) (ops : list op) : bool :=
  match ops with
  | [] => true
  | OTick now as o :: ops => P m && ticks_hold P (apply_op o m) ops
  | o :: ops => ticks_hold P (apply_op o m) ops
  end.

Lemma ticks_hold_app P m ops ops' :
  ticks_hold P m (ops ++ ops') = ticks_hold P m ops && ticks_hold P (run m ops) ops'.
Proof.
  revert m. induction ops as [|o ops IH]; intros m; cbn; [done|].
  destruct o; cbn; rewrite IH; by rewrite ?andb_assoc.
Qed.

Definition is_tick (o : op) : bool := match o with OTick _ => true | _ => false end.

(** [o] is the first response to a probe of a path that is DOWN: the code then
    clears the loss estimate and the timer. *)
Definition revives (o : op) (m : Monitor) : bool := negb (revived m) && revived (apply_op o m).

(** Through all of [ops] the monitor stays in state [s], every tick finds the
    condition of that state true, and the path is not revived. *)
Fixpoint calm (s : State) (m : Monitor) (ops : list op) : bool :=
  bool_decide (state m = s) &&
  match ops with
  | [] => true
  | o :: ops => (negb (is_tick o) || armed m) && negb (revives o m) && calm s (apply_op o m) ops
  end.

Lemma calm_app s m ops ops' : calm s m (ops ++ ops') = calm s m ops && calm s (run m ops) ops'.
Proof.
  revert m. induction ops as [|o ops IH]; intros m; cbn.
  - rewrite andb_true_r. destruct ops'; cbn; by destruct (bool_decide _).
  - rewrite IH. by rewrite !andb_assoc.
Qed.

Lemma calm_start s m ops : calm s m ops = true → state m = s.
Proof. destruct ops; cbn; intros [H _]%andb_true_iff; by apply bool_decide_eq_true in H. Qed.

Lemma calm_end s m ops : calm s m ops = true → state (run m ops) = s.
Proof.
  revert m. induction ops as [|o ops IH]; intros m; cbn.
  - intros [H _]%andb_true_iff. by apply bool_decide_eq_true in H.
  - intros [_ [_ H]%andb_true_iff]%andb_true_iff. by apply IH.
Qed.

Lemma observe_loss_timer x m :
  condSince (observe_loss x m) = condSince m ∧ revived (observe_loss x m) = revived m.
Proof. unfold observe_loss. by case_match. Qed.

(** A running timer was started by this tick, or was running before and kept
    its state and, on a tick, its condition. *)
Lemma cond_step o m :
  condSince (apply_op o m) ≠ 0 →
  state (apply_op o m) = state m ∧ (is_tick o = true → armed m = true) ∧ revives o m = false ∧
  (condSince (apply_op o m) = condSince m ∨
   (condSince m = 0 ∧ o = OTick (condSince (apply_op o m)))).
Proof.
  pose proof (λ x, proj1 (observe_loss_timer x m)) as Ho. pose proof (λ x, proj2 (observe_loss_timer x m)) as Hv.
  assert (Ha : ∀ n, condSince (NoteAlive n) ≠ 0 → condSince (NoteAlive n) = condSince n ∧ revived (NoteAlive n) = revived n)
    by (intros n; unfold NoteAlive; by case_match).
  assert (Hr : ∀ b : bool, negb b && b = false) by (by intros []).
  unfold revives. destruct o as [x r| |now|x|x|opts|now]; cbn [apply_op is_tick]; intros H.
  - rewrite ObserveSample_state. unfold ObserveSample in *. case_match.
    + destruct (Ha _ H) as [-> ->]. cbn. rewrite Ho, Hv. (split_and!; [done|done|done || apply Hr|by left]).
    + rewrite Ho, Hv. (split_and!; [done|done|done || apply Hr|by left]).
  - rewrite NoteAlive_state. destruct (Ha _ H) as [-> ->]. (split_and!; [done|done|done || apply Hr|by left]).
  - unfold NoteMissedProbe in *. repeat case_match; cbn in *; try done;
      (split_and!; [done|done|done || apply Hr|by left]).
  - unfold ObserveInBand in *. repeat case_match; cbn in *; try done;
      rewrite ?observe_loss_state, ?Ho, ?Hv; (split_and!; [done|done|done || apply Hr|by left]).
  - unfold ObserveRaw in *. rewrite observe_loss_state, Ho, Hv. (split_and!; [done|done|done || apply Hr|by left]).
  - (split_and!; [done|done|done || apply Hr|by left]).
  - unfold Tick, sustained, is_zero, armed in *. fold (over m) (under m) in *.
    destruct (state m) eqn:Es; repeat case_match; cbn in *; try done;
      (split_and!; [done|intros _; cbn; by rewrite ?orb_true_r|by destruct (revived m)|]);
      first [by left|right; split; [lia|done]].
Qed.

(** Conversely, an operation that keeps the state, the condition and the revival
    keeps a running timer, and such a tick starts one that is not running. *)
Lemma calm_step o m :
  state (apply_op o m) = state m → (is_tick o = true → armed m = true) → revives o m = false →
  condSince (apply_op o m) =
    if is_zero (condSince m) then match o with OTick now => now | _ => 0 end else condSince m.
Proof.
  pose proof (λ x, proj1 (observe_loss_timer x m)) as Ho.
  assert (Hz : (if is_zero (condSince m) then 0 else condSince m) = condSince m)
    by (unfold is_zero; destruct (Z.eqb_spec (condSince m) 0); lia).
  assert (Ha : ∀ n, negb (revived n) && revived (NoteAlive n) = false → condSince (NoteAlive n) = condSince n).
  { intros n. unfold NoteAlive. cbn [revived with_misses state]. destruct (_ && negb (revived n)) eqn:E; [|done].
    apply andb_true_iff in E as [_ E]. cbn. by rewrite E. }
  destruct o as [x r| |now|x|x|opts|now]; cbn [apply_op is_tick]; unfold revives; cbn [apply_op]; intros Hs Ht Hr.
  - refine (eq_trans _ (eq_sym Hz)); clear Hz. unfold ObserveSample in *. case_match; [|apply Ho]. rewrite Ha; [cbn; apply Ho|].
    cbn [revived with_rtt]. by rewrite (proj2 (observe_loss_timer x m)).
  - refine (eq_trans _ (eq_sym Hz)); clear Hz. by apply Ha.
  - refine (eq_trans _ (eq_sym Hz)); clear Hz. unfold NoteMissedProbe in *. repeat case_match; cbn in *; try done.
    rewrite bool_decide_eq_false in *. by destruct Hs.
  - refine (eq_trans _ (eq_sym Hz)); clear Hz. unfold ObserveInBand in *. cbn in *. repeat case_match; cbn in *; try apply Ho.
    repeat match goal with H : _ && _ = true |- _ => apply andb_true_iff in H as [? H] end.
    rewrite bool_decide_eq_true, observe_loss_state in *. congruence.
  - refine (eq_trans _ (eq_sym Hz)); clear Hz. apply Ho.
  - by symmetry.
  - clear Hz. specialize (Ht eq_refl). unfold Tick, sustained, armed in *. fold (over m) (under m) in *.
    destruct (state m) eqn:Es; repeat case_match; cbn in *; try done; congruence.
Qed.

(** The clock readings of the ticks, and a clock that does not run backwards. *)
Definition tick_times (ops : list op) : list time := omap (λ o, match o with OTick t => Some t | _ => None end) ops.
Definition clocked (ts : list time) : Prop := Forall (λ t, 0 < t) ts ∧ StronglySorted Z.le ts.

(** The condition of the current state was found true at a tick at least [w] ago
    and at every tick since, without a change of state and without a revival. *)
Definition held (m0 : Monitor) (ops : list op) (now : time) (w : duration) : Prop :=
  ∃ pre t0 mid, ops = pre ++ OTick t0 :: mid ∧
    calm (state (run m0 ops)) (run m0 pre) (OTick t0 :: mid) = true ∧ w ≤ time_sub now t0.

Lemma timer_calm m0 ops :
  condSince m0 = 0 → condSince (run m0 ops) ≠ 0 →
  ∃ pre mid, ops = pre ++ OTick (condSince (run m0 ops)) :: mid ∧
    calm (state (run m0 ops)) (run m0 pre) (OTick (condSince (run m0 ops)) :: mid) = true.
Proof.
  intros H0. induction ops as [|o ops IH] using rev_ind; [done|].
  rewrite run_app. cbn [run foldl]. fold (run m0 ops). set (m := run m0 ops) in *.
  intros H. destruct (cond_step o m H) as (Hs & Ht & Hr & Hc).
  assert (Hlast : calm (state m) m [o] = true).
  { cbn. rewrite !bool_decide_eq_true_2 by done. rewrite Hr. destruct (is_tick o); [by rewrite Ht|done]. }
  rewrite Hs. destruct Hc as [Hc|[Hz Hc]].
  - rewrite Hc in *. destruct (IH H) as (pre & mid & Eops & Hh).
    exists pre, (mid ++ [o]). split; [by rewrite Eops, <-app_assoc|].
    rewrite app_comm_cons, calm_app, Hh. cbn [andb].
    assert (Em : run (run m0 pre) (OTick (condSince m) :: mid) = m) by (rewrite <-run_app, <-Eops; done).
    by rewrite Em.
  - exists ops, []. rewrite <-Hc. split; [done|]. exact Hlast.
Qed.

(** The timer shows the time of a past tick. *)
Lemma timer_past m0 ops :
  condSince m0 = 0 → condSince (run m0 ops) ≠ 0 → condSince (run m0 ops) ∈ tick_times ops.
Proof.
  intros H0 H. destruct (timer_calm m0 ops H0 H) as (pre & mid & E & _). rewrite E at 2. unfold tick_times.
  rewrite omap_app. apply elem_of_app. right. cbn. left.
Qed.

(** A calm stretch keeps a running timer. *)
Lemma calm_keeps s m ops : calm s m ops = true → condSince m ≠ 0 → condSince (run m ops) = condSince m.
Proof.
  revert m. induction ops as [|o ops IH]; intros m; [done|]. cbn [calm].
  intros [Hs [[Ht Hr]%andb_true_iff Hc]%andb_true_iff]%andb_true_iff Hn.
  apply bool_decide_eq_true in Hs. apply negb_true_iff in Hr. pose proof (calm_start _ _ _ Hc) as Hs'.
  assert (E : condSince (apply_op o m) = condSince m).
  { rewrite calm_step; [|congruence| |done].
    - unfold is_zero. by rewrite (proj2 (Z.eqb_neq _ _)).
    - intros E. by rewrite E in Ht. }
  cbn [run foldl]. fold (run (apply_op o m) ops). rewrite IH by (done || congruence). done.
Qed.

Lemma time_sub_mono now a b : a ≤ b → time_sub now b ≤ time_sub now a.
Proof. unfold time_sub. lia. Qed.

(** The timer ran for [w] exactly when the condition held for [w]. *)
Lemma timer_exact m0 ops now w :
  condSince m0 = 0 → clocked (tick_times ops) → 
  let m := run m0 ops in
  (condSince m ≠ 0 ∧ w ≤ time_sub now (condSince m)) ↔ held m0 ops now w.
Proof.
  intros H0 [Hpos Hsort] m. split.
  - intros [Hn Hw]. destruct (timer_calm m0 ops H0 Hn) as (pre & mid & E & Hc). by exists pre, (condSince m), mid.
  - intros (pre & t0 & mid & E & Hc & Hw). set (m1 := run m0 pre) in *.
    assert (Hpre : tick_times ops = tick_times pre ++ t0 :: tick_times mid)
      by (rewrite E; unfold tick_times; by rewrite omap_app).
    rewrite Hpre in Hpos, Hsort. apply Forall_app in Hpos as [_ Hpos]. apply Forall_cons_1 in Hpos as [Ht0 _].
    assert (Em : m = run (apply_op (OTick t0) m1) mid) by (unfold m; by rewrite E, run_app).
    fold m in Hc. cbn [calm] in Hc. apply andb_true_iff in Hc as [Hs Hc]. apply andb_true_iff in Hc as [Hc Hc'].
    apply andb_true_iff in Hc as [Ht Hr]. apply bool_decide_eq_true in Hs. apply negb_true_iff in Hr.
    pose proof (calm_step (OTick t0) m1 ltac:(rewrite (calm_start _ _ _ Hc'); done) (λ _, Ht) Hr) as Hstart.
    assert (Hc1 : condSince (apply_op (OTick t0) m1) ≠ 0 ∧ condSince (apply_op (OTick t0) m1) ≤ t0).
    { rewrite Hstart. unfold is_zero. destruct (Z.eqb_spec (condSince m1) 0) as [|Hn1]; [lia|]. split; [done|].
      pose proof (timer_past m0 pre H0 Hn1) as Hin. apply StronglySorted_app in Hsort as (Hle & _ & _).
      exact (Hle _ _ Hin (list_elem_of_here _ _)). }
    rewrite Em, (calm_keeps _ _ _ Hc') by (by destruct Hc1). destruct Hc1 as [Hn1 Hle]. split; [done|].
    etrans; [exact Hw|]. by apply time_sub_mono.
Qed.

(** Enough probes were missed, for long enough. *)
Definition missed (now : time) (m : Monitor) : Prop :=
  downAftMiss m ≤ misses m ∧ (downGrace m ≤ 0 ∨ missSince m ≠ 0 ∧ downGrace m ≤ time_sub now (missSince m)).

Lemma missedDown_spec now m : missedDown now m = true ↔ missed now m.
Proof.
  unfold missedDown, missed, is_zero. rewrite andb_true_iff, orb_true_iff, andb_true_iff, negb_true_iff, !Z.leb_le, Z.eqb_neq. done.
Qed.

(** The state after a tick at [now], where [held w] says that the condition of
    the state held for [w]. *)
Definition after_tick (held : duration → Prop) (now : time) (m : Monitor) (s' : State) : Prop :=
  let worse := over m = true ∧ held (degradeAft m) in
  let better := over m = false ∧ under m = true ∧ held (recoverAft m) in
  match state m, s' with
  | StateHealthy, StateDown => missed now m
  | StateHealthy, StateDegraded => ¬ missed now m ∧ worse
  | StateHealthy, StateHealthy => ¬ missed now m ∧ ¬ worse
  | StateDegraded, StateDown => missed now m ∨ worse
  | StateDegraded, StateHealthy => ¬ missed now m ∧ better
  | StateDegraded, StateDegraded => ¬ missed now m ∧ ¬ worse ∧ ¬ better
  | StateDown, StateHealthy => under m = true ∧ held (recoverAft m)
  | StateDown, StateDown => ¬ (under m = true ∧ held (recoverAft m))
  | StateDown, StateDegraded => False
  end.

Lemma sustained_state now w s m :
  state (sustained now w s m) =
    if decide (condSince m ≠ 0 ∧ w ≤ time_sub now (condSince m)) then s else state m.
Proof.
  unfold sustained, is_zero. destruct (Z.eqb_spec (condSince m) 0).
  - rewrite decide_False by naive_solver. done.
  - destruct (Z.leb_spec w (time_sub now (condSince m))); [rewrite decide_True by done|rewrite decide_False by lia]; done.
Qed.

Lemma Tick_state now m s' :
  state (Tick now m) = s' ↔ after_tick (λ w, condSince m ≠ 0 ∧ w ≤ time_sub now (condSince m)) now m s'.
Proof.
  unfold Tick, after_tick. fold (over m) (under m).
  assert (Hm : missedDown now m = false ↔ ¬ missed now m) by (rewrite <-missedDown_spec; by destruct (missedDown now m)).
  pose proof (missedDown_spec now m) as Hm'.
  destruct (state m) eqn:Es; destruct (missedDown now m); destruct (over m), (under m); rewrite ?sustained_state;
    repeat case_decide; cbn [state setState with_cond with_state with_revived]; rewrite ?Es; destruct s'; naive_solver.
Qed.

(** C19 — Hysteresis, exactly. For a monitor that ran any history from its start,
    under a clock that does not run backwards, a tick leaves it in the state the
    following says, and in no other. Missed probes past the threshold and the
    grace period take HEALTHY and DEGRADED to DOWN at once. Otherwise the loss
    estimate decides: loss over the threshold takes HEALTHY to DEGRADED and
    DEGRADED to DOWN once the timer's condition held for [DegradeAfter], and loss
    under half the threshold takes DEGRADED and DOWN to HEALTHY once it held for
    [RecoverAfter]. "Held" means: a past tick lies at least that far back such
    that at it and at every tick since the monitor was in the same state with the
    condition of that state true, and was not revived. The condition is, in
    HEALTHY, loss over the threshold; in DOWN, loss under half of it; in
    DEGRADED, either of the two, for both share one timer
    ([degraded_timer_shared]). Nothing else changes the state at a tick. *)
Theorem monitor_hysteresis opts ops now s' :
  clocked (tick_times ops ++ [now]) →
  let m := run (New opts) ops in
  state (Tick now m) = s' ↔ after_tick (held (New opts) ops now) now m s'.
Proof.
  intros [Hpos Hsort] m. rewrite Tick_state. apply Forall_app in Hpos as [Hpos _].
  apply StronglySorted_app in Hsort as (_ & Hsort & _).
  assert (H : ∀ w, (condSince m ≠ 0 ∧ w ≤ time_sub now (condSince m)) ↔ held (New opts) ops now w)
    by (intros w; by apply (timer_exact (New opts) ops now w)).
  unfold after_tick. destruct (state m), s'; rewrite ?H; done.
Qed.

(** Loss at 100 % for three seconds of ticks. *)
Definition lossy_history : list op :=
  [OSample f1 0; OSample f1 0; OTick second; OSample f1 0; OTick (3 * second)].

Abbreviation lossy_monitor := (run (New default_options) lossy_history).

Lemma lossy_facts :
  state lossy_monitor = StateHealthy ∧ degradeAft lossy_monitor = 3 * second ∧ over lossy_monitor = true ∧
  state (Tick (4 * second) lossy_monitor) = StateDegraded ∧ state (Tick (4 * second - 1) lossy_monitor) = StateHealthy.
Proof. split_and!; vm_compute; reflexivity. Qed.

Lemma lossy_clocked t : 3 * second ≤ t → clocked (tick_times lossy_history ++ [t]).
Proof.
  intros Ht. change (tick_times lossy_history ++ [t]) with [second; 3 * second; t]. unfold second in *.
  split; [repeat (apply Forall_cons_2; [lia|]); apply Forall_nil_2|].
  repeat (apply SSorted_cons; [|repeat (apply Forall_cons_2; [lia|]); apply Forall_nil_2]). apply SSorted_nil.
Qed.

Lemma after_tick_degraded H now m :
  state m = StateHealthy → after_tick H now m StateDegraded → H (degradeAft m).
Proof. unfold after_tick. intros ->. by intros (_ & _ & ?). Qed.

Lemma after_tick_healthy H now m :
  state m = StateHealthy → over m = true → after_tick H now m StateHealthy → ¬ H (degradeAft m).
Proof. unfold after_tick. intros -> Ho [_ Hn] Hh. by apply Hn. Qed.

(** The path is degraded at the first tick three seconds after the loss was
    first seen, and no nanosecond earlier. *)
Lemma monitor_hysteresis_witness :
  held (New default_options) lossy_history (4 * second) (3 * second) ∧
  ¬ held (New default_options) lossy_history (4 * second - 1) (3 * second).
Proof.
  destruct lossy_facts as (E1 & E4 & E5 & E2 & E3).
  pose proof (proj1 (monitor_hysteresis default_options lossy_history (4 * second) StateDegraded
    (lossy_clocked (4 * second) ltac:(unfold second; lia))) E2) as H1.
  pose proof (proj1 (monitor_hysteresis default_options lossy_history (4 * second - 1) StateHealthy
    (lossy_clocked (4 * second - 1) ltac:(unfold second; lia))) E3) as H2.
  rewrite <-E4. split; [exact (after_tick_degraded _ _ _ E1 H1)|]. exact (after_tick_healthy _ _ _ E1 E5 H2).
Defined.

(** The two conditions of DEGRADED share one timer. A DEGRADED path whose
    loss is below half the threshold starts the recovery timer; if the loss
    then rises above the threshold, the next tick [DegradeAfter] later
    escalates to DOWN at once, although the loss exceeded the threshold at
    this single tick only. *)
Theorem degraded_timer_shared m t0 t1 x :
  state m = StateDegraded → condSince m = 0 → t0 ≠ 0 →
  downAftMiss m > misses m → over m = false → under m = true →
  over (ObserveRaw x m) = true → degradeAft m ≤ time_sub t1 t0 →
  state (Tick t1 (ObserveRaw x (Tick t0 m))) = StateDown.
Proof.
  intros Hs Hc Ht0 Hmiss Ho Hu Hx Hd.
  assert (Hmd : ∀ t n, misses n = misses m → downAftMiss n = downAftMiss m → missedDown t n = false).
  { intros t n E1 E2. unfold missedDown. rewrite E1, E2.
    by rewrite (proj2 (Z.leb_gt _ _)) by lia. }
  assert (E0 : Tick t0 m = with_cond t0 m).
  { unfold Tick. rewrite Hs, Hmd by done. fold (over m) (under m). rewrite Ho, Hu.
    unfold sustained. by rewrite Hc. }
  rewrite E0. assert (E1 : ObserveRaw x (with_cond t0 m) = with_cond t0 (ObserveRaw x m)).
  { unfold ObserveRaw, observe_loss. cbn. by case_match. }
  rewrite E1. unfold over in Hx.
  assert (E2 : misses (ObserveRaw x m) = misses m ∧ downAftMiss (ObserveRaw x m) = downAftMiss m ∧
               degradeAft (ObserveRaw x m) = degradeAft m)
    by (unfold ObserveRaw, observe_loss; by case_match).
  assert (E5 : state (ObserveRaw x m) = StateDegraded) by (by rewrite <-Hs; apply observe_loss_state).
  destruct E2 as (E2 & E3 & E4). revert Hx E2 E3 E4 E5. generalize (ObserveRaw x m).
  intros n Hx E2 E3 E4 E5. unfold Tick. rewrite Hmd by done. cbn [state with_cond]. rewrite E5.
  cbn [maxLoss loss with_cond]. rewrite Hx. unfold sustained, is_zero. cbn [condSince with_cond degradeAft].
  by rewrite (proj2 (Z.eqb_neq _ _)), E4, (proj2 (Z.leb_le _ _)).
Qed.

(** A path degraded by two bad in-band windows whose loss estimate then decayed. *)
Definition degraded_example : Monitor :=
  with_loss f0 (run (New default_options) [OInBand f1; OInBand f1]).

Lemma degraded_timer_shared_witness :
  state degraded_example = StateDegraded ∧
  state (Tick (4 * second) (ObserveRaw f1 (Tick second degraded_example))) = StateDown.
Proof.
  split; [vm_compute; reflexivity|].
  apply degraded_timer_shared; vm_compute; reflexivity || discriminate.
Defined.

(** ** Detection and recovery *)

(** A response from the peer: it clears the miss counter. *)
Definition answers (o : op) : bool :=
  match o with OAlive => true | OSample _ r => 0 <? r | _ => false end.

Definition is_reload (o : op) : bool := match o with OReload _ => true | _ => false end.

Fixpoint missed_probes (ops : list op) : Z :=
  match ops with
  | [] => 0
  | OMiss _ :: ops => 1 + missed_probes ops
  | _ :: ops => missed_probes ops
  end.

(** The fields [misses], [downAftMiss] and [downGrace] of a monitor. *)
Definition miss_fields (m : Monitor) : Z * Z * duration := (misses m, downAftMiss m, downGrace m).

Lemma miss_fields_step o m :
  answers o = false → is_reload o = false →
  miss_fields (apply_op o m) = (misses m + missed_probes [o], downAftMiss m, downGrace m).
Proof.
  assert (Ho : ∀ x, miss_fields (observe_loss x m) = miss_fields m)
    by (intros x; unfold observe_loss; by case_match).
  intros Ha Hr. destruct o as [x r| |now|x|x|opts|now]; cbn in Ha, Hr; try done;
    cbn [apply_op missed_probes]; rewrite ?Z.add_0_r.
  - unfold ObserveSample. rewrite Ha. apply Ho.
  - unfold NoteMissedProbe. by repeat case_match.
  - unfold ObserveInBand. specialize (Ho x). repeat case_match; done.
  - apply Ho.
  - unfold Tick, sustained. by repeat case_match.
Qed.

Lemma missed_probes_cons o ops : missed_probes (o :: ops) = missed_probes [o] + missed_probes ops.
Proof. destruct o; cbn; lia. Qed.

Lemma miss_fields_run ops m :
  existsb answers ops = false → existsb is_reload ops = false →
  miss_fields (run m ops) = (misses m + missed_probes ops, downAftMiss m, downGrace m).
Proof.
  revert m. induction ops as [|o ops IH]; intros m; cbn [existsb].
  { intros _ _. unfold miss_fields. cbn. by rewrite Z.add_0_r. }
  intros [Ha Has]%orb_false_elim [Hr Hrs]%orb_false_elim.
  pose proof (miss_fields_step o m Ha Hr) as Hs. unfold run. cbn [foldl]. fold (run (apply_op o m) ops).
  rewrite IH by done. unfold miss_fields in Hs. rewrite missed_probes_cons.
  injection Hs as -> -> ->. by rewrite Z.add_assoc.
Qed.

Lemma last_miss_down m ops now :
  0 ≤ misses m → downGrace m ≤ 0 →
  existsb answers ops = false → existsb is_reload ops = false →
  downAftMiss m ≤ missed_probes (ops ++ [OMiss now]) →
  state (run m (ops ++ [OMiss now])) = StateDown ∧
  downAftMiss m ≤ misses (run m (ops ++ [OMiss now])).
Proof.
  intros H0 Hg Ha Hr Hn. rewrite run_app. cbn [run foldl apply_op]. fold (run m ops).
  pose proof (miss_fields_run ops m Ha Hr) as E. unfold miss_fields in E.
  assert (En : missed_probes (ops ++ [OMiss now]) = missed_probes ops + 1).
  { clear. induction ops as [|o ops IH]; [done|]. destruct o; cbn [app missed_probes]; lia. }
  injection E as E1 E2 E3.
  unfold NoteMissedProbe. cbn. rewrite (proj2 (Z.leb_le (downAftMiss _) _)) by lia.
  rewrite (proj2 (Z.leb_le (downGrace _) _)) by lia. case_bool_decide; cbn; split; done || lia.
Qed.

(** Dead-path detection. Without a grace period, whatever the monitor's
    state and whatever else happens, as soon as [DownAfterMisses] probes have
    been missed with no response in between, the path is DOWN. *)
Theorem missed_probes_mark_down m ops now :
  0 ≤ misses m → downGrace m ≤ 0 →
  existsb answers ops = false → existsb is_reload ops = false →
  downAftMiss m ≤ missed_probes (ops ++ [OMiss now]) →
  state (run m (ops ++ [OMiss now])) = StateDown.
Proof. intros. by apply last_miss_down. Qed.

Lemma missed_probes_mark_down_witness :
  state (run (New default_options) ([OMiss 1; OSample f1 0; OTick 2; OMiss 3] ++ [OMiss 4])) = StateDown.
Proof. apply missed_probes_mark_down; vm_compute; reflexivity || discriminate. Defined.

(** Every tick of [ops] is less than [d] after [t0]. *)
Definition ticks_before (t0 : time) (d : duration) (ops : list op) : bool :=
  forallb (λ o, match o with OTick t => time_sub t t0 <? d | _ => true end) ops.

Lemma NoteAlive_revived m : revived m = true → NoteAlive m = with_misses 0 0 m.
Proof. intros H. unfold NoteAlive. cbn. by rewrite H, andb_false_r. Qed.

Lemma down_timer_kept t0 ops m :
  state m = StateDown → revived m = true → condSince m = t0 → t0 ≠ 0 →
  existsb is_reload ops = false → ticks_before t0 (recoverAft m) ops = true →
  ticks_hold under m ops = true →
  state (run m ops) = StateDown ∧ condSince (run m ops) = t0 ∧
  recoverAft (run m ops) = recoverAft m.
Proof.
  intros Hs Hv Hc Ht0. revert m Hs Hv Hc. induction ops as [|o ops IH]; intros m Hs Hv Hc; [done|].
  cbn [existsb ticks_before forallb]. intros [Hr Hrs]%orb_false_elim [Hb Hbs]%andb_true_iff Hh.
  assert (Hk : state (apply_op o m) = StateDown ∧ revived (apply_op o m) = true ∧
               condSince (apply_op o m) = t0 ∧ recoverAft (apply_op o m) = recoverAft m ∧
               ticks_hold under (apply_op o m) ops = true).
  { assert (Ho : ∀ x, revived (observe_loss x m) = true ∧ condSince (observe_loss x m) = t0 ∧
                      recoverAft (observe_loss x m) = recoverAft m ∧ state (observe_loss x m) = StateDown)
      by (intros x; unfold observe_loss; destruct (loss m <.? x); done).
    destruct o as [x r| |now|x|x|opts|now]; cbn [apply_op ticks_hold] in *; try done.
    - destruct (Ho x) as (?&?&?&?). unfold ObserveSample in *. case_match; [|done].
      by rewrite NoteAlive_revived in *.
    - by rewrite NoteAlive_revived in *.
    - unfold NoteMissedProbe in *. cbn in *. rewrite (bool_decide_eq_true_2 _ Hs) in *.
      repeat case_match; done.
    - destruct (Ho x) as (?&?&?&E). unfold ObserveInBand in *. cbn in *. rewrite E in *.
      rewrite andb_comm in *. cbn in *. by case_match.
    - destruct (Ho x) as (?&?&?&E). done.
    - apply andb_true_iff in Hh as [Hu Hh]. unfold Tick in *. rewrite Hs in *.
      fold (under m) in *. rewrite Hu in *. unfold sustained, is_zero in *. rewrite Hc in *.
      rewrite (proj2 (Z.eqb_neq t0 0)) in * by done. rewrite (proj2 (Z.leb_gt _ _)) in * by lia. done. }
  destruct Hk as (K1 & K2 & K3 & K4 & K5). unfold run. cbn [foldl]. fold (run (apply_op o m) ops).
  rewrite <-K4. apply IH; try done. by rewrite K4.
Qed.

Lemma under_tick_down t m :
  state m = StateDown → under m = true → Tick t m = sustained t (recoverAft m) StateHealthy m.
Proof. intros Hs Hu. unfold Tick. rewrite Hs. fold (under m). by rewrite Hu. Qed.

(** The first response of a DOWN path clears its loss; the next tick starts
    the recovery timer. *)
Lemma first_response m t0 :
  state m = StateDown → revived m = false → (f0 <.? (maxLoss m ⊠ of_dec 5 10)) = true →
  let m1 := run m [OAlive; OTick t0] in
  state m1 = StateDown ∧ revived m1 = true ∧ condSince m1 = t0 ∧ recoverAft m1 = recoverAft m.
Proof.
  intros Hs Hv Hf. unfold run. cbn [foldl apply_op]. unfold NoteAlive. cbn.
  rewrite Hv, (bool_decide_eq_true_2 _ Hs). cbn. by rewrite under_tick_down.
Qed.

(** Recovery. A DOWN path that answers again, and whose loss estimate
    stays below half the threshold at every tick from the first one at [t0] to
    one at [t1], [RecoverAfter] later, is HEALTHY after it, whatever samples,
    responses and missed probes come in between. *)
Theorem down_path_recovers m t0 mid t1 :
  state m = StateDown → revived m = false → t0 ≠ 0 →
  (f0 <.? (maxLoss m ⊠ of_dec 5 10)) = true →
  existsb is_reload mid = false →
  ticks_before t0 (recoverAft m) mid = true → recoverAft m ≤ time_sub t1 t0 →
  ticks_hold under (run m [OAlive; OTick t0]) (mid ++ [OTick t1]) = true →
  state (run m (OAlive :: OTick t0 :: mid ++ [OTick t1])) = StateHealthy.
Proof.
  intros Hs Hv Ht0 Hf Hr Hb Ht1 Hh.
  destruct (first_response m t0 Hs Hv Hf) as (F1 & F2 & F3 & F4).
  set (m1 := run m [OAlive; OTick t0]) in *.
  rewrite ticks_hold_app in Hh. apply andb_true_iff in Hh as [Hh Hu].
  change (OAlive :: OTick t0 :: mid ++ [OTick t1]) with ([OAlive; OTick t0] ++ (mid ++ [OTick t1])).
  rewrite run_app. fold m1. rewrite run_app.
  destruct (down_timer_kept t0 mid m1) as (G1 & G2 & G3); try done; [by rewrite F4|].
  cbn in Hu. rewrite andb_true_r in Hu. cbn [run foldl apply_op]. fold (run m1 mid).
  rewrite under_tick_down by done. unfold sustained, is_zero.
  rewrite G2, G3, F4, (proj2 (Z.eqb_neq _ _)), (proj2 (Z.leb_le _ _)); done.
Qed.

Lemma down_path_recovers_witness :
  let m := run (New default_options) [OMiss 1; OMiss 2; OMiss 3] in
  state (run m (OAlive :: OTick second ::
    [OSample f0 20000000; OMiss 7; OTick (5 * second); OAlive] ++ [OTick (11 * second)])) = StateHealthy.
Proof. apply down_path_recovers; vm_compute; reflexivity || discriminate. Defined.

(** Missed probes alone change neither the estimate nor a stopped timer. *)
Lemma misses_keep_loss ts m :
  condSince m = 0 →
  let m' := run m (OMiss <$> ts) in
  condSince m' = 0 ∧ loss m' = loss m ∧ maxLoss m' = maxLoss m ∧ recoverAft m' = recoverAft m ∧
  downGrace m' = downGrace m ∧ downAftMiss m' = downAftMiss m.
Proof.
  revert m. induction ts as [|t ts IH]; intros m Hc; [done|].
  destruct (IH (NoteMissedProbe t m)) as (?&?&?&?&?&?).
  { unfold NoteMissedProbe. by repeat case_match. }
  cbn. assert (E : loss (NoteMissedProbe t m) = loss m ∧ maxLoss (NoteMissedProbe t m) = maxLoss m ∧
    recoverAft (NoteMissedProbe t m) = recoverAft m ∧ downGrace (NoteMissedProbe t m) = downGrace m ∧
    downAftMiss (NoteMissedProbe t m) = downAftMiss m)
    by (unfold NoteMissedProbe; by repeat case_match).
  destruct E as (?&?&?&?&?). split_and!; (done || (etrans; done)).
Qed.

Lemma misses_only ts :
  existsb answers (OMiss <$> ts) = false ∧ existsb is_reload (OMiss <$> ts) = false ∧
  missed_probes (OMiss <$> ts) = Z.of_nat (length ts).
Proof.
  induction ts as [|t ts (?&?&?)]; [done|]. cbn [fmap list_fmap existsb missed_probes length].
  split_and!; [done|done|lia].
Qed.

(** DOWN does not wait for a response. A path that never answers: after
    the misses that took it DOWN, two ticks [RecoverAfter] apart return it to
    HEALTHY when its loss estimate is below half the threshold (misses do not
    feed the estimate), and the next tick takes it DOWN again. *)
Theorem unanswered_path_flaps m ts now t0 t1 t2 :
  0 ≤ misses m → downGrace m ≤ 0 → condSince m = 0 → under m = true →
  downAftMiss m ≤ Z.of_nat (length (ts ++ [now])) →
  t0 ≠ 0 → recoverAft m ≤ time_sub t1 t0 →
  let m1 := run m (OMiss <$> (ts ++ [now])) in
  state m1 = StateDown ∧
  state (Tick t1 (Tick t0 m1)) = StateHealthy ∧
  state (Tick t2 (Tick t1 (Tick t0 m1))) = StateDown.
Proof.
  intros H0 Hg Hc Hu Hn Ht0 Ht1 m1.
  destruct (misses_only ts) as (Ha & Hr & _), (misses_only (ts ++ [now])) as (_ & _ & Hk).
  destruct (misses_keep_loss (ts ++ [now]) m Hc) as (K1 & K2 & K3 & K4 & K5 & K6). fold m1 in K1, K2, K3, K4, K5, K6.
  destruct (last_miss_down m (OMiss <$> ts) now) as [S1 S2]; try done.
  { rewrite fmap_app in Hk. cbn in Hk. lia. }
  assert (E : run m ((OMiss <$> ts) ++ [OMiss now]) = m1) by (unfold m1; by rewrite fmap_app).
  rewrite E in S1, S2. clearbody m1.
  assert (Hu1 : under m1 = true) by (unfold under in *; by rewrite K2, K3).
  rewrite (under_tick_down t0 m1) by done. unfold sustained at 1 2, is_zero. rewrite K1. cbn [Z.eqb].
  rewrite (under_tick_down t1 (with_cond t0 m1)) by done. unfold sustained, is_zero. cbn.
  rewrite (proj2 (Z.eqb_neq _ _)), K4, (proj2 (Z.leb_le _ _)) by done.
  split_and!; [done|done|]. unfold Tick, missedDown. cbn.
  rewrite K5, K6, (proj2 (Z.leb_le (downAftMiss m) _)), (proj2 (Z.leb_le (downGrace m) _)) by done.
  done.
Qed.

Lemma unanswered_path_flaps_witness :
  let m1 := run (New default_options) (OMiss <$> ([1; 2] ++ [3])) in
  state m1 = StateDown ∧
  state (Tick (11 * second) (Tick second m1)) = StateHealthy ∧
  state (Tick (12 * second) (Tick (11 * second) (Tick second m1))) = StateDown.
Proof. apply unanswered_path_flaps; vm_compute; reflexivity || discriminate. Defined.
