(* ===== verification/SendQueue.v ===== *)
(** * Per-WAN send queue (internal/tunnel/wanqueue.go)

    The bounded FIFO of sealed frames with its drop policy, the token bucket
    and the consumer goroutine. The queue operations are functions on the
    queue's state; their interleaving with the consumer is a step function on
    the system of queue and consumer. *)

From S2P Require Import Prelude Float64.

#[local] Open Scope Z_scope.

Inductive queueDrop : Type := dropOldest | dropNewest.

Definition parseQueueDrop (s : string) : res string queueDrop :=
  if bool_decide (s = "oldest"%string) then Ok dropOldest
  else if bool_decide (s = "newest"%string) then Ok dropNewest
  else Err ("queue.drop: " ++ s)%string.

(** [wake] is whether the one-place channel holds a token. *)
Record sendQueue := mkSendQueue {
  wake : bool;
  closed : bool;
  maxBytes : Z;
  drop : queueDrop;
  q : list (list byte);
  bytes : Z;
  rate : f64;
  burst : f64;
  tokens : f64;
  lastRef : time;
  framesSent : Z;   (* uint64 *)
  bytesSent : Z;    (* uint64 *)
  dropped : Z;      (* uint64 *)
}.

(** [len(b)]. *)
Definition len (b : list byte) : Z := Z.of_nat (length b).

Definition newSendQueue (max : Z) (d : queueDrop) (rateBps : f64) (now : time) : sendQueue :=
  let max := if max <=? 0 then 262144 else max in
  mkSendQueue false false max d [] 0 rateBps (of_Z max) (of_Z max) now 0 0 0.

Definition with_queue (l : list (list byte)) (n : Z) (s : sendQueue) : sendQueue :=
  mkSendQueue (wake s) (closed s) (maxBytes s) (drop s) l n (rate s) (burst s) (tokens s)
    (lastRef s) (framesSent s) (bytesSent s) (dropped s).
Definition with_dropped (n : Z) (s : sendQueue) : sendQueue :=
  mkSendQueue (wake s) (closed s) (maxBytes s) (drop s) (q s) (bytes s) (rate s) (burst s)
    (tokens s) (lastRef s) (framesSent s) (bytesSent s) n.
Definition with_wake (b : bool) (s : sendQueue) : sendQueue :=
  mkSendQueue b (closed s) (maxBytes s) (drop s) (q s) (bytes s) (rate s) (burst s)
    (tokens s) (lastRef s) (framesSent s) (bytesSent s) (dropped s).
Definition with_closed (s : sendQueue) : sendQueue :=
  mkSendQueue (wake s) true (maxBytes s) (drop s) (q s) (bytes s) (rate s) (burst s)
    (tokens s) (lastRef s) (framesSent s) (bytesSent s) (dropped s).
Definition with_tokens (t : f64) (now : time) (s : sendQueue) : sendQueue :=
  mkSendQueue (wake s) (closed s) (maxBytes s) (drop s) (q s) (bytes s) (rate s) (burst s)
    t now (framesSent s) (bytesSent s) (dropped s).
Definition with_sent (f b : Z) (s : sendQueue) : sendQueue :=
  mkSendQueue (wake s) (closed s) (maxBytes s) (drop s) (q s) (bytes s) (rate s) (burst s)
    (tokens s) (lastRef s) f b (dropped s).

(** [signal]: a send that does not block. *)
Definition signal (s : sendQueue) : sendQueue := with_wake true s.

(** The eviction loop of [enqueue] on the queue's frames, byte count and drop
    counter; [None] is its early return when the queue ran empty. *)
Fixpoint evict (n max : Z) (l : list (list byte)) (b d : Z) : option (list (list byte)) * Z * Z :=
  if i64 (b + n) <=? max then (Some l, b, d)
  else
    match l with
    | [] => (None, b, u64 (d + 1))
    | head :: l => evict n max l (i64 (b - len head)) (u64 (d + 1))
    end.

(** [enqueue]. *)
Definition enqueue (b : list byte) (s : sendQueue) : bool * sendQueue :=
  if closed s then (false, s)
  else if maxBytes s <? len b then (false, with_dropped (u64 (dropped s + 1)) s)
  else
    let accept (s : sendQueue) :=
      (true, signal (with_queue (q s ++ [b]) (i64 (bytes s + len b)) s)) in
    if maxBytes s <? i64 (bytes s + len b) then
      match drop s with
      | dropNewest => (false, with_dropped (u64 (dropped s + 1)) s)
      | dropOldest =>
          match evict (len b) (maxBytes s) (q s) (bytes s) (dropped s) with
          | (Some l, n, d) => accept (with_dropped d (with_queue l n s))
          | (None, n, d) => (false, with_dropped d (with_queue [] n s))
          end
      end
    else accept s.

(** [close]. *)
Definition close (s : sendQueue) : sendQueue := signal (with_closed s).

(** [stats]. *)
Definition stats (s : sendQueue) : Z * Z * Z := (framesSent s, bytesSent s, dropped s).

(** One pass of the loop of [popNext], under the lock: a frame, the end, or a
    wait on [wake]. *)
Inductive popped : Type := Popped (b : list byte) | PopClosed | PopWait.

Definition popNext (s : sendQueue) : popped * sendQueue :=
  match q s with
  | b :: l =>
      (Popped b, with_sent (u64 (framesSent s + 1)) (u64 (bytesSent s + len b))
                   (with_queue l (i64 (bytes s - len b)) s))
  | [] => (if closed s then PopClosed else PopWait, s)
  end.

(** [d.Seconds()]. *)
Definition seconds (d : duration) : f64 :=
  of_Z (Z.quot d second) ⊞ (of_Z (Z.rem d second) ⊘ of_Z second).

(** One pass of the loop of [takeTokens] at clock reading [now]: refill, then
    take [n] tokens, or the time to sleep. *)
Inductive taken : Type := Taken | Sleep (d : duration).

Definition refill (now : time) (s : sendQueue) : sendQueue :=
  let elapsed := seconds (time_sub now (lastRef s)) in
  with_tokens (fmin (burst s) (tokens s ⊞ (elapsed ⊠ rate s))) now s.

Definition takeTokens (now : time) (n : Z) (s : sendQueue) : taken * sendQueue :=
  if rate s <=.? f0 then (Taken, s)
  else
    let need := of_Z n in
    let s := refill now s in
    if need <=.? tokens s then (Taken, with_tokens (tokens s ⊟ need) now s)
    else
      let deficit := (need ⊟ tokens s) ⊘ rate s in
      (Sleep (to_int (deficit ⊠ of_Z second)), s).

(** ** The consumer goroutine *)

(** Where [run] is: about to look at the queue, blocked on [wake] in
    [popNext], in [takeTokens] with a frame, or returned. *)
Inductive consumer : Type := AtPop | Waiting | AtTokens (b : list byte) | Returned.

(** The queue, its consumer, the frames enqueue accepted so far (oldest first)
    and the frames handed to [send] so far. *)
Record system := mkSystem {
  sq : sendQueue;
  cons : consumer;
  accepted : list (list byte);
  sent : list (list byte);
}.

Inductive event : Type :=
| EEnqueue (b : list byte)         (* a producer *)
| EClose
| EPop                             (* a pass of popNext *)
| EWake                            (* wake received *)
| ETake (now : time) (err : bool)  (* a pass of takeTokens; err: ctx.Err() != nil *)
| ECancel.                         (* ctx.Done() received in a select *)

(** One step of [run] or of a producer; [None]: the event is not enabled. *)
Definition step (e : event) (y : system) : option system :=
  match e, cons y with
  | EEnqueue b, _ =>
      let '(ok, s) := enqueue b (sq y) in
      Some (mkSystem s (cons y) (if ok then accepted y ++ [b] else accepted y) (sent y))
  | EClose, _ => Some (mkSystem (close (sq y)) (cons y) (accepted y) (sent y))
  | EPop, AtPop =>
      let '(r, s) := popNext (sq y) in
      let c := match r with Popped b => AtTokens b | PopClosed => Returned | PopWait => Waiting end in
      Some (mkSystem s c (accepted y) (sent y))
  | EWake, Waiting =>
      if wake (sq y) then Some (mkSystem (with_wake false (sq y)) AtPop (accepted y) (sent y)) else None
  | ETake now err, AtTokens b =>
      let '(r, s) := takeTokens now (len b) (sq y) in
      match r with
      | Taken => if err then Some (mkSystem s Returned (accepted y) (sent y))
                 else Some (mkSystem s AtPop (accepted y) (sent y ++ [b]))
      | Sleep _ => Some (mkSystem s (AtTokens b) (accepted y) (sent y))
      end
  | ECancel, (Waiting | AtTokens _) => Some (mkSystem (sq y) Returned (accepted y) (sent y))
  | _, _ => None
  end.

Definition start (max : Z) (d : queueDrop) (rateBps : f64) (now : time) : system :=
  mkSystem (newSendQueue max d rateBps now) AtPop [] [].

(** The clock does not run backwards. *)
Definition clock_ok (e : event) (y : system) : Prop :=
  match e with ETake now _ => lastRef (sq y) ≤ now | _ => True end.

Inductive reachable (max : Z) (d : queueDrop) (r : f64) (t : time) : system → Prop :=
| reach_start : reachable max d r t (start max d r t)
| reach_step e y y' :
    reachable max d r t y → clock_ok e y → step e y = Some y' → reachable max d r t y'.

(** ** Byte accounting *)

Definition total (l : list (list byte)) : Z := foldr (λ b n, len b + n) 0 l.

#[global] Arguments len : simpl never.
#[global] Arguments total : simpl never.

Lemma len_nonneg b : 0 ≤ len b.
Proof. unfold len. lia. Qed.

Lemma total_cons b l : total (b :: l) = len b + total l.
Proof. done. Qed.

Lemma total_nonneg l : 0 ≤ total l.
Proof. induction l as [|b l IH]; [done|]. rewrite total_cons. pose proof (len_nonneg b). lia. Qed.

Lemma total_app l k : total (l ++ k) = total l + total k.
Proof.
  induction l as [|b l IH]; [done|]. rewrite <-app_comm_cons, !total_cons, IH. lia.
Qed.

Lemma total_snoc l b : total (l ++ [b]) = total l + len b.
Proof. rewrite total_app, total_cons. change (total []) with 0. lia. Qed.

(** The byte counter is the size of the queue, and within the bound. *)
Record queue_ok (s : sendQueue) : Prop := {
  qo_bytes : bytes s = total (q s);
  qo_bound : total (q s) ≤ maxBytes s;
  qo_max : 0 < maxBytes s < 2 ^ 62;
}.

(** What the eviction loop leaves: the longest suffix that fits. *)
Lemma evict_spec n max l d :
  0 ≤ n ≤ max → max < 2 ^ 62 → total l ≤ max →
  ∃ pre kept, l = pre ++ kept ∧
    evict n max l (total l) d = (Some kept, total kept, Nat.iter (length pre) (λ d, u64 (d + 1)) d) ∧
    total kept + n ≤ max ∧
    (∀ pre' x, pre = pre' ++ [x] → max < len x + total kept + n).
Proof.
  intros Hn Hmax. revert d. induction l as [|x l IH]; intros d Hl.
  { exists [], []. cbn. change (total []) with 0. rewrite i64_small, (proj2 (Z.leb_le _ _)) by lia.
    split_and!; [done|done|lia|]. intros [|??] ?; done. }
  pose proof (total_nonneg l). pose proof (len_nonneg x). rewrite total_cons in Hl.
  cbn [evict]. rewrite total_cons, i64_small by lia.
  destruct (Z.leb_spec (len x + total l + n) max) as [Hle|Hgt].
  - exists [], (x :: l). split_and!; [done|done|done|]. intros [|??] ?; done.
  - rewrite i64_small by lia. replace (len x + total l - len x) with (total l) by lia.
    destruct (IH (u64 (d + 1)) ltac:(lia)) as (pre & kept & -> & E & Hfit & Hmin).
    exists (x :: pre), kept. split_and!; [done| |done|].
    + rewrite E. cbn [length]. by rewrite Nat.iter_succ_r.
    + intros pre' y Ep. destruct pre' as [|z pre']; cbn in Ep; simplify_eq.
      * cbn [app] in Hgt. lia.
      * by eapply Hmin.
Qed.

Lemma u64_iter k d : 0 ≤ d → Nat.iter k (λ d, u64 (d + 1)) (u64 d) = u64 (d + Z.of_nat k).
Proof.
  intros Hd. induction k as [|k IH]; [by rewrite Z.add_0_r|].
  cbn [Nat.iter nat_rect]. unfold Nat.iter in IH. rewrite IH. unfold_int.
  rewrite Zplus_mod_idemp_l. f_equal. lia.
Qed.

(** Specification of [enqueue]: what happens to the frames and the counter. *)
Definition enqueue_spec (b : list byte) (s : sendQueue) (ok : bool) (s' : sendQueue) : Prop :=
  if closed s then ok = false ∧ s' = s
  else if maxBytes s <? len b then ok = false ∧ q s' = q s ∧ dropped s' = u64 (dropped s + 1)
  else if total (q s) + len b <=? maxBytes s then
    ok = true ∧ q s' = q s ++ [b] ∧ dropped s' = dropped s
  else
    match drop s with
    | dropNewest => ok = false ∧ q s' = q s ∧ dropped s' = u64 (dropped s + 1)
    | dropOldest => ok = true ∧ ∃ evicted kept,
        q s = evicted ++ kept ∧ q s' = kept ++ [b] ∧ evicted ≠ [] ∧
        dropped s' = u64 (dropped s + Z.of_nat (length evicted)) ∧
        (∀ pre x, evicted = pre ++ [x] → maxBytes s < len x + total kept + len b)
    end.

Lemma enqueue_correct b s :
  queue_ok s → 0 ≤ dropped s < 2 ^ 64 →
  queue_ok (enqueue b s).2 ∧ enqueue_spec b s (enqueue b s).1 (enqueue b s).2 ∧
  ((enqueue b s).1 = true → wake (enqueue b s).2 = true).
Proof.
  intros [Hb Hbd Hmax] Hd. unfold enqueue, enqueue_spec.
  pose proof (len_nonneg b). pose proof (total_nonneg (q s)).
  assert (Hu : u64 (dropped s) = dropped s) by (unfold_int; by apply Z.mod_small).
  destruct (closed s) eqn:Hc; [by split_and!|].
  destruct (Z.ltb_spec (maxBytes s) (len b)) as [Hl|Hl]; [by split_and!|].
  rewrite Hb, i64_small by lia.
  destruct (Z.leb_spec (total (q s) + len b) (maxBytes s)) as [Hf|Hf].
  - rewrite (proj2 (Z.ltb_ge _ _)) by lia. cbn [fst snd]. split_and!; try done.
    split; cbn; rewrite ?total_snoc; lia.
  - rewrite (proj2 (Z.ltb_lt _ _)) by lia. destruct (drop s); [|by split_and!].
    destruct (evict_spec (len b) (maxBytes s) (q s) (dropped s)) as (pre & kept & Eq & -> & Hfit & Hmin);
      [lia..|]. cbn [fst snd q dropped with_dropped with_queue signal with_wake bytes].
    pose proof (total_nonneg kept).
    split_and!; [|done| |done].
    + split; cbn; rewrite ?total_snoc, ?i64_small; lia.
    + exists pre, kept. split_and!; [done|done| | |done].
      * intros ->. cbn in Eq. rewrite Eq in Hf. lia.
      * rewrite <-u64_iter by lia. by rewrite Hu.
Qed.

(** Drop policy. On a consistent queue, [enqueue] keeps the byte counter
    exact and within the bound, and behaves as its specification on every
    branch: in particular dropOldest evicts the shortest possible prefix, and
    an accepted frame leaves the wake-up token set. *)
Theorem enqueue_policy b s :
  queue_ok s → 0 ≤ dropped s < 2 ^ 64 →
  queue_ok (enqueue b s).2 ∧ enqueue_spec b s (enqueue b s).1 (enqueue b s).2 ∧
  ((enqueue b s).1 = true → wake (enqueue b s).2 = true).
Proof. intros. by apply enqueue_correct. Qed.

Definition frame_of (n : nat) : list byte := replicate n x00.

(** A 10-byte queue holding frames of 4, 3 and 2 bytes. *)
Definition full_queue : sendQueue :=
  (enqueue (frame_of 2) (enqueue (frame_of 3) (enqueue (frame_of 4)
    (newSendQueue 10 dropOldest f0 1)).2).2).2.

Lemma enqueue_policy_witness :
  queue_ok (enqueue (frame_of 5) full_queue).2 ∧
  enqueue_spec (frame_of 5) full_queue (enqueue (frame_of 5) full_queue).1 (enqueue (frame_of 5) full_queue).2 ∧
  ((enqueue (frame_of 5) full_queue).1 = true → wake (enqueue (frame_of 5) full_queue).2 = true).
Proof.
  apply enqueue_policy; [|split; vm_compute; congruence].
  split; [vm_compute; reflexivity|vm_compute; discriminate|split; vm_compute; reflexivity].
Defined.

(** ** Invariants of the running queue *)

Definition inflight (y : system) : list (list byte) :=
  match cons y with AtTokens b => [b] | _ => [] end.

Lemma enqueue_fields b s :
  let s' := (enqueue b s).2 in
  maxBytes s' = maxBytes s ∧ drop s' = drop s ∧ closed s' = closed s ∧ rate s' = rate s ∧
  burst s' = burst s ∧ tokens s' = tokens s ∧ lastRef s' = lastRef s.
Proof. unfold enqueue. repeat case_match; done. Qed.

Lemma enqueue_dropped b s : 0 ≤ dropped s < 2 ^ 64 → queue_ok s → 0 ≤ dropped (enqueue b s).2 < 2 ^ 64.
Proof.
  intros Hd Hq. destruct (enqueue_correct b s Hq Hd) as (_ & Hs & _).
  assert (Hu : ∀ z, 0 ≤ u64 z < 2 ^ 64) by apply u64_range.
  unfold enqueue_spec in Hs. destruct (closed s); [by destruct Hs as [_ ->]|].
  destruct (_ <? _); [by destruct Hs as (_ & _ & ->)|].
  destruct (_ <=? _); [by destruct Hs as (_ & _ & ->)|].
  destruct (drop s); [|by destruct Hs as (_ & _ & ->)].
  destruct Hs as (_ & ? & ? & _ & _ & _ & -> & _). done.
Qed.

(** The frames of the queue after an enqueue, as part of what was there. *)
Lemma enqueue_sublist b s :
  queue_ok s → 0 ≤ dropped s < 2 ^ 64 →
  if (enqueue b s).1
  then ∃ kept, q (enqueue b s).2 = kept ++ [b] ∧ kept `sublist_of` q s ∧
         (drop s = dropNewest → kept = q s)
  else q (enqueue b s).2 = q s.
Proof.
  intros Hq Hd. destruct (enqueue_correct b s Hq Hd) as (_ & Hs & _). unfold enqueue_spec in Hs.
  destruct (closed s); [by destruct Hs as [-> ->]|].
  destruct (_ <? _); [by destruct Hs as (-> & -> & _)|].
  destruct (_ <=? _); [destruct Hs as (-> & -> & _); by exists (q s)|].
  destruct (drop s); [|by destruct Hs as (-> & -> & _)].
  destruct Hs as (-> & pre & kept & Eq & -> & _). exists kept. split_and!; [done| |done].
  rewrite Eq. by apply sublist_inserts_l.
Qed.

Record system_ok (max : Z) (d : queueDrop) (y : system) : Prop := {
  so_queue : queue_ok (sq y);
  so_max : maxBytes (sq y) = max;
  so_drop : drop (sq y) = d;
  so_dropped : 0 ≤ dropped (sq y) < 2 ^ 64;
  so_fifo : (sent y ++ inflight y ++ q (sq y)) `sublist_of` accepted y;
  so_newest : d = dropNewest → cons y ≠ Returned → sent y ++ inflight y ++ q (sq y) = accepted y;
  so_wake : cons y = Waiting → q (sq y) ≠ [] ∨ closed (sq y) = true → wake (sq y) = true;
  so_inflight : Forall (λ b, len b ≤ max) (inflight y);
}.

Lemma takeTokens_fields now n s :
  let s' := (takeTokens now n s).2 in
  q s' = q s ∧ bytes s' = bytes s ∧ maxBytes s' = maxBytes s ∧ drop s' = drop s ∧
  dropped s' = dropped s ∧ wake s' = wake s ∧ closed s' = closed s ∧
  rate s' = rate s ∧ burst s' = burst s.
Proof. unfold takeTokens, refill. repeat case_match; done. Qed.

Lemma ok_enqueue max d b y y' : system_ok max d y → step (EEnqueue b) y = Some y' → system_ok max d y'.
Proof.
  intros [Hq Hm Hd Hdr Hf Hn Hw Hi] Hs. cbn in Hs.
  destruct (enqueue_correct b (sq y) Hq Hdr) as (Q1 & _ & Q3).
  pose proof (enqueue_dropped b (sq y) Hdr Hq) as Q4.
  pose proof (enqueue_sublist b (sq y) Hq Hdr) as Q5.
  destruct (enqueue_fields b (sq y)) as (F1 & F2 & F3 & _).
  destruct (enqueue b (sq y)) as [ok s] eqn:E; cbn [fst snd] in *. simplify_eq.
  split; cbn [sq cons accepted sent]; unfold inflight in *; cbn [cons]; try congruence.
  - destruct ok; [|by rewrite Q5]. destruct Q5 as (kept & -> & Hk & _).
    rewrite !app_assoc. apply sublist_app; [|done]. rewrite <-!app_assoc. etrans; [|exact Hf].
    do 2 (apply sublist_app; [done|]). done.
  - intros Ed Hc. destruct ok; [|by rewrite Q5, <-(Hn Ed)]. destruct Q5 as (kept & -> & _ & Hk).
    rewrite Hk by done. by rewrite <-(Hn Ed), <-!app_assoc.
  - intros Hc Hne. destruct ok; [by apply Q3|].
    assert (Hwk : wake s = wake (sq y)).
    { revert E. unfold enqueue. repeat case_match; intros ?; simplify_eq; done. }
    rewrite Hwk. apply Hw; [done|]. rewrite Q5 in Hne. by rewrite <-F3.
Qed.

Lemma ok_pop max d y y' : system_ok max d y → step EPop y = Some y' → system_ok max d y'.
Proof.
  intros [Hq Hm Hd Hdr Hf Hn Hw Hi] Hs. cbn in Hs. destruct (cons y) eqn:Ec; try done.
  unfold popNext in Hs. unfold inflight in *. rewrite Ec in *.
  destruct (q (sq y)) as [|b l] eqn:El.
  - destruct (closed (sq y)) eqn:Ecl; simplify_eq; split; cbn; rewrite ?El; try done.
    + intros Ed _. by apply Hn.
    + intros _ [?|?]; congruence.
  - simplify_eq. destruct Hq as [B1 B2 B3]. rewrite El, total_cons in B1, B2.
    pose proof (len_nonneg b). pose proof (total_nonneg l).
    split; cbn; try done.
    + split; cbn; rewrite ?B1, ?i64_small; lia.
    + intros Ed _. by apply Hn.
    + constructor; [lia|done].
Qed.

Lemma ok_take max d now err y y' :
  system_ok max d y → step (ETake now err) y = Some y' → system_ok max d y'.
Proof.
  intros [Hq Hm Hd Hdr Hf Hn Hw Hi] Hs. cbn in Hs. destruct (cons y) as [| |b|] eqn:Ec; try done.
  destruct (takeTokens_fields now (len b) (sq y)) as (F1 & F2 & F3 & F4 & F5 & F6 & F7 & F8 & F9).
  destruct (takeTokens now (len b) (sq y)) as [r s]; cbn [snd] in *.
  assert (Q : queue_ok s) by (destruct Hq; split; rewrite ?F1, ?F2, ?F3; done).
  unfold inflight in *. rewrite Ec in *.
  destruct r, err; simplify_eq; split; cbn [sq cons accepted sent]; try done; unfold inflight; cbn [cons];
    rewrite ?F1, ?F3, ?F4, ?F5; try done.
  - etrans; [|exact Hf]. apply sublist_app; [done|]. by apply sublist_inserts_l.
  - by rewrite <-app_assoc.
  - intros Ed _. rewrite <-app_assoc. by apply Hn.
Qed.

Lemma ok_step max d e y y' : system_ok max d y → step e y = Some y' → system_ok max d y'.
Proof.
  intros Ho Hs. destruct e.
  - by eapply ok_enqueue.
  - cbn in Hs. simplify_eq. destruct Ho as [[] ???????]. split; try done.
  - by eapply ok_pop.
  - cbn in Hs. destruct (cons y) eqn:Ec; try done. destruct (wake (sq y)); [|done]. simplify_eq.
    destruct Ho as [[] ? ? ? ? Hn ? ?]. unfold inflight in *. rewrite Ec in *. split; try done.
    intros Ed _. by apply Hn.
  - by eapply ok_take.
  - cbn in Hs. destruct Ho as [[] ? ? ? Hf ? ? ?]. unfold inflight in *.
    destruct (cons y) eqn:Ec; try done; simplify_eq; split; try done; cbn.
    etrans; [|exact Hf]. apply sublist_app; [done|]. by apply sublist_cons.
Qed.

Lemma reachable_ok max d r t y :
  0 < max < 2 ^ 62 → reachable max d r t y → system_ok max d y.
Proof.
  intros Hm. induction 1 as [|e y y' _ IH _ Hs]; [|by eapply ok_step].
  unfold start, newSendQueue. rewrite (proj2 (Z.leb_gt _ _)) by lia.
  split; cbn; try done. split; cbn; change (total []) with 0; lia.
Qed.

(** C24 — FIFO with bounded memory. In every interleaving of producers, closing,
    cancellation and the consumer, the frames sent, in flight and queued are in
    the order they were accepted, each at most once, and the queued bytes never
    exceed the bound; under dropNewest and until the consumer returns no
    accepted frame is lost. *)
Theorem sendqueue_fifo max d r t y :
  0 < max < 2 ^ 62 → reachable max d r t y →
  (sent y ++ inflight y ++ q (sq y)) `sublist_of` accepted y ∧
  bytes (sq y) = total (q (sq y)) ∧ bytes (sq y) ≤ max ∧
  (d = dropNewest → cons y ≠ Returned → sent y ++ inflight y ++ q (sq y) = accepted y).
Proof.
  intros Hm Hr. destruct (reachable_ok max d r t y Hm Hr) as [[] ???????]. split_and!; try done. lia.
Qed.

Fixpoint steps (es : list event) (y : system) : option system :=
  match es with
  | [] => Some y
  | e :: es => match step e y with Some y' => steps es y' | None => None end
  end.

Lemma reachable_steps max d r t es y y' :
  reachable max d r t y → forallb (λ e, match e with ETake _ _ => false | _ => true end) es = true →
  steps es y = Some y' → reachable max d r t y'.
Proof.
  revert y. induction es as [|e es IH]; intros y Hr He Hs; cbn in *; [by simplify_eq|].
  apply andb_true_iff in He as [He Hes]. destruct (step e y) as [y1|] eqn:E; [|done].
  apply (IH y1); [|done|done]. eapply reach_step; [done| |done]. by destruct e.
Qed.

Lemma sendqueue_fifo_witness :
  let y := mkSystem (enqueue (frame_of 5) full_queue).2 AtPop
             [frame_of 4; frame_of 3; frame_of 2; frame_of 5] [] in
  (sent y ++ inflight y ++ q (sq y)) `sublist_of` accepted y ∧
  bytes (sq y) = total (q (sq y)) ∧ bytes (sq y) ≤ 10 ∧
  (dropOldest = dropNewest → cons y ≠ Returned → sent y ++ inflight y ++ q (sq y) = accepted y).
Proof.
  apply (sendqueue_fifo 10 dropOldest f0 1); [lia|].
  apply (reachable_steps _ _ _ _ (EEnqueue <$> [frame_of 4; frame_of 3; frame_of 2; frame_of 5])
           (start 10 dropOldest f0 1)); [apply reach_start|vm_compute; reflexivity..].
Defined.

(** ** The token bucket *)

(** The bucket holds a number of tokens between 0 and [burst], which is the
    byte bound of the queue; the rate is the one configured. *)
Record bucket_ok (max : Z) (rz : Z) (s : sendQueue) : Prop := {
  bo_burst : burst s = Fin (max * one_u);
  bo_rate : rate s = Fin rz;
  bo_tokens : ∃ z, tokens s = Fin z ∧ 0 ≤ z ≤ max * one_u ∧ repr z;
}.

Lemma one_u_pos : 0 < one_u.
Proof. reflexivity. Qed.

Lemma seconds_nonneg d : 0 ≤ d < 2 ^ 63 → ∃ z, seconds d = Fin z ∧ 0 ≤ z.
Proof.
  intros Hd. unfold seconds, second. pose proof one_u_pos.
  assert (H1 : 0 ≤ Z.quot d 1000000000 ≤ 2 ^ 53).
  { rewrite Z.quot_div_nonneg by lia. split; [apply Z.div_pos; lia|].
    apply Z.div_le_upper_bound; lia. }
  assert (H2 : 0 ≤ Z.rem d 1000000000 < 1000000000) by (apply Z.rem_bound_pos; lia).
  set (a := Z.quot d 1000000000) in *. set (b := Z.rem d 1000000000) in *.
  rewrite !of_Z_exact by lia. cbn [fdiv]. rewrite (proj2 (Z.eqb_neq _ _)) by lia.
  rewrite Z.sgn_pos, Z.abs_eq, Z.mul_1_r by lia.
  destruct (round_between (b * one_u * one_u) (1000000000 * one_u) 0 one_u) as (z & -> & Hz & Rz & _);
    [lia|apply repr_0|apply repr_1|nia|].
  cbn [fadd]. destruct (round_between (a * one_u + z) 1 0 (2 ^ 53 * one_u)) as (w & -> & Hw & _);
    [lia|apply repr_0|apply repr_int; lia| |by exists w; split; [|lia]].
  assert (a + 1 ≤ 2 ^ 53); [|nia]. unfold a.
  rewrite Z.quot_div_nonneg by lia. enough (d / 1000000000 < 2 ^ 53) by lia.
  apply Z.div_lt_upper_bound; lia.
Qed.

(** A refill keeps the bucket within bounds and never takes tokens away; it
    leaves at least [min(burst, elapsed*rate)]. *)
Lemma refill_ok max rz now lo s :
  bucket_ok max rz s → 0 < max ≤ 2 ^ 53 → 0 < rz → lastRef s ≤ now →
  0 ≤ lo ≤ max * one_u → repr lo → above lo (seconds (time_sub now (lastRef s)) ⊠ rate s) →
  bucket_ok max rz (refill now s) ∧ (Fin lo <=.? tokens (refill now s)) = true.
Proof.
  intros [Hb Hr (z & Ht & Hz & Rz)] Hm Hrz Hnow Hlo Rlo Hx. unfold refill.
  set (x := seconds _ ⊠ rate s) in *.
  assert (Ha : above lo (Fin z ⊞ x)) by (apply above_add; [lia|done|by split; [lia|]|done]).
  assert (Rb : repr (max * one_u)) by (apply repr_int; lia).
  rewrite Hb, Ht. destruct (Fin z ⊞ x) as [v|s0|]; cbn in Ha; [|subst s0|done].
  - destruct Ha as [Ha Rv]. cbn [fmin fltb]. destruct (Z.ltb_spec v (max * one_u)).
    + split; [split; cbn; [done..|]|]; [exists v; split_and!; [done|lia|lia|done]|unfold fleb; cbn; lia].
    + split; [split; cbn; [done..|]|]; [eexists; split_and!; [done|lia|lia|done]|unfold fleb; cbn; lia].
  - cbn [fmin fltb]. split; [split; cbn; [done..|]|]; [eexists; split_and!; [done|lia|lia|done]|unfold fleb; cbn; lia].
Qed.

Lemma elapsed_above now s rz :
  rate s = Fin rz → 0 < rz → lastRef s ≤ now →
  above 0 (seconds (time_sub now (lastRef s)) ⊠ rate s).
Proof.
  intros -> Hrz Hnow. destruct (seconds_nonneg (time_sub now (lastRef s))) as (e & -> & He).
  { unfold time_sub. lia. }
  apply above_mul; [lia|apply repr_0|lia|lia|nia].
Qed.

Lemma takeTokens_ok max rz now n s :
  bucket_ok max rz s → 0 < max ≤ 2 ^ 53 → lastRef s ≤ now → 0 ≤ n ≤ max →
  bucket_ok max rz (takeTokens now n s).2.
Proof.
  intros Hok Hm Hnow Hn. pose proof one_u_pos. unfold takeTokens. rewrite (bo_rate _ _ _ Hok).
  destruct (Fin rz <=.? f0) eqn:Er; [done|].
  assert (Hrz : 0 < rz) by (unfold fleb in Er; cbn in Er; lia).
  destruct (refill_ok max rz now 0 s) as [Hok' _]; try done; [nia|by eapply elapsed_above; [apply Hok|..]|].
  set (s' := refill now s) in *. rewrite of_Z_exact by lia.
  destruct (Fin (n * one_u) <=.? tokens s') eqn:Et; cbn [snd]; [|done].
  destruct Hok' as [B1 B2 (z & B3 & Hz & Rz)]. split; [done..|].
  rewrite B3 in *. unfold fleb in Et. cbn in Et. cbn [tokens with_tokens fsub fneg fadd].
  destruct (round_between (z + - (n * one_u)) 1 0 (max * one_u)) as (w & -> & Hw & Rw & _);
    [lia|apply repr_0|apply repr_int; lia|nia|by exists w].
Qed.

Lemma bucket_step max d rz e y y' :
  0 < max ≤ 2 ^ 32 → system_ok max d y → clock_ok e y → step e y = Some y' →
  bucket_ok max rz (sq y) → bucket_ok max rz (sq y').
Proof.
  intros Hm Ho Hc Hs Hb. destruct e as [b| | | |now err|]; cbn in Hs.
  - pose proof (enqueue_fields b (sq y)) as (_ & _ & _ & F4 & F5 & F6 & _).
    destruct (enqueue b (sq y)) as [ok s]; cbn [snd] in *. simplify_eq. cbn.
    destruct Hb. by split; rewrite ?F4, ?F5, ?F6.
  - simplify_eq. destruct Hb. by split.
  - destruct (cons y); try done. unfold popNext in Hs.
    destruct (q (sq y)); simplify_eq; destruct Hb; by split.
  - destruct (cons y); try done. destruct (wake (sq y)); simplify_eq. destruct Hb; by split.
  - destruct (cons y) as [| |b|] eqn:Ec; try done. cbn in Hc.
    pose proof (so_inflight _ _ _ Ho) as Hi. unfold inflight in Hi. rewrite Ec in Hi.
    apply Forall_inv in Hi. pose proof (len_nonneg b).
    pose proof (takeTokens_ok max rz now (len b) (sq y) Hb ltac:(lia) Hc ltac:(lia)) as Hk.
    destruct (takeTokens now (len b) (sq y)) as [[|sl] s]; cbn [snd] in Hk;
      [destruct err|]; by simplify_eq.
  - destruct (cons y); by simplify_eq.
Qed.

Lemma reachable_bucket max d rz t y :
  0 < max ≤ 2 ^ 32 → reachable max d (Fin rz) t y → bucket_ok max rz (sq y).
Proof.
  intros Hm. pose proof one_u_pos. induction 1 as [|e y y' Hr IH Hc Hs].
  - unfold start, newSendQueue. rewrite (proj2 (Z.leb_gt _ _)) by lia.
    split; cbn; rewrite ?of_Z_exact by lia; [done..|].
    eexists. split_and!; [done|nia|lia|apply repr_int; lia].
  - eapply bucket_step; try done. eapply reachable_ok; [|done]. lia.
Qed.

Lemma seconds_whole k : 0 ≤ k ≤ 2 ^ 32 → seconds (k * second) = Fin (k * one_u).
Proof.
  intros Hk. unfold seconds. pose proof one_u_pos.
  rewrite Z.quot_mul, Z.rem_mul by (unfold second; lia).
  unfold second. rewrite !of_Z_exact by lia. cbn [fdiv].
  rewrite (proj2 (Z.eqb_neq _ _)), !Z.mul_0_l, round_0 by lia. cbn [fadd]. rewrite Z.add_0_r.
  apply round_exact, repr_int. lia.
Qed.

(** Enough time grants the tokens of any frame the queue accepts. *)
Lemma tokens_granted max rz s n :
  bucket_ok max rz s → 0 < max ≤ 2 ^ 32 → rz ≤ 0 ∨ one_u ≤ rz → 0 ≤ n ≤ max →
  (takeTokens (lastRef s + n * second) n s).1 = Taken.
Proof.
  intros Hok Hm Hrz Hn. unfold takeTokens. rewrite (bo_rate _ _ _ Hok). pose proof one_u_pos.
  destruct (Fin rz <=.? f0) eqn:Er; [done|].
  assert (Hrz' : one_u ≤ rz) by (unfold fleb in Er; cbn in Er; lia).
  rewrite of_Z_exact by lia.
  assert (Es : time_sub (lastRef s + n * second) (lastRef s) = n * second)
    by (unfold time_sub, second; lia).
  destruct (refill_ok max rz (lastRef s + n * second) (n * one_u) s) as [_ ->]; try done.
  - lia.
  - lia.
  - unfold second. lia.
  - nia.
  - apply repr_int. lia.
  - rewrite Es, seconds_whole, (bo_rate _ _ _ Hok) by lia.
    apply above_mul; [lia|apply repr_int; lia|lia|lia|nia].
Qed.

(** The consumer's own events: no producer, no cancellation. *)
Definition consumer_event (e : event) : bool :=
  match e with EPop | EWake | ETake _ false => true | _ => false end.

Lemma take_progress max d rz y b :
  0 < max ≤ 2 ^ 32 → rz ≤ 0 ∨ one_u ≤ rz →
  system_ok max d y → bucket_ok max rz (sq y) → cons y = AtTokens b →
  ∃ now y', lastRef (sq y) ≤ now ∧ step (ETake now false) y = Some y' ∧ sent y' = sent y ++ [b].
Proof.
  intros Hm Hrz Ho Hb Ec. pose proof (len_nonneg b).
  pose proof (so_inflight _ _ _ Ho) as Hi. unfold inflight in Hi. rewrite Ec in Hi. apply Forall_inv in Hi.
  pose proof (tokens_granted max rz (sq y) (len b) Hb Hm Hrz ltac:(lia)) as Ht.
  exists (lastRef (sq y) + len b * second). cbn. rewrite Ec.
  destruct (takeTokens _ (len b) (sq y)) as [r s]; cbn in Ht. subst r.
  eexists. split_and!; [unfold second; lia|done|done].
Qed.

Lemma pop_progress max d rz y b l :
  0 < max ≤ 2 ^ 32 → rz ≤ 0 ∨ one_u ≤ rz →
  system_ok max d y → bucket_ok max rz (sq y) → cons y = AtPop → q (sq y) = b :: l →
  ∃ now y', lastRef (sq y) ≤ now ∧ steps [EPop; ETake now false] y = Some y' ∧ sent y' = sent y ++ [b].
Proof.
  intros Hm Hrz Ho Hb Ec Eq.
  destruct (step EPop y) as [y1|] eqn:E1; [|by cbn in E1; rewrite Ec in E1; unfold popNext in E1; rewrite Eq in E1].
  assert (O1 : system_ok max d y1) by (by eapply ok_step).
  assert (B1 : bucket_ok max rz (sq y1)) by (by apply (bucket_step max d rz EPop y)).
  assert (C1 : cons y1 = AtTokens b ∧ lastRef (sq y1) = lastRef (sq y) ∧ sent y1 = sent y).
  { cbn in E1. rewrite Ec in E1. unfold popNext in E1. rewrite Eq in E1. by simplify_eq. }
  destruct C1 as (C1 & C2 & C3).
  destruct (take_progress max d rz y1 b Hm Hrz O1 B1 C1) as (now & y' & Hn & Hs & He).
  exists now, y'. cbn [steps]. rewrite E1, Hs. split_and!; [lia|done|by rewrite He, C3].
Qed.

(** C16 — No lost wake-up, no starvation. In every reachable state in which the
    consumer runs and a frame is in flight or queued, the consumer's own steps,
    at most three of them and with no further event from a producer, send the
    first such frame: a blocked consumer always has its wake-up token, and the
    bucket grants the tokens of every frame the queue accepts (rate off, or at
    least one byte per second). *)
Theorem consumer_progress max d rz t y b l :
  0 < max ≤ 2 ^ 32 → rz ≤ 0 ∨ one_u ≤ rz → reachable max d (Fin rz) t y →
  cons y ≠ Returned → inflight y ++ q (sq y) = b :: l →
  ∃ es y', steps es y = Some y' ∧ forallb consumer_event es = true ∧ (length es ≤ 3)%nat ∧
    sent y' = sent y ++ [b].
Proof.
  intros Hm Hrz Hr Hc Hq. pose proof (reachable_ok max d (Fin rz) t y ltac:(lia) Hr) as Ho.
  pose proof (reachable_bucket max d rz t y Hm Hr) as Hb. unfold inflight in Hq.
  destruct (cons y) as [| |b'|] eqn:Ec; try done; cbn in Hq.
  - destruct (pop_progress max d rz y b l) as (now & y' & _ & Hs & He); try done.
    exists [EPop; ETake now false], y'. split_and!; [done|done|cbn; lia|done].
  - assert (Hw : wake (sq y) = true) by (apply (so_wake _ _ _ Ho); [done|left; by rewrite Hq]).
    destruct (step EWake y) as [y1|] eqn:E1; [|by cbn in E1; rewrite Ec, Hw in E1].
    assert (E2 : cons y1 = AtPop ∧ q (sq y1) = b :: l ∧ sent y1 = sent y)
      by (cbn in E1; rewrite Ec, Hw in E1; by simplify_eq).
    destruct E2 as (E2 & E3 & E4).
    destruct (pop_progress max d rz y1 b l) as (now & y' & _ & Hs & He); try done.
    + by eapply ok_step.
    + by apply (bucket_step max d rz EWake y).
    + exists [EWake; EPop; ETake now false], y'. cbn [steps] in *. rewrite E1.
      split_and!; [done|done|cbn; lia|by rewrite He, E4].
  - simplify_eq. destruct (take_progress max d rz y b) as (now & y' & _ & Hs & He); try done.
    exists [ETake now false], y'. cbn [steps]. rewrite Hs. split_and!; [done|done|cbn; lia|done].
Qed.

(** A consumer that blocked on the empty queue before the frame came. *)
Definition blocked_then_fed : system :=
  mkSystem (enqueue (frame_of 7) (newSendQueue 10 dropOldest (of_Z 1000) 1)).2 Waiting [frame_of 7] [].

Lemma consumer_progress_witness :
  ∃ es y', steps es blocked_then_fed = Some y' ∧ forallb consumer_event es = true ∧
    (length es ≤ 3)%nat ∧ sent y' = [] ++ [frame_of 7].
Proof.
  apply (consumer_progress 10 dropOldest (1000 * one_u) 1 blocked_then_fed (frame_of 7) []).
  - lia.
  - right. pose proof one_u_pos. lia.
  - rewrite <-of_Z_exact by lia.
    apply (reachable_steps _ _ _ _ [EPop; EEnqueue (frame_of 7)] (start 10 dropOldest (of_Z 1000) 1));
      [apply reach_start|vm_compute; reflexivity..].
  - discriminate.
  - vm_compute. reflexivity.
Defined.
