(* ===== verification/Scheduler.v ===== *)
(** * The scheduler (internal/scheduler/scheduler.go)

    Choice of a WAN per frame: standby, weighted random, smooth weighted
    round-robin and consistent hashing over the usable paths.

    The Go struct holds every path twice, in the slice [paths] and in the map
    [byID], as pointers to the same object; here [paths] holds the objects and
    a lookup in [byID] is a search by id. *)

From S2P Require Import Prelude Float64 Frame Health.

#[local] Open Scope Z_scope.

(** [Options]; the strings keep the values of the configuration. *)
Record sched_options := mkSchedOptions {
  so_Mode : string;
  so_Affinity : string;
  so_BalanceBy : string;
}.

Definition ModeLB : string := "lb".
Definition ModeStandby : string := "standby".
Definition AffPacket : string := "packet".
Definition AffFlow : string := "flow".
Definition ByCapacity : string := "capacity".
Definition ByFEC : string := "fec".
Definition ByRound : string := "roundrobin".

Definition weightDegraded : f64 := of_dec 2 10.

Record path := mkPath {
  p_id : string;
  p_capacity : f64;
  p_state : State;
  p_loss : f64;
  p_rr : f64;
}.

(** The random source: the Float64 method of math/rand is in [0,1). *)
Class Rand (R : Type) := {
  rand_float : R → f64 * R;
  rand_range : ∀ r, ∃ z, (rand_float r).1 = Fin z ∧ 0 ≤ z < one_u ∧ repr z;
}.

Record Scheduler (R : Type) := mkScheduler {
  opts : sched_options;
  paths : list path;
  ring : option (list Z);          (* nil before the first build *)
  ringPaths : gmap Z string;
  lastRingVer : Z;                 (* uint64 *)
  ringVer : Z;                     (* uint64 *)
  rng : R;
}.
Arguments mkScheduler {R}. Arguments opts {R}. Arguments paths {R}. Arguments ring {R}.
Arguments ringPaths {R}. Arguments lastRingVer {R}. Arguments ringVer {R}. Arguments rng {R}.

(** [PathInfo], [Paths]. *)
Definition Paths {R} (s : Scheduler R) : list (string * f64 * string * f64) :=
  map (λ p, (p_id p, p_capacity p, State_String (p_state p), p_loss p)) (paths s).

Definition or_default (s d : string) : string := if bool_decide (s = ""%string) then d else s.

(** [New]. *)
Definition newScheduler {R} (o : sched_options) (r : R) : Scheduler R :=
  mkScheduler (mkSchedOptions (or_default (so_Mode o) ModeLB) (or_default (so_Affinity o) AffPacket)
                 (or_default (so_BalanceBy o) ByCapacity))
    [] None ∅ 0 0 r.

(** [s.byID[id]]. *)
Definition find_path (id : string) (ps : list path) : option path :=
  List.find (λ p, bool_decide (p_id p = id)) ps.

(** An update of the object with the given id. *)
Definition update_path (id : string) (f : path → path) (ps : list path) : list path :=
  map (λ p, if bool_decide (p_id p = id) then f p else p) ps.

Definition with_paths {R} (ps : list path) (s : Scheduler R) : Scheduler R :=
  mkScheduler (opts s) ps (ring s) (ringPaths s) (lastRingVer s) (ringVer s) (rng s).
(** [s.ringVer++]. *)
Definition bump_ring {R} (s : Scheduler R) : Scheduler R :=
  mkScheduler (opts s) (paths s) (ring s) (ringPaths s) (lastRingVer s) (u64 (ringVer s + 1)) (rng s).

Definition set_capacity (c : f64) (p : path) : path :=
  mkPath (p_id p) c (p_state p) (p_loss p) (p_rr p).
Definition set_health (st : State) (l : f64) (p : path) : path :=
  mkPath (p_id p) (p_capacity p) st l (p_rr p).
Definition set_rr (x : f64) (p : path) : path :=
  mkPath (p_id p) (p_capacity p) (p_state p) (p_loss p) x.

(** [AddPath]. *)
Definition AddPath {R} (id : string) (capacityMbps : f64) (s : Scheduler R) : Scheduler R :=
  match find_path id (paths s) with
  | Some _ => with_paths (update_path id (set_capacity capacityMbps) (paths s)) s
  | None => bump_ring (with_paths (paths s ++ [mkPath id capacityMbps StateHealthy f0 f0]) s)
  end.

(** The loop of [RemovePath]: drop the first path with the id. *)
Fixpoint remove_first (id : string) (ps : list path) : list path :=
  match ps with
  | [] => []
  | p :: ps => if bool_decide (p_id p = id) then ps else p :: remove_first id ps
  end.

(** [RemovePath]. *)
Definition RemovePath {R} (id : string) (s : Scheduler R) : Scheduler R :=
  match find_path id (paths s) with
  | None => s
  | Some _ => bump_ring (with_paths (remove_first id (paths s)) s)
  end.

(** [OnState]. *)
Definition OnState {R} (id : string) (st : State) (l : f64) (s : Scheduler R) : Scheduler R :=
  match find_path id (paths s) with
  | None => s
  | Some _ => bump_ring (with_paths (update_path id (set_health st l) (paths s)) s)
  end.

Definition is_usable (p : path) : bool := negb (bool_decide (p_state p = StateDown)).

(** [usableLocked]. *)
Definition usableLocked {R} (s : Scheduler R) : list path := List.filter is_usable (paths s).

(** [Healthy]. *)
Definition Healthy {R} (s : Scheduler R) : bool := negb (bool_decide (usableLocked s = [])).

(** [weightLocked]. *)
Definition weightLocked (o : sched_options) (p : path) : f64 :=
  match p_state p with
  | StateDown => f0
  | StateDegraded => weightDegraded
  | StateHealthy =>
      if bool_decide (so_BalanceBy o = ByRound) || (p_capacity p <=.? f0) then f1 else p_capacity p
  end.

#[export] Instance path_eq_dec : EqDecision path.
Proof. solve_decision. Defined.

(** The selection loop of [pickWeightedLocked]: [None] when it runs through. *)
Fixpoint weighted_loop (o : sched_options) (r : f64) (ps : list path) : option string :=
  match ps with
  | [] => None
  | p :: ps =>
      let r := r ⊟ weightLocked o p in
      if r <=.? f0 then Some (p_id p) else weighted_loop o r ps
  end.

(** [pickWeightedLocked] on a non-empty usable set [p0 :: ps]. *)
Definition pickWeightedLocked `{Rand R} (s : Scheduler R) (p0 : path) (ps : list path) :
    string * Scheduler R :=
  let usable := p0 :: ps in
  let total := foldl (λ t p, t ⊞ weightLocked (opts s) p) f0 usable in
  if total <=.? f0 then (p_id p0, s)
  else
    let '(u, rng') := rand_float (rng s) in
    let s := mkScheduler (opts s) (paths s) (ring s) (ringPaths s) (lastRingVer s) (ringVer s) rng' in
    match weighted_loop (opts s) (u ⊠ total) usable with
    | Some id => (id, s)
    | None => (p_id (List.last usable p0), s)
    end.

(** [fnv1a]. *)
Definition fnv_mix (h x : Z) : Z := u32 (Z.lxor h x * 16777619).
Definition fnv1a (id : string) (v : Z) : Z :=
  fnv_mix (foldl (λ h c, fnv_mix h (Z.of_N (Ascii.N_of_ascii c))) 2166136261
             (String.list_ascii_of_string id)) v.

(** The virtual nodes of the usable paths, in the order [buildRing] visits them. *)
Definition path_nodes (id : string) : list (Z * string) :=
  map (λ v, (fnv1a id (Z.of_nat v), id)) (seq 0 64).
Definition ring_nodes (ids : list string) : list (Z * string) := flat_map path_nodes ids.

(** [buildRing]: sorted nodes, and the map in which a later node replaces an
    earlier one of the same hash. *)
Definition buildRing {R} (usable : list path) (s : Scheduler R) : Scheduler R :=
  let nodes := ring_nodes (map p_id usable) in
  mkScheduler (opts s) (paths s) (Some (merge_sort Z.le (map fst nodes)))
    (foldl (λ m kv, <[kv.1 := kv.2]> m) ∅ nodes) (ringVer s) (ringVer s) (rng s).

(** [sort.Search(n, f)]: binary search over [lo, hi). *)
Fixpoint sort_search (fuel : nat) (f : nat → bool) (lo hi : nat) : nat :=
  match fuel with
  | O => lo
  | S fuel =>
      if (lo <? hi)%nat then
        let h := ((lo + hi) / 2)%nat in
        if f h then sort_search fuel f lo h else sort_search fuel f (S h) hi
      else lo
  end.

(** [pickRingLocked]; [None] would be an index out of range. *)
Definition pickRingLocked {R} (h : Z) (usable : list path) (s : Scheduler R) :
    option string * Scheduler R :=
  let s := match ring s with
           | None => buildRing usable s
           | Some _ => if lastRingVer s =? ringVer s then s else buildRing usable s
           end in
  let r := default [] (ring s) in
  let i := sort_search (S (length r)) (λ i, u32 h <=? nth i r 0) 0 (length r) in
  let i := if (i =? length r)%nat then 0%nat else i in
  match r !! i with
  | None => (None, s)
  | Some n => (Some (default ""%string (ringPaths s !! n)), s)
  end.

(** [parseInnerHash]. *)
Definition parseInnerHash (payload : list byte) : option Z :=
  let byte_at (i : nat) := b2z (nth i payload x00) in
  if (length payload <? 20)%nat then None
  else if negb (Z.shiftr (byte_at 0%nat) 4 =? 4) then None
  else
    let ihl := (Z.to_nat (Z.land (byte_at 0%nat) 15) * 4)%nat in
    if (ihl <? 20)%nat || (length payload <? ihl)%nat then None
    else
      let proto := byte_at 9%nat in
      let base := Z.lor (Z.shiftl (be_get (slice 12 16 payload)) 32) (be_get (slice 16 20 payload)) in
      if ((proto =? 6) || (proto =? 17)) && (ihl + 4 <=? length payload)%nat then
        let base := Z.lxor base (Z.shiftl (be_get (slice ihl (ihl + 2) payload)) 16) in
        Some (Z.lxor base (be_get (slice (ihl + 2) (ihl + 4) payload)))
      else Some base.

(** The standby choice among the usable paths. *)
Definition pick_standby (p0 : path) (ps : list path) : string :=
  match List.find (λ p, bool_decide (p_state p = StateHealthy)) (p0 :: ps) with
  | Some p => p_id p
  | None => p_id p0
  end.

(** [Pick]: a path, [Ok None] when no path is usable. *)
Definition Pick `{Rand R} (f : frame) (s : Scheduler R) : res unit (option string) * Scheduler R :=
  match usableLocked s with
  | [] => (Ok None, s)
  | p0 :: ps =>
      if bool_decide (so_Mode (opts s) = ModeStandby) then (Ok (Some (pick_standby p0 ps)), s)
      else
        match (if bool_decide (so_Affinity (opts s) = AffFlow) then parseInnerHash (f_payload f) else None) with
        | Some h =>
            let '(r, s) := pickRingLocked h (p0 :: ps) s in
            (match r with Some id => Ok (Some id) | None => Panic end, s)
        | None => let '(id, s) := pickWeightedLocked s p0 ps in (Ok (Some id), s)
        end
  end.

(** [p.rr += w]. *)
Definition wrr_bump (o : sched_options) (p : path) : path := set_rr (p_rr p ⊞ weightLocked o p) p.

(** The loop of [PickWRR] after its first iteration: total and best path. The
    first iteration compares [usable[0]] with itself and only bumps it. *)
Definition wrr_loop (o : sched_options) (total : f64) (best : path) (ps : list path) : f64 * path :=
  foldl (λ tb p, let p' := wrr_bump o p in
                 (tb.1 ⊞ weightLocked o p, if p_rr tb.2 <.? p_rr p' then p' else tb.2))
    (total, best) ps.

(** [PickWRR]. *)
Definition PickWRR {R} (s : Scheduler R) : option string * Scheduler R :=
  match usableLocked s with
  | [] => (None, s)
  | p0 :: ps =>
      let o := opts s in
      let '(total, best) := wrr_loop o (f0 ⊞ weightLocked o p0) (wrr_bump o p0) ps in
      let s := with_paths (map (λ p, if is_usable p then wrr_bump o p else p) (paths s)) s in
      if total <=.? f0 then (Some (p_id best), s)
      else (Some (p_id best),
            with_paths (update_path (p_id best) (λ p, set_rr (p_rr p ⊟ total) p) (paths s)) s)
  end.

(** ** Binary search and the ring *)

(** [sort.Search] finds the first index of [lo, hi) where a monotone predicate
    holds, or [hi]. *)
Lemma sort_search_spec fuel f n lo hi :
  (∀ i j, (i ≤ j < n)%nat → f i = true → f j = true) →
  (lo ≤ hi ≤ n)%nat → (hi - lo < fuel)%nat →
  let r := sort_search fuel f lo hi in
  (lo ≤ r ≤ hi)%nat ∧ (∀ i, (lo ≤ i < r)%nat → f i = false) ∧ ((r < hi)%nat → f r = true).
Proof.
  intros Hm. revert lo hi. induction fuel as [|fuel IH]; intros lo hi Hle Hf; [lia|].
  cbn [sort_search]. destruct (Nat.ltb_spec lo hi) as [Hlt|Hge]; cycle 1.
  { split_and!; [lia|lia|intros i Hi; exfalso; lia|intros Hi; exfalso; lia]. }
  pose proof (Nat.Div0.div_lt_upper_bound (lo + hi) 2 hi ltac:(lia)).
  pose proof (Nat.div_le_lower_bound (lo + hi) 2 lo ltac:(lia) ltac:(lia)).
  set (h := ((lo + hi) / 2)%nat) in *. destruct (f h) eqn:E.
  - destruct (IH lo h ltac:(lia) ltac:(lia)) as (H1 & H2 & H3). split_and!; [lia..|done|].
    intros Hr. destruct (decide (sort_search fuel f lo h = h)) as [->|]; [done|apply H3; lia].
  - destruct (IH (S h) hi ltac:(lia) ltac:(lia)) as (H1 & H2 & H3). split_and!; [lia..| |done].
    intros i Hi. destruct (decide (i ≤ h)%nat); [|apply H2; lia].
    destruct (f i) eqn:Ei; [|done]. by rewrite (Hm i h ltac:(lia)) in E.
Qed.

(** [n] is the node a hash [h] falls on: the first at or after it, or the
    first of all when [h] is past the last. *)
Definition successor (ns : list Z) (h n : Z) : Prop :=
  n ∈ ns ∧ ((h ≤ n ∧ ∀ m, m ∈ ns → h ≤ m → n ≤ m) ∨
            ((∀ m, m ∈ ns → m < h) ∧ ∀ m, m ∈ ns → n ≤ m)).

(** The last path that claimed node [n]. *)
Definition last_claim (nodes : list (Z * string)) (n : Z) (id : string) : Prop :=
  ∃ l1 l2, nodes = l1 ++ (n, id) :: l2 ∧ n ∉ l2.*1.

(** [id] owns hash [h] on the ring of the paths [ids]. *)
Definition flow_owner (ids : list string) (h : Z) (id : string) : Prop :=
  ∃ n, successor (ring_nodes ids).*1 h n ∧ last_claim (ring_nodes ids) n id.

Lemma successor_unique ns h n n' : successor ns h n → successor ns h n' → n = n'.
Proof.
  intros [Hn [[H1 H2]|[H1 H2]]] [Hn' [[H3 H4]|[H3 H4]]].
  - pose proof (H2 n' Hn' H3). pose proof (H4 n Hn H1). lia.
  - pose proof (H3 n Hn). lia.
  - pose proof (H1 n' Hn'). lia.
  - pose proof (H2 n' Hn'). pose proof (H4 n Hn). lia.
Qed.

Lemma last_claim_lookup nodes n id :
  last_claim nodes n id ↔
  foldl (λ m kv, <[kv.1 := kv.2]> m) (∅ : gmap Z string) nodes !! n = Some id.
Proof.
  induction nodes as [|[k v] nodes IH] using rev_ind.
  - split; [intros ([|??] & ? & ? & _); done|done].
  - rewrite foldl_app. cbn. split.
    + intros (l1 & l2 & E & Hn). destruct l2 as [|x l2 _] using rev_ind.
      * apply app_inj_tail in E as [_ [= -> ->]]. by rewrite lookup_insert_eq.
      * rewrite app_comm_cons, app_assoc in E. apply app_inj_tail in E as [-> <-].
        rewrite fmap_app, not_elem_of_app in Hn. cbn in Hn. destruct Hn as [Hn1 Hn2].
        rewrite lookup_insert_ne by (intros ->; apply Hn2; by left).
        apply IH. by exists l1, l2.
    + destruct (decide (k = n)) as [->|Hne].
      * rewrite lookup_insert_eq. intros [= ->]. exists nodes, []. split; [done|]. apply not_elem_of_nil.
      * rewrite lookup_insert_ne by done. intros (l1 & l2 & -> & Hn)%IH.
        exists l1, (l2 ++ [(k, v)]). split; [by rewrite <-app_assoc|].
        rewrite fmap_app, not_elem_of_app. split; [done|]. cbn.
        rewrite list_elem_of_singleton. done.
Qed.

Lemma last_claim_exists nodes n : n ∈ nodes.*1 → ∃ id, last_claim nodes n id.
Proof.
  induction nodes as [|[k v] nodes IH] using rev_ind; [by intros ?%elem_of_nil|].
  rewrite fmap_app, elem_of_app. intros Hn.
  destruct (decide (k = n)) as [->|Hne].
  { exists v, nodes, []. split; [done|]. apply not_elem_of_nil. }
  destruct Hn as [Hn|Hn]; [|cbn in Hn; apply list_elem_of_singleton in Hn; congruence].
  destruct (IH Hn) as (id & l1 & l2 & -> & Hl). exists id, l1, (l2 ++ [(k, v)]).
  split; [by rewrite <-app_assoc|]. rewrite fmap_app, not_elem_of_app. split; [done|].
  cbn. by rewrite list_elem_of_singleton.
Qed.

Lemma sorted_nth (r : list Z) i j :
  Sorted Z.le r → (i ≤ j)%nat → (j < length r)%nat → nth i r 0 ≤ nth j r 0.
Proof.
  intros Hs Hij Hj. apply Sorted_StronglySorted in Hs; [|by intros ???; lia].
  revert i j Hij Hj. induction Hs as [|x r _ IH Hx]; intros i j Hij Hj; cbn in Hj; [lia|].
  destruct i as [|i], j as [|j]; cbn; [lia| |lia|apply IH; lia].
  rewrite Forall_forall in Hx. apply Hx. apply list_elem_of_In, nth_In. lia.
Qed.

(** The first index of a sorted list at or after [h], wrapped to 0, holds the
    successor of [h]. *)
Lemma search_successor (r : list Z) h :
  Sorted Z.le r → r ≠ [] →
  let i := sort_search (S (length r)) (λ i, h <=? nth i r 0) 0 (length r) in
  ∃ n, r !! (if (i =? length r)%nat then 0%nat else i) = Some n ∧ successor r h n.
Proof.
  intros Hs Hne i.
  destruct (sort_search_spec (S (length r)) (λ i, h <=? nth i r 0) (length r) 0 (length r))
    as (H1 & H2 & H3); [|lia|lia|].
  { intros a b Hab Ha. pose proof (sorted_nth r a b Hs ltac:(lia) ltac:(lia)). lia. }
  fold i in H1, H2, H3.
  assert (Hin : ∀ m, m ∈ r → ∃ j, (j < length r)%nat ∧ m = nth j r 0).
  { intros m (j & Hj)%list_elem_of_lookup. exists j. split; [by eapply lookup_lt_Some|].
    symmetry. by apply nth_lookup_Some. }
  assert (Hlen : (0 < length r)%nat) by (destruct r; cbn; [done|lia]).
  assert (Hat : ∀ j, (j < length r)%nat → r !! j = Some (nth j r 0)).
  { intros j Hj. destruct (lookup_lt_is_Some_2 r j Hj) as [x Hx]. rewrite Hx.
    by rewrite (nth_lookup_Some _ _ _ _ Hx). }
  destruct (Nat.eqb_spec i (length r)) as [Ei|Ei].
  - exists (nth 0 r 0). split; [by apply Hat|]. split; [by eapply list_elem_of_lookup_2, Hat|].
    right. split; intros m (j & Hj & ->)%Hin.
    + specialize (H2 j ltac:(lia)). lia.
    + apply sorted_nth; [done|lia..].
  - exists (nth i r 0). split; [apply Hat; lia|]. split; [eapply list_elem_of_lookup_2, Hat; lia|].
    left. specialize (H3 ltac:(lia)). split; [lia|]. intros m (j & Hj & ->)%Hin Hm.
    destruct (decide (i ≤ j)%nat); [apply sorted_nth; [done|lia..]|].
    specialize (H2 j ltac:(lia)). lia.
Qed.

(** The cached ring is the ring of the paths [ids]. *)
Definition ring_of {R} (ids : list string) (s : Scheduler R) : Prop :=
  ring s = Some (merge_sort Z.le (ring_nodes ids).*1) ∧
  ringPaths s = foldl (λ m kv, <[kv.1 := kv.2]> m) ∅ (ring_nodes ids).

Definition usable_ids {R} (s : Scheduler R) : list string := map p_id (usableLocked s).

Lemma ring_nodes_nonempty id ids : (ring_nodes (id :: ids)).*1 ≠ [].
Proof. done. Qed.

Lemma elem_of_merge_sort (l : list Z) x : x ∈ merge_sort Z.le l ↔ x ∈ l.
Proof. by rewrite (merge_sort_Permutation Z.le l). Qed.

Lemma pick_from_ring {R} ids h (s : Scheduler R) :
  ids ≠ [] → ring_of ids s →
  let r := default [] (ring s) in
  let i := sort_search (S (length r)) (λ i, u32 h <=? nth i r 0) 0 (length r) in
  ∃ n id, r !! (if (i =? length r)%nat then 0%nat else i) = Some n ∧
    ringPaths s !! n = Some id ∧ flow_owner ids (u32 h) id.
Proof.
  intros Hne [-> Ep]. cbn [default]. set (r := merge_sort _ _).
  assert (Hr : r ≠ []).
  { intros E. destruct ids as [|id ids]; [done|].
    pose proof (merge_sort_Permutation Z.le (ring_nodes (id :: ids)).*1) as HP.
    fold r in HP. rewrite E in HP. apply Permutation_nil in HP. by apply (ring_nodes_nonempty id ids). }
  assert (Hs : Sorted Z.le r) by (apply Sorted_merge_sort; intros ??; lia).
  destruct (search_successor r (u32 h) Hs Hr) as (n & E & [Hn Hsucc]).
  exists n. rewrite Ep. unfold r in Hn. rewrite elem_of_merge_sort in Hn.
  destruct (last_claim_exists _ _ Hn) as [id Hid]. exists id. split; [done|].
  split; [by apply last_claim_lookup|]. exists n. split; [|done]. split; [done|].
  destruct Hsucc as [[??]|[??]]; [left|right]; (split; [try done|]);
    intros m Hm; (rewrite <-elem_of_merge_sort in Hm || idtac); auto.
Qed.

(** Whatever is cached, a stale ring is rebuilt. *)
Definition ring_valid {R} (s : Scheduler R) : Prop :=
  ring s ≠ None → lastRingVer s = ringVer s → ring_of (usable_ids s) s.

Lemma pickRing_owner {R} h (s : Scheduler R) :
  ring_valid s → usableLocked s ≠ [] →
  ∃ id s', pickRingLocked h (usableLocked s) s = (Some id, s') ∧
    flow_owner (usable_ids s) (u32 h) id ∧ ring_of (usable_ids s) s' ∧
    paths s' = paths s ∧ opts s' = opts s ∧ ringVer s' = ringVer s ∧ lastRingVer s' = ringVer s.
Proof.
  intros Hv Hne. unfold pickRingLocked.
  set (s1 := match ring s with None => _ | Some _ => _ end).
  assert (H1 : ring_of (usable_ids s) s1 ∧ paths s1 = paths s ∧ opts s1 = opts s ∧
               ringVer s1 = ringVer s ∧ lastRingVer s1 = ringVer s).
  { unfold s1, ring_valid in *. destruct (ring s); [|done].
    destruct (Z.eqb_spec (lastRingVer s) (ringVer s)); [split_and!; try done; by apply Hv|done]. }
  destruct H1 as (H1 & H2 & H3 & H4 & H5).
  destruct (pick_from_ring (usable_ids s) h s1) as (n & id & E1 & E2 & E3); [|done|].
  { unfold usable_ids. by destruct (usableLocked s). }
  rewrite E1, E2. exists id, s1. done.
Qed.

(** ** Runs of the scheduler *)

Section runs.
  Context `{Rand R}.

Inductive sched_op : Type :=
| SAdd (id : string) (c : f64)
| SRemove (id : string)
| SState (id : string) (st : State) (l : f64)
| SPick (f : frame)
| SPickWRR.

Definition sched_apply (s : Scheduler R) (o : sched_op) : Scheduler R :=
  match o with
  | SAdd id c => AddPath id c s
  | SRemove id => RemovePath id s
  | SState id st l => OnState id st l s
  | SPick f => (Pick f s).2
  | SPickWRR => (PickWRR s).2
  end.

Definition sched_run (s : Scheduler R) (ops : list sched_op) : Scheduler R := foldl sched_apply s ops.

(** Path ids are distinct, the ring version counts at most [k] changes, and the
    cached ring is that of the usable paths unless marked stale. *)
Record sched_ok (k : Z) (s : Scheduler R) : Prop := {
  sk_nodup : NoDup (map p_id (paths s));
  sk_ver : 0 ≤ lastRingVer s ≤ ringVer s ∧ ringVer s ≤ k;
  sk_ring : ring_valid s;
}.

Lemma find_path_None id ps : find_path id ps = None → id ∉ map p_id ps.
Proof.
  unfold find_path. intros Hf (p & -> & Hp)%list_elem_of_fmap.
  apply list_elem_of_In in Hp. pose proof (List.find_none _ _ Hf p Hp) as E. cbn in E.
  by rewrite bool_decide_eq_true_2 in E.
Qed.

Lemma map_id_update id f ps :
  (∀ p, p_id (f p) = p_id p) → map p_id (update_path id f ps) = map p_id ps.
Proof.
  intros Hf. unfold update_path. rewrite map_map. apply map_ext. intros p. by case_bool_decide.
Qed.

Lemma usable_ids_update id f (ps : list path) :
  (∀ p, p_id (f p) = p_id p) → (∀ p, p_state (f p) = p_state p) →
  map p_id (List.filter is_usable (update_path id f ps)) = map p_id (List.filter is_usable ps).
Proof.
  intros Hi Hs. induction ps as [|p ps IH]; [done|]. cbn.
  assert (E : is_usable (if bool_decide (p_id p = id) then f p else p) = is_usable p)
    by (unfold is_usable; destruct (bool_decide (p_id p = id)); by rewrite ?Hs).
  rewrite E. destruct (is_usable p); [|exact IH]. cbn. f_equal; [|exact IH].
  destruct (bool_decide _); [apply Hi|done].
Qed.

Lemma remove_first_filter id ps :
  NoDup (map p_id ps) → remove_first id ps = List.filter (λ p, negb (bool_decide (p_id p = id))) ps.
Proof.
  induction ps as [|p ps IH]; [done|]. intros Hnd. apply NoDup_cons in Hnd as [Hp Hnd]. cbn.
  case_bool_decide as E; cbn; [|by rewrite IH].
  symmetry. clear IH Hnd. induction ps as [|p' ps IH]; [done|]. cbn.
  rewrite bool_decide_eq_false_2; cbn.
  - f_equal. apply IH. intros ?. apply Hp. cbn. by apply elem_of_cons; right.
  - intros E'. apply Hp. cbn. apply elem_of_cons. left. congruence.
Qed.

Lemma sched_ok_bump k s s' :
  sched_ok k s → k + 1 < 2 ^ 64 → NoDup (map p_id (paths s')) →
  lastRingVer s' = lastRingVer s → ringVer s' = ringVer s →
  sched_ok (k + 1) (bump_ring s').
Proof.
  intros [Hn Hv Hr] Hk Hnd El Er. split; cbn; [done| |].
  - rewrite El, Er, u64_small by (unfold is_u64; lia). lia.
  - intros _ E. cbn in E. rewrite El, Er, u64_small in E by (unfold is_u64; lia). lia.
Qed.

Lemma sched_ok_same k s s' :
  sched_ok k s → map p_id (paths s') = map p_id (paths s) → usable_ids s' = usable_ids s →
  ring s' = ring s → ringPaths s' = ringPaths s → lastRingVer s' = lastRingVer s →
  ringVer s' = ringVer s → sched_ok (k + 1) s'.
Proof.
  intros [Hn Hv Hr] E1 E2 E3 E4 E5 E6.
  split; [by rewrite E1|rewrite E5, E6; lia|]. unfold ring_valid, ring_of in *. by rewrite E2, E3, E4, E5, E6.
Qed.

Lemma sched_ok_pick k f s : sched_ok k s → sched_ok (k + 1) (Pick f s).2.
Proof.
  intros Ho. unfold Pick. destruct (usableLocked s) as [|p0 ps] eqn:Eu; [by apply (sched_ok_same k s)|].
  case_bool_decide; [by apply (sched_ok_same k s)|].
  destruct (if bool_decide _ then _ else _) as [h|].
  - destruct (pickRing_owner h s) as (id & s' & E & _ & Hr & E2 & _ & E4 & E5);
      [apply Ho|by rewrite Eu|]. rewrite Eu in E. rewrite E. cbn [snd].
    destruct Ho as [Hn Hv _]. split; [by rewrite E2|lia|]. intros _ _.
    unfold usable_ids, usableLocked in *. by rewrite E2.
  - unfold pickWeightedLocked. destruct (_ <=.? f0); [by apply (sched_ok_same k s)|].
    destruct (rand_float (rng s)) as [u r']. repeat case_match; simplify_eq/=; by apply (sched_ok_same k s).
Qed.

Lemma wrr_ids o ps :
  map p_id (map (λ p, if is_usable p then wrr_bump o p else p) ps) = map p_id ps ∧
  map p_id (List.filter is_usable (map (λ p, if is_usable p then wrr_bump o p else p) ps)) =
  map p_id (List.filter is_usable ps).
Proof.
  induction ps as [|p ps [IH1 IH2]]; [done|]. cbn. rewrite IH1.
  destruct (is_usable p) eqn:E; cbn.
  - replace (is_usable (wrr_bump o p)) with true by done. cbn. by rewrite IH2.
  - by rewrite E, IH2.
Qed.

Lemma sched_ok_wrr k s : sched_ok k s → sched_ok (k + 1) (PickWRR s).2.
Proof.
  intros Ho. unfold PickWRR. destruct (usableLocked s) as [|p0 ps] eqn:Eu; [by apply (sched_ok_same k s)|].
  destruct (wrr_loop _ _ _ _) as [total best]. destruct (wrr_ids (opts s) (paths s)) as [W1 W2].
  destruct (total <=.? f0); cbn [snd].
  - by apply (sched_ok_same k s).
  - apply (sched_ok_same k s); try done.
    + cbn [paths with_paths]. by rewrite map_id_update.
    + unfold usable_ids, usableLocked. cbn [paths with_paths]. by rewrite usable_ids_update.
Qed.

Lemma sched_apply_ok k s o : sched_ok k s → k + 1 < 2 ^ 64 → sched_ok (k + 1) (sched_apply s o).
Proof.
  intros Ho Hk. pose proof (sk_nodup _ _ Ho) as Hn. destruct o as [id c|id|id st l|f|]; cbn [sched_apply].
  - unfold AddPath. destruct (find_path id (paths s)) eqn:Ef.
    + apply (sched_ok_same k s); try done; [by apply map_id_update|]. unfold usable_ids, usableLocked.
      by apply usable_ids_update.
    + apply (sched_ok_bump k s); try done. cbn [paths with_paths]. rewrite map_app. apply NoDup_app. split_and!; [done| |].
      * intros x Hx Hx'. apply list_elem_of_singleton in Hx' as ->. by apply find_path_None in Ef.
      * apply NoDup_singleton.
  - unfold RemovePath. destruct (find_path id (paths s)); [|by apply (sched_ok_same k s)].
    apply (sched_ok_bump k s); try done. cbn [paths with_paths]. rewrite remove_first_filter by done.
    revert Hn. generalize (paths s). intros ps. clear. induction ps as [|p ps IH]; [done|].
    cbn. intros [Hp Hps]%NoDup_cons. destruct (negb _); cbn; [|by apply IH].
    apply NoDup_cons. split; [|by apply IH]. intros (q & Eq & Hq)%list_elem_of_fmap. apply Hp.
    apply list_elem_of_fmap. exists q. split; [done|]. apply list_elem_of_In.
    apply list_elem_of_In, List.filter_In in Hq. apply Hq.
  - unfold OnState. destruct (find_path id (paths s)); [|by apply (sched_ok_same k s)].
    apply (sched_ok_bump k s); try done. cbn [paths with_paths]. by rewrite map_id_update.
  - by apply sched_ok_pick.
  - by apply sched_ok_wrr.
Qed.

Lemma sched_run_ok o r ops :
  Z.of_nat (length ops) < 2 ^ 64 →
  sched_ok (Z.of_nat (length ops)) (sched_run (newScheduler o r) ops).
Proof.
  induction ops as [|op ops IH] using rev_ind; intros Hl.
  { split; [apply NoDup_nil_2|cbn; lia|done]. }
  rewrite length_app in *. cbn in *. unfold sched_run in *. rewrite foldl_app. cbn.
  replace (Z.of_nat (length ops + 1)) with (Z.of_nat (length ops) + 1) by lia.
  apply sched_apply_ok; [apply IH; lia|lia].
Qed.

(** What a pick must return. *)
Definition pick_spec (f : frame) (s : Scheduler R) (r : option string) : Prop :=
  match r with
  | None => usableLocked s = []
  | Some id =>
      id ∈ usable_ids s ∧
      (so_Mode (opts s) = ModeStandby →
       ∃ pre p post, usableLocked s = pre ++ p :: post ∧ id = p_id p ∧
         Forall (λ p, p_state p ≠ StateHealthy) pre ∧
         (p_state p = StateHealthy ∨
          pre = [] ∧ Forall (λ p, p_state p ≠ StateHealthy) (usableLocked s))) ∧
      (so_Mode (opts s) ≠ ModeStandby → so_Affinity (opts s) = AffFlow →
       ∀ h, parseInnerHash (f_payload f) = Some h → flow_owner (usable_ids s) (u32 h) id)
  end.

Lemma flow_owner_in ids h id : flow_owner ids h id → id ∈ ids.
Proof.
  intros (n & _ & l1 & l2 & E & _).
  assert (Hin : (n, id) ∈ ring_nodes ids) by (rewrite E; set_solver).
  apply list_elem_of_In, in_flat_map in Hin as (id' & Hid & Hn). apply in_map_iff in Hn as (v & [= _ <-] & _).
  by apply list_elem_of_In.
Qed.

Lemma pick_standby_spec p0 ps :
  ∃ pre p post, p0 :: ps = pre ++ p :: post ∧ pick_standby p0 ps = p_id p ∧
    Forall (λ p, p_state p ≠ StateHealthy) pre ∧
    (p_state p = StateHealthy ∨ pre = [] ∧ Forall (λ p, p_state p ≠ StateHealthy) (p0 :: ps)).
Proof.
  unfold pick_standby. remember (p0 :: ps) as l eqn:El.
  assert (Hf : match List.find (λ p, bool_decide (p_state p = StateHealthy)) l with
    | Some p => ∃ pre post, l = pre ++ p :: post ∧ p_state p = StateHealthy ∧
                  Forall (λ p, p_state p ≠ StateHealthy) pre
    | None => Forall (λ p, p_state p ≠ StateHealthy) l end).
  { clear. induction l as [|p l IH]; [constructor|]. cbn. case_bool_decide.
    - exists [], l. done.
    - destruct (List.find _ l); [|by constructor].
      destruct IH as (pre & post & -> & ? & ?). exists (p :: pre), post. split_and!; try done. by constructor. }
  destruct (List.find _ l) as [p|].
  - destruct Hf as (pre & post & E & Hp & Hpre). exists pre, p, post. split_and!; try done. by left.
  - exists [], p0, ps. split_and!; try done. by right.
Qed.

Lemma weighted_loop_in o r ps id : weighted_loop o r ps = Some id → id ∈ map p_id ps.
Proof.
  revert r. induction ps as [|p ps IH]; intros r; [done|]. cbn. case_match.
  - intros [= <-]. by left.
  - intros Hid. right. by eapply IH.
Qed.

Lemma pickWeighted_in s p0 ps : (pickWeightedLocked s p0 ps).1 ∈ map p_id (p0 :: ps).
Proof.
  unfold pickWeightedLocked. destruct (_ <=.? f0); [by left|].
  destruct (rand_float (rng s)) as [u r']. destruct (weighted_loop _ _ _) as [id|] eqn:E; cbn [fst].
  - by eapply weighted_loop_in.
  - apply list_elem_of_fmap_2. apply list_elem_of_In. destruct (exists_last (l := p0 :: ps)) as (l & x & El); [done|].
    rewrite El, last_last. apply in_or_app. right. by left.
Qed.

Lemma pick_meets_spec k f s :
  sched_ok k s → ∃ r, (Pick f s).1 = Ok r ∧ pick_spec f s r.
Proof.
  intros Ho. unfold Pick. pose proof (pickRing_owner (R := R)) as Hring.
  destruct (usableLocked s) as [|p0 ps] eqn:Eu; [by exists None|].
  assert (Eids : usable_ids s = map p_id (p0 :: ps)) by (unfold usable_ids; by rewrite Eu).
  case_bool_decide as Hm.
  { exists (Some (pick_standby p0 ps)). split; [done|]. unfold pick_spec. rewrite Eids, Eu.
    destruct (pick_standby_spec p0 ps) as (pre & p & post & E & -> & Hpre & Hp).
    split_and!; [|intros _; by exists pre, p, post|done].
    rewrite E, map_app. apply elem_of_app. right. by left. }
  destruct (bool_decide (so_Affinity (opts s) = AffFlow)) eqn:Ha; cycle 1.
  { apply bool_decide_eq_false in Ha. pose proof (pickWeighted_in s p0 ps) as Hin.
    destruct (pickWeightedLocked s p0 ps) as [id s']. exists (Some id). split; [done|].
    unfold pick_spec. rewrite Eids. by split_and!. }
  destruct (parseInnerHash (f_payload f)) as [h|] eqn:Eh; cycle 1.
  { pose proof (pickWeighted_in s p0 ps) as Hin.
    destruct (pickWeightedLocked s p0 ps) as [id s']. exists (Some id). split; [done|].
    unfold pick_spec. rewrite Eids. split_and!; [done|done|congruence]. }
  destruct (Hring h s (sk_ring _ _ Ho)) as (id & s' & E & Hown & _); [by rewrite Eu|].
  rewrite Eu in E. rewrite E. exists (Some id). split; [done|]. unfold pick_spec.
  split_and!; [by eapply flow_owner_in|done|]. intros _ _ h' Eh'. by simplify_eq.
Qed.

(** C18 — Pick never panics, never chooses a DOWN path, and finds a path
    whenever one is usable, after any history of the scheduler. Standby takes
    the first HEALTHY path in configuration order, and the first path only when
    none is HEALTHY; with flow affinity a parseable datagram goes to the owner
    of its hash on the ring of the currently usable paths, stale caches
    included. *)
Theorem pick_correct o r ops f :
  Z.of_nat (length ops) < 2 ^ 64 →
  let s := sched_run (newScheduler o r) ops in
  ∃ r, (Pick f s).1 = Ok r ∧ pick_spec f s r.
Proof. intros Hl s. eapply pick_meets_spec. by apply sched_run_ok. Qed.
End runs.

(** A random source that always returns 0.5. *)
#[export] Instance half_rand : Rand unit.
Proof.
  refine {| rand_float := λ u, (of_dec 5 10, u) |}. intros [].
  destruct (weight_decimal 5 10) as (z & -> & ? & ?); [lia|lia|]. exists z. split_and!; [done|lia|lia|done].
Defined.

Definition flow_options : sched_options := mkSchedOptions "lb" "flow" "capacity".

Definition two_wans : list sched_op := [SAdd "wan1" (of_Z 100); SAdd "wan2" (of_Z 50)].

(** An IPv4/UDP datagram from address byte [src] to port [dport]. *)
Definition udp_datagram (src dport : byte) : list byte :=
  [x45; x00; x00; x1c; x00; x00; x00; x00; x40; x11; x00; x00;
   x0a; x00; x00; src; x0a; x01; x00; x01; x30; x39; x00; dport; x00; x08; x00; x00].

Lemma pick_correct_witness :
  let s := sched_run (newScheduler flow_options tt) (two_wans ++ [SState "wan1" StateDown f1]) in
  ∃ r, (Pick (new_frame 0 1 1 0 (udp_datagram x05 x35)) s).1 = Ok r ∧
       pick_spec (new_frame 0 1 1 0 (udp_datagram x05 x35)) s r.
Proof. apply pick_correct. vm_compute. reflexivity. Defined.

(** ** Flow affinity *)

Definition other (x : string) (id : string) : bool := negb (bool_decide (id = x)).
#[global] Arguments other : simpl never.

Lemma ring_nodes_filter x ids :
  ring_nodes (List.filter (other x) ids) = List.filter (λ n, other x n.2) (ring_nodes ids).
Proof.
  induction ids as [|id ids IH]; [done|]. cbn [List.filter ring_nodes flat_map].
  rewrite List.filter_app. fold (ring_nodes ids). rewrite <-IH.
  assert (E : ∀ l, List.filter (λ n : Z * string, other x n.2) (map (λ v, (fnv1a id (Z.of_nat v), id)) l) =
                   if other x id then map (λ v, (fnv1a id (Z.of_nat v), id)) l else []).
  { intros l. induction l as [|v l IHl]; cbn; [by destruct (other x id)|].
    rewrite IHl. by destruct (other x id). }
  unfold path_nodes at 2. rewrite E. by destruct (other x id).
Qed.

Lemma elem_of_fst_filter {A B} (P : A * B → bool) (l : list (A * B)) n :
  n ∈ (List.filter P l).*1 → n ∈ l.*1.
Proof.
  intros (kv & -> & Hkv)%list_elem_of_fmap. apply list_elem_of_In, List.filter_In in Hkv as [Hkv _].
  apply list_elem_of_fmap_2. by apply list_elem_of_In.
Qed.

(** A flow keeps its owner when another path leaves. *)
Lemma flow_owner_filter ids x h id :
  flow_owner ids h id → id ≠ x → flow_owner (List.filter (other x) ids) h id.
Proof.
  intros (n & [Hn Hs] & l1 & l2 & E & Hl2) Hx.
  assert (Ho : other x id = true) by (unfold other; by rewrite bool_decide_eq_false_2).
  assert (Hf : List.filter (λ n, other x n.2) (ring_nodes ids) =
    List.filter (λ n, other x n.2) l1 ++ (n, id) :: List.filter (λ n, other x n.2) l2).
  { rewrite E, List.filter_app. cbn. by rewrite Ho. }
  exists n. rewrite ring_nodes_filter. split.
  - assert (Hsub : ∀ m, m ∈ (List.filter (λ n, other x n.2) (ring_nodes ids)).*1 → m ∈ (ring_nodes ids).*1)
      by (intros m; apply elem_of_fst_filter).
    split.
    + rewrite Hf, fmap_app. apply elem_of_app. right. by left.
    + destruct Hs as [[H1 H2]|[H1 H2]]; [left|right]; split; auto.
  - eexists _, _. split; [exact Hf|]. intros Hc. apply Hl2. by eapply elem_of_fst_filter.
Qed.

Lemma flow_owner_unique ids h id id' : flow_owner ids h id → flow_owner ids h id' → id = id'.
Proof.
  intros (n & Hs & Hl) (n' & Hs' & Hl'). pose proof (successor_unique _ _ _ _ Hs Hs') as <-.
  apply last_claim_lookup in Hl, Hl'. congruence.
Qed.

Section affinity.
  Context `{Rand R}.

Definition flow_mode (s : Scheduler R) : Prop :=
  so_Mode (opts s) ≠ ModeStandby ∧ so_Affinity (opts s) = AffFlow.

(** With flow affinity a pick is the owner, and the owner is the pick. *)
Lemma pick_is_owner k f h s id :
  sched_ok k s → flow_mode s → parseInnerHash (f_payload f) = Some h →
  (Pick f s).1 = Ok (Some id) ↔ flow_owner (usable_ids s) (u32 h) id.
Proof.
  intros Ho [Hm Ha] Hh. destruct (pick_meets_spec k f s Ho) as (r & E & Hr).
  rewrite E. unfold pick_spec in Hr. destruct r as [id'|].
  - destruct Hr as (_ & _ & Hr). specialize (Hr Hm Ha h Hh). split.
    + by intros [= ->].
    + intros Hi. do 2 f_equal. by eapply flow_owner_unique.
  - split; [done|]. intros Hi%flow_owner_in. unfold usable_ids in Hi. rewrite Hr in Hi.
    by apply elem_of_nil in Hi.
Qed.

Lemma usable_ids_down x l (ps : list path) :
  map p_id (List.filter is_usable (update_path x (set_health StateDown l) ps)) =
  List.filter (other x) (map p_id (List.filter is_usable ps)).
Proof.
  induction ps as [|p ps IH]; [done|]. cbn.
  destruct (bool_decide (p_id p = x)) eqn:Ex; cbn.
  - destruct (is_usable p); cbn; [|exact IH]. unfold other at 1. rewrite Ex. exact IH.
  - destruct (is_usable p); cbn; [|exact IH]. unfold other at 1. rewrite Ex. cbn. f_equal. exact IH.
Qed.

Lemma usable_ids_remove x (ps : list path) :
  map p_id (List.filter is_usable (List.filter (λ p, negb (bool_decide (p_id p = x))) ps)) =
  List.filter (other x) (map p_id (List.filter is_usable ps)).
Proof.
  induction ps as [|p ps IH]; [done|]. cbn.
  destruct (bool_decide (p_id p = x)) eqn:Ex; cbn.
  - destruct (is_usable p); cbn; [|exact IH]. unfold other at 1. rewrite Ex. exact IH.
  - destruct (is_usable p); cbn; [|exact IH]. unfold other at 1. rewrite Ex. cbn. f_equal. exact IH.
Qed.

(** The operations that take a path out of the usable set. *)
Definition leaves (x : string) (op : sched_op) : Prop :=
  op = SRemove x ∨ ∃ l, op = SState x StateDown l.

(** C26 — Consistent hashing. With flow affinity, when a path is removed or goes
    DOWN, every flow that was on another path stays on it: only the flows of
    the lost path migrate, whatever the state of the cached ring. *)
Theorem flow_minimal_migration o r ops f h x op id :
  Z.of_nat (length ops) + 1 < 2 ^ 64 →
  let s := sched_run (newScheduler o r) ops in
  flow_mode s → parseInnerHash (f_payload f) = Some h → leaves x op →
  (Pick f s).1 = Ok (Some id) → id ≠ x →
  (Pick f (sched_apply s op)).1 = Ok (Some id).
Proof.
  intros Hl s Hf Hh Hop Hp Hx. pose proof (sched_run_ok o r ops ltac:(lia)) as Ho. fold s in Ho.
  pose proof (sched_apply_ok _ s op Ho ltac:(lia)) as Ho'.
  apply (pick_is_owner _ f h s id Ho Hf Hh) in Hp.
  destruct Hop as [->|[l ->]]; cbn [sched_apply] in *.
  - unfold RemovePath in *. destruct (find_path x (paths s)); [|by eapply pick_is_owner].
    eapply pick_is_owner; [done|done|done|]. unfold usable_ids, usableLocked. cbn [paths bump_ring with_paths].
    rewrite remove_first_filter by apply (sk_nodup _ _ Ho). rewrite usable_ids_remove.
    by apply flow_owner_filter.
  - unfold OnState in *. destruct (find_path x (paths s)); [|by eapply pick_is_owner].
    eapply pick_is_owner; [done|done|done|]. unfold usable_ids, usableLocked. cbn [paths bump_ring with_paths].
    rewrite usable_ids_down. by apply flow_owner_filter.
Qed.
End affinity.

Lemma flow_minimal_migration_witness :
  let s := sched_run (newScheduler flow_options tt) (two_wans ++ [SAdd "wan3" f1]) in
  let f := new_frame 0 1 1 0 (udp_datagram x05 x35) in
  ∃ id, (Pick f s).1 = Ok (Some id) ∧ id ≠ "wan1"%string ∧
    (Pick f (sched_apply s (SState "wan1" StateDown f1))).1 = Ok (Some id).
Proof.
  assert (E : ∃ id, (Pick (new_frame 0 1 1 0 (udp_datagram x05 x35))
    (sched_run (newScheduler flow_options tt) (two_wans ++ [SAdd "wan3" f1]))).1 = Ok (Some id) ∧
    id ≠ "wan1"%string) by (eexists; split; [vm_compute; reflexivity|discriminate]).
  destruct E as (id & E & Hid). exists id. split; [exact E|split; [exact Hid|]].
  eapply (flow_minimal_migration flow_options tt (two_wans ++ [SAdd "wan3" f1]));
    [vm_compute; reflexivity|split; [discriminate|reflexivity]|vm_compute; reflexivity|
     right; eexists; reflexivity|exact E|exact Hid].
Defined.

(** ** Smooth weighted round-robin *)

Definition whole (k : Z) : f64 := Fin (k * one_u).

Lemma whole_add a b : Z.abs (a + b) ≤ 2 ^ 53 → whole a ⊞ whole b = whole (a + b).
Proof. intros. unfold whole. cbn [fadd]. rewrite <-Z.mul_add_distr_r. by apply round_exact, repr_int. Qed.

Lemma whole_sub a b : Z.abs (a - b) ≤ 2 ^ 53 → whole a ⊟ whole b = whole (a - b).
Proof.
  intros. unfold whole. cbn [fsub fneg fadd]. rewrite <-Z.mul_opp_l, <-Z.mul_add_distr_r.
  by apply round_exact, repr_int.
Qed.

Lemma whole_ltb a b : (whole a <.? whole b) = (a <? b).
Proof.
  unfold whole. cbn.
  assert (0 < one_u) by reflexivity.
  destruct (Z.ltb_spec a b); [apply Z.ltb_lt|apply Z.ltb_ge]; nia.
Qed.

Definition sumZ (l : list Z) : Z := foldr Z.add 0 l.

Lemma sumZ_app l k : sumZ (l ++ k) = sumZ l + sumZ k.
Proof. induction l as [|x l IH]; cbn; [done|]. unfold sumZ in *. rewrite IH. lia. Qed.

Lemma sumZ_map_linear {A} (f g : A → Z) a b l :
  sumZ (map (λ x, a * f x - b * g x) l) = a * sumZ (map f l) - b * sumZ (map g l).
Proof. induction l as [|x l IH]; cbn; [lia|]. unfold sumZ in *. rewrite IH. lia. Qed.

Lemma sumZ_bound {A} (f : A → Z) lo l : Forall (λ x, lo ≤ f x) l → lo * Z.of_nat (length l) ≤ sumZ (map f l).
Proof. induction 1 as [|x l Hx _ IH]; cbn [map sumZ foldr length]; [lia|]. unfold sumZ in *. lia. Qed.

(** A number of the list is the sum less the others. *)
Lemma sumZ_upper {A} (f : A → Z) lo l x :
  x ∈ l → Forall (λ y, lo ≤ f y) l → f x ≤ sumZ (map f l) - lo * (Z.of_nat (length l) - 1).
Proof.
  intros (l1 & l2 & ->)%list_elem_of_split Hl. apply Forall_app in Hl as [H1 H2].
  apply Forall_cons_1 in H2 as [Hx H2].
  pose proof (sumZ_bound f lo l1 H1). pose proof (sumZ_bound f lo l2 H2).
  rewrite map_app, sumZ_app, length_app. cbn [map sumZ foldr length]. unfold sumZ in *. lia.
Qed.

(** The loop returns the exact total and a path with the largest accumulator. *)
Lemma wrr_loop_spec o w k ps t b kb tb :
  (∀ p, p ∈ ps → weightLocked o p = whole (w (p_id p)) ∧ 0 ≤ w (p_id p) ∧
     p_rr (wrr_bump o p) = whole (k (p_id p))) →
  0 ≤ t → t + sumZ (map (λ p, w (p_id p)) ps) ≤ 2 ^ 53 →
  tb = whole t → p_rr b = whole kb →
  ∃ b' kb', wrr_loop o tb b ps = (whole (t + sumZ (map (λ p, w (p_id p)) ps)), b') ∧
    p_rr b' = whole kb' ∧ kb ≤ kb' ∧ Forall (λ p, k (p_id p) ≤ kb') ps ∧
    ((b' = b ∧ kb' = kb) ∨ ∃ p, p ∈ ps ∧ b' = wrr_bump o p ∧ kb' = k (p_id p)).
Proof.
  unfold wrr_loop. revert t b kb tb. induction ps as [|p ps IH]; intros t b kb tb Hps Ht Hsum -> Hb; cbn [foldl].
  { exists b, kb. rewrite Z.add_0_r. split_and!; try done. by left. }
  destruct (Hps p) as (Hw & Hw0 & Hk); [by left|]. cbn [map sumZ foldr] in Hsum |- *.
  fold (sumZ (map (λ p, w (p_id p)) ps)) in Hsum |- *.
  assert (0 ≤ sumZ (map (λ p, w (p_id p)) ps)).
  { etrans; [|apply (sumZ_bound _ 0)]; [lia|]. apply Forall_forall. intros q Hq. apply Hps. by right. }
  cbn [fst snd]. rewrite Hw, whole_add, Hb, Hk, whole_ltb by lia.
  set (b1 := if kb <? k (p_id p) then wrr_bump o p else b).
  set (kb1 := if kb <? k (p_id p) then k (p_id p) else kb).
  destruct (IH (t + w (p_id p)) b1 kb1 (whole (t + w (p_id p)))) as (b' & kb' & E & Eb & Hle & Hall & Hor);
    [intros q Hq; apply Hps; by right|lia|lia|done| |].
  { unfold b1, kb1. by destruct (kb <? k (p_id p)). }
  exists b', kb'. rewrite E. unfold kb1, b1 in *.
  split_and!; [by rewrite Z.add_assoc|done|destruct (Z.ltb_spec kb (k (p_id p))); lia| |].
  - constructor; [destruct (Z.ltb_spec kb (k (p_id p))); lia|done].
  - destruct Hor as [[-> ->]|(q & Hq & ? & ?)]; [|right; exists q; split; [by right|done]].
    destruct (kb <? k (p_id p)); [right; exists p; split; [by left|done]|by left].
Qed.

Definition count_of (id : string) (l : list string) : Z :=
  Z.of_nat (length (List.filter (λ x, bool_decide (x = id)) l)).

Lemma count_snoc id l x : count_of id (l ++ [x]) = count_of id l + (if bool_decide (x = id) then 1 else 0).
Proof. unfold count_of. rewrite List.filter_app, length_app. cbn. case_bool_decide; cbn; lia. Qed.

Lemma sum_indicator (x : string) ids :
  NoDup ids → x ∈ ids → sumZ (map (λ id, if bool_decide (x = id) then 1 else 0) ids) = 1.
Proof.
  induction ids as [|id ids IH]; [by intros _ ?%elem_of_nil|].
  intros [Hid Hnd]%NoDup_cons Hx. cbn [map sumZ foldr]. fold (sumZ (map (λ id, if bool_decide (x = id) then 1 else 0) ids)).
  destruct (decide (x = id)) as [->|Hne].
  - rewrite bool_decide_eq_true_2 by done.
    assert (E : sumZ (map (λ id', if bool_decide (id = id') then 1 else 0) ids) = 0); [|lia].
    clear IH Hnd Hx. induction ids as [|y ids IH]; [done|]. apply not_elem_of_cons in Hid as [Hy Hid].
    cbn [map sumZ foldr]. rewrite bool_decide_eq_false_2 by done. unfold sumZ in IH. rewrite IH by done. done.
  - rewrite bool_decide_eq_false_2 by done. apply elem_of_cons in Hx as [?|Hx]; [done|]. rewrite IH by done. done.
Qed.

Lemma sumZ_map_add {A} (f g : A → Z) l : sumZ (map (λ x, f x + g x) l) = sumZ (map f l) + sumZ (map g l).
Proof. induction l as [|x l IH]; cbn; [done|]. unfold sumZ in *. rewrite IH. lia. Qed.

Section fairness.
  Context {R : Type} (w : string → Z).

Definition weight_sum (s : Scheduler R) : Z := sumZ (map w (usable_ids s)).

(** After the picks [l] from zeroed accumulators: every accumulator is exactly
    (number of picks) * weight - (picks of this path) * (sum of weights). *)
Record wrr_inv (l : list string) (s : Scheduler R) : Prop := {
  wi_nodup : NoDup (usable_ids s);
  wi_weight : ∀ p, p ∈ usableLocked s → weightLocked (opts s) p = whole (w (p_id p)) ∧ 1 ≤ w (p_id p);
  wi_rr : ∀ p, p ∈ usableLocked s →
    p_rr p = whole (Z.of_nat (length l) * w (p_id p) - weight_sum s * count_of (p_id p) l);
  wi_low : ∀ id, id ∈ usable_ids s →
    - weight_sum s + 1 ≤ Z.of_nat (length l) * w id - weight_sum s * count_of id l;
  wi_count : sumZ (map (λ id, count_of id l) (usable_ids s)) = Z.of_nat (length l);
  wi_fit : Z.of_nat (length (usable_ids s)) * weight_sum s ≤ 2 ^ 53;
}.

(** Accumulators sum to zero, so none exceeds what the others can be below. *)
Lemma wrr_high l s id :
  wrr_inv l s → id ∈ usable_ids s →
  Z.of_nat (length l) * w id - weight_sum s * count_of id l ≤
    (weight_sum s - 1) * (Z.of_nat (length (usable_ids s)) - 1).
Proof.
  intros [Hn Hw Hr Hl Hc Hf] Hid.
  pose proof (sumZ_upper (λ id, Z.of_nat (length l) * w id - weight_sum s * count_of id l)
    (- weight_sum s + 1) (usable_ids s) id Hid) as Hu. cbn beta in Hu.
  rewrite sumZ_map_linear, Hc in Hu. fold (weight_sum s) in Hu.
  assert (Forall (λ id, - weight_sum s + 1 ≤ Z.of_nat (length l) * w id - weight_sum s * count_of id l)
    (usable_ids s)) as HF by (by apply Forall_forall). specialize (Hu HF). lia.
Qed.

Definition wrr_update (o : sched_options) (best : string) (total : f64) (p : path) : path :=
  let p' := wrr_bump o p in
  if bool_decide (p_id p = best) then set_rr (p_rr p' ⊟ total) p' else p'.

Lemma usable_update o best total ps :
  List.filter is_usable (update_path best (λ p, set_rr (p_rr p ⊟ total) p)
    (map (λ p, if is_usable p then wrr_bump o p else p) ps)) =
  map (wrr_update o best total) (List.filter is_usable ps).
Proof.
  induction ps as [|p ps IH]; [done|]. cbn [map update_path List.filter].
  fold (update_path best (λ p, set_rr (p_rr p ⊟ total) p) (map (λ p, if is_usable p then wrr_bump o p else p) ps)).
  unfold update_path in *. destruct (is_usable p) eqn:E.
  - cbn [map]. rewrite <-IH. unfold wrr_update.
    replace (p_id (wrr_bump o p)) with (p_id p) by done.
    destruct (bool_decide (p_id p = best));
      [replace (is_usable (set_rr _ _)) with true|replace (is_usable (wrr_bump o p)) with true]; done.
  - destruct (bool_decide (p_id p = best));
      [replace (is_usable (set_rr _ _)) with false|rewrite E]; done.
Qed.

Lemma usable_id p (s : Scheduler R) : p ∈ usableLocked s → p_id p ∈ usable_ids s.
Proof. apply list_elem_of_fmap_2. Qed.

Lemma weight_le l s id : wrr_inv l s → id ∈ usable_ids s → 1 ≤ w id ≤ weight_sum s.
Proof.
  intros [Hn Hw Hr Hl Hc Hf] Hid.
  assert (HF : Forall (λ id, 1 ≤ w id) (usable_ids s)).
  { apply Forall_forall. intros i (p & -> & Hp)%list_elem_of_fmap. by apply Hw. }
  split; [by rewrite Forall_forall in HF; apply HF|].
  pose proof (sumZ_upper w 0 (usable_ids s) id Hid) as Hu. unfold weight_sum.
  enough (w id ≤ sumZ (map w (usable_ids s)) - 0 * (Z.of_nat (length (usable_ids s)) - 1)) by lia.
  apply Hu. eapply Forall_impl; [exact HF|]. cbn. intros; lia.
Qed.

(** The accumulator of path [id] after the bump. *)
Definition bumped (l : list string) (s : Scheduler R) (id : string) : Z :=
  Z.of_nat (length l + 1) * w id - weight_sum s * count_of id l.

Lemma bump_exact l s p :
  wrr_inv l s → p ∈ usableLocked s → p_rr (wrr_bump (opts s) p) = whole (bumped l s (p_id p)).
Proof.
  intros Hi Hp. pose proof (usable_id p s Hp) as Hid. pose proof (weight_le l s _ Hi Hid).
  pose proof (wrr_high l s _ Hi Hid) as Hh. destruct Hi as [Hn Hw Hr Hl Hc Hf].
  specialize (Hl _ Hid). destruct (Hw _ Hp) as [Ew _]. cbn [wrr_bump p_rr set_rr]. rewrite (Hr _ Hp), Ew.
  assert (1 ≤ Z.of_nat (length (usable_ids s))) by (destruct (usable_ids s); [by apply elem_of_nil in Hid|cbn; lia]).
  unfold bumped. rewrite whole_add; [f_equal; lia|]. nia.
Qed.

Lemma bumped_max l s m :
  wrr_inv l s → usable_ids s ≠ [] → Forall (λ id, bumped l s id ≤ m) (usable_ids s) → 1 ≤ m.
Proof.
  intros Hi Hne Hm. destruct (decide (1 ≤ m)); [done|exfalso].
  assert (Hp : 1 ≤ weight_sum s).
  { destruct (usable_ids s) as [|id ids] eqn:E; [done|].
    destruct (weight_le l s id Hi); [rewrite E; by left|lia]. }
  pose proof (sumZ_bound (λ id, weight_sum s * count_of id l - Z.of_nat (length l + 1) * w id) 0 (usable_ids s)) as Hb.
  rewrite sumZ_map_linear, (wi_count _ _ Hi) in Hb. fold (weight_sum s) in Hb.
  assert (HF : Forall (λ id, 0 ≤ weight_sum s * count_of id l - Z.of_nat (length l + 1) * w id) (usable_ids s)).
  { eapply Forall_impl; [exact Hm|]. unfold bumped. cbn. intros; lia. }
  specialize (Hb HF). lia.
Qed.

Lemma wrr_pick l s :
  wrr_inv l s → usableLocked s ≠ [] →
  ∃ id, PickWRR s = (Some id, with_paths (update_path id (λ p, set_rr (p_rr p ⊟ whole (weight_sum s)) p)
      (map (λ p, if is_usable p then wrr_bump (opts s) p else p) (paths s))) s) ∧
    id ∈ usable_ids s ∧ 1 ≤ bumped l s id.
Proof.
  intros Hi Hne. unfold PickWRR. destruct (usableLocked s) as [|p0 ps] eqn:Eu; [done|].
  assert (Eids : usable_ids s = p_id p0 :: map p_id ps) by (unfold usable_ids; by rewrite Eu).
  assert (Hin : ∀ p, p ∈ p0 :: ps → p ∈ usableLocked s) by (by rewrite Eu).
  assert (Hw : ∀ p, p ∈ p0 :: ps → weightLocked (opts s) p = whole (w (p_id p)) ∧ 0 ≤ w (p_id p) ∧
     p_rr (wrr_bump (opts s) p) = whole (bumped l s (p_id p))).
  { intros p Hp. destruct (wi_weight _ _ Hi p (Hin p Hp)). split_and!; [done|lia|].
    apply bump_exact; [done|by apply Hin]. }
  assert (Hsum : weight_sum s = w (p_id p0) + sumZ (map (λ p, w (p_id p)) ps)).
  { unfold weight_sum. rewrite Eids. cbn [map sumZ foldr]. by rewrite map_map. }
  destruct (Hw p0) as (W0 & W1 & W2); [by left|]. rewrite W0.
  assert (E0 : f0 ⊞ whole (w (p_id p0)) = whole (w (p_id p0))).
  { change f0 with (whole 0). destruct (weight_le l s (p_id p0) Hi); [rewrite Eids; by left|].
    rewrite whole_add; [done|]. pose proof (wi_fit _ _ Hi) as Hf. rewrite Eids in Hf. cbn [length] in Hf. nia. }
  rewrite E0. pose proof (wi_fit _ _ Hi) as Hf. rewrite Eids in Hf. cbn [length] in Hf.
  assert (0 ≤ sumZ (map (λ p, w (p_id p)) ps)).
  { etrans; [|apply (sumZ_bound _ 0)]; [lia|]. apply Forall_forall. intros q Hq. apply Hw. by right. }
  destruct (wrr_loop_spec (opts s) w (bumped l s) ps (w (p_id p0)) (wrr_bump (opts s) p0)
    (bumped l s (p_id p0)) (whole (w (p_id p0)))) as (b' & kb & -> & Eb & Hle & Hall & Hor);
    [intros p Hp; apply Hw; by right|lia|nia|done|done|].
  assert (Hb : p_id b' ∈ usable_ids s ∧ kb = bumped l s (p_id b')).
  { rewrite Eids. destruct Hor as [[-> ->]|(p & Hp & -> & ->)]; [split; [by left|done]|].
    split; [right; exact (list_elem_of_fmap_2 p_id ps p Hp)|done]. }
  destruct Hb as [Hb ->].
  assert (Hpos : 1 ≤ bumped l s (p_id b')).
  { apply (bumped_max l s); [done|by rewrite Eids|]. rewrite Eids. constructor; [done|].
    apply Forall_map. exact Hall. }
  rewrite <-Hsum. destruct (weight_le l s _ Hi Hb).
  exists (p_id b'). split_and!; [|done|done].
  assert (Hnz : (whole (weight_sum s) <=.? f0) = false).
  { change f0 with (whole 0). unfold fleb. rewrite whole_ltb. cbn. assert (0 < one_u) by reflexivity.
    rewrite (proj2 (Z.ltb_ge _ _)) by lia. apply Z.eqb_neq. nia. }
  by rewrite Hnz.
Qed.

Lemma wrr_step l s :
  wrr_inv l s → usableLocked s ≠ [] →
  ∃ id, (PickWRR s).1 = Some id ∧ id ∈ usable_ids s ∧
    wrr_inv (l ++ [id]) (PickWRR s).2 ∧ usable_ids (PickWRR s).2 = usable_ids s.
Proof.
  intros Hi Hne. destruct (wrr_pick l s Hi Hne) as (id & E & Hid & Hpos). exists id. rewrite E. cbn [fst snd].
  set (s' := with_paths _ s).
  assert (Eu : usableLocked s' = map (wrr_update (opts s) id (whole (weight_sum s))) (usableLocked s))
    by apply usable_update.
  assert (Hpid : ∀ p, p_id (wrr_update (opts s) id (whole (weight_sum s)) p) = p_id p)
    by (intros p; unfold wrr_update; by case_bool_decide).
  assert (Ei : usable_ids s' = usable_ids s).
  { unfold usable_ids. rewrite Eu, map_map. by apply map_ext. }
  assert (Ew : weight_sum s' = weight_sum s) by (unfold weight_sum; by rewrite Ei).
  assert (Hlen : Z.of_nat (length (l ++ [id])) = Z.of_nat (length l + 1)) by (by rewrite length_app).
  assert (Hval : ∀ i, Z.of_nat (length (l ++ [id])) * w i - weight_sum s * count_of i (l ++ [id]) =
    bumped l s i - (if bool_decide (id = i) then weight_sum s else 0)).
  { intros i. rewrite Hlen, count_snoc. unfold bumped. case_bool_decide; lia. }
  split_and!; [done|done| |done].
  split; rewrite ?Ei, ?Ew; try apply Hi.
  - intros p' Hp'. rewrite Eu in Hp'. apply list_elem_of_fmap in Hp' as (p & -> & Hp). rewrite Hpid.
    destruct (wi_weight _ _ Hi p Hp) as [<- ?]. split; [|done].
    unfold wrr_update, weightLocked. by case_bool_decide.
  - intros p' Hp'. rewrite Eu in Hp'. apply list_elem_of_fmap in Hp' as (p & -> & Hp).
    rewrite Hpid, Hval. pose proof (bump_exact l s p Hi Hp) as Eb. unfold wrr_update.
    pose proof (usable_id p s Hp) as Hpi. pose proof (weight_le l s _ Hi Hpi).
    case_bool_decide as Hc; cbn [p_rr set_rr]; rewrite Eb.
    + rewrite bool_decide_eq_true_2 by done. rewrite Hc in *. apply whole_sub.
      pose proof (wrr_high l s _ Hi Hid) as Hh. pose proof (wi_fit _ _ Hi).
      assert (1 ≤ Z.of_nat (length (usable_ids s))) by (destruct (usable_ids s); [by apply elem_of_nil in Hid|cbn; lia]).
      unfold bumped in *. nia.
    + rewrite bool_decide_eq_false_2 by done. by rewrite Z.sub_0_r.
  - intros i Hin. rewrite Hval. pose proof (wi_low _ _ Hi i Hin). pose proof (weight_le l s i Hi Hin).
    case_bool_decide as Hc; [subst; lia|]. unfold bumped. lia.
  - rewrite Hlen. pose proof (wi_count _ _ Hi) as Hcnt.
    rewrite (map_ext _ (λ i, count_of i l + (if bool_decide (id = i) then 1 else 0))) by (intros; apply count_snoc).
    rewrite sumZ_map_add, Hcnt, sum_indicator; [lia|apply Hi|done].
Qed.

(** [n] consecutive calls of [PickWRR]: the chosen ids, oldest first. *)
Fixpoint wrr_picks (n : nat) (s : Scheduler R) : list (option string) * Scheduler R :=
  match n with
  | O => ([], s)
  | S n => let '(r, s) := PickWRR s in let '(rs, s) := wrr_picks n s in (r :: rs, s)
  end.

Lemma wrr_picks_inv n l s :
  wrr_inv l s → usableLocked s ≠ [] →
  ∃ ids, (wrr_picks n s).1 = map Some ids ∧ length ids = n ∧ Forall (λ i, i ∈ usable_ids s) ids ∧
    wrr_inv (l ++ ids) (wrr_picks n s).2 ∧ usable_ids (wrr_picks n s).2 = usable_ids s.
Proof.
  revert l s. induction n as [|n IH]; intros l s Hi Hne.
  { exists []. rewrite app_nil_r. by split_and!; [..|constructor| |]. }
  destruct (wrr_step l s Hi Hne) as (id & E & Hid & Hi' & Eu). cbn [wrr_picks].
  destruct (PickWRR s) as [r s1]; cbn [fst snd] in *.
  destruct (IH (l ++ [id]) s1 Hi') as (ids & E1 & E2 & E3 & E4 & E5).
  { intros E0. unfold usable_ids in Eu. rewrite E0 in Eu. by destruct (usableLocked s). }
  destruct (wrr_picks n s1) as [rs s2]; cbn [fst snd] in *. exists (id :: ids). subst r rs.
  rewrite <-app_assoc in E4. rewrite Eu in E3, E5. split_and!; [done|cbn; lia|by constructor|done|done].
Qed.

(** C23 — Smooth weighted round-robin is proportionally fair. When the usable
    paths keep their whole-number weights (bounded so that float64 is exact)
    and start from zeroed accumulators, every call picks a usable path, and
    after [n] picks each of the [k] paths was picked [n*w/W] times, less than
    one pick more, and at most [k-1] picks fewer, where [W] is the sum of the
    weights. *)
Theorem wrr_fair (s : Scheduler R) n id :
  NoDup (usable_ids s) →
  (∀ p, p ∈ usableLocked s → weightLocked (opts s) p = of_Z (w (p_id p)) ∧ 1 ≤ w (p_id p) ∧ p_rr p = f0) →
  Z.of_nat (length (usable_ids s)) * weight_sum s ≤ 2 ^ 53 →
  id ∈ usable_ids s →
  let W := weight_sum s in
  let k := Z.of_nat (length (usable_ids s)) in
  ∃ ids, (wrr_picks n s).1 = map Some ids ∧ length ids = n ∧ Forall (λ i, i ∈ usable_ids s) ids ∧
    Z.of_nat n * w id - (W - 1) * (k - 1) ≤ W * count_of id ids ≤ Z.of_nat n * w id + W - 1.
Proof.
  intros Hnd Hp Hf Hid W k.
  assert (Hne : usableLocked s ≠ []) by (intros E; unfold usable_ids in Hid; rewrite E in Hid; by apply elem_of_nil in Hid).
  assert (Hw : ∀ i, i ∈ usable_ids s → 1 ≤ w i) by (intros i (p & -> & Hq)%list_elem_of_fmap; by apply Hp).
  assert (Hle : ∀ i, i ∈ usable_ids s → w i ≤ weight_sum s).
  { intros i Hi. pose proof (sumZ_upper w 0 (usable_ids s) i Hi) as Hu. unfold weight_sum.
    enough (w i ≤ sumZ (map w (usable_ids s)) - 0 * (Z.of_nat (length (usable_ids s)) - 1)) by lia.
    apply Hu, Forall_forall. intros j Hj. specialize (Hw j Hj). lia. }
  assert (Hk : 1 ≤ k) by (unfold k; destruct (usable_ids s); [by apply elem_of_nil in Hid|cbn; lia]).
  assert (Hinv : wrr_inv [] s).
  { split; [done| | | | |done].
    - intros p Hin. destruct (Hp p Hin) as (E & ? & _). split; [|done]. rewrite E. apply of_Z_exact.
      pose proof (Hle _ (usable_id p s Hin)). unfold k in Hk. nia.
    - intros p Hin. destruct (Hp p Hin) as (_ & _ & ->). unfold count_of. cbn. by rewrite Z.mul_0_r.
    - intros i Hi. pose proof (Hle i Hi). pose proof (Hw i Hi). unfold count_of. cbn. lia.
    - unfold count_of. cbn. clear. induction (usable_ids s); cbn; [done|]. unfold sumZ in *. lia. }
  destruct (wrr_picks_inv n [] s Hinv Hne) as (ids & E1 & E2 & E3 & E4 & E5). exists ids.
  split_and!; try done.
  - pose proof (wrr_high ids _ id E4) as Hh. unfold weight_sum in Hh. rewrite E5, E2 in Hh.
    specialize (Hh Hid). unfold W, k, weight_sum. lia.
  - pose proof (wi_low _ _ E4 id) as Hl. unfold weight_sum in Hl. rewrite E5 in Hl. cbn [app] in Hl.
    rewrite E2 in Hl. specialize (Hl Hid). unfold W, weight_sum. lia.
Qed.
End fairness.

(** Two WANs of capacity 2 and 1. *)
Definition two_one : Scheduler unit :=
  sched_run (newScheduler (mkSchedOptions "lb" "packet" "capacity") tt) [SAdd "a" (of_Z 2); SAdd "b" (of_Z 1)].

Lemma wrr_fair_witness :
  ∃ ids, (wrr_picks 10 two_one).1 = map Some ids ∧ length ids = 10%nat ∧
    Forall (λ i, i ∈ usable_ids two_one) ids ∧
    Z.of_nat 10 * 2 - (3 - 1) * (2 - 1) ≤ 3 * count_of "a" ids ≤ Z.of_nat 10 * 2 + 3 - 1.
Proof.
  assert (Eu : usableLocked two_one = [mkPath "a" (of_Z 2) StateHealthy f0 f0; mkPath "b" (of_Z 1) StateHealthy f0 f0])
    by reflexivity.
  pose proof (wrr_fair (λ id, if bool_decide (id = "a"%string) then 2 else 1) two_one 10 "a") as H.
  apply H; unfold usable_ids; rewrite Eu.
  - cbn [map p_id]. apply NoDup_cons. split; [|apply NoDup_singleton].
    intros E%list_elem_of_singleton. discriminate E.
  - intros p Hp. apply elem_of_cons in Hp as [->|Hp].
    { split; [vm_compute; reflexivity|split; [vm_compute; discriminate|reflexivity]]. }
    apply list_elem_of_singleton in Hp as ->.
    split; [vm_compute; reflexivity|split; [vm_compute; discriminate|reflexivity]].
  - vm_compute. discriminate.
  - left.
Defined.

(** The comment of [PickWRR] promises that a path is never chosen twice in a
    row while another is usable: it is, as soon as one weight exceeds the sum
    of the others. *)
Example wrr_repeats : (wrr_picks 3 two_one).1 = [Some "a"%string; Some "b"%string; Some "a"%string] ∧
  (wrr_picks 4 two_one).1 = [Some "a"%string; Some "b"%string; Some "a"%string; Some "a"%string].
Proof. split; vm_compute; reflexivity. Qed.

(** ** What the flow hash depends on *)

Lemma u32_bits z i : 0 ≤ i → Z.testbit (u32 z) i = (i <? 32) && Z.testbit z i.
Proof.
  intros Hi. unfold u32. destruct (Z.ltb_spec i 32); cbn.
  - by rewrite Z.mod_pow2_bits_low.
  - by rewrite Z.mod_pow2_bits_high by lia.
Qed.

(** The bits above 32 do not reach the ring position. *)
Lemma u32_lor_high a b c : u32 (Z.lxor (Z.lor (Z.shiftl a 32) b) c) = u32 (Z.lxor b c).
Proof.
  apply Z.bits_inj'. intros i Hi. rewrite !u32_bits by done.
  destruct (Z.ltb_spec i 32); cbn; [|done].
  rewrite !Z.lxor_spec, Z.lor_spec, Z.shiftl_spec, (Z.testbit_neg_r a) by lia. done.
Qed.

Section source.
  Context (a src src' b : list byte) (Ha : length a = 12%nat)
    (Hs : length src = 4%nat) (Hs' : length src' = 4%nat).

Lemma nth_source i d : (i < 12)%nat → nth i (a ++ src ++ b) d = nth i (a ++ src' ++ b) d.
Proof. intros. rewrite !app_nth1 by lia. done. Qed.

Lemma slice_source lo hi : (16 ≤ lo)%nat → slice lo hi (a ++ src ++ b) = slice lo hi (a ++ src' ++ b).
Proof.
  intros. unfold slice. do 1 f_equal.
  rewrite !(drop_app_ge a), !drop_app_ge by lia. by rewrite Hs, Hs'.
Qed.

Lemma parse_source h :
  parseInnerHash (a ++ src ++ b) = Some h →
  ∃ h', parseInnerHash (a ++ src' ++ b) = Some h' ∧ u32 h' = u32 h.
Proof.
  unfold parseInnerHash. cbv zeta. rewrite !(nth_source 0), !(nth_source 9) by lia.
  assert (El : length (a ++ src ++ b) = length (a ++ src' ++ b)) by (rewrite !length_app; lia).
  rewrite !El. set (p0 := b2z (nth 0 _ _)). set (p9 := b2z (nth 9 _ _)).
  destruct (_ <? 20)%nat; [done|]. destruct (negb _); [done|].
  set (ihl := (Z.to_nat (Z.land p0 15) * 4)%nat).
  destruct (ihl <? 20)%nat eqn:Ei; cbn [orb]; [done|].
  destruct (length (a ++ src' ++ b) <? ihl)%nat; [done|].
  apply Nat.ltb_ge in Ei. rewrite !(slice_source 16), !(slice_source ihl), !(slice_source (ihl + 2)) by lia.
  destruct (_ && _); intros [= <-]; eexists; (split; [done|]).
  - by rewrite !Z.lxor_assoc, !u32_lor_high.
  - rewrite <-(Z.lxor_0_r (Z.lor _ _)), u32_lor_high. symmetry.
    by rewrite <-(Z.lxor_0_r (Z.lor _ _)), u32_lor_high.
Qed.
End source.

(** The flow hash ignores the source address. The code builds a 64-bit
    hash with the source address in the upper half and places only its low 32
    bits on the ring: two parseable datagrams that differ only in the source
    IPv4 address (bytes 12 to 15) always get the same path. *)
Theorem flow_ignores_source `{Rand R} o (r : R) ops a src src' b f h :
  Z.of_nat (length ops) < 2 ^ 64 →
  let s := sched_run (newScheduler o r) ops in
  flow_mode s → length a = 12%nat → length src = 4%nat → length src' = 4%nat →
  parseInnerHash (a ++ src ++ b) = Some h →
  (Pick (set_payload (a ++ src ++ b) f) s).1 = (Pick (set_payload (a ++ src' ++ b) f) s).1.
Proof.
  intros Hl s Hf Ha Hs Hs' Hh. pose proof (sched_run_ok o r ops Hl) as Ho. fold s in Ho.
  destruct (parse_source a src src' b Ha Hs Hs' h Hh) as (h' & Hh' & Eh).
  destruct (pick_meets_spec _ (set_payload (a ++ src ++ b) f) s Ho) as (r1 & E1 & Hr1).
  destruct (pick_meets_spec _ (set_payload (a ++ src' ++ b) f) s Ho) as (r2 & E2 & Hr2).
  rewrite E1, E2. f_equal. destruct r1 as [id1|], r2 as [id2|]; unfold pick_spec in *.
  - rewrite (pick_is_owner _ _ h) in E1 by done. rewrite (pick_is_owner _ _ h') in E2 by done.
    rewrite Eh in E2. f_equal. by eapply flow_owner_unique.
  - destruct Hr1 as [Hin _]. unfold usable_ids in Hin. rewrite Hr2 in Hin. by apply elem_of_nil in Hin.
  - destruct Hr2 as [Hin _]. unfold usable_ids in Hin. rewrite Hr1 in Hin. by apply elem_of_nil in Hin.
  - done.
Qed.

Lemma flow_ignores_source_witness :
  let s := sched_run (newScheduler flow_options tt) two_wans in
  let p src := take 12 (udp_datagram x00 x35) ++ [x0a; x00; x00; src] ++ drop 16 (udp_datagram x00 x35) in
  (Pick (set_payload (p x05) (new_frame 0 1 1 0 [])) s).1 =
  (Pick (set_payload (p x99) (new_frame 0 1 1 0 [])) s).1.
Proof.
  eapply flow_ignores_source; [vm_compute; reflexivity|split; [discriminate|reflexivity]|reflexivity..].
Defined.
