(* ===== verification/FecCodec.v ===== *)
(** * FEC parameters and the erasure codec (internal/fec/fec.go)

    Parameters of the codec, the interface of the Reed-Solomon library the code
    calls, and the format of the self-describing parity payload. *)

From S2P Require Import Prelude Float64 Frame.

#[local] Open Scope Z_scope.

Definition DefaultDataShards : Z := 10.

Record AdaptiveParams := mkAdaptive {
  OnLossPct : f64;
  OffLossPct : f64;
  Hold : duration;
  MaxLossPct : f64;
  Safety : f64;
}.

Record Params := mkParams {
  DataShards : Z;
  ParityShards : Z;
  BlockTimeout : duration;
  Adaptive : option AdaptiveParams;
  CrossPath : bool;
  CrossPathMinParity : Z;
}.

(** [Enabled]. *)
Definition Enabled (p : Params) : bool := 0 <? ParityShards p.

Definition parityHdrFixed : Z := 8.

(** [ParityHeaderSize]. *)
Definition ParityHeaderSize (dataShards : Z) : Z := parityHdrFixed + 4 * dataShards + 2 * dataShards.

(** The defaults [NewEncoder] and [NewDecoder] fill in. *)
Definition fill_params (p : Params) : Params :=
  mkParams (if DataShards p <=? 0 then DefaultDataShards else DataShards p) (ParityShards p)
    (if BlockTimeout p <=? 0 then 8 * millisecond else BlockTimeout p)
    (Adaptive p) (CrossPath p) (CrossPathMinParity p).

(** ** The Reed-Solomon library

    github.com/klauspost/reedsolomon is not part of the repository. The class
    holds the three calls the code makes and what their documentation states:
    [New] fails with less than one data shard or less than zero parity shards;
    [Encode] keeps the data shards and fills the parity shards, all shards of
    one non-zero size; [Reconstruct] restores every shard when at least as many
    as the data shards are present, a nil shard standing for a missing one, and
    refuses a slice that has not one entry per shard of the codec.
    [rs_spare rs held i] are the bytes between the length and the capacity of
    the slice that [Reconstruct] leaves at index [i]: nothing is known of them,
    but a slice expression of the code may reach them. *)

Abbreviation shard := (list byte).

(** The number of shards present. *)
Definition present (l : list (option shard)) : nat :=
  length (List.filter (λ o, match o with Some _ => true | None => false end) l).

(** [held] consists of shards of [full]. *)
Definition part_of (held : list (option shard)) (full : list shard) : Prop :=
  Forall2 (λ h s, match h with Some b => b = s | None => True end) held full.

Class ReedSolomon := {
  RS : Type;
  rs_New : Z → Z → option RS;
  rs_Encode : RS → list shard → option (list shard);
  rs_Reconstruct : RS → list (option shard) → option (list shard);
  rs_spare : RS → list (option shard) → nat → list byte;
  rs_new_valid : ∀ k p rs, rs_New k p = Some rs → 1 ≤ k ∧ 0 ≤ p;
  rs_encode_shards : ∀ k p rs data zeros m,
    rs_New k p = Some rs → Z.of_nat (length data) = k → Z.of_nat (length zeros) = p → (0 < m)%nat →
    Forall (λ s, length s = m) (data ++ zeros) →
    ∃ parity, rs_Encode rs (data ++ zeros) = Some (data ++ parity) ∧
      length parity = length zeros ∧ Forall (λ s, length s = m) parity;
  rs_reconstruct_any_k : ∀ k p rs data zeros parity held m,
    rs_New k p = Some rs → Z.of_nat (length data) = k → Z.of_nat (length zeros) = p → (0 < m)%nat →
    Forall (λ s, length s = m) (data ++ zeros) →
    rs_Encode rs (data ++ zeros) = Some (data ++ parity) →
    part_of held (data ++ parity) → k ≤ Z.of_nat (present held) →
    rs_Reconstruct rs held = Some (data ++ parity);
  rs_reconstruct_shape : ∀ k p rs held,
    rs_New k p = Some rs → Z.of_nat (length held) ≠ k + p → rs_Reconstruct rs held = None;
}.

(** ** The parity payload *)

(** The sub-header of [emitBlock]: k, index, padded size, p, then the seqs and
    the lengths of the block's data frames, then the shard. *)
Definition parity_payload (k p : Z) (i : Z) (maxLen : Z) (data : list frame) (s : shard) : list byte :=
  be_put 2 k ++ be_put 2 i ++ be_put 2 maxLen ++ be_put 2 p ++
  flat_map (λ f, be_put 4 (f_seq f)) data ++
  flat_map (λ f, be_put 2 (Z.of_nat (length (f_payload f)))) data ++ s.

(** [len(f.Payload)], and the largest of a block. *)
Definition plen (f : frame) : Z := Z.of_nat (length (f_payload f)).
Definition max_len (data : list frame) : Z := foldl (λ m f, if m <? plen f then plen f else m) 0 data.

(** [copy(make([]byte, n), b)]: cut or zero-padded to [n] bytes. *)
Definition fit (n : nat) (b : list byte) : list byte := take n b ++ replicate (n - length b) x00.

Lemma length_fit n b : length (fit n b) = n.
Proof. unfold fit. rewrite length_app, length_take, length_replicate. lia. Qed.

Lemma take_fit n b : (length b ≤ n)%nat → take (length b) (fit n b) = b.
Proof. intros. unfold fit. rewrite take_app_le by (rewrite length_take; lia). rewrite take_take. by rewrite take_ge by lia. Qed.

Lemma max_len_spec data :
  0 ≤ max_len data ∧ Forall (λ f, plen f ≤ max_len data) data ∧
  (max_len data = 0 ∨ ∃ f, f ∈ data ∧ plen f = max_len data).
Proof.
  unfold max_len. assert (H : ∀ m, 0 ≤ m →
    let r := foldl (λ m f, if m <? plen f then plen f else m) m data in
    m ≤ r ∧ Forall (λ f, plen f ≤ r) data ∧ (r = m ∨ ∃ f, f ∈ data ∧ plen f = r)).
  { induction data as [|f data IH]; intros m Hm; cbn [foldl].
    { split_and!; [lia|constructor|by left]. }
    destruct (Z.ltb_spec m (plen f)).
    - destruct (IH (plen f) ltac:(lia)) as (H1 & H2 & H3). split_and!; [lia|by constructor|].
      destruct H3 as [->|(g & Hg & <-)]; [right; exists f; split; [by left|done]|].
      right. exists g. split; [by right|done].
    - destruct (IH m Hm) as (H1 & H2 & H3). split_and!; [lia|constructor; [lia|done]|].
      destruct H3 as [->|(g & Hg & <-)]; [by left|]. right. exists g. split; [by right|done]. }
  destruct (H 0 ltac:(lia)) as (H1 & H2 & H3). by split_and!.
Qed.

(** ** The single-parity code, an instance of the interface *)

Definition sxor (a b : shard) : shard := zip_with bxor a b.

(** The XOR of shards of size [m]. *)
Definition xor_all (m : nat) (l : list shard) : shard := foldr sxor (replicate m x00) l.

Lemma length_sxor a b : length (sxor a b) = Nat.min (length a) (length b).
Proof. apply length_zip_with. Qed.

Lemma length_xor_all m l : Forall (λ s, length s = m) l → length (xor_all m l) = m.
Proof.
  induction 1 as [|s l Hs _ IH]; cbn; [apply length_replicate|]. rewrite length_sxor.
  fold (xor_all m l). lia.
Qed.

Lemma sxor_comm a b : sxor a b = sxor b a.
Proof. revert b. induction a as [|x a IH]; intros [|y b]; cbn; try done.
  f_equal; [apply bxor_comm|apply IH].
Qed.
Lemma sxor_assoc a b c : sxor a (sxor b c) = sxor (sxor a b) c.
Proof.
  revert b c. induction a as [|x a IH]; intros [|y b] [|z c]; cbn; try done.
  f_equal; [apply bxor_assoc|apply IH].
Qed.
Lemma sxor_self a : sxor a a = replicate (length a) x00.
Proof. induction a as [|x a IH]; cbn; [done|]. f_equal; [apply bxor_self|exact IH]. Qed.
Lemma sxor_0_l m a : length a = m → sxor (replicate m x00) a = a.
Proof. intros <-. induction a as [|x a IH]; cbn; [done|]. f_equal; [apply bxor_0_l|exact IH]. Qed.

Lemma xor_all_app m l k : Forall (λ s, length s = m) k →
  xor_all m (l ++ k) = sxor (xor_all m l) (xor_all m k).
Proof.
  intros Hk. induction l as [|s l IH]; cbn.
  - symmetry. apply sxor_0_l. by apply length_xor_all.
  - fold (xor_all m (l ++ k)) (xor_all m l). rewrite IH. apply sxor_assoc.
Qed.

(** A word of the code XORs to zero, so a missing shard is the XOR of the rest. *)
Lemma xor_missing m l1 s l2 :
  Forall (λ s, length s = m) (l1 ++ s :: l2) → xor_all m (l1 ++ s :: l2) = replicate m x00 →
  xor_all m (l1 ++ l2) = s.
Proof.
  intros Hl E. apply Forall_app in Hl as [H1 H2]. pose proof (Forall_cons_1 _ _ _ H2) as [Hs H2'].
  rewrite xor_all_app in E by done. cbn in E. fold (xor_all m l2) in E.
  rewrite (sxor_comm s), sxor_assoc, <-xor_all_app in E by done.
  pose proof (length_xor_all m (l1 ++ l2) ltac:(by apply Forall_app)) as Hlen.
  transitivity (sxor (xor_all m (l1 ++ l2)) (sxor s s)).
  - rewrite sxor_self, Hs, sxor_comm. symmetry. by apply sxor_0_l.
  - rewrite sxor_assoc, E. by apply sxor_0_l.
Qed.

Definition xor_New (k p : Z) : option Z := if (1 <=? k) && (p =? 1) then Some k else None.

(** [data ++ [z]] to [data ++ [xor of data]]. *)
Definition xor_Encode (k : Z) (shards : list shard) : option (list shard) :=
  let data := take (Z.to_nat k) shards in
  match drop (Z.to_nat k) shards with
  | [z] => Some (data ++ [xor_all (length z) data])
  | _ => None
  end.

Definition xor_Reconstruct (k : Z) (held : list (option shard)) : option (list shard) :=
  let have := omap id held in
  if (Z.of_nat (length held) =? k + 1) && (k <=? Z.of_nat (length have)) then
    Some (map (λ o, match o with Some s => s | None => xor_all (length (default [] (head have))) have end) held)
  else None.

Lemma present_omap held : present held = length (omap id held).
Proof. unfold present. induction held as [|[s|] held IH]; cbn; by rewrite ?IH. Qed.

Lemma part_of_full held full : part_of held full → omap id held `sublist_of` full.
Proof.
  induction 1 as [|[s|] f held full E _ IH]; cbn; [constructor|subst; by constructor|by constructor].
Qed.

Lemma present_le held full : part_of held full → (present held ≤ length full)%nat.
Proof. unfold present. induction 1 as [|[s|] f held full E _ IH]; cbn; lia. Qed.

Lemma all_present held full :
  part_of held full → (length full ≤ present held)%nat → held = map Some full.
Proof.
  induction 1 as [|[s|] f held full E Hp IH]; cbn in *; [done| |]; intros Hn.
  - subst. f_equal. apply IH. unfold present in *. cbn in Hn. lia.
  - pose proof (present_le held full Hp). unfold present in *. cbn in Hn. lia.
Qed.

(** With all shards but at most one, the shards are known up to a hole. *)
Lemma one_missing held full :
  part_of held full → (length full ≤ present held + 1)%nat →
  held = map Some full ∨
  ∃ l1 s l2, full = l1 ++ s :: l2 ∧ held = map Some l1 ++ None :: map Some l2.
Proof.
  induction 1 as [|[s|] f held full E Hp IH]; cbn; [by left| |]; intros Hn.
  - subst f. destruct IH as [->|(l1 & s' & l2 & -> & ->)].
    + unfold present in *. cbn in Hn. lia.
    + by left.
    + right. by exists (s :: l1), s', l2.
  - right. exists [], f, full. split; [done|]. cbn. f_equal. apply all_present; [done|].
    unfold present in *. cbn in Hn. lia.
Qed.

Lemma omap_some (l : list shard) : omap id (map Some l) = l.
Proof. induction l as [|x l IH]; cbn; [done|]. by rewrite IH. Qed.

Lemma xor_restore m held full :
  Forall (λ s, length s = m) full → xor_all m full = replicate m x00 → part_of held full →
  (length full ≤ present held + 1)%nat →
  map (λ o, match o with Some s => s | None => xor_all m (omap id held) end) held = full.
Proof.
  intros Hf Hx Hp Hn. destruct (one_missing held full Hp Hn) as [->|(l1 & s & l2 & -> & ->)].
  - rewrite map_map. apply map_id.
  - rewrite omap_app. cbn. rewrite !omap_some, map_app. cbn. rewrite !map_map, !map_id.
    do 2 f_equal. by apply xor_missing.
Qed.

#[export] Instance xor_code : ReedSolomon.
Proof.
  refine {| RS := Z; rs_New := xor_New; rs_Encode := xor_Encode;
            rs_Reconstruct := xor_Reconstruct; rs_spare := λ _ _ _, [] |}.
  - intros k p rs Hnew. unfold xor_New in Hnew.
    destruct ((1 <=? k) && (p =? 1)) eqn:E; [|done]. apply andb_true_iff in E as [E1 E2]. lia.
  - intros k p rs data zeros m Hnew Hk Hp Hm Hall. unfold xor_New in Hnew.
    destruct ((1 <=? k) && (p =? 1)) eqn:E; [|done]. simplify_eq. apply andb_true_iff in E as [E1 E2].
    assert (E3 : length zeros = 1%nat) by lia.
    destruct zeros as [|z [|]]; try discriminate E3. apply Forall_app in Hall as [Hd Hz].
    apply Forall_cons_1 in Hz as [Hz _].
    exists [xor_all (length z) data]. unfold xor_Encode.
    rewrite Nat2Z.id, drop_app_length, take_app_length. split_and!; [done|done|].
    constructor; [|done]. rewrite Hz. by apply length_xor_all.
  - intros k p rs data zeros parity held m Hnew Hk Hp Hm Hall Henc Hpart Hn. unfold xor_New in Hnew.
    destruct ((1 <=? k) && (p =? 1)) eqn:E; [|done]. simplify_eq. apply andb_true_iff in E as [E1 E2].
    assert (E3 : length zeros = 1%nat) by lia.
    destruct zeros as [|z [|]]; try discriminate E3. apply Forall_app in Hall as [Hd Hz].
    apply Forall_cons_1 in Hz as [Hz _]. unfold xor_Encode in Henc.
    rewrite Nat2Z.id, drop_app_length, take_app_length in Henc. injection Henc as Henc.
    apply app_inv_head in Henc as <-. subst m.
    assert (Hf : Forall (λ s, length s = length z) (data ++ [xor_all (length z) data])).
    { apply Forall_app. split; [done|]. constructor; [by apply length_xor_all|done]. }
    assert (Hsize : Z.of_nat (length held) = Z.of_nat (length data) + 1).
    { unfold part_of in Hpart. rewrite (Forall2_length _ _ _ Hpart), length_app. cbn [length]. lia. }
    unfold xor_Reconstruct. rewrite <-present_omap, (proj2 (Z.leb_le _ _)), Hsize, Z.eqb_refl by done. cbn [andb]. f_equal.
    assert (Hlen : length (default [] (head (omap id held))) = length z).
    { destruct (omap id held) as [|s l] eqn:Eo.
      - rewrite present_omap, Eo in Hn. cbn in Hn. lia.
      - cbn. assert (Hin : s ∈ data ++ [xor_all (length z) data]).
        { eapply elem_of_submseteq; [|apply sublist_submseteq, part_of_full, Hpart]. rewrite Eo. by left. }
        rewrite Forall_forall in Hf. by apply Hf. }
    rewrite Hlen. apply xor_restore; [done| |done|rewrite length_app; cbn; lia].
    rewrite xor_all_app by (constructor; [by apply length_xor_all|done]). cbn.
    rewrite (sxor_comm (xor_all _ data) (replicate _ _)), sxor_0_l by (by apply length_xor_all).
    rewrite sxor_self. by rewrite length_xor_all.
  - intros k p rs held Hnew Hlen. unfold xor_New in Hnew.
    destruct ((1 <=? k) && (p =? 1)) eqn:E; [|done]. injection Hnew as <-. apply andb_true_iff in E as [E1 E2].
    unfold xor_Reconstruct. assert (E : (Z.of_nat (length held) =? k + 1) = false) by (apply Z.eqb_neq; lia).
    by rewrite E.
Defined.
