(* ===== verification/FecEncoder.v ===== *)
(** * The FEC encoder (internal/fec/fec.go)

    Block assembly, parity emission, adaptive sizing of the redundancy and the
    code / pass-through decision. A call reads the clock once: [now] stands for
    every [time.Now()] of that call. *)

From S2P Require Import Prelude Float64 Frame FecCodec.

#[local] Open Scope Z_scope.

Section encoder.
  Context `{ReedSolomon}.

Record Encoder := mkEncoder {
  e_params : Params;
  e_rs : option RS;            (* nil when coding is disabled *)
  e_block : Z;                 (* uint32 *)
  e_pending : list frame;
  e_blockStart : time;
  e_lossRate : f64;
  e_codingOn : bool;
  e_codingSince : time;
  e_rsParity : Z;
  e_blocksCoded : Z;           (* uint64 *)
}.

Definition with_pending (l : list frame) (e : Encoder) : Encoder :=
  mkEncoder (e_params e) (e_rs e) (e_block e) l (e_blockStart e) (e_lossRate e) (e_codingOn e)
    (e_codingSince e) (e_rsParity e) (e_blocksCoded e).
Definition with_blockStart (t : time) (e : Encoder) : Encoder :=
  mkEncoder (e_params e) (e_rs e) (e_block e) (e_pending e) t (e_lossRate e) (e_codingOn e)
    (e_codingSince e) (e_rsParity e) (e_blocksCoded e).
Definition with_lossRate (x : f64) (e : Encoder) : Encoder :=
  mkEncoder (e_params e) (e_rs e) (e_block e) (e_pending e) (e_blockStart e) x (e_codingOn e)
    (e_codingSince e) (e_rsParity e) (e_blocksCoded e).
Definition with_coding (b : bool) (t : time) (e : Encoder) : Encoder :=
  mkEncoder (e_params e) (e_rs e) (e_block e) (e_pending e) (e_blockStart e) (e_lossRate e) b
    t (e_rsParity e) (e_blocksCoded e).
Definition with_rs (rs : RS) (parity : Z) (e : Encoder) : Encoder :=
  mkEncoder (e_params e) (Some rs) (e_block e) (e_pending e) (e_blockStart e) (e_lossRate e)
    (e_codingOn e) (e_codingSince e) parity (e_blocksCoded e).
(** [e.block++; e.blocksCoded.Add(1)]. *)
Definition next_block (e : Encoder) : Encoder :=
  mkEncoder (e_params e) (e_rs e) (u32 (e_block e + 1)) (e_pending e) (e_blockStart e) (e_lossRate e)
    (e_codingOn e) (e_codingSince e) (e_rsParity e) (u64 (e_blocksCoded e + 1)).

(** [NewEncoder]. *)
Definition NewEncoder (p : Params) : res string Encoder :=
  let p := fill_params p in
  let on := match Adaptive p with None => true | Some _ => CrossPath p end in
  let mk rs := mkEncoder p rs 0 [] 0 f0 on 0 (ParityShards p) 0 in
  if Enabled p then
    match rs_New (DataShards p) (ParityShards p) with
    | Some rs => Ok (mk (Some rs))
    | None => Err "fec: rs.New"%string
    end
  else Ok (mk None).

(** [parityForLoss]. *)
Definition parityForLoss (e : Encoder) (loss : f64) : Z :=
  let k := DataShards (e_params e) in
  let target :=
    match Adaptive (e_params e) with
    | None => f0
    | Some a =>
        let target := (loss ⊘ (f1 ⊟ loss)) ⊠ Safety a in
        let capLoss := MaxLossPct a ⊘ of_Z 100 in
        let cap := capLoss ⊘ (f1 ⊟ capLoss) in
        if cap <.? target then cap else target
    end in
  let parity := to_int (fceil (of_Z k ⊠ target)) in
  let parity := if parity <? 1 then 1 else parity in
  let parity := if parity <? CrossPathMinParity (e_params e) then CrossPathMinParity (e_params e) else parity in
  let parity := if 256 <? k + parity then 256 - k else parity in
  if negb (CrossPath (e_params e)) && (ParityShards (e_params e) <? parity)
  then ParityShards (e_params e) else parity.

(** [rebuildLocked]. *)
Definition rebuildLocked (e : Encoder) : Encoder :=
  let parity := parityForLoss e (e_lossRate e) in
  if parity =? e_rsParity e then e
  else match rs_New (DataShards (e_params e)) parity with
       | None => e
       | Some rs => with_rs rs parity e
       end.

(** [refreshLocked]. *)
Definition refreshLocked (now : time) (e : Encoder) : Encoder :=
  match Adaptive (e_params e), CrossPath (e_params e) with
  | _, true => rebuildLocked (with_coding true (e_codingSince e) e)
  | None, false => with_coding true (e_codingSince e) e
  | Some a, false =>
      let lossPct := e_lossRate e ⊠ of_Z 100 in
      let e :=
        if negb (e_codingOn e) then
          if OnLossPct a <=.? lossPct then with_coding true now e else e
        else if (lossPct <.? OffLossPct a) && (Hold a <=? time_sub now (e_codingSince e))
             then with_coding false (e_codingSince e) e else e in
      if e_codingOn e then rebuildLocked e else e
  end.

(** [SetLossRate]. *)
Definition SetLossRate (now : time) (rate : f64) (e : Encoder) : Encoder :=
  let rate := if rate <.? f0 then f0 else rate in
  let rate := if f1 <.? rate then f1 else rate in
  refreshLocked now (with_lossRate rate e).

(** [markPassSeq]. *)
Definition markPassSeq (fs : list frame) : list frame :=
  map (λ f, set_flags (Z.lor (f_flags f) FlagPassSeq) f) fs.

(** One [PutUint] per data frame, at consecutive offsets of width [w]. *)
Fixpoint put_fields (off w : nat) (g : frame → list byte) (data : list frame) (buf : list byte) : list byte :=
  match data with
  | [] => buf
  | f :: data => put_fields (off + w) w g data (put_at off (g f) buf)
  end.

(** The buffer [sub] of [emitBlock] before the parity loop. *)
Definition sub_header (k parity maxLen : Z) (data : list frame) : list byte :=
  let sub := replicate (Z.to_nat (ParityHeaderSize k + maxLen)) x00 in
  let sub := put_at 0 (be_put 2 k) sub in
  let sub := put_at 6 (be_put 2 parity) sub in
  let sub := put_fields 8 4 (λ f, be_put 4 (f_seq f)) data sub in
  let sub := put_fields (8 + 4 * Z.to_nat k) 2 (λ f, be_put 2 (u16 (plen f))) data sub in
  put_at 4 (be_put 2 maxLen) sub.

(** The [i]-th parity frame. *)
Definition parity_frame (session bs k maxLen : Z) (sub : list byte) (i : nat) (s : shard) : frame :=
  let sub := put_at 2 (be_put 2 (Z.of_nat i)) sub in
  let sub := put_at (Z.to_nat (ParityHeaderSize k)) s sub in
  new_frame FlagFECParity session 0 bs (take (Z.to_nat (ParityHeaderSize k + maxLen)) sub).

(** [emitBlock]; a nil codec or too few shards would panic. *)
Definition emitBlock (e : Encoder) : res unit (list frame * Encoder) :=
  let e := next_block e in
  let bs := e_block e in
  let data := e_pending e in
  let e := with_pending [] e in
  let k := DataShards (e_params e) in
  let maxLen := max_len data in
  let parity := e_rsParity e in
  let n := k + parity in
  if n <? Z.of_nat (length data) then Panic
  else
    let shards := map (λ f, fit (Z.to_nat maxLen) (f_payload f)) data ++
                  replicate (Z.to_nat n - length data) (replicate (Z.to_nat maxLen) x00) in
    let stamped := map (set_block bs) data in
    match e_rs e with
    | None => Panic
    | Some rs =>
        match rs_Encode rs shards with
        | None => Ok (stamped, e)
        | Some shards =>
            let session := match data with f :: _ => f_session f | [] => 0 end in
            let sub := sub_header k parity maxLen data in
            let coded := take (Z.to_nat parity) (drop (Z.to_nat k) shards) in
            Ok (stamped ++ imap (parity_frame session bs k maxLen sub) coded, e)
        end
    end.

(** [Push]. *)
Definition Encoder_Push (now : time) (f : frame) (e : Encoder) : res unit (list frame * Encoder) :=
  if negb (Enabled (e_params e)) then Ok (markPassSeq [f], e)
  else
    let e := refreshLocked now e in
    if negb (e_codingOn e) then Ok (markPassSeq (e_pending e ++ [f]), with_pending [] e)
    else
      let e := match e_pending e with [] => with_blockStart now e | _ => e end in
      let e := with_pending (e_pending e ++ [f]) e in
      if Z.of_nat (length (e_pending e)) <? DataShards (e_params e) then Ok ([], e)
      else emitBlock e.

(** [Tick]. *)
Definition Encoder_Tick (now : time) (e : Encoder) : list frame * Encoder :=
  if negb (Enabled (e_params e)) then ([], e)
  else
    let e := refreshLocked now e in
    if negb (e_codingOn e) then (e_pending e, with_pending [] e)
    else if bool_decide (e_pending e = []) then ([], e)
    else if now <? e_blockStart e + BlockTimeout (e_params e) then ([], e)
    else
      let e := next_block e in
      (map (set_block (e_block e)) (e_pending e), with_pending [] e).

(** [Stats], [CodingOn]. *)
Definition Encoder_Stats (e : Encoder) : Z := e_blocksCoded e.
Definition CodingOn (e : Encoder) : bool := e_codingOn e.

(** ** Sizing and the code / pass-through decision *)

(** Redundancy bounds. Whatever the loss estimate and the adaptive
    tuning, NaN and infinities included, the number of parity shards is at
    least one, fits the code (data + parity at most 256), never exceeds the
    configured ceiling unless coding is cross-path, and with cross-path coding
    is at least the survive-one-path floor whenever that fits. *)
Theorem parity_bounds e loss :
  let k := DataShards (e_params e) in
  let p := parityForLoss e loss in
  1 ≤ k ≤ 255 → 1 ≤ ParityShards (e_params e) →
  1 ≤ p ∧ k + p ≤ 256 ∧
  (CrossPath (e_params e) = false → p ≤ ParityShards (e_params e)) ∧
  (CrossPath (e_params e) = true → k + CrossPathMinParity (e_params e) ≤ 256 →
   CrossPathMinParity (e_params e) ≤ p).
Proof.
  intros k p Hk Hp. unfold p, parityForLoss. fold k.
  set (x := to_int _). clearbody x.
  set (a := if x <? 1 then 1 else x).
  assert (1 ≤ a) by (unfold a; destruct (Z.ltb_spec x 1); lia). clearbody a.
  set (b := if a <? CrossPathMinParity (e_params e) then CrossPathMinParity (e_params e) else a).
  assert (1 ≤ b ∧ CrossPathMinParity (e_params e) ≤ b)
    by (unfold b; destruct (Z.ltb_spec a (CrossPathMinParity (e_params e))); lia). clearbody b.
  set (c := if 256 <? k + b then 256 - k else b).
  assert (1 ≤ c ∧ k + c ≤ 256 ∧ (k + CrossPathMinParity (e_params e) ≤ 256 → CrossPathMinParity (e_params e) ≤ c))
    by (unfold c; destruct (Z.ltb_spec 256 (k + b)); lia). clearbody c.
  destruct (CrossPath (e_params e)); cbn [negb andb]; [split_and!; (done || lia)|].
  destruct (Z.ltb_spec (ParityShards (e_params e)) c); split_and!; (done || lia).
Qed.

Lemma rebuild_fields e :
  e_params (rebuildLocked e) = e_params e ∧ e_pending (rebuildLocked e) = e_pending e ∧
  e_codingOn (rebuildLocked e) = e_codingOn e ∧ e_codingSince (rebuildLocked e) = e_codingSince e ∧
  e_block (rebuildLocked e) = e_block e ∧ e_lossRate (rebuildLocked e) = e_lossRate e ∧
  e_blockStart (rebuildLocked e) = e_blockStart e.
Proof. unfold rebuildLocked. case_match; [done|]. by case_match. Qed.

Lemma refresh_fields now e :
  e_params (refreshLocked now e) = e_params e ∧ e_pending (refreshLocked now e) = e_pending e ∧
  e_block (refreshLocked now e) = e_block e ∧ e_blockStart (refreshLocked now e) = e_blockStart e.
Proof.
  unfold refreshLocked.
  assert (R := rebuild_fields).
  destruct (Adaptive (e_params e)), (CrossPath (e_params e)); cbv zeta; try done;
    try (destruct (R (with_coding true (e_codingSince e) e)) as (-> & -> & _ & _ & -> & _ & ->); done).
  repeat case_match; try done;
    match goal with |- context [rebuildLocked ?x] => destruct (R x) as (-> & -> & _ & _ & -> & _ & ->); done end.
Qed.

(** ** Runs of the encoder *)

Inductive enc_op : Type :=
| OpPush (now : time) (f : frame)
| OpTick (now : time)
| OpLoss (now : time) (rate : f64).

Definition enc_step (o : enc_op) (e : Encoder) : res unit (list frame * Encoder) :=
  match o with
  | OpPush now f => Encoder_Push now f e
  | OpTick now => Ok (Encoder_Tick now e)
  | OpLoss now rate => Ok ([], SetLossRate now rate e)
  end.

Fixpoint enc_run (ops : list enc_op) (e : Encoder) : res unit (list frame * Encoder) :=
  match ops with
  | [] => Ok ([], e)
  | o :: ops =>
      let? r := enc_step o e in
      let? r' := enc_run ops r.2 in
      Ok (r.1 ++ r'.1, r'.2)
  end.

Definition enc_pushed (ops : list enc_op) : list frame :=
  flat_map (λ o, match o with OpPush _ f => [f] | _ => [] end) ops.

(** What the inner stream sees of a frame, and the frames that carry data. *)
Definition core (f : frame) : Z * Z * list byte := (f_session f, f_seq f, f_payload f).
Definition is_data (f : frame) : bool := negb (HasFlag f FlagFECParity).
Definition data_of (fs : list frame) : list (Z * Z * list byte) := map core (List.filter is_data fs).

(** The codec exists when coding is enabled, and matches the current parity;
    the pending block is not full. *)
Record enc_ok (e : Encoder) : Prop := {
  eo_k : 1 ≤ DataShards (e_params e);
  eo_rs : Enabled (e_params e) = true →
    ∃ rs, e_rs e = Some rs ∧ rs_New (DataShards (e_params e)) (e_rsParity e) = Some rs;
  eo_pending : Z.of_nat (length (e_pending e)) < DataShards (e_params e);
  eo_data : Forall (λ f, is_data f = true) (e_pending e);
  eo_off : Enabled (e_params e) = false → e_pending e = [];
}.

Lemma enc_ok_new p e : NewEncoder p = Ok e → enc_ok e ∧ e_pending e = [].
Proof.
  unfold NewEncoder. set (p' := fill_params p).
  assert (Hk : 1 ≤ DataShards p').
  { unfold p', fill_params, DefaultDataShards. cbn. destruct (Z.leb_spec (DataShards p) 0); lia. }
  clearbody p'. destruct (Enabled p') eqn:En.
  - destruct (rs_New _ _) as [rs|] eqn:Er; [|done]. intros [= <-]. split; [|done].
    split; cbn; [done|by exists rs|lia|constructor|done].
  - intros [= <-]. split; [|done]. split; cbn; [done|congruence|lia|constructor|done].
Qed.

Lemma enc_ok_rebuild e : enc_ok e → enc_ok (rebuildLocked e).
Proof.
  intros Ho. unfold rebuildLocked. case_match; [done|]. destruct (rs_New _ _) as [rs|] eqn:Er; [|done].
  destruct Ho. split; cbn; [done|by exists rs|done..].
Qed.

Lemma enc_ok_refresh now e : enc_ok e → enc_ok (refreshLocked now e).
Proof.
  intros Ho. assert (Hc : ∀ b t, enc_ok (with_coding b t e)) by (intros; destruct Ho; by split).
  unfold refreshLocked. repeat case_match; cbv zeta; try done; try apply enc_ok_rebuild; done.
Qed.

Lemma data_of_app l k : data_of (l ++ k) = data_of l ++ data_of k.
Proof. unfold data_of. by rewrite List.filter_app, map_app. Qed.

Lemma data_of_all l : Forall (λ f, is_data f = true) l → data_of l = map core l.
Proof.
  intros Hl. unfold data_of. f_equal. induction Hl as [|f l Hf _ IH]; cbn; [done|]. by rewrite Hf, IH.
Qed.

(** Changing the block number or setting another flag keeps a data frame one. *)
Lemma data_of_map (g : frame → frame) l :
  (∀ f, core (g f) = core f) → (∀ f, is_data (g f) = is_data f) →
  Forall (λ f, is_data f = true) l → data_of (map g l) = map core l.
Proof.
  intros Hc Hd Hl. rewrite data_of_all.
  - rewrite map_map. apply map_ext. done.
  - apply Forall_map. eapply Forall_impl; [exact Hl|]. intros f Hf. cbn. by rewrite Hd.
Qed.

Lemma is_data_pass f : is_data (set_flags (Z.lor (f_flags f) FlagPassSeq) f) = is_data f.
Proof.
  unfold is_data, HasFlag. cbn [f_flags set_flags]. do 2 f_equal.
  rewrite Z.land_lor_distr_l. change (Z.land FlagPassSeq FlagFECParity) with 0. by rewrite Z.lor_0_r.
Qed.

Lemma parity_no_data session bs k m sub l :
  data_of (imap (parity_frame session bs k m sub) l) = [].
Proof.
  unfold data_of. assert (Hn : ∀ (g : nat → shard → frame) l, (∀ i s, is_data (g i s) = false) →
    List.filter is_data (imap g l) = []).
  { clear. intros g l. revert g. induction l as [|x l IH]; intros g Hg; [done|].
    cbn. rewrite Hg. apply IH. intros i. apply Hg. }
  by rewrite Hn.
Qed.

Lemma emit_conserves e :
  1 ≤ DataShards (e_params e) → Z.of_nat (length (e_pending e)) = DataShards (e_params e) →
  (∃ rs, e_rs e = Some rs ∧ rs_New (DataShards (e_params e)) (e_rsParity e) = Some rs) →
  Forall (λ f, is_data f = true) (e_pending e) →
  ∃ out e', emitBlock e = Ok (out, e') ∧ data_of out = map core (e_pending e) ∧
    e_pending e' = [] ∧ e_params e' = e_params e ∧ e_rs e' = e_rs e ∧ e_rsParity e' = e_rsParity e.
Proof.
  intros Hk Hlen (rs & Ers & Enew) Hd. destruct (rs_new_valid _ _ _ Enew) as [_ Hp].
  unfold emitBlock. cbn [e_params e_rsParity e_pending e_rs with_pending next_block].
  rewrite (proj2 (Z.ltb_ge _ _)) by lia. rewrite Ers.
  assert (Hs : data_of (map (set_block (e_block (next_block e))) (e_pending e)) = map core (e_pending e))
    by (by apply data_of_map).
  destruct (rs_Encode rs _) as [sh|]; eexists _, _; (split; [done|]).
  - rewrite data_of_app, Hs, parity_no_data, app_nil_r. done.
  - done.
Qed.

Lemma enc_ok_flushed e : enc_ok e → enc_ok (with_pending [] e).
Proof. intros [Hk Hr Hp Hd Hf]. split; cbn; [done|done|lia|constructor|done]. Qed.

Lemma enc_push_conserves now f e :
  enc_ok e → is_data f = true →
  ∃ out e', Encoder_Push now f e = Ok (out, e') ∧ enc_ok e' ∧
    data_of out ++ map core (e_pending e') = map core (e_pending e) ++ [core f].
Proof.
  intros Ho Hf. unfold Encoder_Push. destruct (Enabled (e_params e)) eqn:En; cbn [negb]; cycle 1.
  { eexists _, _. split; [done|]. split; [done|]. unfold markPassSeq.
    rewrite data_of_map, (eo_off _ Ho En); [done|done|apply is_data_pass|by constructor]. }
  pose proof (enc_ok_refresh now e Ho) as Ho'. destruct (refresh_fields now e) as (Ep & El & _).
  set (e1 := refreshLocked now e) in *. rewrite <-El. rewrite <-Ep in En. clearbody e1. clear Ho Ep El.
  assert (Hall : Forall (λ f, is_data f = true) (e_pending e1 ++ [f])).
  { apply Forall_app. split; [apply Ho'|by constructor]. }
  destruct (e_codingOn e1); cbn [negb]; cycle 1.
  { eexists _, _. split; [done|]. split; [by apply enc_ok_flushed|]. cbn [e_pending with_pending map].
    unfold markPassSeq. rewrite data_of_map, app_nil_r, map_app; [done|done|apply is_data_pass|done]. }
  set (e2 := match e_pending e1 with [] => with_blockStart now e1 | _ => e1 end).
  assert (F2 : e_pending e2 = e_pending e1 ∧ e_params e2 = e_params e1 ∧ e_rs e2 = e_rs e1 ∧
               e_rsParity e2 = e_rsParity e1) by (unfold e2; destruct (e_pending e1) eqn:?; done).
  destruct F2 as (F2 & F3 & F4 & F5). clearbody e2.
  cbn [e_pending with_pending e_params]. rewrite F2, F3.
  destruct Ho' as [Hk Hr Hp Hd Hoff]. rewrite length_app. cbn [length].
  destruct (Z.ltb_spec (Z.of_nat (length (e_pending e1) + 1)) (DataShards (e_params e1))).
  { eexists _, _. split; [done|]. split; [|cbn; by rewrite map_app].
    split; cbn; rewrite ?F3, ?F4, ?F5; try done; [rewrite length_app; cbn; lia|congruence]. }
  destruct (emit_conserves (with_pending (e_pending e1 ++ [f]) e2)) as (out & e' & -> & E1 & E2 & E3 & E4 & E5);
    cbn [e_params e_pending with_pending e_rs e_rsParity] in *;
    rewrite ?F3, ?F4, ?F5, ?length_app; cbn [length]; [done|lia|by apply Hr|done|].
  eexists _, _. split; [done|]. rewrite E1, E2, map_app, app_nil_r. split; [|done].
  rewrite ?F3, ?F4, ?F5 in *. split; rewrite ?E2, ?E3, ?E4, ?E5; [done|done|cbn; lia|constructor|done].
Qed.

Lemma enc_tick_conserves now e :
  enc_ok e → enc_ok (Encoder_Tick now e).2 ∧
  data_of (Encoder_Tick now e).1 ++ map core (e_pending (Encoder_Tick now e).2) = map core (e_pending e).
Proof.
  intros Ho. unfold Encoder_Tick. destruct (Enabled (e_params e)); cbn [negb]; [|done].
  pose proof (enc_ok_refresh now e Ho) as Ho'. destruct (refresh_fields now e) as (_ & El & _).
  set (e1 := refreshLocked now e) in *. rewrite <-El. clearbody e1.
  pose proof (enc_ok_flushed e1 Ho') as Hf. pose proof (eo_data _ Ho') as Hd.
  destruct (e_codingOn e1); cbn [negb fst snd]; [|split; [done|cbn]; by rewrite data_of_all, app_nil_r].
  case_bool_decide; [done|]. case_match; [done|]. cbn [fst snd].
  split; [destruct Hf; by split|]. cbn. rewrite app_nil_r. by apply data_of_map.
Qed.

Lemma enc_step_conserves o e :
  enc_ok e → Forall (λ f, is_data f = true) (enc_pushed [o]) →
  ∃ out e', enc_step o e = Ok (out, e') ∧ enc_ok e' ∧
    data_of out ++ map core (e_pending e') = map core (e_pending e) ++ map core (enc_pushed [o]).
Proof.
  intros Ho Hd. destruct o as [now f|now|now rate]; cbn [enc_step enc_pushed flat_map app] in *.
  - apply Forall_cons_1 in Hd as [Hf _]. by apply enc_push_conserves.
  - destruct (enc_tick_conserves now e Ho) as [H1 H2]. destruct (Encoder_Tick now e) as [out e'].
    eexists _, _. cbn. rewrite app_nil_r. done.
  - eexists _, _. split; [done|]. cbn. rewrite app_nil_r. unfold SetLossRate. cbv zeta.
    match goal with |- context [with_lossRate ?r e] => set (e1 := with_lossRate r e) end.
    assert (Ho1 : enc_ok e1) by (destruct Ho; by split).
    split; [by apply enc_ok_refresh|]. by destruct (refresh_fields now e1) as (_ & -> & _).
Qed.

Lemma enc_run_conserves ops e :
  enc_ok e → Forall (λ f, is_data f = true) (enc_pushed ops) →
  ∃ out e', enc_run ops e = Ok (out, e') ∧ enc_ok e' ∧
    data_of out ++ map core (e_pending e') = map core (e_pending e) ++ map core (enc_pushed ops).
Proof.
  revert e. induction ops as [|o ops IH]; intros e Ho Hd.
  { exists [], e. cbn. by rewrite app_nil_r. }
  assert (Es : enc_pushed (o :: ops) = enc_pushed [o] ++ enc_pushed ops)
    by (unfold enc_pushed; cbn; by rewrite app_nil_r).
  rewrite Es in *. apply Forall_app in Hd as [Hd1 Hd2].
  destruct (enc_step_conserves o e Ho Hd1) as (out & e' & E & Ho' & Hc).
  destruct (IH e' Ho' Hd2) as (out' & e'' & E' & Ho'' & Hc').
  cbn [enc_run]. rewrite E. cbn [res_bind snd fst]. rewrite E'. cbn [res_bind snd fst].
  eexists _, _. split; [done|]. split; [done|].
  rewrite data_of_app, <-app_assoc, Hc', app_assoc, Hc, map_app. by rewrite app_assoc.
Qed.

(** C17 — The encoder loses, duplicates and reorders nothing. For every sequence
    of pushes, ticks and loss updates, no call panics, the data frames handed
    out so far followed by the ones still pending are exactly the frames
    pushed, in order (parity frames, block numbers and the pass-through flag
    aside), and fewer than a block of them are pending. *)
Theorem encoder_conserves p e ops :
  NewEncoder p = Ok e → Forall (λ f, is_data f = true) (enc_pushed ops) →
  ∃ out e', enc_run ops e = Ok (out, e') ∧
    data_of out ++ map core (e_pending e') = map core (enc_pushed ops) ∧
    Z.of_nat (length (e_pending e')) < DataShards (e_params e').
Proof.
  intros Hn Hd. destruct (enc_ok_new p e Hn) as [Ho Ep].
  destruct (enc_run_conserves ops e Ho Hd) as (out & e' & E & Ho' & Hc).
  exists out, e'. rewrite Ep in Hc. split_and!; [done|done|apply Ho'].
Qed.

Definition op_time (o : enc_op) : time :=
  match o with OpPush now _ => now | OpTick now => now | OpLoss now _ => now end.

Lemma refresh_on now e a :
  Adaptive (e_params e) = Some a → CrossPath (e_params e) = false → e_codingOn e = true →
  time_sub now (e_codingSince e) < Hold a →
  e_codingOn (refreshLocked now e) = true ∧ e_codingSince (refreshLocked now e) = e_codingSince e.
Proof.
  intros Ha Hc Hon Ht. unfold refreshLocked. rewrite Ha, Hc, Hon. cbn [negb].
  rewrite (proj2 (Z.leb_gt _ _)), andb_false_r, Hon by done.
  destruct (rebuild_fields e) as (_ & _ & -> & -> & _). done.
Qed.

(** The fields the code / pass-through decision depends on. *)
Definition coding_fields (e : Encoder) : Params * bool * time := (e_params e, e_codingOn e, e_codingSince e).

Lemma emit_coding e out e' : emitBlock e = Ok (out, e') → coding_fields e' = coding_fields e.
Proof.
  unfold emitBlock. cbv zeta. case_match; [done|]. cbn [e_rs with_pending next_block].
  destruct (e_rs e); [|done]. destruct (rs_Encode _ _); by intros [= <- <-].
Qed.

(** A call changes them only by the refresh it makes. *)
Lemma enc_step_coding o e out e' :
  enc_step o e = Ok (out, e') →
  ∃ e1, (e1 = e ∨ e1 = refreshLocked (op_time o) e ∨ ∃ r, e1 = refreshLocked (op_time o) (with_lossRate r e)) ∧
    coding_fields e' = coding_fields e1.
Proof.
  destruct o as [now f|now|now rate]; cbn [enc_step op_time].
  - unfold Encoder_Push. destruct (Enabled (e_params e)); cbn [negb]; [|intros [= _ <-]; exists e; auto].
    intros E. exists (refreshLocked now e). split; [auto|]. destruct (e_codingOn (refreshLocked now e)) eqn:Ec;
      cbn [negb] in E; [|by simplify_eq].
    match type of E with context [with_pending _ ?x] => set (e2 := x) in E end.
    assert (E2 : coding_fields e2 = coding_fields (refreshLocked now e))
      by (unfold e2; destruct (e_pending (refreshLocked now e)); done).
    clearbody e2. destruct (_ <? _) in E; [injection E as _ <-; by rewrite <-E2|].
    apply emit_coding in E. by rewrite E, <-E2.
  - intros [= E]. unfold Encoder_Tick in E.
    destruct (Enabled (e_params e)); cbn [negb] in E; [|simplify_eq; exists e'; auto].
    exists (refreshLocked now e). split; [auto|].
    destruct (e_codingOn (refreshLocked now e)); cbn [negb] in E; [|by simplify_eq].
    case_bool_decide; [by simplify_eq|]. case_match; by simplify_eq.
  - intros [= <- <-]. unfold SetLossRate. cbv zeta. eexists. split; [right; right; by eexists|done].
Qed.

(** The parameters are those of the construction for good. *)
Lemma enc_step_params o e out e' : enc_step o e = Ok (out, e') → e_params e' = e_params e.
Proof.
  intros (e1 & H1 & [= -> _ _])%enc_step_coding.
  destruct H1 as [->|[->|[r ->]]]; [done|..]; (etrans; [apply refresh_fields|done]).
Qed.

Lemma hold_run ops e a out e' :
  Adaptive (e_params e) = Some a → CrossPath (e_params e) = false → e_codingOn e = true →
  Forall (λ o, time_sub (op_time o) (e_codingSince e) < Hold a) ops →
  enc_run ops e = Ok (out, e') → e_codingOn e' = true.
Proof.
  revert e out. induction ops as [|o ops IH]; intros e out Ha Hc Hon Ht E; [by cbn in E; simplify_eq|].
  apply Forall_cons_1 in Ht as [Ht Hts]. cbn [enc_run] in E.
  destruct (enc_step o e) as [[o1 e1]| |] eqn:E1; cbn [res_bind fst snd] in E; [|done..].
  destruct (enc_run ops e1) as [[o2 e2]| |] eqn:E2; cbn [res_bind fst snd] in E; [|done..].
  injection E as _ <-.
  assert (K : e_params e1 = e_params e ∧ e_codingOn e1 = true ∧ e_codingSince e1 = e_codingSince e).
  { destruct (enc_step_coding o e o1 e1 E1) as (e0 & Hor & Hf). unfold coding_fields in Hf.
    injection Hf as -> -> ->. destruct Hor as [->|[->|[r ->]]]; [done| |].
    - destruct (refresh_on (op_time o) e a) as [-> ->]; try done.
      by destruct (refresh_fields (op_time o) e) as (-> & _).
    - destruct (refresh_on (op_time o) (with_lossRate r e) a) as [-> ->]; try done.
      by destruct (refresh_fields (op_time o) (with_lossRate r e)) as (-> & _). }
  destruct K as (K1 & K2 & K3). eapply (IH e1); [by rewrite K1|by rewrite K1|done|by rewrite K3|done].
Qed.

(** Anti-flap of adaptive FEC. In adaptive mode, a loss report at [t0] that
    reaches the on-threshold turns coding on, and it stays on through every
    later push, tick and loss report, however low the loss, until [Hold] has
    passed since [t0]. *)
Theorem adaptive_hold e a t0 rate ops out e' :
  Adaptive (e_params e) = Some a → CrossPath (e_params e) = false → e_codingOn e = false →
  (f0 <=.? rate) = true → (rate <=.? f1) = true → (OnLossPct a <=.? (rate ⊠ of_Z 100)) = true →
  Forall (λ o, time_sub (op_time o) t0 < Hold a) ops →
  enc_run (OpLoss t0 rate :: ops) e = Ok (out, e') → e_codingOn e' = true.
Proof.
  intros Ha Hc Hoff H0 H1 Hon Ht E. cbn [enc_run enc_step res_bind fst snd] in E.
  assert (C0 : (rate <.? f0) = false ∧ (f1 <.? rate) = false).
  { clear - H0 H1. unfold fleb, f0, f1 in *. destruct rate as [z|[]|]; try done.
    cbn [fltb feqb] in *. split; apply Z.ltb_ge; lia. }
  destruct C0 as [C0 C1].
  set (e1 := SetLossRate t0 rate e) in *.
  assert (K : e_params e1 = e_params e ∧ e_codingOn e1 = true ∧ e_codingSince e1 = t0).
  { unfold e1, SetLossRate. rewrite C0, C1.
    destruct (refresh_fields t0 (with_lossRate rate e)) as (-> & _).
    unfold refreshLocked. cbn [e_params with_lossRate e_lossRate e_codingOn]. rewrite Ha, Hc, Hoff. cbn [negb].
    rewrite Hon. cbn [e_codingOn with_coding].
    by destruct (rebuild_fields (with_coding true t0 (with_lossRate rate e))) as (_ & _ & -> & -> & _). }
  clearbody e1. destruct K as (K1 & K2 & K3).
  destruct (enc_run ops e1) as [[o2 e2]| |] eqn:E2; cbn [res_bind fst snd] in E; [|done..].
  injection E as _ <-. eapply (hold_run ops e1 a); [by rewrite K1|by rewrite K1|done|by rewrite K3|done].
Qed.
End encoder.

(** ** Concrete runs, with the single-parity code *)

Definition xor_params (a : option AdaptiveParams) : Params := mkParams 3 1 (8 * millisecond) a false 0.

Definition data_frame (seq : Z) (payload : list byte) : frame := new_frame 0 7 seq 0 payload.

Definition default_adaptive : AdaptiveParams :=
  mkAdaptive (of_dec 5 10) (of_dec 2 10) (30 * second) (of_Z 20) (of_dec 12 10).

(** The encoder [NewEncoder] returns for [xor_params a]. *)
Definition xor_encoder (a : option AdaptiveParams) : Encoder :=
  mkEncoder (xor_params a) (Some 3) 0 [] 0 f0 (match a with None => true | Some _ => false end) 0 1 0.

Lemma parity_bounds_witness :
  let e := xor_encoder (Some default_adaptive) in
  let p := parityForLoss e (of_dec 15 100) in
  1 ≤ p ∧ 3 + p ≤ 256 ∧ (CrossPath (e_params e) = false → p ≤ ParityShards (e_params e)) ∧
  (CrossPath (e_params e) = true → 3 + CrossPathMinParity (e_params e) ≤ 256 →
   CrossPathMinParity (e_params e) ≤ p).
Proof. apply (parity_bounds (xor_encoder (Some default_adaptive))); cbn; lia. Defined.

Definition sample_ops : list enc_op :=
  [OpPush 1 (data_frame 1 [x01]); OpPush 2 (data_frame 2 [x02; x03]); OpTick 3;
   OpPush 4 (data_frame 3 []); OpPush 5 (data_frame 4 [xff])].

Lemma encoder_conserves_witness :
  ∃ out e', enc_run sample_ops (xor_encoder None) = Ok (out, e') ∧
    data_of out ++ map core (e_pending e') = map core (enc_pushed sample_ops) ∧
    Z.of_nat (length (e_pending e')) < DataShards (e_params e').
Proof.
  apply (encoder_conserves (xor_params None)); [reflexivity|].
  repeat (constructor; [reflexivity|]). constructor.
Defined.

Lemma adaptive_hold_witness :
  ∃ out e', enc_run (OpLoss second f1 :: [OpLoss (2 * second) f0; OpPush (20 * second) (data_frame 1 [x01])])
      (xor_encoder (Some default_adaptive)) = Ok (out, e') ∧ e_codingOn e' = true.
Proof.
  assert (Hok : match enc_run (OpLoss second f1 :: [OpLoss (2 * second) f0; OpPush (20 * second) (data_frame 1 [x01])])
      (xor_encoder (Some default_adaptive)) with Ok _ => true | _ => false end = true)
    by (vm_compute; reflexivity).
  destruct (enc_run _ _) as [[out e']| |] eqn:E; [|discriminate Hok..].
  exists out, e'. split; [reflexivity|].
  eapply (adaptive_hold (xor_encoder (Some default_adaptive)) default_adaptive second f1
    [OpLoss (2 * second) f0; OpPush (20 * second) (data_frame 1 [x01])]);
    [reflexivity|reflexivity|reflexivity|vm_compute; reflexivity..| |exact E].
  constructor; [vm_compute; reflexivity|]. constructor; [vm_compute; reflexivity|]. constructor.
Defined.
