(* ===== verification/FecDecoder.v ===== *)
(** * The FEC decoder (internal/fec/fec.go)

    Reassembly and reconstruction of blocks, the guard against blocks already
    delivered, in-band loss statistics and the raw per-path loss counters of
    pass-through frames. A call reads the clock once. *)

From S2P Require Import Prelude Float64 Frame FecCodec.

#[local] Open Scope Z_scope.

(** [streamKey] = (session, path) and [blockKey] = (session, path, block). *)
Definition streamKey : Type := Z * string.
Definition blockKey : Type := Z * string * Z.
Definition stream_of (key : blockKey) : streamKey := key.1.

Record blockState := mkBlock {
  b_k : Z;
  b_p : Z;
  b_seqs : list Z;
  b_lens : list Z;
  b_maxLen : Z;
  b_data : gmap Z (list byte);
  b_parity : gmap Z shard;
  b_deadline : time;
  b_flushed : bool;
}.

(** [streamStat]: lost and received, uint64. *)
Record streamStat := mkStat { st_lost : Z; st_received : Z }.

(** [rawPathStat], uint64 counters. *)
Record rawPathStat := mkRaw {
  r_next : Z;
  r_received : Z;
  r_lost : Z;
  r_pending : gset Z;
  r_gapSince : time;
}.

Definition pathGapWindow : duration := 40 * millisecond.

(** [sortUint32]: insertion sort; the sorted prefix is kept reversed, so an
    element moves left past the larger ones. *)
Fixpoint insert_back (x : Z) (rev_prefix : list Z) : list Z :=
  match rev_prefix with
  | [] => [x]
  | y :: l => if x <? y then y :: insert_back x l else x :: y :: l
  end.
Definition sortUint32 (s : list Z) : list Z := rev (foldl (λ l x, insert_back x l) [] s).

Section decoder.
  Context `{ReedSolomon}.

Record Decoder := mkDecoder {
  dec_params : Params;
  blocks : gmap blockKey blockState;
  rsByParity : gmap Z RS;
  lastFlushed : gmap streamKey Z;
  dec_stats : gmap streamKey streamStat;
  recovered : Z;                 (* uint64 *)
  pathSeq : gmap streamKey rawPathStat;
}.

Definition with_blocks (m : gmap blockKey blockState) (d : Decoder) : Decoder :=
  mkDecoder (dec_params d) m (rsByParity d) (lastFlushed d) (dec_stats d) (recovered d) (pathSeq d).
Definition with_cache (m : gmap Z RS) (d : Decoder) : Decoder :=
  mkDecoder (dec_params d) (blocks d) m (lastFlushed d) (dec_stats d) (recovered d) (pathSeq d).
Definition with_flushed (m : gmap streamKey Z) (d : Decoder) : Decoder :=
  mkDecoder (dec_params d) (blocks d) (rsByParity d) m (dec_stats d) (recovered d) (pathSeq d).
Definition with_stats (m : gmap streamKey streamStat) (d : Decoder) : Decoder :=
  mkDecoder (dec_params d) (blocks d) (rsByParity d) (lastFlushed d) m (recovered d) (pathSeq d).
Definition with_recovered (n : Z) (d : Decoder) : Decoder :=
  mkDecoder (dec_params d) (blocks d) (rsByParity d) (lastFlushed d) (dec_stats d) n (pathSeq d).
Definition with_pathSeq (m : gmap streamKey rawPathStat) (d : Decoder) : Decoder :=
  mkDecoder (dec_params d) (blocks d) (rsByParity d) (lastFlushed d) (dec_stats d) (recovered d) m.

(** [NewDecoder]. *)
Definition NewDecoder (p : Params) : Decoder := mkDecoder (fill_params p) ∅ ∅ ∅ ∅ 0 ∅.

(** Zero values of the maps' elements. *)
Definition stat_at (sk : streamKey) (d : Decoder) : streamStat := default (mkStat 0 0) (dec_stats d !! sk).
Definition flushed_at (sk : streamKey) (d : Decoder) : Z := default 0 (lastFlushed d !! sk).
Definition raw_at (sk : streamKey) (m : gmap streamKey rawPathStat) : rawPathStat :=
  default (mkRaw 0 0 0 ∅ 0) (m !! sk).

(** [rsFor]. *)
Definition rsFor (k p : Z) (d : Decoder) : option RS * Decoder :=
  match rsByParity d !! p with
  | Some rs => (Some rs, d)
  | None =>
      match rs_New k p with
      | None => (None, d)
      | Some rs => (Some rs, with_cache (<[p := rs]> (rsByParity d)) d)
      end
  end.

(** ** Raw per-path loss *)

(** [drainPathPending]; every iteration removes a candidate, so their number is
    enough fuel. *)
Fixpoint drain_raw (fuel : nat) (ps : rawPathStat) : rawPathStat :=
  match fuel with
  | O => ps
  | S fuel =>
      if decide (r_next ps ∈ r_pending ps) then
        drain_raw fuel (mkRaw (u64 (r_next ps + 1)) (u64 (r_received ps + 1)) (r_lost ps)
          (r_pending ps ∖ {[r_next ps]}) (r_gapSince ps))
      else ps
  end.
Definition drainPathPending (ps : rawPathStat) : rawPathStat := drain_raw (size (r_pending ps)) ps.

Definition set_gap (t : time) (ps : rawPathStat) : rawPathStat :=
  mkRaw (r_next ps) (r_received ps) (r_lost ps) (r_pending ps) t.

(** The body of [observePathSeq] on the stream's counters; [None]: unchanged. *)
Definition observe_raw (now : time) (seq : Z) (ps : rawPathStat) : option rawPathStat :=
  if r_next ps =? 0 then
    Some (mkRaw (u64 (seq + 1)) (u64 (r_received ps + 1)) (r_lost ps) (r_pending ps) (r_gapSince ps))
  else if seq <? r_next ps then None
  else if seq =? r_next ps then
    let ps := drainPathPending (mkRaw (u64 (seq + 1)) (u64 (r_received ps + 1)) (r_lost ps)
                (r_pending ps) (r_gapSince ps)) in
    Some (if decide (r_pending ps = ∅) then set_gap 0 ps else ps)
  else
    let ps := mkRaw (r_next ps) (r_received ps) (r_lost ps) (r_pending ps ∪ {[seq]}) (r_gapSince ps) in
    Some (if is_zero (r_gapSince ps) then set_gap now ps else ps).

(** [observePathSeq]. *)
Definition observePathSeq (now : time) (sk : streamKey) (seq : Z) (d : Decoder) : Decoder :=
  match observe_raw now seq (raw_at sk (pathSeq d)) with
  | None => d
  | Some ps => with_pathSeq (<[sk := ps]> (pathSeq d)) d
  end.

(** The smallest of the candidates, from [^uint64(0)]. *)
Definition lowest (l : list Z) : Z := foldl (λ lo c, if c <? lo then c else lo) (2 ^ 64 - 1) l.

(** The body of the loop of [flushPathGaps]; the order in which the candidates
    are visited does not change their minimum. *)
Definition flush_raw (now : time) (ps : rawPathStat) : rawPathStat :=
  if (r_next ps =? 0) || is_zero (r_gapSince ps) then ps
  else if time_sub now (r_gapSince ps) <? pathGapWindow then ps
  else if decide (r_pending ps = ∅) then
    mkRaw (u64 (r_next ps + 1)) (r_received ps) (u64 (r_lost ps + 1)) (r_pending ps) 0
  else
    let lo := lowest (elements (r_pending ps)) in
    let ps := drainPathPending (mkRaw lo (r_received ps) (u64 (r_lost ps + u64 (lo - r_next ps)))
                (r_pending ps) (r_gapSince ps)) in
    set_gap (if decide (r_pending ps = ∅) then 0 else now) ps.

(** [flushPathGaps]: every stream independently. *)
Definition flushPathGaps (now : time) (d : Decoder) : Decoder :=
  with_pathSeq (flush_raw now <$> pathSeq d) d.

(** [TakePathStats]. *)
Definition TakePathStats (sk : streamKey) (d : Decoder) : Z * Z * Decoder :=
  let ps := raw_at sk (pathSeq d) in
  (r_lost ps, r_received ps,
   with_pathSeq (<[sk := mkRaw (r_next ps) 0 0 (r_pending ps) (r_gapSince ps)]> (pathSeq d)) d).

(** ** Blocks *)

(** The frames [flush] emits for the sequence numbers in order. *)
Definition emit_frames (session : Z) (data : gmap Z (list byte)) (seqs : list Z) : list frame :=
  omap (λ seq, payload ← data !! seq; Some (new_frame 0 session seq 0 payload)) seqs.

(** [flush], its update of [lastFlushed]. *)
Definition mark_flushed (key : blockKey) (d : Decoder) : Decoder :=
  if flushed_at (stream_of key) d <? key.2
  then with_flushed (<[stream_of key := key.2]> (lastFlushed d)) d else d.

(** [flush], its loss accounting. *)
Definition book_lost (key : blockKey) (st : blockState) (d : Decoder) : Decoder :=
  let nseq := Z.of_nat (length (b_seqs st)) in
  let ndata := Z.of_nat (size (b_data st)) in
  let s := stat_at (stream_of key) d in
  if (0 <? nseq) && (ndata <? nseq)
  then with_stats (<[stream_of key := mkStat (u64 (st_lost s + (nseq - ndata))) (st_received s)]> (dec_stats d)) d
  else d.

(** [flush]. *)
Definition flush `{!RangeOrder Z (list byte)} (key : blockKey) (st : blockState) (d : Decoder) :
    list frame * Decoder :=
  let d := book_lost key st (mark_flushed key d) in
  let seqs := match b_seqs st with [] => sortUint32 (map fst (range (b_data st))) | l => l end in
  (emit_frames key.1.1 (b_data st) seqs, with_blocks (delete key (blocks d)) d).

(** The four fixed fields of a parity sub-header. *)
Definition hdr_field (i : nat) (payload : list byte) : Z := be_get (slice (2 * i) (2 * i + 2) payload).

(** [addParity]; [None] is an error return, which leaves the block unchanged. *)
Definition addParity (now : time) (d : Decoder) (st : blockState) (payload : list byte) : option blockState :=
  if Z.of_nat (length payload) <? parityHdrFixed then None
  else
    let k := hdr_field 0 payload in
    let pidx := hdr_field 1 payload in
    let maxLen := hdr_field 2 payload in
    let p := hdr_field 3 payload in
    if Z.of_nat (length payload) <? parityHdrFixed + 4 * k + 2 * k + maxLen then None
    else
      let at_seq i := (8 + 4 * i)%nat in
      let at_len i := (8 + 4 * Z.to_nat k + 2 * i)%nat in
      let st :=
        if b_k st =? 0 then
          mkBlock k p
            (map (λ i, be_get (slice (at_seq i) (at_seq i + 4) payload)) (seq 0 (Z.to_nat k)))
            (map (λ i, be_get (slice (at_len i) (at_len i + 2) payload)) (seq 0 (Z.to_nat k)))
            maxLen (b_data st) (b_parity st)
            (if decide (b_data st = ∅ ∧ b_parity st = ∅) then now + BlockTimeout (dec_params d)
             else b_deadline st) (b_flushed st)
        else st in
      if negb (b_k st =? k) || negb (b_maxLen st =? maxLen) then None
      else
        let s := fit (Z.to_nat maxLen) (drop (8 + 6 * Z.to_nat k) payload) in
        Some (mkBlock (b_k st) (b_p st) (b_seqs st) (b_lens st) (b_maxLen st) (b_data st)
                (<[pidx := s]> (b_parity st)) (b_deadline st) (b_flushed st)).

(** The shard array of [reconstruct]: data shards held, then parity shards
    held, nil elsewhere. *)
Definition held_shards (st : blockState) : list (option shard) :=
  map (λ seq, fit (Z.to_nat (b_maxLen st)) <$> b_data st !! seq) (b_seqs st) ++
  map (λ i, b_parity st !! Z.of_nat i) (seq 0 (Z.to_nat (b_p st))).

(** The loop that stores the reconstructed payloads, on the shards up to their
    capacity: slicing beyond it panics. *)
Fixpoint fill_data (seqs lens : list Z) (shards : list shard) (data : gmap Z (list byte)) (n : Z) :
    res unit (gmap Z (list byte) * Z) :=
  match seqs, lens, shards with
  | seq :: seqs, l :: lens, s :: shards =>
      match data !! seq with
      | Some _ => fill_data seqs lens shards data n
      | None =>
          if Z.of_nat (length s) <? l then Panic
          else fill_data seqs lens shards (<[seq := take (Z.to_nat l) s]> data) (u64 (n + 1))
      end
  | [], _, _ => Ok (data, n)
  | _, _, _ => Panic
  end.

(** The shards of [Reconstruct], each up to its capacity. *)
Definition up_to_cap `{!ReedSolomon} (rs : RS) (held : list (option shard)) (shards : list shard) : list shard :=
  imap (λ i s, s ++ rs_spare rs held i) shards.

Definition set_data (m : gmap Z (list byte)) (st : blockState) : blockState :=
  mkBlock (b_k st) (b_p st) (b_seqs st) (b_lens st) (b_maxLen st) m (b_parity st) (b_deadline st) (b_flushed st).

(** [reconstruct]. *)
Definition reconstruct `{!RangeOrder Z (list byte)} (key : blockKey) (st : blockState) (d : Decoder) :
    res unit (list frame * Decoder) :=
  let '(rs, d) := rsFor (b_k st) (b_p st) d in
  match rs with
  | None => Ok ([], d)
  | Some rs =>
      match rs_Reconstruct rs (held_shards st) with
      | None => Ok ([], d)
      | Some shards =>
          let? r := fill_data (b_seqs st) (b_lens st) (up_to_cap rs (held_shards st) shards) (b_data st) (recovered d) in
          Ok (flush key (set_data r.1 st) (with_recovered r.2 d))
      end
  end.

(** [maybeDeliver]. *)
Definition maybeDeliver `{!RangeOrder Z (list byte)} (key : blockKey) (st : blockState) (d : Decoder) :
    res unit (list frame * Decoder) :=
  if b_k st =? 0 then Ok ([], d)
  else if Z.of_nat (size (b_data st)) + Z.of_nat (size (b_parity st)) <? b_k st then Ok ([], d)
  else if Z.of_nat (size (b_data st)) =? b_k st then Ok (flush key st d)
  else reconstruct key st d.

Definition new_block : blockState := mkBlock 0 0 [] [] 0 ∅ ∅ 0 false.

(** The block key of a frame: cross-path blocks span all WANs. *)
Definition key_of (path : string) (f : frame) (d : Decoder) : blockKey :=
  (f_session f, if CrossPath (dec_params d) then ""%string else path, f_block f).

(** The part of [Push] that handles a frame of the block [st]. *)
Definition push_block `{!RangeOrder Z (list byte)} (now : time) (key : blockKey) (st : blockState)
    (f : frame) (d : Decoder) : res unit (list frame * Decoder) :=
  if b_flushed st then Ok ([], d)
  else if HasFlag f FlagFECParity then
    match addParity now d st (f_payload f) with
    | None => Ok ([], d)
    | Some st => maybeDeliver key st (with_blocks (<[key := st]> (blocks d)) d)
    end
  else
    let fresh := decide (b_data st = ∅ ∧ b_parity st = ∅) in
    let deadline := if fresh then now + BlockTimeout (dec_params d) else b_deadline st in
    let st := mkBlock (b_k st) (b_p st) (b_seqs st) (b_lens st) (b_maxLen st) (b_data st) (b_parity st)
                deadline (b_flushed st) in
    match b_data st !! f_seq f with
    | Some _ => maybeDeliver key st (with_blocks (<[key := st]> (blocks d)) d)
    | None =>
        let st := set_data (<[f_seq f := f_payload f]> (b_data st)) st in
        let s := stat_at (stream_of key) d in
        let d := with_stats (<[stream_of key := mkStat (st_lost s) (u64 (st_received s + 1))]> (dec_stats d)) d in
        maybeDeliver key st (with_blocks (<[key := st]> (blocks d)) d)
    end.

(** [Push]. *)
Definition Decoder_Push `{!RangeOrder Z (list byte)} (now : time) (path : string) (f : frame) (d : Decoder) :
    res unit (list frame * Decoder) :=
  if HasFlag f FlagPassSeq && negb (HasFlag f FlagFECParity) then
    Ok ([f], observePathSeq now (f_session f, path) (f_block f) d)
  else if negb (Enabled (dec_params d)) then
    Ok (if HasFlag f FlagFECParity then [] else [f], d)
  else if negb (HasFlag f FlagFECParity) && (f_block f =? 0) then Ok ([f], d)
  else
    let key := key_of path f d in
    match blocks d !! key with
    | Some st => push_block now key st f d
    | None =>
        if key.2 <=? flushed_at (stream_of key) d then Ok ([], d)
        else push_block now key new_block f (with_blocks (<[key := new_block]> (blocks d)) d)
    end.

(** [Tick]: deletion of the visited entry does not disturb the range. *)
Definition Decoder_Tick `{!RangeOrder Z (list byte), !RangeOrder blockKey blockState}
    (now : time) (d : Decoder) : list frame * Decoder :=
  let d := flushPathGaps now d in
  if negb (Enabled (dec_params d)) then ([], d)
  else
    foldl (λ od kst,
             if b_flushed kst.2 || (now <? b_deadline kst.2) then od
             else let '(o, d) := flush kst.1 kst.2 od.2 in (od.1 ++ o, d))
      ([], d) (range (blocks d)).

(** [TakeStreamStats], [Stats]. *)
Definition TakeStreamStats (sk : streamKey) (d : Decoder) : Z * Z * Decoder :=
  let s := stat_at sk d in
  (st_lost s, st_received s, with_stats (<[sk := mkStat 0 0]> (dec_stats d)) d).

Definition Decoder_Stats (d : Decoder) : Z * Z :=
  (map_fold (λ _ s n, u64 (n + st_lost s)) 0 (dec_stats d), recovered d).

(** ** Blocks already delivered *)

(** No assembly buffer, and not newer than the last block flushed on its stream. *)
Definition closed_block (key : blockKey) (d : Decoder) : Prop :=
  blocks d !! key = None ∧ key.2 ≤ flushed_at (stream_of key) d.

(** [d'] has flushed at least what [d] has, and opened no block except [key]. *)
Record extends (open : option blockKey) (d d' : Decoder) : Prop := {
  ex_params : dec_params d' = dec_params d;
  ex_flushed : ∀ sk, flushed_at sk d ≤ flushed_at sk d';
  ex_blocks : ∀ key, blocks d !! key = None → open ≠ Some key → blocks d' !! key = None;
}.

Lemma extends_refl o d : extends o d d.
Proof. by split. Qed.

Lemma extends_trans o d1 d2 d3 : extends o d1 d2 → extends o d2 d3 → extends o d1 d3.
Proof.
  intros [P1 F1 B1] [P2 F2 B2]. split; [congruence| |auto]. intros sk. etrans; [apply F1|apply F2].
Qed.

Lemma extends_weaken o d d' : extends None d d' → extends o d d'.
Proof. intros [P F B]. split; auto. Qed.

Section ranges.
  Context `{!RangeOrder Z (list byte), !RangeOrder blockKey blockState}.

Lemma mark_flushed_extends key d : extends None d (mark_flushed key d).
Proof.
  unfold mark_flushed. destruct (Z.ltb_spec (flushed_at (stream_of key) d) key.2); [|apply extends_refl].
  split; [done| |done]. intros sk. unfold flushed_at in *. cbn.
  destruct (decide (stream_of key = sk)) as [<-|]; [rewrite lookup_insert_eq; cbn; lia|by rewrite lookup_insert_ne].
Qed.

Lemma book_lost_fields key st d :
  blocks (book_lost key st d) = blocks d ∧ lastFlushed (book_lost key st d) = lastFlushed d ∧
  dec_params (book_lost key st d) = dec_params d ∧ rsByParity (book_lost key st d) = rsByParity d.
Proof. unfold book_lost. by case_match. Qed.

Lemma mark_flushed_fields key d :
  blocks (mark_flushed key d) = blocks d ∧ rsByParity (mark_flushed key d) = rsByParity d.
Proof. unfold mark_flushed. by case_match. Qed.

Lemma flush_extends key st d : extends None d (flush key st d).2.
Proof.
  eapply extends_trans; [apply (mark_flushed_extends key)|]. unfold flush. cbn [snd].
  destruct (book_lost_fields key st (mark_flushed key d)) as (E1 & E2 & E3 & _).
  split; [done|intros sk; unfold flushed_at; cbn; by rewrite E2|].
  intros k Hk _. cbn. apply lookup_delete_None. right. by rewrite E1.
Qed.

Lemma flush_closes key st d : closed_block key (flush key st d).2.
Proof.
  split; [cbn; apply lookup_delete_eq|]. unfold flushed_at. cbn.
  destruct (book_lost_fields key st (mark_flushed key d)) as (_ & -> & _).
  fold (flushed_at (stream_of key) (mark_flushed key d)). unfold mark_flushed.
  destruct (Z.ltb_spec (flushed_at (stream_of key) d) key.2); [|done].
  unfold flushed_at. cbn. rewrite lookup_insert_eq. cbn. lia.
Qed.

Lemma reconstruct_extends key st d out d' : reconstruct key st d = Ok (out, d') → extends None d d'.
Proof.
  unfold reconstruct, rsFor.
  set (x := match rsByParity d !! b_p st with Some _ => _ | None => _ end).
  assert (Hx : extends None d x.2) by (unfold x; repeat case_match; by split).
  destruct x as [rs d1]; cbn [snd] in Hx. destruct rs as [rs|]; [|by intros [= _ <-]].
  destruct (rs_Reconstruct rs _) as [sh|]; [|by intros [= _ <-]].
  destruct (fill_data _ _ _ _ _) as [r| |]; cbn [res_bind]; [|done..].
  pose proof (flush_extends key (set_data r.1 st) (with_recovered r.2 d1)) as Hf.
  destruct (flush _ _ _) as [o d2]. intros [= <- <-]. eapply extends_trans; [exact Hx|].
  eapply extends_trans; [|exact Hf]. by split.
Qed.

Lemma maybeDeliver_extends key st d out d' : maybeDeliver key st d = Ok (out, d') → extends None d d'.
Proof.
  unfold maybeDeliver. repeat case_match; [by intros [= _ <-]..| |apply reconstruct_extends].
  pose proof (flush_extends key st d) as Hf. destruct (flush _ _ _) as [o d2]. by intros [= <- <-].
Qed.

Lemma with_block_extends key st d : extends (Some key) d (with_blocks (<[key := st]> (blocks d)) d).
Proof.
  split; [done|done|]. intros k Hk Hne. cbn. rewrite lookup_insert_ne; [done|congruence].
Qed.

Lemma push_block_extends now key st f d out d' :
  push_block now key st f d = Ok (out, d') → extends (Some key) d d'.
Proof.
  assert (Hm : ∀ st d1 o d2, extends (Some key) d d1 →
    maybeDeliver key st (with_blocks (<[key := st]> (blocks d1)) d1) = Ok (o, d2) → extends (Some key) d d2).
  { intros st1 d1 o d2 He E. eapply extends_trans; [exact He|].
    eapply extends_trans; [apply with_block_extends|]. by eapply extends_weaken, maybeDeliver_extends. }
  unfold push_block. destruct (b_flushed st); [intros [= _ <-]; apply extends_refl|].
  destruct (HasFlag f FlagFECParity).
  - destruct (addParity _ _ _ _) as [st'|]; [|intros [= _ <-]; apply extends_refl].
    apply Hm, extends_refl.
  - cbv zeta. cbn [b_data]. destruct (b_data st !! f_seq f); apply Hm; [apply extends_refl|by split].
Qed.

(** A push opens at most the block of its frame, and only when it is not closed. *)
Lemma push_extends now path f d out d' :
  Decoder_Push now path f d = Ok (out, d') →
  extends (Some (key_of path f d)) d d' ∧ (closed_block (key_of path f d) d → extends None d d').
Proof.
  unfold Decoder_Push. destruct (_ && _).
  { intros [= _ <-]. unfold observePathSeq. case_match; (split; [|intros _]); by split. }
  destruct (negb _); [intros [= _ <-]; split; [|intros _]; apply extends_refl|].
  destruct (_ && _); [intros [= _ <-]; split; [|intros _]; apply extends_refl|].
  cbv zeta. destruct (blocks d !! key_of path f d) as [st|] eqn:Eb.
  - intros E%push_block_extends. split; [done|]. intros [Hb _]. congruence.
  - destruct (Z.leb_spec (key_of path f d).2 (flushed_at (stream_of (key_of path f d)) d)).
    { intros [= _ <-]; split; [|intros _]; apply extends_refl. }
    intros E%push_block_extends. split; [|intros [_ ?]; lia].
    eapply extends_trans; [apply with_block_extends|exact E].
Qed.

Lemma tick_extends now d : extends None d (Decoder_Tick now d).2.
Proof.
  unfold Decoder_Tick. assert (H0 : extends None d (flushPathGaps now d)) by (by split).
  destruct (negb _); [done|]. generalize (range (blocks (flushPathGaps now d))). intros l.
  assert (Hl : ∀ l od, extends None d od.2 →
    extends None d (foldl (λ (od : list frame * Decoder) (kst : blockKey * blockState),
      if b_flushed kst.2 || (now <? b_deadline kst.2) then od
      else let '(o, d) := flush kst.1 kst.2 od.2 in (od.1 ++ o, d)) od l).2); [|by apply Hl].
  clear. intros l. induction l as [|[k st] l IH]; intros [o d1] Ho; [done|]. cbn [foldl fst snd].
  destruct (b_flushed st || _); [by apply IH|].
  pose proof (flush_extends k st d1) as Hf. destruct (flush k st d1) as [o2 d2]. apply IH.
  by eapply extends_trans.
Qed.

(** The parameters are those of the construction for good. *)
Lemma push_params now path f d out d' : Decoder_Push now path f d = Ok (out, d') → dec_params d' = dec_params d.
Proof. intros [[E _ _] _]%push_extends. exact E. Qed.

Lemma tick_params now d : dec_params (Decoder_Tick now d).2 = dec_params d.
Proof. apply tick_extends. Qed.

Inductive dec_op : Type :=
| DPush (now : time) (path : string) (f : frame)
| DTick (now : time)
| DStreamStats (sk : streamKey)
| DPathStats (sk : streamKey).

Definition dec_step (o : dec_op) (d : Decoder) : res unit (list frame * Decoder) :=
  match o with
  | DPush now path f => Decoder_Push now path f d
  | DTick now => Ok (Decoder_Tick now d)
  | DStreamStats sk => Ok ([], (TakeStreamStats sk d).2)
  | DPathStats sk => Ok ([], (TakePathStats sk d).2)
  end.

Fixpoint dec_run (ops : list dec_op) (d : Decoder) : res unit (list frame * Decoder) :=
  match ops with
  | [] => Ok ([], d)
  | o :: ops =>
      let? r := dec_step o d in
      let? r' := dec_run ops r.2 in
      Ok (r.1 ++ r'.1, r'.2)
  end.

Lemma closed_step o d out d' key :
  dec_step o d = Ok (out, d') → closed_block key d → closed_block key d' ∧ dec_params d' = dec_params d.
Proof.
  intros E [Hb Hf].
  assert (Hx : extends None d d' ∨ ∃ k, k ≠ key ∧ extends (Some k) d d').
  { destruct o as [now path f|now|sk|sk]; cbn in E.
    - destruct (push_extends now path f d out d' E) as [H1 H2].
      destruct (decide (key_of path f d = key)) as [<-|]; [left; by apply H2|right; by eexists].
    - left. pose proof (tick_extends now d) as Ht. destruct (Decoder_Tick now d). by simplify_eq.
    - left. injection E as _ <-. by split.
    - left. injection E as _ <-. by split. }
  destruct Hx as [[P F B]|(k & Hk & [P F B])]; (split; [|done]); split.
  - by apply B.
  - etrans; [exact Hf|apply F].
  - apply B; [done|congruence].
  - etrans; [exact Hf|apply F].
Qed.

Lemma closed_run ops d out d' key :
  dec_run ops d = Ok (out, d') → closed_block key d → closed_block key d' ∧ dec_params d' = dec_params d.
Proof.
  revert d out. induction ops as [|o ops IH]; intros d out E Hc; [by cbn in E; simplify_eq|].
  cbn [dec_run] in E. destruct (dec_step o d) as [[o1 d1]| |] eqn:E1; cbn [res_bind fst snd] in E; [|done..].
  destruct (dec_run ops d1) as [[o2 d2]| |] eqn:E2; cbn [res_bind fst snd] in E; [|done..].
  injection E as _ <-. destruct (closed_step o d o1 d1 key E1 Hc) as [H1 P1].
  destruct (IH d1 o2 E2 H1) as [H2 P2]. split; [done|congruence].
Qed.

(** A coded frame: neither pass-through nor without a block number. *)
Definition coded (f : frame) : Prop :=
  HasFlag f FlagFECParity = true ∨ HasFlag f FlagPassSeq = false ∧ f_block f ≠ 0.

Lemma closed_push now path f d :
  Enabled (dec_params d) = true → coded f → closed_block (key_of path f d) d →
  Decoder_Push now path f d = Ok ([], d).
Proof.
  intros He Hf [Hb Hc]. unfold Decoder_Push. rewrite He, Hb. cbn [negb].
  rewrite (proj2 (Z.leb_le _ _)) by done.
  destruct Hf as [->|[-> Hz]]; [by rewrite andb_false_r|]. cbn [andb].
  by rewrite (proj2 (Z.eqb_neq _ _)), andb_false_r.
Qed.

(** A block is delivered at most once, and closes the older ones. After a
    block was flushed, whatever happens next, no frame of it (late data,
    duplicates, parity) delivers anything or opens a new buffer; and the same
    holds of every earlier block of the stream that was not under assembly at
    that moment, even if none of its frames was ever seen. *)
Theorem flushed_block_silent key st d ops out d' bs now path f :
  let d1 := (flush key st d).2 in
  bs ≤ key.2 → blocks d1 !! (key.1, bs) = None →
  dec_run ops d1 = Ok (out, d') →
  Enabled (dec_params d) = true → coded f → key_of path f d' = (key.1, bs) →
  Decoder_Push now path f d' = Ok ([], d').
Proof.
  intros d1 Hbs Hb Hrun He Hf Hk.
  assert (Hc : closed_block (key.1, bs) d1).
  { split; [done|]. pose proof (flush_closes key st d) as [_ Hle]. fold d1 in Hle.
    change (bs ≤ flushed_at (stream_of key) d1). lia. }
  destruct (closed_run ops d1 out d' (key.1, bs) Hrun Hc) as [Hc' Hp].
  apply closed_push; [|done|by rewrite Hk]. rewrite Hp. unfold d1.
  by rewrite (ex_params _ _ _ (flush_extends key st d)).
Qed.
End ranges.
End decoder.

(** ** Raw loss counters balance *)

(** The calls that touch the counters of one stream; taking them adds to a total. *)
Inductive raw_op : Type := RObserve (now : time) (seq : Z) | RFlush (now : time) | RTake.

Definition raw_step (o : raw_op) (x : rawPathStat * Z) : rawPathStat * Z :=
  match o with
  | RObserve now seq => (default x.1 (observe_raw now seq x.1), x.2)
  | RFlush now => (flush_raw now x.1, x.2)
  | RTake => (mkRaw (r_next x.1) 0 0 (r_pending x.1) (r_gapSince x.1),
              x.2 + r_lost x.1 + r_received x.1)
  end.

(** Candidates lie above the expected counter; everything below it, from the
    first counter [s0] on, is booked exactly once. *)
Record raw_ok (s0 : Z) (x : rawPathStat * Z) : Prop := {
  ro_next : 1 ≤ r_next x.1 ≤ 2 ^ 32;
  ro_first : 0 ≤ s0 < r_next x.1;
  ro_pending : ∀ c, c ∈ r_pending x.1 → r_next x.1 < c < 2 ^ 32;
  ro_pos : 0 ≤ r_lost x.1 ∧ 0 ≤ r_received x.1 ∧ 0 ≤ x.2;
  ro_sum : x.2 + r_lost x.1 + r_received x.1 = r_next x.1 - s0;
}.

(** The gap timer runs only while candidates wait. *)
Definition gap_ok (ps : rawPathStat) : Prop := r_pending ps = ∅ → r_gapSince ps = 0.

(** The same while the expected counter may itself be a candidate. *)
Record raw_mid (s0 : Z) (ps : rawPathStat) (taken : Z) : Prop := {
  rm_next : 1 ≤ r_next ps ≤ 2 ^ 32;
  rm_first : 0 ≤ s0 ≤ r_next ps;
  rm_pending : ∀ c, c ∈ r_pending ps → r_next ps ≤ c < 2 ^ 32;
  rm_pos : 0 ≤ r_lost ps ∧ 0 ≤ r_received ps ∧ 0 ≤ taken;
  rm_sum : taken + r_lost ps + r_received ps = r_next ps - s0;
}.

Lemma drain_raw_mid s0 taken fuel ps :
  raw_mid s0 ps taken → (size (r_pending ps) ≤ fuel)%nat →
  raw_mid s0 (drain_raw fuel ps) taken ∧ (r_next (drain_raw fuel ps) ∉ r_pending (drain_raw fuel ps)) ∧
  r_next ps ≤ r_next (drain_raw fuel ps) ∧
  (r_next ps ∈ r_pending ps → r_next ps < r_next (drain_raw fuel ps)).
Proof.
  revert ps. induction fuel as [|fuel IH]; intros ps Hm Hs.
  { assert (Hn : r_next ps ∉ r_pending ps).
    { assert (E : r_pending ps ≡ ∅) by (apply size_empty_inv; lia). set_solver. }
    cbn. split_and!; [done|done|lia|done]. }
  cbn [drain_raw]. destruct (decide (r_next ps ∈ r_pending ps)) as [Hin|Hn].
  - destruct Hm as [M1 M2 M3 M4 M5]. pose proof (M3 _ Hin) as Hlt.
    rewrite !u64_small by (unfold is_u64; lia).
    destruct (IH (mkRaw (r_next ps + 1) (r_received ps + 1) (r_lost ps) (r_pending ps ∖ {[r_next ps]}) (r_gapSince ps)))
      as (H1 & H2 & H3 & _).
    + split; cbn; [lia|lia| |lia|lia]. intros c [Hc1 Hc2]%elem_of_difference.
      pose proof (M3 c Hc1). assert (c ≠ r_next ps) by set_solver. lia.
    + cbn. rewrite size_difference by (by apply singleton_subseteq_l). rewrite size_singleton. lia.
    + cbn in H3. split_and!; [done|done|lia|lia].
  - split_and!; [done|done|lia|done].
Qed.

Lemma drain_ok s0 ps taken :
  raw_mid s0 ps taken → (s0 < r_next ps) ∨ (r_next ps ∈ r_pending ps) → raw_ok s0 (drainPathPending ps, taken).
Proof.
  intros Hm Hn. destruct (drain_raw_mid s0 taken (size (r_pending ps)) ps Hm) as ([M1 M2 M3 M4 M5] & H2 & H3 & H4); [done|].
  unfold drainPathPending. split; cbn [fst snd]; try done.
  - destruct Hn as [?|Hn]; [lia|]. specialize (H4 Hn). destruct Hm. lia.
  - intros c Hc. pose proof (M3 c Hc). assert (c ≠ r_next (drain_raw (size (r_pending ps)) ps)) by (intros ->; done). lia.
Qed.

Lemma raw_ok_gap s0 ps taken t : raw_ok s0 (ps, taken) → raw_ok s0 (set_gap t ps, taken).
Proof. intros []. by split. Qed.

Lemma lowest_spec l : l ≠ [] → Forall (λ c, 0 ≤ c < 2 ^ 64 - 1) l → lowest l ∈ l ∧ Forall (λ c, lowest l ≤ c) l.
Proof.
  intros Hne Hl. unfold lowest. assert (Hg : ∀ m, Forall (λ c, 0 ≤ c < 2 ^ 64 - 1) l →
    let r := foldl (λ lo c, if c <? lo then c else lo) m l in
    (r = m ∨ r ∈ l) ∧ r ≤ m ∧ Forall (λ c, r ≤ c) l).
  { clear. induction l as [|c l IH]; intros m Hl; cbn [foldl]; [split_and!; [by left|lia|constructor]|].
    apply Forall_cons_1 in Hl as [Hc Hl]. destruct (IH (if c <? m then c else m) Hl) as (H1 & H2 & H3).
    destruct (Z.ltb_spec c m).
    - split_and!; [|lia|by constructor]. destruct H1 as [->|?]; right; [by left|by right].
    - split_and!; [|lia|constructor; [lia|done]]. destruct H1 as [->|?]; [by left|right; by right]. }
  destruct (Hg (2 ^ 64 - 1) Hl) as (H1 & H2 & H3). split; [|done].
  destruct H1 as [E|?]; [|done]. destruct l as [|c l]; [done|].
  apply Forall_cons_1 in Hl as [Hc _]. apply Forall_cons_1 in H3 as [H3 _]. lia.
Qed.

Lemma raw_observe_ok s0 now seq ps taken :
  raw_ok s0 (ps, taken) → gap_ok ps → is_u32 seq →
  let ps' := default ps (observe_raw now seq ps) in raw_ok s0 (ps', taken) ∧ gap_ok ps'.
Proof.
  intros Ho Hg Hseq. pose proof Ho as [N F P Z0 S]. cbn [fst snd] in *. unfold is_u32 in Hseq. unfold observe_raw.
  rewrite (proj2 (Z.eqb_neq _ _)) by lia.
  destruct (Z.ltb_spec seq (r_next ps)); [done|]. destruct (Z.eqb_spec seq (r_next ps)) as [->|Hne]; cbn [default].
  - rewrite !u64_small by (unfold is_u64; lia).
    match goal with |- context [drainPathPending ?q] => set (p1 := q) end.
    assert (Hm : raw_mid s0 p1 taken).
    { split; cbn; [lia|lia| |lia|lia]. intros c Hc. specialize (P c Hc). lia. }
    pose proof (drain_ok s0 p1 taken Hm ltac:(cbn; left; lia)).
    case_decide; (split; [by try apply raw_ok_gap|unfold gap_ok; done]).
  - assert (raw_ok s0 (mkRaw (r_next ps) (r_received ps) (r_lost ps) (r_pending ps ∪ {[seq]}) (r_gapSince ps), taken)).
    { split; cbn; [lia|lia| |lia|lia]. intros c [Hc|Hc%elem_of_singleton]%elem_of_union; [by apply P|lia]. }
    assert (Hne2 : r_pending ps ∪ {[seq]} ≠ ∅) by (clear; set_solver).
    case_match; (split; [by try apply raw_ok_gap|unfold gap_ok; done]).
Qed.

Lemma raw_flush_ok s0 now ps taken :
  raw_ok s0 (ps, taken) → gap_ok ps → raw_ok s0 (flush_raw now ps, taken) ∧ gap_ok (flush_raw now ps).
Proof.
  intros Ho Hg. pose proof Ho as [N F P Z0 S]. cbn [fst snd] in *.
  unfold flush_raw, is_zero. destruct (Z.eqb_spec (r_gapSince ps) 0); [by rewrite orb_true_r|].
  rewrite orb_false_r. destruct (r_next ps =? 0); [done|]. destruct (_ <? pathGapWindow); [done|].
  case_decide as He; [by apply Hg in He|].
  destruct (lowest_spec (elements (r_pending ps))) as [H1 H2].
  { by rewrite elements_empty_iff, leibniz_equiv_iff. }
  { apply Forall_forall. intros c Hc%elem_of_elements. specialize (P c Hc). lia. }
  apply elem_of_elements in H1. pose proof (P _ H1) as Hlo. set (lo := lowest _) in *.
  rewrite (u64_small (lo - _)), (u64_small (r_lost ps + _)) by (unfold is_u64; lia).
  match goal with |- context [drainPathPending ?q] => set (p1 := q) end.
  assert (Hm : raw_mid s0 p1 taken).
  { split; cbn; [lia|lia| |lia|lia]. intros c Hc. split; [|by apply P].
    rewrite Forall_forall in H2. by apply H2, elem_of_elements. }
  pose proof (drain_ok s0 p1 taken Hm ltac:(by right)).
  split; [by apply raw_ok_gap|]. unfold gap_ok. cbn. by case_decide.
Qed.

Lemma raw_run_ok s0 ops x :
  raw_ok s0 x → gap_ok x.1 → Forall (λ o, match o with RObserve _ seq => is_u32 seq | _ => True end) ops →
  raw_ok s0 (foldl (λ x o, raw_step o x) x ops).
Proof.
  intros Ho Hg Hops. revert x Ho Hg. induction Hops as [|o ops Hop _ IH]; intros [ps taken] Ho Hg; [done|].
  cbn [foldl]. assert (K : raw_ok s0 (raw_step o (ps, taken)) ∧ gap_ok (raw_step o (ps, taken)).1).
  { destruct o as [now seq|now|]; cbn [raw_step fst snd].
    - by apply raw_observe_ok.
    - by apply raw_flush_ok.
    - split; [|done]. destruct Ho. split; cbn in *; (done || lia). }
  destruct K. by apply IH.
Qed.

(** Raw loss accounting balances. From the first counter [s0] of a stream
    on, whatever arrives (any order, duplicates included), however the gap
    timer fires and whenever the statistics are taken, every counter below the
    expected one was booked exactly once, as received or as lost:
    lost + received, over all readings, is [next - s0]. *)
Theorem path_counts_balance now s0 ops :
  is_u32 s0 → Forall (λ o, match o with RObserve _ seq => is_u32 seq | _ => True end) ops →
  let x := foldl (λ x o, raw_step o x) (default (mkRaw 0 0 0 ∅ 0) (observe_raw now s0 (mkRaw 0 0 0 ∅ 0)), 0) ops in
  x.2 + r_lost x.1 + r_received x.1 = r_next x.1 - s0 ∧
  (∀ c, c ∈ r_pending x.1 → r_next x.1 < c).
Proof.
  intros H0 Hops x. unfold is_u32 in H0. cut (raw_ok s0 x).
  { intros [N F P Z0 S]. split; [done|]. intros c Hc. by apply P. }
  apply raw_run_ok; [|done|done]. cbn. rewrite !u64_small by (unfold is_u64; lia).
  split; cbn; [lia|lia|set_solver|lia|lia].
Qed.

Lemma path_counts_balance_witness :
  let ops := [RObserve 10 6; RObserve 20 9; RObserve 30 8; RTake; RFlush 50000000; RObserve 60000000 7] in
  let x := foldl (λ x o, raw_step o x) (default (mkRaw 0 0 0 ∅ 0) (observe_raw 5 5 (mkRaw 0 0 0 ∅ 0)), 0) ops in
  x.2 + r_lost x.1 + r_received x.1 = r_next x.1 - 5 ∧ (∀ c, c ∈ r_pending x.1 → r_next x.1 < c).
Proof.
  assert (H : ∀ z, (0 <=? z) && (z <? 2 ^ 32) = true → is_u32 z) by (intros z Hz; unfold is_u32; lia).
  apply (path_counts_balance 5 5); [by apply H|].
  repeat (constructor; [exact I || (apply H; reflexivity)|]). constructor.
Defined.
