(* ===== verification/FecRecovery.v ===== *)
(** * End-to-end erasure recovery (internal/fec/fec.go)

    The parity payload written by the encoder and read back by the decoder, and
    the central guarantee of the FEC layer: any k frames of an emitted block,
    one parity frame among them, give back the k data frames. At the end,
    three inputs on which the decoder fails. *)

From S2P Require Import Prelude Float64 Frame FecCodec FecEncoder FecDecoder.

#[local] Open Scope Z_scope.

(** ** The layout of a parity payload *)

Lemma length_put_at off src buf : (off + length src ≤ length buf)%nat → length (put_at off src buf) = length buf.
Proof. intros. unfold put_at. rewrite !length_app, length_take, length_drop. lia. Qed.

(** Writing after a fixed prefix. *)
Lemma put_at_app off src a buf :
  length a = off → (length src ≤ length buf)%nat →
  put_at off src (a ++ buf) = a ++ src ++ drop (length src) buf.
Proof.
  intros Ha Hs. unfold put_at. rewrite take_app_le, take_ge by lia.
  rewrite drop_app_ge by lia. by replace (off + length src - length a)%nat with (length src) by lia.
Qed.

(** Overwriting the middle of a concatenation. *)
Lemma put_at_mid off src a b c :
  length a = off → length b = length src → put_at off src (a ++ b ++ c) = a ++ src ++ c.
Proof.
  intros Ha Hb. rewrite put_at_app; [|done|rewrite length_app; lia].
  by rewrite <-Hb, drop_app_length.
Qed.

Lemma put_at_mid' off src a b c buf :
  buf = a ++ b ++ c → length a = off → length b = length src → put_at off src buf = a ++ src ++ c.
Proof. intros -> ??. by apply put_at_mid. Qed.

Lemma put_fields_app w g data a buf :
  (∀ f, length (g f) = w) → (w * length data ≤ length buf)%nat →
  put_fields (length a) w g data (a ++ buf) = a ++ flat_map g data ++ drop (w * length data) buf.
Proof.
  intros Hg. revert a buf. induction data as [|f data IH]; intros a buf Hl; cbn [put_fields flat_map length app].
  { by rewrite Nat.mul_0_r, drop_0. }
  cbn [length] in Hl. rewrite put_at_app, app_assoc by (rewrite ?Hg; lia).
  assert (El : (length a + w)%nat = length (a ++ g f)) by (rewrite length_app, Hg; lia).
  rewrite El, IH by (rewrite length_drop, Hg; lia).
  rewrite <-!app_assoc. do 3 f_equal. rewrite drop_drop, Hg. f_equal. lia.
Qed.

Lemma put_fields_mid off w g data a b c buf :
  buf = a ++ b ++ c → (∀ f, length (g f) = w) → length a = off → length b = (w * length data)%nat →
  put_fields off w g data buf = a ++ flat_map g data ++ c.
Proof.
  intros -> Hg <- Hb. rewrite put_fields_app by (try done; rewrite length_app; lia).
  by rewrite <-Hb, drop_app_length.
Qed.

Lemma length_flat_map_const {A} (g : A → list byte) w l :
  (∀ x, length (g x) = w) → length (flat_map g l) = (w * length l)%nat.
Proof. intros Hg. induction l as [|x l IH]; cbn; [lia|]. rewrite length_app, Hg, IH. lia. Qed.

(** The payload [emitBlock] assembles in place is the concatenation of its fields. *)
Lemma parity_frame_payload session bs k p maxLen data i s :
  Z.of_nat (length data) = k → 0 ≤ maxLen → Z.of_nat (length s) = maxLen →
  Forall (λ f, plen f < 2 ^ 16) data →
  f_payload (parity_frame session bs k maxLen (sub_header k p maxLen data) i s) =
  parity_payload k p (Z.of_nat i) maxLen data s.
Proof.
  intros Hk Hm Hs Hd. unfold parity_frame, sub_header, parity_payload. cbn [f_payload new_frame].
  set (n := length data). assert (En : Z.to_nat k = n) by lia. rewrite En.
  assert (Eh : Z.to_nat (ParityHeaderSize k) = (8 + 4 * n + 2 * n)%nat) by (unfold ParityHeaderSize, parityHdrFixed; lia).
  assert (Et : Z.to_nat (ParityHeaderSize k + maxLen) = (8 + 4 * n + 2 * n + length s)%nat)
    by (unfold ParityHeaderSize, parityHdrFixed; lia).
  rewrite Eh, Et. clear Eh Et.
  assert (E2 : ∀ z, length (be_put 2 z) = 2%nat) by (intros; apply length_be_put).
  assert (E4 : ∀ z, length (be_put 4 z) = 4%nat) by (intros; apply length_be_put).
  set (F := flat_map (λ f, be_put 4 (f_seq f)) data).
  set (G := flat_map (λ f, be_put 2 (Z.of_nat (length (f_payload f)))) data).
  assert (LF : length F = (4 * n)%nat) by (apply length_flat_map_const; auto).
  assert (LG : length G = (2 * n)%nat) by (apply length_flat_map_const; auto).
  assert (EG : flat_map (λ f, be_put 2 (u16 (plen f))) data = G).
  { unfold G. clear -Hd. induction Hd as [|f l Hf _ IH]; cbn [flat_map]; [done|]. rewrite IH. do 2 f_equal.
    unfold u16, plen in *. apply Z.mod_small. lia. }
  assert (Eb : replicate (8 + 4 * n + 2 * n + length s) x00 =
    [] ++ replicate 2 x00 ++ replicate 2 x00 ++ replicate 2 x00 ++ replicate 2 x00 ++
    replicate (4 * n) x00 ++ replicate (2 * n) x00 ++ replicate (length s) x00).
  { cbn [app]. rewrite <-!replicate_add. f_equal. lia. }
  rewrite Eb. clear Eb. generalize (length_replicate 2 x00), (length_replicate (4 * n) x00),
    (length_replicate (2 * n) x00), (length_replicate (length s) x00).
  generalize (replicate 2 x00) as z2, (replicate (4 * n) x00) as zf, (replicate (2 * n) x00) as zg,
    (replicate (length s) x00) as zs. intros z2 zf zg zs H2 Hf Hg Hz.
  rewrite (put_at_mid 0) by (rewrite ?E2; done). cbn [app].
  rewrite (put_at_mid' 6 _ (be_put 2 k ++ z2 ++ z2) z2 (zf ++ zg ++ zs));
    [|by rewrite <-!app_assoc|rewrite !length_app, E2; lia|by rewrite E2].
  rewrite (put_fields_mid 8 4 _ data (be_put 2 k ++ z2 ++ z2 ++ be_put 2 p) zf (zg ++ zs));
    [|by rewrite <-!app_assoc|auto|rewrite !length_app, !E2; lia|lia]. fold F.
  rewrite (put_fields_mid (8 + 4 * n) 2 _ data (be_put 2 k ++ z2 ++ z2 ++ be_put 2 p ++ F) zg zs);
    [|by rewrite <-!app_assoc|auto|rewrite !length_app, !E2, LF; lia|lia]. rewrite EG.
  rewrite (put_at_mid' 4 _ (be_put 2 k ++ z2) z2 (be_put 2 p ++ F ++ G ++ zs));
    [|by rewrite <-!app_assoc|rewrite !length_app, E2; lia|by rewrite E2].
  rewrite (put_at_mid' 2 _ (be_put 2 k) z2 (be_put 2 maxLen ++ be_put 2 p ++ F ++ G ++ zs));
    [|by rewrite <-!app_assoc|by rewrite E2|by rewrite E2].
  rewrite (put_at_mid' (8 + 4 * n + 2 * n) _
    (be_put 2 k ++ be_put 2 (Z.of_nat i) ++ be_put 2 maxLen ++ be_put 2 p ++ F ++ G) zs []);
    [|by rewrite <-!app_assoc, app_nil_r|rewrite !length_app, !E2, LF, LG; lia|done].
  rewrite app_nil_r, <-!app_assoc, take_ge; [done|]. rewrite !length_app, !E2, LF, LG. lia.
Qed.

Lemma slice_mid {A} lo hi (a b c buf : list A) :
  buf = a ++ b ++ c → length a = lo → hi = (lo + length b)%nat → slice lo hi buf = b.
Proof.
  intros -> <- ->. unfold slice. rewrite drop_app_length.
  replace (length a + length b - length a)%nat with (length b) by lia. apply take_app_length.
Qed.

Lemma slice_fields {B} w (g : frame → list byte) (h : list byte → B) data off a c buf :
  buf = a ++ flat_map g data ++ c → (∀ f, length (g f) = w) → length a = off →
  map (λ i, h (slice (off + w * i) (off + w * i + w) buf)) (seq 0 (length data)) = map (λ f, h (g f)) data.
Proof.
  intros -> Hg. revert a off. induction data as [|f data IH]; intros a off Ha; [done|].
  cbn [length seq map flat_map]. f_equal.
  - f_equal. eapply (slice_mid _ _ a (g f) (flat_map g data ++ c));
      [by rewrite <-!app_assoc|lia|rewrite Hg; lia].
  - rewrite <-seq_shift, map_map, <-(IH (a ++ g f) (off + w)%nat) by (rewrite length_app, Hg; lia).
    apply map_ext. intros i. f_equal.
    rewrite <-!app_assoc. f_equal; lia.
Qed.

Definition seqs_of (data : list frame) : list Z := map f_seq data.
Definition lens_of (data : list frame) : list Z := map plen data.

(** What the parser reads from an encoded payload. *)
Lemma parity_payload_fields k p i maxLen data s :
  Z.of_nat (length data) = k → is_u16 k → is_u16 p → is_u16 i → is_u16 maxLen →
  Z.of_nat (length s) = maxLen → Forall (λ f, is_u32 (f_seq f) ∧ is_u16 (plen f)) data →
  let pl := parity_payload k p i maxLen data s in
  hdr_field 0 pl = k ∧ hdr_field 1 pl = i ∧ hdr_field 2 pl = maxLen ∧ hdr_field 3 pl = p ∧
  Z.of_nat (length pl) = parityHdrFixed + 4 * k + 2 * k + maxLen ∧
  map (λ i, be_get (slice (8 + 4 * i) (8 + 4 * i + 4) pl)) (seq 0 (Z.to_nat k)) = seqs_of data ∧
  map (λ i, be_get (slice (8 + 4 * Z.to_nat k + 2 * i) (8 + 4 * Z.to_nat k + 2 * i + 2) pl))
    (seq 0 (Z.to_nat k)) = lens_of data ∧
  drop (8 + 6 * Z.to_nat k) pl = s.
Proof.
  intros Hk Uk Up Ui Um Hs Hd pl. unfold is_u16 in *.
  assert (E2 : ∀ z, length (be_put 2 z) = 2%nat) by (intros; apply length_be_put).
  assert (E4 : ∀ z, length (be_put 4 z) = 4%nat) by (intros; apply length_be_put).
  set (F := flat_map (λ f, be_put 4 (f_seq f)) data).
  set (G := flat_map (λ f, be_put 2 (Z.of_nat (length (f_payload f)))) data).
  assert (LF : length F = (4 * length data)%nat) by (apply length_flat_map_const; auto).
  assert (LG : length G = (2 * length data)%nat) by (apply length_flat_map_const; auto).
  assert (Epl : pl = be_put 2 k ++ be_put 2 i ++ be_put 2 maxLen ++ be_put 2 p ++ F ++ G ++ s) by done.
  assert (En : Z.to_nat k = length data) by lia. rewrite En. unfold hdr_field.
  assert (G2 : ∀ z, 0 ≤ z < 2 ^ 16 → be_get (be_put 2 z) = z) by (intros; by apply be_get_put_small).
  split_and!.
  - rewrite (slice_mid _ _ [] (be_put 2 k) (be_put 2 i ++ be_put 2 maxLen ++ be_put 2 p ++ F ++ G ++ s));
      [by apply G2|done|done|by rewrite E2].
  - rewrite (slice_mid _ _ (be_put 2 k) (be_put 2 i) (be_put 2 maxLen ++ be_put 2 p ++ F ++ G ++ s));
      [by apply G2|done|by rewrite E2|by rewrite E2].
  - rewrite (slice_mid _ _ (be_put 2 k ++ be_put 2 i) (be_put 2 maxLen) (be_put 2 p ++ F ++ G ++ s));
      [by apply G2|by rewrite <-!app_assoc|by rewrite length_app, !E2|by rewrite E2].
  - rewrite (slice_mid _ _ (be_put 2 k ++ be_put 2 i ++ be_put 2 maxLen) (be_put 2 p) (F ++ G ++ s));
      [by apply G2|by rewrite <-!app_assoc|by rewrite !length_app, !E2|by rewrite E2].
  - rewrite Epl, !length_app, !E2, LF, LG. unfold parityHdrFixed. lia.
  - rewrite (slice_fields 4 (λ f, be_put 4 (f_seq f)) be_get data 8
      (be_put 2 k ++ be_put 2 i ++ be_put 2 maxLen ++ be_put 2 p) (G ++ s));
      [|by rewrite <-!app_assoc|auto|by rewrite !length_app, !E2].
    apply map_ext_Forall. eapply Forall_impl; [exact Hd|]. cbn beta. intros f [Hf _].
    by apply be_get_put_small.
  - rewrite (slice_fields 2 (λ f, be_put 2 (Z.of_nat (length (f_payload f)))) be_get data (8 + 4 * length data)
      (be_put 2 k ++ be_put 2 i ++ be_put 2 maxLen ++ be_put 2 p ++ F) s);
      [|by rewrite <-!app_assoc|auto|rewrite !length_app, !E2, LF; lia].
    apply map_ext_Forall. eapply Forall_impl; [exact Hd|]. cbn beta. intros f [_ Hf]. by apply G2.
  - assert (Ha : pl = (be_put 2 k ++ be_put 2 i ++ be_put 2 maxLen ++ be_put 2 p ++ F ++ G) ++ s)
      by (by rewrite <-!app_assoc).
    rewrite Ha, drop_app_ge by (rewrite !length_app, !E2, LF, LG; lia).
    rewrite !length_app, !E2, LF, LG.
    replace (8 + 6 * length data - _)%nat with 0%nat by lia. by rewrite drop_0.
Qed.

(** ** An emitted block *)

Section block.
  Context `{ReedSolomon}.

Definition pad (maxLen : Z) (f : frame) : shard := fit (Z.to_nat maxLen) (f_payload f).

(** What the sender guarantees of the data frames of a block: one session, no
    flag of another frame kind, distinct 32-bit seqs, encodable payloads. *)
Record data_ok (sid : Z) (data : list frame) : Prop := {
  do_frames : Forall (λ f, f_session f = sid ∧ HasFlag f FlagFECParity = false ∧
                           HasFlag f FlagPassSeq = false ∧ is_u32 (f_seq f) ∧ is_u16 (plen f)) data;
  do_nodup : NoDup (seqs_of data);
  do_some : 0 < max_len data;
}.

(** The parity shards of a block: what the codec computed from the padded data. *)
Record block_ok (sid k p : Z) (rs : RS) (data : list frame) (parity : list shard) : Prop := {
  bk_data : data_ok sid data;
  bk_len : Z.of_nat (length data) = k;
  bk_k : 1 ≤ k < 2 ^ 16;
  bk_p : 0 ≤ p < 2 ^ 16;
  bk_new : rs_New k p = Some rs;
  bk_enc : rs_Encode rs (map (pad (max_len data)) data ++
             replicate (Z.to_nat p) (replicate (Z.to_nat (max_len data)) x00)) =
           Some (map (pad (max_len data)) data ++ parity);
  bk_plen : Z.of_nat (length parity) = p;
  bk_shards : Forall (λ s, Z.of_nat (length s) = max_len data) parity;
}.

(** The frames of a block as sent: stamped data, then self-describing parity. *)
Definition block_frames (sid bs k p : Z) (data : list frame) (parity : list shard) : list frame :=
  map (set_block bs) data ++
  imap (λ i s, new_frame FlagFECParity sid 0 bs (parity_payload k p (Z.of_nat i) (max_len data) data s)) parity.

Lemma max_len_u16 sid data : data_ok sid data → is_u16 (max_len data).
Proof.
  intros [Hf _ Hs]. destruct (max_len_spec data) as (H0 & _ & [E|(f & Hin & E)]); [lia|].
  rewrite Forall_forall in Hf. destruct (Hf f Hin) as (_ & _ & _ & _ & Hp). by rewrite <-E.
Qed.

(** [emitBlock] on a full block produces such a block. *)
Lemma emitBlock_frames e sid rs :
  data_ok sid (e_pending e) →
  Z.of_nat (length (e_pending e)) = DataShards (e_params e) →
  1 ≤ DataShards (e_params e) < 2 ^ 16 → e_rsParity e < 2 ^ 16 →
  e_rs e = Some rs → rs_New (DataShards (e_params e)) (e_rsParity e) = Some rs →
  ∃ parity e', block_ok sid (DataShards (e_params e)) (e_rsParity e) rs (e_pending e) parity ∧
    emitBlock e = Ok (block_frames sid (u32 (e_block e + 1)) (DataShards (e_params e)) (e_rsParity e)
                        (e_pending e) parity, e').
Proof.
  intros Hd Hlen Hk Hp Ers Enew. destruct (rs_new_valid _ _ _ Enew) as [_ Hp0].
  pose proof (max_len_u16 sid _ Hd) as Hm. unfold is_u16 in Hm. pose proof (do_some _ _ Hd) as Hm0.
  unfold emitBlock. cbn [e_params e_rsParity e_pending e_rs with_pending next_block e_block].
  set (data := e_pending e) in *. set (k := DataShards (e_params e)) in *. set (p := e_rsParity e) in *.
  rewrite (proj2 (Z.ltb_ge _ _)) by lia. rewrite Ers.
  replace (Z.to_nat (k + p) - length data)%nat with (Z.to_nat p) by lia.
  destruct (rs_encode_shards k p rs (map (pad (max_len data)) data)
    (replicate (Z.to_nat p) (replicate (Z.to_nat (max_len data)) x00)) (Z.to_nat (max_len data)))
    as (parity & Eenc & Elen & Hall); [done|by rewrite length_map|rewrite length_replicate; lia|lia| |].
  { apply Forall_app. split.
    - apply Forall_map, Forall_forall. intros f _. apply length_fit.
    - apply Forall_replicate, length_replicate. }
  rewrite length_replicate in Elen. exists parity.
  unfold pad in Eenc. rewrite Eenc.
  eexists. split.
  - split; try done; try lia. eapply Forall_impl; [exact Hall|]. cbn. intros; lia.
  - do 2 f_equal. rewrite drop_app_ge by (rewrite length_map; lia). rewrite length_map.
    replace (Z.to_nat k - length data)%nat with 0%nat by lia. rewrite drop_0, take_ge by lia.
    unfold block_frames. f_equal.
    assert (Es : match data with f :: _ => f_session f | [] => 0 end = sid).
    { destruct Hd as [Hf _ _]. destruct data as [|f l]; [cbn in Hlen; lia|].
      apply Forall_cons_1 in Hf as [[? _] _]. done. }
    rewrite Es. apply imap_ext. intros i s Hs.
    rewrite <-(parity_frame_payload sid (u32 (e_block e + 1)) k p (max_len data) data i s); [done|lia|lia| |].
    + rewrite Forall_lookup in Hall. specialize (Hall i s Hs). lia.
    + eapply Forall_impl; [apply (do_frames _ _ Hd)|]. cbn. unfold is_u16. intros f (_ & _ & _ & _ & ?). lia.
Qed.
End block.

(** ** What the decoder holds of a block *)

(** Counting the shards present: the entries of a map, listed by its keys. *)
Lemma present_map {A} (g : A → shard) (m : gmap Z A) (l : list Z) :
  NoDup l → (∀ x, is_Some (m !! x) → x ∈ l) → present (map (λ x, g <$> m !! x) l) = size m.
Proof.
  intros Hnd. revert m. induction Hnd as [|x l Hx Hnd IH]; intros m Hm.
  { assert (m = ∅) as ->; [|by rewrite map_size_empty].
    apply map_eq. intros i. rewrite lookup_empty. destruct (m !! i) eqn:E; [|done].
    assert (i ∈ []) by (apply Hm; by rewrite E). by apply elem_of_nil in H. }
  assert (El : map (λ y, g <$> m !! y) l = map (λ y, g <$> delete x m !! y) l).
  { apply map_ext_in. intros y Hy. rewrite lookup_delete_ne; [done|].
    intros ->. apply Hx. by apply list_elem_of_In. }
  unfold present in *. cbn [map List.filter]. rewrite El.
  assert (IHx : ∀ y, is_Some (delete x m !! y) → y ∈ l).
  { intros y Hy. destruct (decide (x = y)) as [->|Hne].
    - rewrite lookup_delete_eq in Hy. by destruct Hy.
    - rewrite lookup_delete_ne in Hy by done. specialize (Hm y Hy). by apply elem_of_cons in Hm as [?|?]. }
  specialize (IH (delete x m) IHx).
  destruct (m !! x) as [a|] eqn:Ex; cbn.
  - rewrite IH, map_size_delete, Ex. assert (size m ≠ 0%nat); [|lia].
    intros E0%map_size_empty_inv. by rewrite E0, lookup_empty in Ex.
  - by rewrite IH, map_size_delete, Ex.
Qed.

Lemma present_app l1 l2 : present (l1 ++ l2) = (present l1 + present l2)%nat.
Proof. unfold present. by rewrite List.filter_app, length_app. Qed.

Lemma size_add (i : nat) (s : gset nat) : i ∉ s → size ({[i]} ∪ s) = S (size s).
Proof. intros Hi. rewrite size_union by set_solver. by rewrite size_singleton. Qed.

Lemma add_seen (i : nat) (s : gset nat) : i ∈ s → {[i]} ∪ s = s.
Proof.
  intros Hi. apply set_eq. intros x. rewrite elem_of_union, elem_of_singleton.
  split; [by intros [->|?]|by right].
Qed.

Section recovery.
  Context `{ReedSolomon, !RangeOrder Z (list byte)}.
  Context (sid k p bs : Z) (rs : RS) (data : list frame) (parity : list shard) (sp : string).
  Context (Hblk : block_ok sid k p rs data parity) (Hbs : 1 ≤ bs < 2 ^ 32).

Definition the_key : blockKey := (sid, sp, bs).
Definition maxl : Z := max_len data.

(** The payloads of the block by seq. *)
Definition data_map : gmap Z (list byte) := list_to_map (map (λ f, (f_seq f, f_payload f)) data).

(** The data frames as the decoder hands them on. *)
Definition delivered : list frame := map (λ f, new_frame 0 sid (f_seq f) 0 (f_payload f)) data.

Lemma data_map_keys : (map (λ f, (f_seq f, f_payload f)) data).*1 = seqs_of data.
Proof. unfold seqs_of. change ((map (λ f, (f_seq f, f_payload f)) data).*1) with (map fst (map (λ f, (f_seq f, f_payload f)) data)). by rewrite map_map. Qed.

Lemma data_map_lookup f : f ∈ data → data_map !! f_seq f = Some (f_payload f).
Proof.
  intros Hf. unfold data_map. apply elem_of_list_to_map_1.
  - rewrite data_map_keys. apply Hblk.
  - apply (list_elem_of_fmap_2 (λ f, (f_seq f, f_payload f))). done.
Qed.

Lemma data_map_inv seq b : data_map !! seq = Some b → ∃ f, f ∈ data ∧ seq = f_seq f ∧ b = f_payload f.
Proof.
  intros E%elem_of_list_to_map_2. apply list_elem_of_fmap in E as (f & [= -> ->] & Hf). by exists f.
Qed.

Lemma data_map_size : Z.of_nat (size data_map) = k.
Proof.
  unfold data_map. rewrite <-(bk_len _ _ _ _ _ _ Hblk).
  assert (Hsz : ∀ l : list frame, NoDup (seqs_of l) →
    size (list_to_map (map (λ f, (f_seq f, f_payload f)) l) : gmap Z (list byte)) = length l).
  { clear. induction l as [|f l IH]; [done|]. cbn. intros [Hf Hl]%NoDup_cons.
    rewrite map_size_insert_None, IH by (done || (apply not_elem_of_list_to_map_1; intros Hin; apply Hf;
      apply list_elem_of_fmap in Hin as ([s b] & -> & Hin); apply list_elem_of_fmap in Hin as (g & [= -> ->] & Hg);
      by apply (list_elem_of_fmap_2 f_seq))). done. }
  by rewrite Hsz by apply Hblk.
Qed.

(** The sub-header fields, once a parity frame was seen. *)
Record header_read (st : blockState) : Prop := {
  hr_k : b_k st = k;
  hr_p : b_p st = p;
  hr_seqs : b_seqs st = seqs_of data;
  hr_lens : b_lens st = lens_of data;
  hr_max : b_maxLen st = maxl;
}.

(** The buffer holds exactly the frames of the block at the positions [seen]. *)
Record holds (seen : gset nat) (st : blockState) : Prop := {
  ho_data : b_data st ⊆ data_map;
  ho_parity : ∀ j s, b_parity st !! j = Some s → 0 ≤ j ∧ parity !! Z.to_nat j = Some s;
  ho_header : (b_parity st = ∅ ∧ b_k st = 0 ∧ b_seqs st = []) ∨ (b_parity st ≠ ∅ ∧ header_read st);
  ho_open : b_flushed st = false;
  ho_seen_data : ∀ i f, data !! i = Some f → is_Some (b_data st !! f_seq f) ↔ i ∈ seen;
  ho_seen_parity : ∀ j, is_Some (b_parity st !! Z.of_nat j) ↔ (length data + j)%nat ∈ seen;
  ho_parity_seen : ∀ i, i ∈ seen → (length data ≤ i)%nat → b_parity st ≠ ∅;
  ho_size : size seen = (size (b_data st) + size (b_parity st))%nat;
}.

(** Delivery emits the block when every data frame is there. *)
Lemma emit_delivered m : data_map ⊆ m → emit_frames sid m (seqs_of data) = delivered.
Proof.
  intros Hm. unfold emit_frames, delivered, seqs_of.
  assert (Hl : ∀ l, (∀ f, f ∈ l → f ∈ data) →
    omap (λ seq, payload ← m !! seq; Some (new_frame 0 sid seq 0 payload)) (map f_seq l) =
    map (λ f, new_frame 0 sid (f_seq f) 0 (f_payload f)) l); [|by apply Hl].
  induction l as [|f l IH]; intros Hin; [done|]. cbn.
  assert (Ef : m !! f_seq f = Some (f_payload f)).
  { eapply lookup_weaken; [|exact Hm]. apply data_map_lookup, Hin. by left. }
  rewrite Ef. cbn.
  f_equal. apply IH. intros g Hg. apply Hin. by right.
Qed.

Lemma flush_delivered st m d :
  header_read st → b_data st = m → data_map ⊆ m →
  ∃ d', flush the_key st d = (delivered, d') ∧ closed_block the_key d' ∧ dec_params d' = dec_params d.
Proof.
  intros Hh Em Hm. pose proof (flush_closes the_key st d) as Hc.
  pose proof (ex_params _ _ _ (flush_extends the_key st d)) as Hp.
  destruct (flush the_key st d) as [out d'] eqn:E. exists d'. split_and!; [|done|done].
  unfold flush in E. injection E as <- _. f_equal. rewrite (hr_seqs _ Hh), Em.
  assert (Hne : seqs_of data ≠ []).
  { pose proof (bk_len _ _ _ _ _ _ Hblk). pose proof (bk_k _ _ _ _ _ _ Hblk).
    unfold seqs_of. destruct data; [cbn in *; lia|done]. }
  destruct (seqs_of data) as [|x l] eqn:El; [done|]. rewrite <-El. by apply emit_delivered.
Qed.

Lemma data_pads : Forall (λ s, length s = Z.to_nat maxl) (map (pad maxl) data).
Proof. apply Forall_map, Forall_forall. intros f _. apply length_fit. Qed.

(** The shards held are shards of the encoded block. *)
Lemma held_part seen st :
  holds seen st → header_read st → part_of (held_shards st) (map (pad maxl) data ++ parity).
Proof.
  intros Ho [Hk Hp Hs Hl Hm]. unfold held_shards, part_of. rewrite Hs, Hp, Hm.
  apply Forall2_app.
  - unfold seqs_of. rewrite map_map. apply Forall2_fmap_l, Forall2_fmap_r, Forall_Forall2_diag, Forall_forall.
    intros f Hf. unfold compose. destruct (b_data st !! f_seq f) as [b|] eqn:E; cbn [fmap option_fmap option_map]; [|done].
    pose proof (lookup_weaken _ _ _ _ E (ho_data _ _ Ho)) as E'. rewrite data_map_lookup in E' by done.
    by injection E' as <-.
  - pose proof (bk_plen _ _ _ _ _ _ Hblk) as Hlen. apply Forall2_lookup. intros i.
    rewrite list_lookup_fmap. destruct (decide (i < length parity)%nat) as [Hi|Hi].
    + rewrite lookup_seq_lt by lia. cbn. destruct (lookup_lt_is_Some_2 parity i Hi) as [s Es]. rewrite Es.
      constructor. destruct (b_parity st !! Z.of_nat i) as [s'|] eqn:E; [|done].
      destruct (ho_parity _ _ Ho _ _ E) as [_ E']. rewrite Nat2Z.id in E'. congruence.
    + rewrite lookup_seq_ge, lookup_ge_None_2 by lia. constructor.
Qed.

Lemma held_present seen st :
  holds seen st → header_read st → present (held_shards st) = (size (b_data st) + size (b_parity st))%nat.
Proof.
  intros Ho [Hk Hp Hs Hl Hm]. unfold held_shards. rewrite present_app. f_equal.
  - rewrite Hs. apply present_map; [apply Hblk|]. intros x [b E].
    destruct (data_map_inv x b) as (f & Hf & -> & _); [by eapply lookup_weaken; [|apply Ho]|].
    by apply (list_elem_of_fmap_2 f_seq).
  - rewrite Hp, <-(map_map Z.of_nat (λ j, b_parity st !! j)).
    rewrite (map_ext _ (λ j, id <$> b_parity st !! j)) by (intros j; by rewrite option_fmap_id).
    apply present_map.
    + apply NoDup_fmap_2; [intros ???; lia|apply NoDup_seq].
    + intros j [s E]. destruct (ho_parity _ _ Ho _ _ E) as [H0 E'].
      apply lookup_lt_Some in E'. pose proof (bk_plen _ _ _ _ _ _ Hblk).
      apply list_elem_of_fmap. exists (Z.to_nat j). split; [lia|]. apply elem_of_seq. lia.
Qed.

(** The loop over the reconstructed shards restores every missing payload. *)
Lemma fill_data_ok l par (spare : nat → list byte) m n :
  (∀ f, f ∈ l → f ∈ data) → m ⊆ data_map →
  ∃ m' n', fill_data (seqs_of l) (lens_of l) (imap (λ i s, s ++ spare i) (map (pad maxl) l ++ par)) m n
      = Ok (m', n') ∧
    m ⊆ m' ∧ m' ⊆ data_map ∧ (∀ f, f ∈ l → is_Some (m' !! f_seq f)).
Proof.
  revert spare m n. induction l as [|f l IH]; intros spare m n Hin Hm.
  { exists m, n. split_and!; [done|done|done|]. by intros ? ?%elem_of_nil. }
  assert (Hf : f ∈ data) by (apply Hin; by left).
  assert (Hl : ∀ g, g ∈ l → g ∈ data) by (intros g Hg; apply Hin; by right).
  cbn [fill_data seqs_of lens_of map app imap]. fold (seqs_of l) (lens_of l).
  destruct (m !! f_seq f) as [b|] eqn:E.
  - destruct (IH (λ i, spare (S i)) m n Hl Hm) as (m' & n' & E' & H1 & H2 & H3). exists m', n'. split_and!; try done.
    intros g [->|Hg]%elem_of_cons; [|by apply H3]. exists b. by eapply lookup_weaken.
  - destruct (max_len_spec data) as (M0 & M1 & _). rewrite Forall_forall in M1. specialize (M1 f Hf).
    assert (Hp : plen f <= Z.of_nat (length (pad maxl f))) by (unfold pad; rewrite length_fit; unfold maxl; lia).
    assert (E1 : (Z.of_nat (length (pad maxl f ++ spare O)) <? plen f) = false).
    { rewrite length_app. apply Z.ltb_ge. lia. }
    assert (E2 : take (Z.to_nat (plen f)) (pad maxl f ++ spare O) = f_payload f).
    { rewrite take_app_le by lia. unfold pad, plen in *. rewrite Nat2Z.id. apply take_fit. unfold maxl. lia. }
    rewrite E1, E2.
    destruct (IH (λ i, spare (S i)) (<[f_seq f:=f_payload f]> m) (u64 (n + 1)) Hl) as (m' & n' & E' & H1 & H2 & H3).
    { apply insert_subseteq_l; [by apply data_map_lookup|done]. }
    exists m', n'. split_and!; [exact E'| |done|].
    + etrans; [by apply insert_subseteq|done].
    + intros g [->|Hg]%elem_of_cons; [|by apply H3]. exists (f_payload f).
      eapply lookup_weaken; [|exact H1]. apply lookup_insert_eq.
Qed.

(** The codec cache, keyed by the parity count alone, holds this block's codec
    or none: so it is while the sender keeps its number of data shards. *)
Definition cache_ok (d : Decoder) : Prop := ∀ rs', rsByParity d !! p = Some rs' → rs' = rs.

Lemma rsFor_ok d : cache_ok d → ∃ d', rsFor k p d = (Some rs, d') ∧ dec_params d' = dec_params d.
Proof.
  intros Hc. unfold rsFor. destruct (rsByParity d !! p) as [rs'|] eqn:E.
  - rewrite (Hc rs' E). by exists d.
  - rewrite (bk_new _ _ _ _ _ _ Hblk). by eexists.
Qed.

Lemma data_complete m : m ⊆ data_map → (∀ f, f ∈ data → is_Some (m !! f_seq f)) → data_map ⊆ m.
Proof.
  intros Hm Hall. apply map_subseteq_spec. intros x b E.
  destruct (data_map_inv x b E) as (f & Hf & -> & ->). destruct (Hall f Hf) as [b' Eb].
  pose proof (lookup_weaken _ _ _ _ Eb Hm) as Eb'. rewrite E in Eb'. congruence.
Qed.

Lemma reconstruct_delivers seen st d :
  holds seen st → header_read st → k ≤ Z.of_nat (size (b_data st) + size (b_parity st)) → cache_ok d →
  ∃ d', reconstruct the_key st d = Ok (delivered, d') ∧ closed_block the_key d' ∧ dec_params d' = dec_params d.
Proof.
  intros Ho Hh Hn Hc. unfold reconstruct. rewrite (hr_k _ Hh), (hr_p _ Hh).
  destruct (rsFor_ok d Hc) as (d1 & -> & P1).
  pose proof (bk_enc _ _ _ _ _ _ Hblk) as Henc. fold maxl in Henc.
  pose proof (do_some _ _ (bk_data _ _ _ _ _ _ Hblk)) as Hmax. fold maxl in Hmax.
  assert (Hrec : rs_Reconstruct rs (held_shards st) = Some (map (pad maxl) data ++ parity)).
  { pose proof (bk_p _ _ _ _ _ _ Hblk).
    eapply (rs_reconstruct_any_k k p rs _ _ parity (held_shards st) (Z.to_nat maxl)); [apply Hblk| | |lia| |exact Henc| |].
    - rewrite length_map. apply Hblk.
    - rewrite length_replicate. lia.
    - apply Forall_app. split; [apply data_pads|apply Forall_replicate, length_replicate].
    - by eapply held_part.
    - by rewrite (held_present seen). }
  rewrite Hrec, (hr_seqs _ Hh), (hr_lens _ Hh). unfold up_to_cap.
  destruct (fill_data_ok data parity (rs_spare rs (held_shards st)) (b_data st) (recovered d1)) as (m' & n' & -> & _ & M2 & M3);
    [done|apply Ho|]. cbn [res_bind fst snd].
  destruct (flush_delivered (set_data m' st) m' (with_recovered n' d1)) as (d' & -> & C & P);
    [by destruct Hh|done|by apply data_complete|].
  exists d'. split_and!; [done|done|]. etrans; [exact P|exact P1].
Qed.

Lemma deliver_complete seen st d :
  holds seen st → b_parity st ≠ ∅ → k ≤ Z.of_nat (size (b_data st) + size (b_parity st)) → cache_ok d →
  ∃ d', maybeDeliver the_key st d = Ok (delivered, d') ∧ closed_block the_key d' ∧ dec_params d' = dec_params d.
Proof.
  intros Ho Hp Hn Hc. destruct (ho_header _ _ Ho) as [[? _]|[_ Hh]]; [done|].
  pose proof (bk_k _ _ _ _ _ _ Hblk). unfold maybeDeliver.
  rewrite (hr_k _ Hh), (proj2 (Z.eqb_neq _ _)), (proj2 (Z.ltb_ge _ _)) by lia.
  destruct (Z.eqb_spec (Z.of_nat (size (b_data st))) k) as [E|E]; [|by eapply reconstruct_delivers].
  assert (Em : b_data st = data_map).
  { apply map_subseteq_size_eq; [apply Ho|]. pose proof data_map_size. lia. }
  destruct (flush_delivered st data_map d Hh Em) as (d' & -> & C & P); [done|]. by exists d'.
Qed.

(** Fewer than k frames, or no parity yet: nothing happens. *)
Definition incomplete (st : blockState) : Prop :=
  b_parity st = ∅ ∨ Z.of_nat (size (b_data st) + size (b_parity st)) < k.

Lemma deliver_incomplete seen st d :
  holds seen st → incomplete st → maybeDeliver the_key st d = Ok ([], d).
Proof.
  intros Ho Hi. unfold maybeDeliver. destruct (ho_header _ _ Ho) as [(_ & -> & _)|[Hp Hh]]; [done|].
  destruct Hi as [?|Hi]; [done|]. pose proof (bk_k _ _ _ _ _ _ Hblk).
  rewrite (hr_k _ Hh), (proj2 (Z.eqb_neq _ _)), (proj2 (Z.ltb_lt _ _)) by lia. done.
Qed.

(** ** One arrival *)

(** The decoder while the block is being assembled. *)
Record assembling (seen : gset nat) (d : Decoder) : Prop := {
  as_block : (blocks d !! the_key = None ∧ seen = ∅) ∨
             ∃ st, blocks d !! the_key = Some st ∧ holds seen st ∧ incomplete st;
  as_flushed : flushed_at (stream_of the_key) d < bs;
  as_cache : cache_ok d;
}.

Lemma holds_new : holds ∅ new_block.
Proof.
  clear Hblk Hbs. split; cbn; try done.
  - apply map_empty_subseteq.
  - by left.
  - intros i f _. rewrite lookup_empty. split; [by intros [b Hb]|set_solver].
  - intros j. rewrite lookup_empty. split; [by intros [b Hb]|set_solver].
Qed.

(** After the buffer was updated: deliver, or go on assembling. *)
Lemma arrival seen st d :
  holds seen st → cache_ok d → flushed_at (stream_of the_key) d < bs →
  ∃ out d', maybeDeliver the_key st (with_blocks (<[the_key := st]> (blocks d)) d) = Ok (out, d') ∧
    dec_params d' = dec_params d ∧
    ((out = [] ∧ assembling seen d') ∨
     (out = delivered ∧ closed_block the_key d' ∧ k ≤ Z.of_nat (size seen))).
Proof.
  intros Ho Hc Hf. set (d1 := with_blocks _ d).
  assert (Hdec : incomplete st ∨ (b_parity st ≠ ∅ ∧ k ≤ Z.of_nat (size (b_data st) + size (b_parity st)))).
  { unfold incomplete. destruct (decide (b_parity st = ∅)); [by left; left|].
    destruct (Z_lt_le_dec (Z.of_nat (size (b_data st) + size (b_parity st))) k); [by left; right|by right]. }
  destruct Hdec as [Hi|[Hp Hn]].
  - exists [], d1. split; [by eapply deliver_incomplete|]. split; [done|]. left. split; [done|].
    split; [right; exists st; split; [apply lookup_insert_eq|done]|done|done].
  - destruct (deliver_complete seen st d1) as (d' & E & C & P); try done. exists delivered, d'.
    rewrite <-(ho_size _ _ Ho) in Hn. split; [done|]. split; [done|by right].
Qed.

Definition with_deadline (t : time) (st : blockState) : blockState :=
  mkBlock (b_k st) (b_p st) (b_seqs st) (b_lens st) (b_maxLen st) (b_data st) (b_parity st) t (b_flushed st).

Lemma holds_deadline seen st t : holds seen st → holds seen (with_deadline t st).
Proof. intros []. split; try done. cbn. destruct ho_header0 as [?|[? []]]; [by left|right; by split]. Qed.

Lemma seq_inj i j f g : data !! i = Some f → data !! j = Some g → f_seq f = f_seq g → i = j.
Proof.
  intros Hi Hj E. eapply (NoDup_lookup (seqs_of data)); [apply Hblk|by apply list_lookup_fmap_Some_2|].
  rewrite E. by apply list_lookup_fmap_Some_2.
Qed.

Lemma data_lookup_lt i f : data !! i = Some f → (i < length data)%nat.
Proof. apply lookup_lt_Some. Qed.

Lemma holds_add_data seen st i f :
  holds seen st → data !! i = Some f → b_data st !! f_seq f = None →
  holds ({[i]} ∪ seen) (set_data (<[f_seq f := f_payload f]> (b_data st)) st).
Proof.
  intros Ho Hi Hn. pose proof (data_lookup_lt i f Hi) as Hlt.
  assert (Hnot : i ∉ seen).
  { intros Hin. apply (ho_seen_data _ _ Ho i f Hi) in Hin as [b Hb]. congruence. }
  destruct Ho as [D P Hh O SD SP PS SZ]. split; cbn [b_data b_parity b_k b_p b_seqs b_lens b_maxLen b_flushed set_data].
  - apply insert_subseteq_l; [|done]. eapply data_map_lookup, list_elem_of_lookup_2, Hi.
  - done.
  - destruct Hh as [?|[? []]]; [by left|right; by split].
  - done.
  - intros j g Hj. rewrite elem_of_union, elem_of_singleton, <-(SD j g Hj).
    destruct (decide (f_seq f = f_seq g)) as [E|E].
    + rewrite <-E, lookup_insert_eq. pose proof (seq_inj i j f g Hi Hj E). split; [by left|by eexists].
    + rewrite lookup_insert_ne by done. split; [by right|]. intros [->|?]; [|done].
      rewrite Hi in Hj. congruence.
  - intros j. rewrite elem_of_union, elem_of_singleton, <-SP. split; [by right|]. intros [?|?]; [lia|done].
  - intros j Hj Hge. apply elem_of_union in Hj as [->%elem_of_singleton|Hj]; [lia|by eapply PS].
  - rewrite size_add, map_size_insert_None by done. lia.
Qed.

Lemma holds_add_parity seen st j s t :
  holds seen st → parity !! j = Some s →
  holds ({[(length data + j)%nat]} ∪ seen)
    (mkBlock k p (seqs_of data) (lens_of data) maxl (b_data st) (<[Z.of_nat j := s]> (b_parity st)) t false).
Proof.
  intros Ho Hj. destruct Ho as [D P Hh O SD SP PS SZ].
  split; cbn [b_data b_parity b_k b_p b_seqs b_lens b_maxLen b_flushed].
  - done.
  - intros i s' E. destruct (decide (Z.of_nat j = i)) as [<-|Hne].
    + rewrite lookup_insert_eq in E. injection E as <-. rewrite Nat2Z.id. split; [lia|done].
    + rewrite lookup_insert_ne in E by done. by apply P.
  - right. split; [apply insert_non_empty|done].
  - done.
  - intros i f Hi. rewrite elem_of_union, elem_of_singleton, <-(SD i f Hi). pose proof (data_lookup_lt i f Hi).
    split; [by right|]. intros [->|?]; [lia|done].
  - intros i. rewrite elem_of_union, elem_of_singleton, <-SP.
    destruct (decide (i = j)) as [->|Hne].
    + rewrite lookup_insert_eq. split; [by left|by eexists].
    + rewrite lookup_insert_ne by lia. split; [by right|]. intros [?|?]; [lia|done].
  - intros. apply insert_non_empty.
  - destruct (b_parity st !! Z.of_nat j) as [s'|] eqn:E.
    + assert (Hin : (length data + j)%nat ∈ seen) by (apply SP; by eexists).
      rewrite map_size_insert_Some by done. by rewrite add_seen.
    + assert (Hnot : (length data + j)%nat ∉ seen) by (intros Hin; apply SP in Hin as [? ?]; congruence).
      rewrite size_add, map_size_insert_None by done. lia.
Qed.

Lemma addParity_ok seen st d now j s :
  holds seen st → parity !! j = Some s →
  ∃ t, addParity now d st (parity_payload k p (Z.of_nat j) maxl data s) =
    Some (mkBlock k p (seqs_of data) (lens_of data) maxl (b_data st) (<[Z.of_nat j := s]> (b_parity st)) t false).
Proof.
  intros Ho Hj. pose proof Hblk as [Bd Bl Bk Bp _ _ Bpl Bs].
  pose proof (max_len_u16 sid data Bd) as Um.
  assert (Hs : Z.of_nat (length s) = maxl) by (rewrite Forall_lookup in Bs; by eapply Bs).
  assert (Hjp : (j < length parity)%nat) by (by eapply lookup_lt_Some).
  destruct (parity_payload_fields k p (Z.of_nat j) maxl data s)
    as (F0 & F1 & F2 & F3 & Fl & Fs & Fn & Fd); try done; try (unfold is_u16; lia).
  { eapply Forall_impl; [apply (do_frames _ _ Bd)|]. cbn. tauto. }
  unfold addParity. cbv zeta. rewrite F0, F1, F2, F3, Fl, Fs, Fn, Fd.
  unfold is_u16 in Um. fold maxl in Um. pose proof (max_len_spec data) as [M0 _]. fold maxl in M0.
  rewrite (proj2 (Z.ltb_ge _ parityHdrFixed)), (proj2 (Z.ltb_ge _ _)) by (unfold parityHdrFixed; lia).
  assert (Ef : fit (Z.to_nat maxl) s = s).
  { unfold fit. rewrite take_ge by lia. replace (Z.to_nat maxl - length s)%nat with 0%nat by lia. apply app_nil_r. }
  rewrite Ef. pose proof (ho_open _ _ Ho) as Hof. destruct (ho_header _ _ Ho) as [(_ & E0 & _)|[_ Hh]].
  - rewrite E0. cbn [Z.eqb b_k b_maxLen b_p b_seqs b_lens b_data b_parity b_deadline b_flushed].
    rewrite !Z.eqb_refl, Hof. by eexists.
  - destruct Hh as [E1 E2 E3 E4 E5]. rewrite E1, (proj2 (Z.eqb_neq k 0)), E1, E2, E3, E4, E5, !Z.eqb_refl by lia.
    cbn [negb orb]. rewrite Hof. by eexists.
Qed.

(** The flags of the frames of the block. *)
Lemma data_flags f : f ∈ data →
  HasFlag (set_block bs f) FlagFECParity = false ∧ HasFlag (set_block bs f) FlagPassSeq = false ∧
  f_session f = sid.
Proof.
  intros Hf. pose proof (do_frames _ _ (bk_data _ _ _ _ _ _ Hblk)) as Hd. rewrite Forall_forall in Hd.
  destruct (Hd f Hf) as (? & ? & ? & _). done.
Qed.

(** The stream part of the key of a frame of the block. *)
Definition path_ok (d : Decoder) (path : string) : Prop :=
  (if CrossPath (dec_params d) then ""%string else path) = sp.

Lemma push_reaches seen d now path f :
  assembling seen d → Enabled (dec_params d) = true → path_ok d path → coded f →
  f_session f = sid → f_block f = bs →
  ∃ st d1, Decoder_Push now path f d = push_block now the_key st f d1 ∧
    holds seen st ∧ cache_ok d1 ∧ flushed_at (stream_of the_key) d1 < bs ∧ dec_params d1 = dec_params d.
Proof.
  intros [Ab Af Ac] He Hp Hf Es Eb. unfold Decoder_Push.
  assert (Ek : key_of path f d = the_key) by (unfold key_of, the_key; by rewrite Es, Eb, Hp).
  assert (E1 : HasFlag f FlagPassSeq && negb (HasFlag f FlagFECParity) = false)
    by (destruct Hf as [->|[-> _]]; [by rewrite andb_false_r|done]).
  assert (E2 : negb (HasFlag f FlagFECParity) && (f_block f =? 0) = false)
    by (rewrite (proj2 (Z.eqb_neq (f_block f) 0)) by lia; apply andb_false_r).
  rewrite E1, He, E2, Ek. cbn [negb].
  destruct Ab as [[-> ->]|(st & -> & Ho & _)].
  - change (the_key.2) with bs. rewrite (proj2 (Z.leb_gt _ _)) by done.
    eexists _, _. split; [done|]. split; [apply holds_new|done].
  - by exists st, d.
Qed.

(** The arrival of the frame at position [i] of the block. *)
Lemma push_frame seen d now path i f :
  assembling seen d → Enabled (dec_params d) = true → path_ok d path →
  block_frames sid bs k p data parity !! i = Some f →
  ∃ out d', Decoder_Push now path f d = Ok (out, d') ∧ dec_params d' = dec_params d ∧
    ((out = [] ∧ assembling ({[i]} ∪ seen) d') ∨
     (out = delivered ∧ closed_block the_key d' ∧ k ≤ Z.of_nat (size ({[i]} ∪ seen)))).
Proof.
  intros Ha He Hp Hi. unfold block_frames in Hi. apply lookup_app_Some in Hi as [Hi|[Hge Hi]].
  - apply list_lookup_fmap_Some in Hi as (g & -> & Hg).
    destruct (data_flags g (list_elem_of_lookup_2 _ _ _ Hg)) as (F1 & F2 & F3).
    destruct (push_reaches seen d now path (set_block bs g) Ha He Hp) as (st & d1 & -> & Ho & Hc & Hf & P1);
      [right; split; [done|cbn; lia]|done|done|].
    unfold push_block. rewrite (ho_open _ _ Ho), F1. cbv zeta. cbn [b_data].
    set (t := if decide _ then _ else _). replace (mkBlock _ _ _ _ _ _ _ t false) with (with_deadline t st)
      by (unfold with_deadline; by rewrite (ho_open _ _ Ho)).
    pose proof (holds_deadline seen st t Ho) as Ho'.
    change (f_seq (set_block bs g)) with (f_seq g). change (f_payload (set_block bs g)) with (f_payload g).
    destruct (b_data st !! f_seq g) as [b|] eqn:Eb.
    + assert (Hin : i ∈ seen) by (apply (ho_seen_data _ _ Ho i g Hg); by eexists).
      destruct (arrival seen (with_deadline t st) d1 Ho' Hc Hf) as (out & d' & E & P & Hor).
      exists out, d'. split; [done|]. split; [congruence|]. by rewrite add_seen.
    + pose proof (holds_add_data seen (with_deadline t st) i g Ho' Hg Eb) as Ho2.
      match goal with |- context [maybeDeliver _ _ (with_blocks (<[_ := _]> (blocks ?x)) _)] => set (d2 := x) end.
      destruct (arrival _ _ d2 Ho2) as (out & d' & E & P & Hor); [exact Hc|exact Hf|].
      exists out, d'. split; [exact E|]. split; [by etrans|done].
  - rewrite length_map in Hge, Hi. rewrite list_lookup_imap in Hi.
    destruct (parity !! (i - length data)%nat) as [s|] eqn:Es; [|done]. injection Hi as <-.
    destruct (push_reaches seen d now path (new_frame FlagFECParity sid 0 bs
      (parity_payload k p (Z.of_nat (i - length data)) (max_len data) data s)) Ha He Hp)
      as (st & d1 & -> & Ho & Hc & Hf & P1); [by left|done|done|].
    unfold push_block. rewrite (ho_open _ _ Ho). cbn [f_payload new_frame].
    change (HasFlag _ FlagFECParity) with true. fold maxl.
    destruct (addParity_ok seen st d1 now _ s Ho Es) as [t ->].
    pose proof (holds_add_parity seen st _ s t Ho Es) as Ho2.
    replace (length data + (i - length data))%nat with i in Ho2 by lia.
    destruct (arrival _ _ d1 Ho2 Hc Hf) as (out & d' & E & P & Hor).
    exists out, d'. split; [exact E|]. split; [by etrans|done].
Qed.

Context `{!RangeOrder blockKey blockState}.

(** An arrival: time, WAN and position of the frame in the block. *)
Definition arrive (frames : list frame) (a : time * string * nat) : dec_op :=
  DPush a.1.1 a.1.2 (nth a.2 frames (new_frame 0 0 0 0 [])).

Lemma closed_arrivals arrivals d :
  Enabled (dec_params d) = true → closed_block the_key d →
  Forall (λ a, (a.2 < length (block_frames sid bs k p data parity))%nat ∧ path_ok d a.1.2) arrivals →
  dec_run (map (arrive (block_frames sid bs k p data parity)) arrivals) d = Ok ([], d).
Proof.
  intros He Hc. induction 1 as [|[[now path] i] l [Hi Hp] _ IH]; [done|]. cbn [map dec_run arrive dec_step fst snd] in *.
  destruct (lookup_lt_is_Some_2 _ i Hi) as [f Hf]. rewrite (nth_lookup_Some _ _ _ _ Hf).
  assert (Hcf : coded f ∧ f_session f = sid ∧ f_block f = bs).
  { unfold block_frames in Hf. apply lookup_app_Some in Hf as [Hf|[_ Hf]].
    - apply list_lookup_fmap_Some in Hf as (g & -> & Hg).
      destruct (data_flags g (list_elem_of_lookup_2 _ _ _ Hg)) as (F1 & F2 & F3).
      split; [right; split; [done|cbn; lia]|done].
    - rewrite list_lookup_imap in Hf. destruct (parity !! _); [|done]. injection Hf as <-. split; [by left|done]. }
  destruct Hcf as (Hcf & Es & Eb).
  rewrite closed_push; [|done|done|unfold key_of; by rewrite Es, Eb, Hp].
  cbn [res_bind fst snd]. rewrite IH. done.
Qed.

Lemma arrivals_run arrivals seen d :
  assembling seen d → Enabled (dec_params d) = true →
  Forall (λ a, (a.2 < length (block_frames sid bs k p data parity))%nat ∧ path_ok d a.1.2) arrivals →
  ∃ out d', dec_run (map (arrive (block_frames sid bs k p data parity)) arrivals) d = Ok (out, d') ∧
    ((out = [] ∧ assembling (list_to_set (map snd arrivals) ∪ seen) d') ∨
     (out = delivered ∧ closed_block the_key d' ∧ k ≤ Z.of_nat (size (list_to_set (map snd arrivals) ∪ seen)))).
Proof.
  intros Ha He Hall. revert seen d Ha He Hall.
  induction arrivals as [|[[now path] i] l IH]; intros seen d Ha He Hall.
  { exists [], d. split; [done|]. left. split; [done|]. cbn. by rewrite union_empty_l_L. }
  apply Forall_cons_1 in Hall as [[Hi Hp] Hall]. cbn [map dec_run arrive dec_step fst snd] in *.
  destruct (lookup_lt_is_Some_2 _ i Hi) as [f Hf]. rewrite (nth_lookup_Some _ _ _ _ Hf).
  destruct (push_frame seen d now path i f Ha He Hp Hf) as (o1 & d1 & -> & P1 & Hor). cbn [res_bind fst snd].
  assert (Hall1 : Forall (λ a, (a.2 < length (block_frames sid bs k p data parity))%nat ∧ path_ok d1 a.1.2) l)
    by (unfold path_ok; by rewrite P1).
  destruct Hor as [[-> Ha1]|(-> & Hc1 & Hn1)].
  - destruct (IH ({[i]} ∪ seen) d1 Ha1) as (out & d' & -> & Hor); [by rewrite P1|done|].
    cbn [res_bind fst snd app]. exists out, d'. split; [done|].
    cbn [list_to_set]. rewrite (union_comm_L {[i]}), <-union_assoc_L. done.
  - rewrite closed_arrivals; [|by rewrite P1|done|done]. cbn [res_bind fst snd].
    exists delivered, d1. rewrite app_nil_r. split; [done|]. right. split_and!; [done|done|].
    etrans; [exact Hn1|]. apply inj_le, subseteq_size. cbn [list_to_set]. by apply union_mono_r, union_subseteq_l.
Qed.
End recovery.

(** ** The guarantee of the FEC layer *)

Section guarantee.
  Context `{ReedSolomon, !RangeOrder Z (list byte), !RangeOrder blockKey blockState}.

(** The positions of the block that arrived. *)
Definition distinct (arrivals : list (time * string * nat)) : gset nat := list_to_set (map snd arrivals).

(** C2 — Any k frames recover the block. When the encoder seals a full block
    (k data frames of one session with distinct seqs and some payload, codec
    (k, p)), the call succeeds, and a decoder on which this block is new
    delivers, for any arrivals of frames of the block, in any order, repeated,
    at any time and (cross-path) over any WANs: exactly the k data frames, in
    order and once, when at least k distinct frames with a parity frame among
    them arrived; and nothing when fewer than k distinct frames did. *)
Theorem fec_recovers e sid rs sp d arrivals :
  let k := DataShards (e_params e) in
  let bs := u32 (e_block e + 1) in
  data_ok sid (e_pending e) → Z.of_nat (length (e_pending e)) = k → 1 ≤ k < 2 ^ 16 →
  e_rsParity e < 2 ^ 16 → e_rs e = Some rs → rs_New k (e_rsParity e) = Some rs → bs ≠ 0 →
  Enabled (dec_params d) = true → blocks d !! (sid, sp, bs) = None →
  flushed_at (sid, sp) d < bs → cache_ok (e_rsParity e) rs d →
  ∃ frames e', emitBlock e = Ok (frames, e') ∧
    (Forall (λ a, (a.2 < length frames)%nat ∧ path_ok sp d a.1.2) arrivals →
     ∃ out d', dec_run (map (arrive frames) arrivals) d = Ok (out, d') ∧
       (k ≤ Z.of_nat (size (distinct arrivals)) → (∃ i, i ∈ distinct arrivals ∧ k ≤ Z.of_nat i) →
        out = map (λ f, new_frame 0 sid (f_seq f) 0 (f_payload f)) (e_pending e)) ∧
       (Z.of_nat (size (distinct arrivals)) < k → out = [])).
Proof.
  intros k bs Hd Hlen Hk Hp Ers Enew Hbs He Hb Hf Hc.
  destruct (emitBlock_frames e sid rs Hd Hlen Hk Hp Ers Enew) as (parity & e' & Hblk & Eemit).
  fold k bs in Hblk, Eemit. set (p := e_rsParity e) in *. set (data := e_pending e) in *.
  eexists _, e'. split; [exact Eemit|]. intros Hall.
  assert (Hbs' : 1 ≤ bs < 2 ^ 32) by (pose proof (u32_range (e_block e + 1)) as Hr; fold bs in Hr; unfold is_u32 in Hr; lia).
  assert (Ha : assembling sid k p bs rs data parity sp ∅ d) by (split; [by left|done|done]).
  destruct (arrivals_run sid k p bs rs data parity sp Hblk Hbs' arrivals ∅ d Ha He Hall)
    as (out & d' & -> & Hor). exists out, d'. split; [done|].
  rewrite union_empty_r_L in Hor. fold (distinct arrivals) in Hor. split.
  - intros Hn (i & Hi & Hki). destruct Hor as [[_ [[[_ E0]|(st & _ & Ho & Hinc)] _ _]]|[-> _]]; [| |done].
    + rewrite E0 in Hi. by apply elem_of_empty in Hi.
    + exfalso. destruct Ho as [_ _ _ _ _ _ PS SZ]. specialize (PS i Hi ltac:(lia)).
      destruct Hinc as [?|?]; [done|lia].
  - intros Hlt. destruct Hor as [[-> _]|(_ & _ & ?)]; [done|lia].
Qed.
End guarantee.

(** ** A concrete block under the single-parity code *)

#[local] Instance payload_order : RangeOrder Z (list byte) := key_order Z (list byte).
#[local] Instance block_order : RangeOrder blockKey blockState := key_order blockKey blockState.

(** An encoder about to seal a block of three frames. *)
Definition full_encoder : Encoder :=
  with_pending [data_frame 11 [x01; x02]; data_frame 12 [xaa; xbb; xcc]; data_frame 13 []] (xor_encoder None).

Definition fresh_decoder : Decoder := NewDecoder (xor_params None).

(** The second data frame is lost; the others come out of order, one twice. *)
Definition lossy_arrivals : list (time * string * nat) :=
  [(1, "wan1", 2%nat); (2, "wan1", 3%nat); (3, "wan1", 2%nat); (4, "wan1", 0%nat)]%string.

Lemma fec_recovers_witness :
  ∃ frames e', emitBlock full_encoder = Ok (frames, e') ∧
    (Forall (λ a, (a.2 < length frames)%nat ∧ path_ok "wan1" fresh_decoder a.1.2) lossy_arrivals →
     ∃ out d', dec_run (map (arrive frames) lossy_arrivals) fresh_decoder = Ok (out, d') ∧
       (3 ≤ Z.of_nat (size (distinct lossy_arrivals)) → (∃ i, i ∈ distinct lossy_arrivals ∧ 3 ≤ Z.of_nat i) →
        out = map (λ f, new_frame 0 7 (f_seq f) 0 (f_payload f)) (e_pending full_encoder)) ∧
       (Z.of_nat (size (distinct lossy_arrivals)) < 3 → out = [])).
Proof.
  apply (fec_recovers full_encoder 7 3 "wan1" fresh_decoder lossy_arrivals).
  - split.
    + repeat (constructor; [split; [reflexivity|split; [reflexivity|split; [reflexivity|split; split; vm_compute; congruence]]]|]).
      constructor.
    + apply (bool_decide_unpack _). vm_compute. exact I.
    + vm_compute. reflexivity.
  - reflexivity.
  - cbn. lia.
  - cbn. lia.
  - reflexivity.
  - reflexivity.
  - vm_compute. discriminate.
  - reflexivity.
  - reflexivity.
  - vm_compute. reflexivity.
  - intros rs' E. vm_compute in E. discriminate E.
Defined.

(** The arrivals meet the premises, and the run delivers. *)
Example lossy_block_delivered :
  match emitBlock full_encoder with
  | Ok (frames, _) =>
      match dec_run (map (arrive frames) lossy_arrivals) fresh_decoder with
      | Ok (out, _) => out = [new_frame 0 7 11 0 [x01; x02]; new_frame 0 7 12 0 [xaa; xbb; xcc]; new_frame 0 7 13 0 []]
      | _ => False
      end
  | _ => False
  end.
Proof. vm_compute. reflexivity. Qed.

Lemma flushed_block_silent_witness :
  let d1 := (flush (7, "wan1"%string, 5) new_block fresh_decoder).2 in
  ∃ out d', dec_run [DTick 9; DPush 9 "wan1" (new_frame 0 7 50 6 [x02])] d1 = Ok (out, d') ∧
    Decoder_Push 10 "wan1" (new_frame 0 7 40 4 [x01]) d' = Ok ([], d').
Proof.
  assert (Hok : match dec_run [DTick 9; DPush 9 "wan1" (new_frame 0 7 50 6 [x02])]
      (flush (7, "wan1"%string, 5) new_block fresh_decoder).2 with
    | Ok r => bool_decide (key_of "wan1" (new_frame 0 7 40 4 [x01]) r.2 = (7, "wan1"%string, 4))
    | _ => false end = true) by (vm_compute; reflexivity).
  destruct (dec_run _ _) as [[out d']| |] eqn:E; [|discriminate Hok..]. apply bool_decide_eq_true in Hok.
  exists out, d'. split; [exact E|].
  apply (flushed_block_silent (7, "wan1"%string, 5) new_block fresh_decoder
    [DTick 9; DPush 9 "wan1" (new_frame 0 7 50 6 [x02])] out _ 4);
    [cbn; lia|vm_compute; reflexivity|exact E|reflexivity|right; split; [reflexivity|discriminate]|exact Hok].
Defined.

(** A parity frame of two data frames whose second length field, 65535, is beyond
    its own shard length of one byte. *)
Definition overlong_parity : frame :=
  new_frame FlagFECParity 7 0 1
    [x00; x02; x00; x00; x00; x01; x00; x01;
     x00; x00; x00; x01; x00; x00; x00; x02;
     x00; x01; xff; xff; xaa].

(** [addParity] does not compare the length fields with the shard length, and
    the reconstruction slices beyond the shard it got. *)
Example overlong_parity_panics :
  match dec_run [DPush 1 "wan1" (new_frame 0 7 1 1 [x01]); DPush 2 "wan1" overlong_parity] fresh_decoder with
  | Panic => true
  | _ => false
  end = true.
Proof. vm_compute. reflexivity. Qed.

(** ** Frames of another path

    The encoders of two WANs number their blocks alike, and the server takes the
    path of a frame from the source address of its datagram, which is not sealed.
    A parity frame of the second WAN that arrives under the address of the first
    replaces the parity shard of the first block, and the reconstruction yields
    a datagram that nobody sent. *)
Definition wan1_encoder : Encoder :=
  with_pending [data_frame 11 [x01; x02]; data_frame 13 [x03; x04]; data_frame 15 [x05; x06]] (xor_encoder None).
Definition wan2_encoder : Encoder :=
  with_pending [data_frame 12 [x11; x12]; data_frame 14 [x17; x18]; data_frame 16 [x15; x26]] (xor_encoder None).

Definition emitted (e : Encoder) : list frame := match emitBlock e with Ok (fs, _) => fs | _ => [] end.

(** What an arrival of the k-th frame of an encoder on the first path is. *)
Definition on_wan1 (now : time) (e : Encoder) (k : nat) : dec_op :=
  DPush now "wan1" (nth k (emitted e) (data_frame 0 [])).

Example rerouted_parity_forges :
  match dec_run [on_wan1 1 wan1_encoder 3; on_wan1 2 wan2_encoder 3; on_wan1 3 wan1_encoder 0; on_wan1 4 wan1_encoder 1]
          fresh_decoder with
  | Ok (out, _) =>
      map f_payload out = [[x01; x02]; [x03; x04]; [x11; x2a]] ∧
      existsb (λ f, bool_decide (f_payload f = [x11; x2a])) (emitted wan1_encoder ++ emitted wan2_encoder) = false
  | _ => False
  end.
Proof. vm_compute. split; reflexivity. Qed.

(** ** The codec cache

    [rsFor] caches codecs by the number of parity shards alone. A parity frame
    of another session (8, in the stream of its own), for one data shard, is
    complete at once and leaves its codec in the cache; the block of session 7,
    which has the same number of parity shards, is then not recovered. *)
Definition one_shard_parity : frame :=
  new_frame FlagFECParity 8 0 1
    [x00; x01; x00; x00; x00; x01; x00; x01;  x00; x00; x00; x01;  x00; x01;  xaa].

Example codec_cache_poisoned :
  let block := [on_wan1 2 wan1_encoder 0; on_wan1 3 wan1_encoder 1; on_wan1 4 wan1_encoder 3] in
  let payloads ops := match dec_run ops fresh_decoder with Ok (out, _) => Some (map f_payload out) | _ => None end in
  payloads block = Some [[x01; x02]; [x03; x04]; [x05; x06]] ∧
  payloads (DPush 1 "wan9" one_shard_parity :: block) = Some [[xaa]].
Proof. vm_compute. split; reflexivity. Qed.
