(* ===== verification/FecStreams.v ===== *)
(** * Coded streams over a lossy network (internal/fec/fec.go)

    Any number of encoders, each with its own stream (a session and a path),
    feed one decoder over a network that loses, repeats and reorders frames
    across blocks and streams, while the decoder flushes expired blocks. Every
    datagram the decoder hands out was pushed into the encoder of its stream,
    and none is handed out twice. *)

From S2P Require Import Prelude Float64 Frame FecCodec FecEncoder FecDecoder FecRecovery.

#[local] Open Scope Z_scope.

(** ** Auxiliary *)

Lemma insert_back_perm x l : insert_back x l ≡ₚ x :: l.
Proof.
  induction l as [|y l IH]; cbn [insert_back]; [done|]. destruct (x <? y); [|done].
  rewrite IH. apply Permutation_swap.
Qed.

Lemma sortUint32_perm l : sortUint32 l ≡ₚ l.
Proof.
  unfold sortUint32. rewrite <-Permutation_rev.
  assert (H : ∀ acc, foldl (λ l x, insert_back x l) acc l ≡ₚ l ++ acc).
  { induction l as [|x l IH]; intros acc; cbn [foldl app]; [done|].
    rewrite IH, insert_back_perm. by rewrite Permutation_middle. }
  by rewrite H, app_nil_r.
Qed.

Lemma submseteq_NoDup {A} (l P : list A) : NoDup P → l ⊆+ P → NoDup l.
Proof. intros Hn [r E]%submseteq_Permutation. rewrite E in Hn. by apply NoDup_app in Hn as [? _]. Qed.

(** The frame of a payload, as the decoder hands it on. *)
Definition handed (sid : Z) (f : frame) : frame := new_frame 0 sid (f_seq f) 0 (f_payload f).

(** [m] holds payloads of [data] under their seqs. *)
Definition payloads_of (data : list frame) (m : gmap Z (list byte)) : Prop :=
  ∀ s x, m !! s = Some x → ∃ f, f ∈ data ∧ s = f_seq f ∧ x = f_payload f.

Lemma emit_frames_sound sid data m seqs :
  payloads_of data m →
  ∃ fs, emit_frames sid m seqs = map (handed sid) fs ∧ map f_seq fs `sublist_of` seqs ∧ ∀ f, f ∈ fs → f ∈ data.
Proof.
  intros Hm. induction seqs as [|s seqs (fs & E & Hs & Hin)].
  { exists []. split_and!; [done|constructor|by intros ? ?%elem_of_nil]. }
  unfold emit_frames in *. cbn [omap list_omap]. destruct (m !! s) as [x|] eqn:Ex; cbn [mbind option_bind].
  - destruct (Hm s x Ex) as (f & Hf & -> & ->). exists (f :: fs). cbn [map]. split_and!.
    + by rewrite E.
    + by apply sublist_skip.
    + intros g [->|Hg]%elem_of_cons; auto.
  - exists fs. split_and!; [done|by apply sublist_cons|done].
Qed.

(** ** What is sent in a block *)

(** The data frames and the parity shards of a block; a block flushed short has
    no parity. *)
Definition block : Type := list frame * list shard.

Section streams.
  Context `{ReedSolomon, !RangeOrder Z (list byte), !RangeOrder blockKey blockState}.
  (** The number of data shards of all streams, the decoder's parameters and the
      blocks that were sent. *)
  Context (k : Z) (pd : Params) (book : blockKey → option block).

Definition block_sound (sid : Z) (b : block) : Prop :=
  data_ok sid b.1 ∧ (b.2 = [] ∨ ∃ rs, block_ok sid k (Z.of_nat (length b.2)) rs b.1 b.2).

(** The frames of a block on the wire. *)
Definition frames_of (key : blockKey) (b : block) : list frame :=
  block_frames key.1.1 key.2 k (Z.of_nat (length b.2)) b.1 b.2.

(** What the decoder may hold of it. *)
Definition fits (b : block) (st : blockState) : Prop :=
  payloads_of b.1 (b_data st) ∧ b_flushed st = false ∧
  ((b.2 = [] ∧ b_k st = 0 ∧ b_seqs st = []) ∨
   (b.2 ≠ [] ∧ ∃ seen, holds k (Z.of_nat (length b.2)) b.1 b.2 seen st)).

Definition codecs_ok (d : Decoder) : Prop := ∀ p rs, rsByParity d !! p = Some rs → rs_New k p = Some rs.

Lemma fits_seqs b st : fits b st → b_seqs st = [] ∨ b_seqs st = seqs_of b.1.
Proof.
  intros (_ & _ & [(_ & _ & ->)|(_ & seen & Ho)]); [by left|].
  destruct (ho_header _ _ _ _ _ _ Ho) as [(_ & _ & ->)|[_ Hh]]; [by left|right; apply Hh].
Qed.

Lemma fits_k b st : fits b st → b_k st = 0 ∨ b_k st = k.
Proof.
  intros (_ & _ & [(_ & -> & _)|(_ & seen & Ho)]); [by left|].
  destruct (ho_header _ _ _ _ _ _ Ho) as [(_ & -> & _)|[_ Hh]]; [by left|right; apply Hh].
Qed.

Lemma holds_fits b seen st :
  b.2 ≠ [] → holds k (Z.of_nat (length b.2)) b.1 b.2 seen st → fits b st.
Proof.
  intros Hp Ho. split; [|split; [apply Ho|right; split; [done|by exists seen]]].
  intros s x Hx. eapply data_map_inv, lookup_weaken; [exact Hx|apply Ho].
Qed.

Lemma fits_new b : fits b new_block.
Proof.
  destruct (decide (b.2 = [])) as [E|E]; [|by eapply holds_fits, holds_new].
  split; [intros s x; cbn; by rewrite lookup_empty|]. split; [done|by left].
Qed.

(** ** What delivery does to the decoder *)

Lemma flush_fields key st d :
  blocks (flush key st d).2 = delete key (blocks d) ∧ rsByParity (flush key st d).2 = rsByParity d.
Proof.
  unfold flush. cbn [snd blocks rsByParity with_blocks].
  destruct (book_lost_fields key st (mark_flushed key d)) as (-> & _ & _ & ->).
  by destruct (mark_flushed_fields key d) as [-> ->].
Qed.

(** [d'] comes from [d] by opening or changing nothing but, possibly, deleting
    the block [key]. *)
Record delivers (key : blockKey) (d d' : Decoder) : Prop := {
  dl_blocks : blocks d' = blocks d ∨ blocks d' = delete key (blocks d);
  dl_codecs : codecs_ok d → codecs_ok d';
}.

Lemma codecs_cached p d : codecs_ok d → ∀ rs, rs_New k p = Some rs → cache_ok p rs d.
Proof. intros Hc rs Hrs rs' E%Hc. congruence. Qed.

Lemma maybeDeliver_delivers key b st d out d' :
  fits b st → maybeDeliver key st d = Ok (out, d') → delivers key d d'.
Proof.
  intros Hf. unfold maybeDeliver. destruct (Z.eqb_spec (b_k st) 0) as [E0|E0]; [intros [= _ <-]; split; auto|].
  destruct (_ <? _); [intros [= _ <-]; split; auto|].
  assert (Hk : b_k st = k) by (destruct (fits_k b st Hf); [done|done]).
  assert (Hfl : ∀ st d d1, blocks d1 = blocks d → (codecs_ok d → codecs_ok d1) → delivers key d (flush key st d1).2).
  { intros st' d0 d1 E Hc. destruct (flush_fields key st' d1) as [F1 F2]. split; [right; by rewrite F1, E|].
    intros Hd p rs. rewrite F2. by apply Hc. }
  destruct (_ =? _).
  { intros E. assert (E' : flush key st d = (out, d')) by congruence.
    replace d' with (flush key st d).2 by (by rewrite E'). by apply Hfl. }
  unfold reconstruct. set (x := rsFor (b_k st) (b_p st) d).
  assert (Hx : blocks x.2 = blocks d ∧ (codecs_ok d → codecs_ok x.2)).
  { unfold x, rsFor. destruct (rsByParity d !! b_p st) as [rs|] eqn:Er; [done|].
    destruct (rs_New (b_k st) (b_p st)) as [rs|] eqn:En; [|done]. split; [done|]. intros Hc p rs'. cbn.
    rewrite lookup_insert_Some. intros [[<- <-]|[_ ?]]; [by rewrite <-Hk|by apply Hc]. }
  destruct x as [o d1]. cbn [fst snd] in Hx. destruct Hx as [Hb Hc].
  assert (Hsame : delivers key d d1) by (split; [by left|done]).
  destruct o as [rs|]; [|by intros [= _ <-]]. destruct (rs_Reconstruct rs _); [|by intros [= _ <-]].
  intros (r & _ & E)%bind_Ok.
  assert (E' : flush key (set_data r.1 st) (with_recovered r.2 d1) = (out, d')) by congruence.
  replace d' with (flush key (set_data r.1 st) (with_recovered r.2 d1)).2 by (by rewrite E').
  by apply Hfl.
Qed.

(** ** One arrival *)

Lemma fits_deadline b t st : fits b st → fits b (with_deadline t st).
Proof.
  intros (Hm & Hf & Hc). split; [done|]. split; [done|].
  destruct Hc as [?|(Hp & seen & Ho)]; [by left|right]. split; [done|]. exists seen. by apply holds_deadline.
Qed.

Lemma fits_add_data sid b st f :
  block_sound sid b → fits b st → f ∈ b.1 → b_data st !! f_seq f = None →
  fits b (set_data (<[f_seq f := f_payload f]> (b_data st)) st).
Proof.
  intros [_ Hb] (Hm & Hfl & Hc) Hf Hn. destruct Hc as [Hc|(Hp & seen & Ho)].
  - split; [|split; [done|by left]]. intros s x. cbn. rewrite lookup_insert_Some.
    intros [[<- <-]|[_ ?]]; [by exists f|by apply Hm].
  - destruct Hb as [?|[rs Hb]]; [done|]. apply list_elem_of_lookup in Hf as [i Hi].
    eapply holds_fits; [done|]. by eapply holds_add_data.
Qed.

(** Storing a frame delivers the whole block or nothing. *)
Lemma deliver_all_or_nothing key b st d :
  block_sound key.1.1 b → fits b st →
  (∀ rs, rs_New k (Z.of_nat (length b.2)) = Some rs → cache_ok (Z.of_nat (length b.2)) rs d) →
  blocks d !! key = Some st →
  ∃ out d', maybeDeliver key st d = Ok (out, d') ∧ dec_params d' = dec_params d ∧
    ((out = [] ∧ d' = d) ∨
     (out = map (handed key.1.1) b.1 ∧ closed_block key d' ∧ blocks d' = delete key (blocks d))).
Proof.
  intros [_ Hb] Hf Hc Hkey. destruct key as [[sid sp] bs]. cbn [fst snd] in *.
  pose proof Hf as (_ & _ & [(_ & Hk & _)|(Hp & seen & Ho)]).
  { exists [], d. unfold maybeDeliver. rewrite Hk. split_and!; [done|done|by left]. }
  destruct Hb as [?|[rs Hb]]; [done|].
  pose proof (Hc _ (bk_new _ _ _ _ _ _ Hb)) as Hcache.
  assert (Hdec : incomplete k st ∨ (b_parity st ≠ ∅ ∧ k ≤ Z.of_nat (size (b_data st) + size (b_parity st)))).
  { unfold incomplete. destruct (decide (b_parity st = ∅)); [by left; left|].
    destruct (Z_lt_le_dec (Z.of_nat (size (b_data st) + size (b_parity st))) k); [by left; right|by right]. }
  destruct Hdec as [Hi|[Hne Hn]].
  - exists [], d. split; [by eapply (deliver_incomplete sid _ _ bs rs _ _ sp)|]. split; [done|by left].
  - destruct (deliver_complete sid _ _ bs rs _ _ sp Hb seen st d Ho Hne Hn Hcache) as (d' & E & C & P).
    exists (map (handed sid) b.1), d'. split; [exact E|]. split; [done|]. right. split; [done|]. split; [exact C|].
    destruct (maybeDeliver_delivers _ _ _ _ _ _ Hf E) as [[Hd|Hd] _]; [|exact Hd].
    destruct C as [C _]. rewrite Hd in C. exfalso. change (blocks d !! (sid, sp, bs) = None) in C.
    by rewrite C in Hkey.
Qed.

(** The state after an arrival on the block [key]: it goes on, or it was
    delivered as a whole and is closed. *)
Definition arrived (key : blockKey) (b : block) (d : Decoder) (out : list frame) (d' : Decoder) : Prop :=
  dec_params d' = dec_params d ∧ codecs_ok d' ∧ (∀ sk, flushed_at sk d ≤ flushed_at sk d') ∧
  ((out = [] ∧ ∃ st, fits b st ∧ blocks d' = <[key := st]> (blocks d)) ∨
   (out = map (handed key.1.1) b.1 ∧ closed_block key d' ∧ blocks d' = delete key (blocks d))).

Lemma stored_arrived key b st d d1 :
  block_sound key.1.1 b → fits b st → codecs_ok d →
  dec_params d1 = dec_params d → rsByParity d1 = rsByParity d → lastFlushed d1 = lastFlushed d → blocks d1 = blocks d →
  ∃ out d', maybeDeliver key st (with_blocks (<[key := st]> (blocks d1)) d1) = Ok (out, d') ∧ arrived key b d out d'.
Proof.
  intros Hb Hf Hc E1 E2 E3 E4. set (d2 := with_blocks _ d1).
  assert (Hc2 : codecs_ok d2) by (intros p rs; cbn; rewrite E2; apply Hc).
  destruct (deliver_all_or_nothing key b st d2 Hb Hf (codecs_cached _ _ Hc2)) as (out & d' & E & P & Hor); [apply lookup_insert_eq|].
  exists out, d'. split; [done|]. split; [by rewrite P|].
  split; [by eapply dl_codecs; [eapply maybeDeliver_delivers|]|]. split.
  { intros sk. destruct (maybeDeliver_extends _ _ _ _ _ E) as [_ F _]. etrans; [|apply F].
    unfold flushed_at. cbn. by rewrite E3. }
  destruct Hor as [[-> ->]|(-> & C & D)].
  - left. split; [done|]. exists st. by cbn; rewrite E4.
  - right. split_and!; [done|done|]. rewrite D. cbn. by rewrite E4, delete_insert_eq.
Qed.

(** A frame of the block is stored in it, and the block is delivered if it is complete. *)
Lemma push_block_stores now key b st f d :
  block_sound key.1.1 b → 1 ≤ key.2 < 2 ^ 32 → fits b st → f ∈ frames_of key b →
  ∃ st' d1, push_block now key st f d = maybeDeliver key st' (with_blocks (<[key := st']> (blocks d1)) d1) ∧
    fits b st' ∧ dec_params d1 = dec_params d ∧ rsByParity d1 = rsByParity d ∧ lastFlushed d1 = lastFlushed d ∧
    blocks d1 = blocks d.
Proof.
  intros Hb Hbs Hf Hin. pose proof Hf as (_ & Hopen & _). unfold push_block. rewrite Hopen.
  unfold frames_of, block_frames in Hin. apply elem_of_app in Hin as [Hin|Hin].
  - apply list_elem_of_fmap in Hin as (g & -> & Hg). destruct Hb as [Hd Hp]. pose proof (do_frames _ _ Hd) as Hfl.
    rewrite Forall_forall in Hfl. destruct (Hfl g Hg) as (_ & Hpar & _).
    change (HasFlag (set_block _ g) FlagFECParity) with (HasFlag g FlagFECParity). rewrite Hpar. cbv zeta.
    change (f_seq (set_block _ g)) with (f_seq g). change (f_payload (set_block _ g)) with (f_payload g).
    set (t := if decide _ then _ else _). cbn [b_data]. rewrite <-Hopen. fold (with_deadline t st).
    pose proof (fits_deadline b t st Hf) as Hf'.
    destruct (b_data st !! f_seq g) eqn:Es.
    + eexists _, d. split; [done|]. by split_and!.
    + eexists _, _. split; [done|]. split_and!; [|done..].
      exact (fits_add_data key.1.1 b (with_deadline t st) g (conj Hd Hp) Hf' Hg Es).
  - apply list_elem_of_lookup in Hin as [j Hj]. rewrite list_lookup_imap in Hj.
    destruct (b.2 !! j) as [s|] eqn:Es; [|done]. injection Hj as <-.
    change (HasFlag _ FlagFECParity) with true. cbn [f_payload new_frame].
    assert (Hp : b.2 ≠ []) by (intros E; by rewrite E in Es).
    pose proof Hb as [_ [?|[rs Hok]]]; [done|]. destruct Hf as (_ & _ & [[? _]|(_ & seen & Ho)]); [done|].
    destruct (addParity_ok _ _ _ key.2 rs _ _ Hok Hbs seen st d now j s Ho Es) as [t Et].
    unfold maxl in Et. rewrite Et. eexists _, d. split; [done|]. split_and!; [|done..].
    eapply holds_fits; [done|]. by eapply holds_add_parity.
Qed.

Lemma push_block_arrived now key b st f d :
  block_sound key.1.1 b → 1 ≤ key.2 < 2 ^ 32 → fits b st → f ∈ frames_of key b → codecs_ok d →
  ∃ out d', push_block now key st f d = Ok (out, d') ∧ arrived key b d out d'.
Proof.
  intros Hb Hbs Hf Hin Hc.
  destruct (push_block_stores now key b st f d Hb Hbs Hf Hin) as (st' & d1 & -> & Hf' & E1 & E2 & E3 & E4).
  by apply stored_arrived.
Qed.

(** ** What was handed out so far *)

Context (Hbook : ∀ key b, book key = Some b → block_sound key.1.1 b ∧ 1 ≤ key.2 < 2 ^ 32).
Context (Hon : Enabled pd = true).

Definition hand (x : blockKey * frame) : frame := handed x.1.1.1 x.2.

(** [D] are the data frames delivered out of blocks, each with its block. *)
Record tracks (D : list (blockKey * frame)) (d : Decoder) : Prop := {
  tr_params : dec_params d = pd;
  tr_blocks : ∀ key st, blocks d !! key = Some st → ∃ b, book key = Some b ∧ fits b st;
  tr_codecs : codecs_ok d;
  tr_once : NoDup D;
  tr_done : ∀ key f, (key, f) ∈ D → closed_block key d ∧ ∃ b, book key = Some b ∧ f ∈ b.1;
}.

Lemma tracks_mono D d d' :
  tracks D d → dec_params d' = dec_params d → codecs_ok d' → (∀ sk, flushed_at sk d ≤ flushed_at sk d') →
  (∀ key st, blocks d' !! key = Some st →
     blocks d !! key = Some st ∨ (¬ closed_block key d ∧ ∃ b, book key = Some b ∧ fits b st)) →
  tracks D d'.
Proof.
  intros [P B _ N Dn] Hp Hc Hf Hb. split; [congruence| |done|done|].
  - intros key st Hk. destruct (Hb key st Hk) as [?|[_ ?]]; [by apply B|done].
  - intros key f Hin. destruct (Dn key f Hin) as [C Hbk]. split; [|done]. split.
    + destruct (blocks d' !! key) as [st|] eqn:E; [|done]. exfalso.
      destruct (Hb key st E) as [E'|[E' _]]; [destruct C; congruence|done].
    + destruct C as [_ C]. etrans; [exact C|apply Hf].
Qed.

Lemma tracks_deliver D d d' key b fs :
  tracks D d → dec_params d' = dec_params d → codecs_ok d' → (∀ sk, flushed_at sk d ≤ flushed_at sk d') →
  blocks d' = delete key (blocks d) → closed_block key d' → ¬ closed_block key d →
  book key = Some b → NoDup fs → (∀ f, f ∈ fs → f ∈ b.1) →
  tracks (D ++ map (pair key) fs) d'.
Proof.
  intros Ht Hp Hc Hf Hb Hcl Hno Hbk Hnd Hin.
  destruct (tracks_mono D d d' Ht Hp Hc Hf) as [P B C N Dn].
  { intros key' st. rewrite Hb. intros E%lookup_delete_Some. left. apply E. }
  split; [done|done|done| |].
  - apply NoDup_app. split_and!; [done| |].
    + intros [key' f] H1 (g & [= -> ->] & _)%list_elem_of_fmap. apply Hno, (tr_done _ _ Ht _ _ H1).
    + by apply (NoDup_fmap_2 (pair key)).
  - intros key' f [H1|H1]%elem_of_app; [by apply Dn|].
    apply list_elem_of_fmap in H1 as (g & [= -> ->] & Hg). split; [done|]. exists b. auto.
Qed.

Lemma map_hand key fs : map hand (map (pair key) fs) = map (handed key.1.1) fs.
Proof. by rewrite map_map. Qed.

Lemma open_not_closed key st d : blocks d !! key = Some st → ¬ closed_block key d.
Proof. intros E [E' _]. congruence. Qed.

Lemma tracks_same D d d' :
  tracks D d → dec_params d' = dec_params d → blocks d' = blocks d → rsByParity d' = rsByParity d →
  lastFlushed d' = lastFlushed d → tracks D d'.
Proof.
  intros Ht E1 E2 E3 E4. eapply tracks_mono; [exact Ht|done| | |].
  - intros p rs. rewrite E3. apply Ht.
  - intros sk. unfold flushed_at. by rewrite E4.
  - intros key st. rewrite E2. by left.
Qed.

(** Flushing an open block. *)
Lemma flush_sound key b st d :
  data_ok key.1.1 b.1 → fits b st →
  ∃ fs, (flush key st d).1 = map (handed key.1.1) fs ∧ NoDup fs ∧ ∀ f, f ∈ fs → f ∈ b.1.
Proof.
  intros Hd Hf. unfold flush. cbn [fst]. set (seqs := match b_seqs st with [] => _ | _ => _ end).
  assert (Hnd : NoDup seqs).
  { assert (Hkeys : NoDup (sortUint32 (map fst (range (b_data st))))).
    { rewrite sortUint32_perm. change (NoDup ((range (b_data st)).*1)). rewrite range_perm.
      apply NoDup_fst_map_to_list. }
    pose proof (do_nodup _ _ Hd) as Hs. unfold seqs. destruct (fits_seqs _ _ Hf) as [->| ->]; [done|].
    by destruct (seqs_of b.1). }
  destruct (emit_frames_sound key.1.1 b.1 (b_data st) seqs) as (fs & Efs & Hsub & Hin); [apply Hf|].
  exists fs. split; [done|]. split; [|done]. apply (NoDup_fmap_1 f_seq). by eapply sublist_NoDup.
Qed.

Lemma flush_tracks D d key st :
  tracks D d → blocks d !! key = Some st →
  ∃ E, (flush key st d).1 = map hand E ∧ tracks (D ++ E) (flush key st d).2 ∧
    blocks (flush key st d).2 = delete key (blocks d).
Proof.
  intros Ht Hk. destruct (tr_blocks _ _ Ht _ _ Hk) as (b & Hb & Hf). destruct (flush_fields key st d) as [F1 F2].
  destruct (Hbook _ _ Hb) as [[Hd _] _]. destruct (flush_extends key st d) as [E1 E2 _].
  destruct (flush_sound key b st d Hd Hf) as (fs & Efs & Hnd & Hin).
  exists (map (pair key) fs). rewrite map_hand, Efs. split_and!; [done| |done].
  eapply tracks_deliver; [done|done| |done|done|apply flush_closes|by eapply open_not_closed|done|done|done].
  intros p rs. rewrite F2. apply Ht.
Qed.

(** Flushing several of them, as [Tick] does. *)
Lemma flush_loop_tracks now l D d acc :
  tracks D d → NoDup l.*1 → (∀ key st, (key, st) ∈ l → blocks d !! key = Some st) →
  ∃ E d', foldl (λ od kst,
      if b_flushed kst.2 || (now <? b_deadline kst.2) then od
      else let '(o, d) := flush kst.1 kst.2 od.2 in (od.1 ++ o, d)) (acc, d) l = (acc ++ map hand E, d') ∧
    tracks (D ++ E) d'.
Proof.
  revert D d acc. induction l as [|[key st] l IH]; intros D d acc Ht Hnd Hl; cbn [foldl fst snd].
  { exists [], d. by rewrite !app_nil_r. }
  cbn [fmap list_fmap fst] in Hnd. apply NoDup_cons in Hnd as [Hnot Hnd].
  destruct (b_flushed st || _).
  { apply IH; [done|done|]. intros ???. apply Hl. by right. }
  destruct (flush_tracks D d key st Ht) as (E1 & Eo & Ht1 & Hb1); [apply Hl; by left|].
  destruct (flush key st d) as [o1 d1]. cbn [fst snd] in *.
  destruct (IH (D ++ E1) d1 (acc ++ o1) Ht1 Hnd) as (E2 & d2 & Ef & Ht2).
  { intros key' st' Hin. rewrite Hb1, lookup_delete_ne; [apply Hl; by right|].
    intros ->. apply Hnot. exact (list_elem_of_fmap_2 fst l (key', st') Hin). }
  exists (E1 ++ E2), d2. rewrite map_app, Ef, Eo. by rewrite !app_assoc.
Qed.

Lemma tick_tracks now D d :
  tracks D d → ∃ E d', Decoder_Tick now d = (map hand E, d') ∧ tracks (D ++ E) d'.
Proof.
  intros Ht. unfold Decoder_Tick. set (d1 := flushPathGaps now d).
  assert (Ht1 : tracks D d1) by (by apply (tracks_same D d)).
  change (dec_params d1) with (dec_params d). rewrite (tr_params _ _ Ht), Hon. cbn [negb].
  destruct (flush_loop_tracks now (range (blocks d1)) D d1 [] Ht1) as (E & d' & -> & Ht').
  - rewrite range_perm. apply NoDup_fst_map_to_list.
  - intros key st. by rewrite elem_of_range.
  - by exists E, d'.
Qed.

(** Frames without a block, which are handed on as they come. *)
Definition uncoded (f : frame) : bool :=
  (HasFlag f FlagPassSeq || (f_block f =? 0)) && negb (HasFlag f FlagFECParity).

(** The key under which the decoder files a frame. *)
Definition filed (path : string) (f : frame) : blockKey :=
  (f_session f, if CrossPath pd then ""%string else path, f_block f).

(** A frame that arrives has no block, or it is one of the frames of its block. *)
Definition arrival_ok (o : dec_op) : Prop :=
  match o with
  | DPush _ path f => uncoded f = true ∨ ∃ b, book (filed path f) = Some b ∧ f ∈ frames_of (filed path f) b
  | _ => True
  end.

Definition uncoded_of (ops : list dec_op) : list frame :=
  flat_map (λ o, match o with DPush _ _ f => if uncoded f then [f] else [] | _ => [] end) ops.

Lemma arrived_tracks D d d1 key b out d' :
  tracks D d → book key = Some b → ¬ closed_block key d → arrived key b d1 out d' →
  dec_params d1 = dec_params d → lastFlushed d1 = lastFlushed d →
  (∀ st, <[key := st]> (blocks d1) = <[key := st]> (blocks d)) → delete key (blocks d1) = delete key (blocks d) →
  ∃ E, out = map hand E ∧ tracks (D ++ E) d'.
Proof.
  intros Ht Hb Hno (Hp & Hc & Hf & Hor) E1 E2 E3 E4.
  assert (Hf' : ∀ sk, flushed_at sk d ≤ flushed_at sk d').
  { intros sk. etrans; [|apply Hf]. unfold flushed_at. by rewrite E2. }
  destruct Hor as [[-> (st & Hst & Hbl)]|(-> & Hcl & Hbl)].
  - exists []. rewrite app_nil_r. split; [done|]. eapply tracks_mono; [exact Ht|congruence|done|done|].
    intros key' st'. rewrite Hbl, E3. intros [[<- <-]|[Hne ?]]%lookup_insert_Some; [right|by left].
    split; [done|]. by exists b.
  - exists (map (pair key) b.1). split; [by rewrite map_hand|].
    eapply tracks_deliver; [done|congruence|done|done|by rewrite Hbl|done|done|done| |done].
    destruct (Hbook _ _ Hb) as [[Hd _] _]. apply (NoDup_fmap_1 f_seq), Hd.
Qed.

Lemma push_tracks now path f D d :
  tracks D d → arrival_ok (DPush now path f) →
  ∃ E out d', Decoder_Push now path f d = Ok (out, d') ∧
    out = uncoded_of [DPush now path f] ++ map hand E ∧ tracks (D ++ E) d'.
Proof.
  intros Ht Harr. unfold Decoder_Push, key_of. rewrite (tr_params _ _ Ht), Hon. fold (filed path f).
  cbn [uncoded_of flat_map negb]. rewrite app_nil_r.
  destruct (uncoded f) eqn:Eu; unfold uncoded in Eu.
  { apply andb_true_iff in Eu as [E1 E2]. rewrite E2. cbn [andb]. rewrite andb_true_r.
    destruct (HasFlag f FlagPassSeq); cbn [orb] in E1.
    - eexists [], _, _. split; [done|]. split; [done|]. rewrite app_nil_r.
      unfold observePathSeq. destruct (observe_raw _ _ _); [by apply (tracks_same D d)|done].
    - rewrite E1. eexists [], _, _. split; [done|]. split; [done|]. by rewrite app_nil_r. }
  destruct Harr as [?|(b & Hb & Hin)]; [by unfold uncoded in *; congruence|].
  assert (E1 : HasFlag f FlagPassSeq && negb (HasFlag f FlagFECParity) = false ∧
    negb (HasFlag f FlagFECParity) && (f_block f =? 0) = false).
  { by destruct (HasFlag f FlagPassSeq), (f_block f =? 0), (HasFlag f FlagFECParity). }
  destruct E1 as [-> ->]. destruct (Hbook _ _ Hb) as [Hs Hbs]. set (key := filed path f) in *.
  destruct (blocks d !! key) as [st|] eqn:Ek.
  - destruct (tr_blocks _ _ Ht _ _ Ek) as (b' & Hb' & Hf). assert (b' = b) as -> by congruence.
    destruct (push_block_arrived now key b st f d Hs Hbs Hf Hin (tr_codecs _ _ Ht)) as (out & d' & -> & Ha).
    destruct (arrived_tracks D d d key b out d' Ht Hb) as (E & -> & Ht'); [by eapply open_not_closed|done..|].
    by exists E, (map hand E), d'.
  - destruct (Z.leb_spec key.2 (flushed_at (stream_of key) d)) as [Hle|Hlt].
    { exists [], [], d. by rewrite !app_nil_r. }
    set (d1 := with_blocks _ d).
    destruct (push_block_arrived now key b new_block f d1 Hs Hbs (fits_new b) Hin (tr_codecs _ _ Ht))
      as (out & d' & -> & Ha).
    destruct (arrived_tracks D d d1 key b out d' Ht Hb) as (E & -> & Ht').
    + intros [_ ?]. lia.
    + done.
    + done.
    + done.
    + intros st. cbn. by rewrite insert_insert_eq.
    + cbn. by rewrite delete_insert_eq.
    + by exists E, (map hand E), d'.
Qed.

Lemma step_tracks o D d :
  tracks D d → arrival_ok o →
  ∃ E out d', dec_step o d = Ok (out, d') ∧ out = uncoded_of [o] ++ map hand E ∧ tracks (D ++ E) d'.
Proof.
  intros Ht Harr. destruct o as [now path f|now|sk|sk]; cbn [dec_step].
  - by apply push_tracks.
  - destruct (tick_tracks now D d Ht) as (E & d' & -> & Ht'). by exists E, (map hand E), d'.
  - eexists [], _, _. split; [done|]. split; [done|]. rewrite app_nil_r. by apply (tracks_same D d).
  - eexists [], _, _. split; [done|]. split; [done|]. rewrite app_nil_r. by apply (tracks_same D d).
Qed.

Lemma run_tracks ops D d :
  tracks D d → Forall arrival_ok ops →
  ∃ E out d', dec_run ops d = Ok (out, d') ∧ out ≡ₚ uncoded_of ops ++ map hand E ∧ tracks (D ++ E) d'.
Proof.
  revert D d. induction ops as [|o ops IH]; intros D d Ht Hall; cbn [dec_run].
  { exists [], [], d. by rewrite (app_nil_r D). }
  apply Forall_cons_1 in Hall as [Ho Hall].
  destruct (step_tracks o D d Ht Ho) as (E1 & o1 & d1 & -> & -> & Ht1). cbn [res_bind fst snd].
  destruct (IH (D ++ E1) d1 Ht1 Hall) as (E2 & o2 & d2 & -> & Hp & Ht2). cbn [res_bind fst snd].
  eexists (E1 ++ E2), _, d2. split; [done|]. rewrite app_assoc. split; [|done].
  assert (Eu : uncoded_of (o :: ops) = uncoded_of [o] ++ uncoded_of ops)
    by (unfold uncoded_of; cbn [flat_map]; by rewrite app_nil_r).
  rewrite Eu, Hp, map_app. rewrite <-!app_assoc. f_equiv. rewrite !app_assoc. f_equiv. apply Permutation_app_comm.
Qed.

Lemma tracks_fresh p : pd = fill_params p → tracks [] (NewDecoder p).
Proof.
  intros E. split; [done| | |constructor|by intros ?? ?%elem_of_nil].
  - intros key st. cbn. by rewrite lookup_empty.
  - intros q rs. cbn. by rewrite lookup_empty.
Qed.
End streams.

(** ** What an encoder sends *)

Lemma parity_bounded `{ReedSolomon} now e :
  1 ≤ DataShards (e_params e) ≤ 255 → 1 ≤ ParityShards (e_params e) → e_rsParity e < 2 ^ 16 →
  e_rsParity (refreshLocked now e) < 2 ^ 16.
Proof.
  intros Hk Hp Hr.
  assert (R : ∀ e', e_params e' = e_params e → e_rsParity e' = e_rsParity e → e_rsParity (rebuildLocked e') < 2 ^ 16).
  { intros e' E1 E2. unfold rebuildLocked. rewrite E1. case_match; [congruence|]. destruct (rs_New _ _); [|congruence].
    cbn. pose proof (parity_bounds e' (e_lossRate e')) as B. rewrite E1 in B. destruct B as (_ & B & _); [done|done|]. lia. }
  unfold refreshLocked. repeat case_match; cbv zeta; try done; by apply R.
Qed.

Section sender.
  Context `{ReedSolomon}.
  Context (k sid : Z) (Hk : 1 ≤ k ≤ 255).

(** A data frame as the tunnel pushes it: not coded yet, of this session, with
    an encodable payload. *)
Record push_ok (f : frame) : Prop := {
  po_session : f_session f = sid;
  po_parity : HasFlag f FlagFECParity = false;
  po_pass : HasFlag f FlagPassSeq = false;
  po_block : f_block f = 0;
  po_seq : is_u32 (f_seq f);
  po_len : 0 < plen f < 2 ^ 16;
}.

Record pushes_ok (P : list frame) : Prop := {
  ps_frames : Forall push_ok P;
  ps_nodup : NoDup (map f_seq P);
  ps_count : Z.of_nat (length P) < 2 ^ 32;
}.

Lemma pushes_sub P l : pushes_ok P → l ⊆+ P → Forall push_ok l ∧ NoDup (map f_seq l).
Proof.
  intros [Hf Hn _] Hs. split.
  - rewrite Forall_forall in *. intros f Hin. apply Hf. by eapply elem_of_submseteq.
  - eapply submseteq_NoDup; [exact Hn|]. by apply (fmap_submseteq f_seq).
Qed.

Lemma pushes_data P l : pushes_ok P → l ⊆+ P → l ≠ [] → data_ok sid l.
Proof.
  intros HP Hs Hne. destruct (pushes_sub P l HP Hs) as [Hfl Hn].
  split.
  - eapply Forall_impl; [exact Hfl|]. intros f []. unfold is_u16. split_and!; try done; lia.
  - exact Hn.
  - destruct l as [|f l]; [done|]. apply Forall_cons_1 in Hfl as [[_ _ _ _ _ [Hl _]] _].
    destruct (max_len_spec (f :: l)) as (_ & Hm & _). apply Forall_cons_1 in Hm as [Hm _]. lia.
Qed.

(** A pushed frame that is passed on, as it is or marked. *)
Definition marked (f : frame) : frame := set_flags (Z.lor (f_flags f) FlagPassSeq) f.
Definition passed (U : list frame) (f : frame) : Prop := ∃ u, u ∈ U ∧ (f = u ∨ f = marked u).

(** A frame on the wire: passed on without a block, or the i-th block's. *)
Definition on_wire (U : list frame) (bl : list block) (f : frame) : Prop :=
  passed U f ∨
  ∃ i b, bl !! i = Some b ∧ f ∈ block_frames sid (Z.of_nat (S i)) k (Z.of_nat (length b.2)) b.1 b.2.

(** The encoder has passed on [U] and sealed the blocks [bl] out of the frames
    [P] pushed so far, every frame in one place only. *)
Record sealed_so_far (U : list frame) (bl : list block) (P : list frame) (e : Encoder) : Prop := {
  ss_k : DataShards (e_params e) = k;
  ss_parity : 1 ≤ ParityShards (e_params e);
  ss_shards : e_rsParity e < 2 ^ 16;
  ss_count : e_block e = Z.of_nat (length bl);
  ss_sound : Forall (block_sound k sid) bl;
  ss_data : U ++ concat bl.*1 ++ e_pending e ⊆+ P;
}.

Lemma on_wire_mono U bl u x f : on_wire U bl f → on_wire (U ++ u) (bl ++ x) f.
Proof.
  intros [(g & Hg & Hor)|(i & b & Hi & Hf)]; [left|right].
  - exists g. split; [|done]. apply elem_of_app. by left.
  - exists i, b. split; [|done]. by apply lookup_app_l_Some.
Qed.

(** This depends on few fields of the encoder. *)
Lemma sealed_fields U bl P P' e e' :
  sealed_so_far U bl P e → P ⊆+ P' → e_params e' = e_params e → e_rsParity e' < 2 ^ 16 →
  e_block e' = e_block e → e_pending e' = e_pending e → sealed_so_far U bl P' e'.
Proof.
  intros [K Pa S C F D] HP E1 E2 E3 E4. split; rewrite ?E1, ?E3, ?E4; try done. by etrans.
Qed.

(** What was pending is passed on. *)
Lemma sealed_passed U bl P e e' u :
  sealed_so_far U bl P e → e_params e' = e_params e → e_rsParity e' = e_rsParity e →
  e_block e' = e_block e → e_pending e = u → e_pending e' = [] → sealed_so_far (U ++ u) bl P e'.
Proof.
  intros [K Pa S C F D] E1 E2 E3 E4 E5. split; rewrite ?E1, ?E2, ?E3, ?E5; try done.
  rewrite app_nil_r. by rewrite <-app_assoc, <-E4, (Permutation_app_comm (e_pending e)).
Qed.

Lemma passed_all U u : Forall (passed (U ++ u)) u ∧ Forall (passed (U ++ u)) (markPassSeq u).
Proof.
  unfold markPassSeq. rewrite Forall_map, !Forall_forall.
  split; intros f Hf; exists f; (split; [apply elem_of_app; by right|]); [by left|by right].
Qed.

Lemma sealed_refresh now U bl P e : sealed_so_far U bl P e → sealed_so_far U bl P (refreshLocked now e).
Proof.
  intros Hs. pose proof Hs as [K Pa S C F D]. destruct (refresh_fields now e) as (E1 & E2 & E3 & _).
  eapply sealed_fields; [exact Hs|done|done| |done|done]. apply parity_bounded; [by rewrite K|done|done].
Qed.

(** There are fewer blocks than frames pushed, so their numbers do not wrap. *)
Lemma blocks_fewer bl : Forall (block_sound k sid) bl → (length bl ≤ length (concat bl.*1))%nat.
Proof.
  induction 1 as [|b bl [[_ _ Hd] _] _ IH]; [done|]. cbn [fmap list_fmap concat length]. rewrite length_app.
  destruct b.1; [cbn in Hd; lia|]. cbn [length]. unfold block, fmap in *. lia.
Qed.

Lemma next_number U bl P e :
  pushes_ok P → sealed_so_far U bl P e → e_pending e ≠ [] → u32 (e_block e + 1) = Z.of_nat (S (length bl)).
Proof.
  intros [_ _ Hc] Hs Hne. rewrite (ss_count _ _ _ _ Hs). pose proof (blocks_fewer bl (ss_sound _ _ _ _ Hs)) as H1.
  pose proof (submseteq_length _ _ (ss_data _ _ _ _ Hs)) as H2. rewrite !length_app in H2.
  destruct (e_pending e); [done|]. cbn [length] in H2. rewrite u32_small; [lia|]. unfold is_u32. lia.
Qed.

(** Sealing the pending frames as the next block. *)
Lemma sealed_next U bl P e e' parity :
  sealed_so_far U bl P e → block_sound k sid (e_pending e, parity) →
  e_params e' = e_params e → e_rsParity e' = e_rsParity e → e_pending e' = [] →
  e_block e' = Z.of_nat (S (length bl)) →
  sealed_so_far U (bl ++ [(e_pending e, parity)]) P e'.
Proof.
  intros [K Pa S C F D] Hb E1 E2 E3 E4. split; rewrite ?E1, ?E2, ?E3; try done.
  - rewrite length_app. cbn [length]. lia.
  - apply Forall_app. split; [done|]. by constructor.
  - rewrite fmap_app, concat_app. cbn [fmap list_fmap concat fst]. by rewrite !app_nil_r.
Qed.

Lemma on_wire_next U bl data parity f :
  f ∈ block_frames sid (Z.of_nat (S (length bl))) k (Z.of_nat (length parity)) data parity →
  on_wire U (bl ++ [(data, parity)]) f.
Proof.
  intros Hf. right. exists (length bl), (data, parity). split; [|done].
  by rewrite lookup_app_r, Nat.sub_diag.
Qed.

Lemma marked_flag f : HasFlag (marked f) FlagPassSeq = true.
Proof.
  unfold marked, HasFlag. cbn [f_flags set_flags].
  apply negb_true_iff, Z.eqb_neq. intros E. apply (f_equal (λ z, Z.testbit z 6)) in E.
  rewrite Z.land_spec, Z.lor_spec in E. cbn in E. by rewrite orb_true_r in E.
Qed.

Lemma marked_uncoded f : HasFlag f FlagFECParity = false → uncoded (marked f) = true.
Proof.
  intros Hp. pose proof (is_data_pass f) as Hd. unfold is_data in Hd. rewrite Hp in Hd. unfold uncoded, marked. rewrite Hd.
  rewrite andb_true_r. apply orb_true_iff. left. apply marked_flag.
Qed.

(** What is passed on has no block. *)
Lemma passed_uncoded P U f : pushes_ok P → U ⊆+ P → passed U f → uncoded f = true.
Proof.
  intros HP Hs (u & Hu & Hor). destruct (pushes_sub P U HP Hs) as [Hf _]. rewrite Forall_forall in Hf.
  destruct (Hf u Hu) as [_ Hpar _ Hb _ _]. destruct Hor as [-> | ->]; [|by apply marked_uncoded].
  unfold uncoded. by rewrite Hb, Hpar, orb_true_r.
Qed.

Lemma sealed_passes U bl P e : sealed_so_far U bl P e → U ⊆+ P.
Proof. intros [_ _ _ _ _ D]. etrans; [|exact D]. by apply submseteq_inserts_r. Qed.

Lemma emit_number e out e' : emitBlock e = Ok (out, e') → e_block e' = u32 (e_block e + 1).
Proof.
  unfold emitBlock. cbv zeta. case_match; [done|]. cbn [e_rs with_pending next_block].
  destruct (e_rs e); [|done]. destruct (rs_Encode _ _); by intros [= _ <-].
Qed.

Lemma pending_data U bl P e :
  pushes_ok P → sealed_so_far U bl P e → e_pending e ≠ [] → data_ok sid (e_pending e).
Proof.
  intros HP Hs. apply (pushes_data P); [done|]. etrans; [|apply Hs]. by do 2 apply submseteq_inserts_l.
Qed.

(** A full block: data and parity. *)
Lemma emit_sealed U bl P e rs out e' :
  pushes_ok P → sealed_so_far U bl P e → Z.of_nat (length (e_pending e)) = k →
  e_rs e = Some rs → rs_New k (e_rsParity e) = Some rs → emitBlock e = Ok (out, e') →
  ∃ x, sealed_so_far U (bl ++ x) P e' ∧ Forall (on_wire U (bl ++ x)) out.
Proof.
  intros HP Hs Hlen Ers Enew E. pose proof Hs as [K Pa S C F D].
  assert (Hne : e_pending e ≠ []) by (intros E0; rewrite E0 in Hlen; cbn in Hlen; lia).
  pose proof (pending_data _ _ _ _ HP Hs Hne) as Hd. rewrite <-K in Enew.
  destruct (emitBlock_frames e sid rs Hd) as (parity & e'' & Hblk & E'); [congruence|lia|done|done|done|].
  rewrite E in E'. injection E' as -> <-. rewrite K in Hblk |- *.
  pose proof (emit_number _ _ _ E) as En. rewrite (next_number U bl P e HP Hs Hne) in *.
  destruct (emit_conserves e) as (o & e'' & E'' & _ & E1 & E2 & _ & E4); [lia|congruence|by exists rs| |].
  { eapply Forall_impl; [apply (do_frames _ _ Hd)|]. cbn. intros f (_ & Hf & _). unfold is_data. by rewrite Hf. }
  rewrite E in E''. injection E'' as _ <-. pose proof (bk_plen _ _ _ _ _ _ Hblk) as Hp.
  exists [(e_pending e, parity)]. split.
  - apply (sealed_next U bl P e); try done. split; [done|]. right. exists rs. cbn [fst snd]. by rewrite Hp.
  - rewrite Forall_forall. intros f Hf. apply on_wire_next. by rewrite Hp.
Qed.

Lemma push_sealed now f U bl P e out e' :
  pushes_ok (P ++ [f]) → enc_ok e → sealed_so_far U bl P e → Encoder_Push now f e = Ok (out, e') →
  ∃ u x, sealed_so_far (U ++ u) (bl ++ x) (P ++ [f]) e' ∧ Forall (on_wire (U ++ u) (bl ++ x)) out.
Proof.
  intros HP Ho Hs E. unfold Encoder_Push in E.
  assert (Hen : Enabled (e_params e) = true) by (apply Z.ltb_lt; pose proof (ss_parity _ _ _ _ Hs); lia).
  rewrite Hen in E. cbn [negb] in E. apply (sealed_refresh now) in Hs. apply (enc_ok_refresh now) in Ho. clear Hen.
  set (e1 := refreshLocked now e) in *. clearbody e1. pose proof Hs as [K Pa S C F D].
  assert (Hs1 : sealed_so_far U bl (P ++ [f]) (with_pending (e_pending e1 ++ [f]) e1)).
  { split; try done. cbn [e_pending with_pending]. rewrite !app_assoc. apply submseteq_app; [|done]. by rewrite <-app_assoc. }
  destruct (e_codingOn e1); cbn [negb] in E; cycle 1.
  { injection E as <- <-. exists (e_pending e1 ++ [f]), []. rewrite (app_nil_r bl). split.
    - by apply (sealed_passed U bl _ (with_pending (e_pending e1 ++ [f]) e1)).
    - eapply Forall_impl; [apply passed_all|]. by left. }
  set (e2 := match e_pending e1 with [] => with_blockStart now e1 | _ => e1 end) in E.
  assert (F2 : e_pending e2 = e_pending e1 ∧ e_params e2 = e_params e1 ∧ e_rs e2 = e_rs e1 ∧
               e_rsParity e2 = e_rsParity e1 ∧ e_block e2 = e_block e1)
    by (unfold e2; destruct (e_pending e1) eqn:?; done).
  destruct F2 as (F2 & F3 & F4 & F5 & F6). clearbody e2. set (e3 := with_pending (e_pending e2 ++ [f]) e2) in E.
  assert (Hs3 : sealed_so_far U bl (P ++ [f]) e3)
    by (eapply sealed_fields; [exact Hs1|done|done|cbn; by rewrite F5|done|cbn; by rewrite F2]).
  exists []. rewrite (app_nil_r U).
  destruct (Z.ltb_spec (Z.of_nat (length (e_pending e3))) (DataShards (e_params e3))) as [Hlt|Hge].
  { injection E as <- <-. exists []. rewrite app_nil_r. by split. }
  destruct (eo_rs _ Ho) as (rs & Ers & Enew); [apply Z.ltb_lt; lia|]. pose proof (eo_pending _ Ho) as Hpe.
  eapply (emit_sealed U bl (P ++ [f]) e3 rs); [done|done| |cbn; congruence|cbn; congruence|done].
  revert Hge. cbn. rewrite F2, F3, length_app. cbn [length]. lia.
Qed.

Lemma tick_sealed now U bl P e :
  pushes_ok P → sealed_so_far U bl P e →
  ∃ u x, sealed_so_far (U ++ u) (bl ++ x) P (Encoder_Tick now e).2 ∧
    Forall (on_wire (U ++ u) (bl ++ x)) (Encoder_Tick now e).1.
Proof.
  intros HP Hs.
  assert (H0 : ∀ e', sealed_so_far U bl P e' →
    ∃ u x, sealed_so_far (U ++ u) (bl ++ x) P e' ∧ Forall (on_wire (U ++ u) (bl ++ x)) []).
  { intros e' ?. exists [], []. by rewrite !app_nil_r. }
  unfold Encoder_Tick. destruct (Enabled (e_params e)); cbn [negb]; [|by apply H0].
  apply (sealed_refresh now) in Hs. set (e1 := refreshLocked now e) in *. clearbody e1. pose proof Hs as [K Pa S C F D].
  destruct (e_codingOn e1); cbn [negb fst snd].
  - destruct (bool_decide_reflect (e_pending e1 = [])) as [|Hne]; [by apply H0|]. case_match; [by apply H0|].
    cbn [fst snd]. exists [], [(e_pending e1, [])]. rewrite (app_nil_r U). split.
    + apply (sealed_next U bl P e1); try done; [|by apply (next_number U bl P e1)].
      split; [by eapply pending_data|by left].
    + rewrite Forall_forall. intros f Hf. apply on_wire_next. unfold block_frames. cbn [imap].
      change (e_block (next_block e1)) with (u32 (e_block e1 + 1)) in Hf.
      rewrite (next_number U bl P e1) in Hf by done. by rewrite app_nil_r.
  - exists (e_pending e1), []. rewrite (app_nil_r bl). split; [by apply (sealed_passed U bl P e1)|].
    eapply Forall_impl; [apply passed_all|]. by left.
Qed.

Lemma step_sealed o U bl P e out e' :
  pushes_ok (P ++ enc_pushed [o]) → enc_ok e → sealed_so_far U bl P e → enc_step o e = Ok (out, e') →
  ∃ u x, sealed_so_far (U ++ u) (bl ++ x) (P ++ enc_pushed [o]) e' ∧ Forall (on_wire (U ++ u) (bl ++ x)) out.
Proof.
  intros HP Ho Hs. destruct o as [now f|now|now rate]; cbn [enc_step enc_pushed flat_map app] in *.
  - by apply push_sealed.
  - rewrite app_nil_r in *. intros [= E]. destruct (tick_sealed now U bl P e HP Hs) as (u & x & H1 & H2).
    exists u, x. by rewrite E in H1, H2.
  - rewrite app_nil_r in *. intros [= <- <-]. exists [], []. rewrite !app_nil_r. split; [|done].
    unfold SetLossRate. cbv zeta. apply sealed_refresh. by eapply sealed_fields; [exact Hs|done..|cbn; apply Hs|done|done].
Qed.

Lemma run_sealed ops U bl P e out e' :
  pushes_ok (P ++ enc_pushed ops) → enc_ok e → sealed_so_far U bl P e → enc_run ops e = Ok (out, e') →
  ∃ u x, sealed_so_far (U ++ u) (bl ++ x) (P ++ enc_pushed ops) e' ∧ enc_ok e' ∧
    Forall (on_wire (U ++ u) (bl ++ x)) out.
Proof.
  revert U bl P e out. induction ops as [|o ops IH]; intros U bl P e out HP Ho Hs E.
  { injection E as <- <-. exists [], []. by rewrite !app_nil_r. }
  assert (Es : enc_pushed (o :: ops) = enc_pushed [o] ++ enc_pushed ops)
    by (unfold enc_pushed; cbn [flat_map]; by rewrite app_nil_r).
  rewrite Es, app_assoc in *. cbn [enc_run] in E.
  apply bind_Ok in E as ([o1 e1] & E1 & E). apply bind_Ok in E as ([o2 e2] & E2 & E). injection E as <- <-.
  cbn [fst snd] in E2.
  assert (HP1 : pushes_ok (P ++ enc_pushed [o])).
  { destruct HP as [Hf Hn Hc]. apply Forall_app in Hf as [Hf _]. rewrite map_app in Hn. apply NoDup_app in Hn as [Hn _].
    rewrite length_app in Hc. split; [done|done|lia]. }
  destruct (step_sealed o U bl P e o1 e1 HP1 Ho Hs E1) as (u1 & x1 & Hs1 & Hw1).
  destruct (enc_step_conserves o e Ho) as (o1' & e1' & E1' & Ho1 & _).
  { destruct HP1 as [Hf _ _]. apply Forall_app in Hf as [_ Hf]. eapply Forall_impl; [exact Hf|].
    intros f []. unfold is_data. by rewrite po_parity0. }
  rewrite E1 in E1'. injection E1' as <- <-.
  destruct (IH _ _ _ e1 o2 HP Ho1 Hs1 E2) as (u2 & x2 & Hs2 & Ho2 & Hw2). rewrite <-!app_assoc in Hs2, Hw2.
  exists (u1 ++ u2), (x1 ++ x2). split; [done|]. split; [done|]. apply Forall_app. split; [|done].
  eapply Forall_impl; [exact Hw1|]. intros f Hf. rewrite !(app_assoc _ _ u2), !(app_assoc _ _ x2). by apply on_wire_mono.
Qed.

(** A new encoder has sealed nothing. *)
Lemma sealed_new p e :
  NewEncoder p = Ok e → DataShards (e_params e) = k → 1 ≤ ParityShards p < 2 ^ 16 → sealed_so_far [] [] [] e ∧ enc_ok e.
Proof.
  intros Hn He Hp. destruct (enc_ok_new p e Hn) as [Ho Epe]. split; [|done].
  assert (F : ParityShards (e_params e) = ParityShards p ∧ e_rsParity e = ParityShards p ∧ e_block e = 0).
  { unfold NewEncoder in Hn. destruct (Enabled _); [destruct (rs_New _ _); [|done]|]; by injection Hn as <-. }
  destruct F as (F1 & F2 & F3). split; rewrite ?F1, ?F2, ?F3, ?Epe; try done; lia.
Qed.
End sender.

(** ** Streams end to end *)

(** A fresh encoder with [k] data shards turned the pushes among [ops], all of
    the session [sid], into the frames [fs]. *)
Definition encoded `{ReedSolomon} (k sid : Z) (ops : list enc_op) (fs : list frame) : Prop :=
  ∃ p e e', NewEncoder p = Ok e ∧ DataShards (e_params e) = k ∧ 1 ≤ ParityShards p < 2 ^ 16 ∧
    pushes_ok sid (enc_pushed ops) ∧ enc_run ops e = Ok (fs, e').

(** The blocks an encoder made of the frames [P] it was given. *)
Record blocks_of `{ReedSolomon} (k sid : Z) (P fs : list frame) (bl : list block) : Prop := {
  bo_sound : Forall (block_sound k sid) bl;
  bo_data : concat bl.*1 ⊆+ P;
  bo_wire : Forall (λ f, uncoded f = true ∨ ∃ i b, bl !! i = Some b ∧
    f ∈ block_frames sid (Z.of_nat (S i)) k (Z.of_nat (length b.2)) b.1 b.2) fs;
}.

Lemma encoded_blocks `{ReedSolomon} k sid ops fs :
  1 ≤ k ≤ 255 → encoded k sid ops fs → ∃ bl, blocks_of k sid (enc_pushed ops) fs bl.
Proof.
  intros Hk (p & e & e' & Hn & He & Hp & HP & E). destruct (sealed_new k sid p e Hn He Hp) as [Hs Ho].
  destruct (run_sealed k sid Hk ops [] [] [] e fs e' HP Ho Hs E) as (U & bl & Hs' & _ & Hw).
  pose proof Hs' as [_ _ _ _ Hsd Hd]. exists bl. split; [done| |].
  - etrans; [|exact Hd]. by apply submseteq_inserts_l, submseteq_inserts_r.
  - eapply Forall_impl; [exact Hw|]. intros f [Hf|?]; [left|by right].
    by eapply passed_uncoded; [exact HP|eapply sealed_passes|].
Qed.

(** Choosing a value for every entry of a map. *)
Lemma map_choice {A B} `{Countable K} (R : K → A → B → Prop) (m : gmap K A) :
  (∀ i x, m !! i = Some x → ∃ y, R i x y) →
  ∃ m' : gmap K B, (∀ i y, m' !! i = Some y → ∃ x, m !! i = Some x ∧ R i x y) ∧
    ∀ i x, m !! i = Some x → ∃ y, m' !! i = Some y ∧ R i x y.
Proof.
  induction m as [|i x m Hi IH] using map_ind; intros Hm.
  { exists ∅. split; intros ??; by rewrite lookup_empty. }
  destruct IH as (m' & H1 & H2).
  { intros j y Hj. apply Hm. rewrite lookup_insert_ne; [done|]. intros ->. congruence. }
  destruct (Hm i x) as [y Hy]; [by rewrite lookup_insert_eq|]. exists (<[i := y]> m'). split.
  - intros j z [[<- <-]|[Hne Hj]]%lookup_insert_Some; [exists x; by rewrite lookup_insert_eq|].
    destruct (H1 j z Hj) as (w & Hw & HR). exists w. by rewrite lookup_insert_ne.
  - intros j z [[<- <-]|[Hne Hj]]%lookup_insert_Some; [exists y; by rewrite lookup_insert_eq|].
    destruct (H2 j z Hj) as (w & Hw & HR). exists w. by rewrite lookup_insert_ne.
Qed.

Section end_to_end.
  Context `{ReedSolomon, !RangeOrder Z (list byte), !RangeOrder blockKey blockState}.
  Context (k : Z) (p : Params) (Hk : 1 ≤ k ≤ 255) (Hp : Enabled p = true).
  (** Per stream the calls of its encoder and the frames they sent. *)
  Context (streams : gmap streamKey (list enc_op * list frame)).
  Context (Hstreams : ∀ (sk : streamKey) s, streams !! sk = Some s → encoded k sk.1 s.1 s.2).

(** What may arrive: a frame without a block, or one its stream has sent. *)
Definition received (o : dec_op) : Prop :=
  match o with
  | DPush _ path f => uncoded f = true ∨
      ∃ s, streams !! (stream_of (filed (fill_params p) path f)) = Some s ∧ f ∈ s.2
  | _ => True
  end.

(** The blocks [bls] of the streams, by their keys. *)
Definition book_of (bls : gmap streamKey (list block)) (key : blockKey) : option block :=
  bl ← bls !! stream_of key; if 1 <=? key.2 then bl !! Z.to_nat (key.2 - 1) else None.

Lemma block_frames_key sid bs n data parity f :
  data_ok sid data → f ∈ block_frames sid bs k n data parity → f_session f = sid ∧ f_block f = bs.
Proof.
  intros Hd [Hf|Hf]%elem_of_app.
  - apply list_elem_of_fmap in Hf as (g & -> & Hg). pose proof (do_frames _ _ Hd) as Hfr.
    rewrite Forall_forall in Hfr. by destruct (Hfr g Hg) as [? _].
  - apply list_elem_of_lookup in Hf as [j Hj]. rewrite list_lookup_imap in Hj. destruct (parity !! j); [|done].
    by injection Hj as <-.
Qed.

(** A data frame belongs to one block. *)
Lemma one_block (bl : list block) i j b b' f :
  NoDup (concat bl.*1) → bl !! i = Some b → bl !! j = Some b' → f ∈ b.1 → f ∈ b'.1 → i = j.
Proof.
  revert i j. induction bl as [|c bl IH]; intros i j Hn Hi Hj Hf Hf'; [done|].
  cbn [fmap list_fmap concat] in Hn. apply NoDup_app in Hn as (_ & Hno & Hn).
  assert (Hc : ∀ n d, bl !! n = Some d → f ∈ d.1 → f ∈ concat bl.*1).
  { intros n d Hd Hin. apply list_elem_of_In, in_concat. exists d.1. split; [|by apply list_elem_of_In].
    apply list_elem_of_In, list_elem_of_fmap. exists d. split; [done|by eapply list_elem_of_lookup_2]. }
  destruct i as [|i], j as [|j]; cbn in Hi, Hj; [done| | |f_equal; by eapply IH].
  - injection Hi as ->. exfalso. by eapply Hno, Hc.
  - injection Hj as ->. exfalso. by eapply Hno, Hc.
Qed.

Section with_blocks.
  Context (bls : gmap streamKey (list block)).
  Context (Hbls : ∀ (sk : streamKey) bl, bls !! sk = Some bl → ∃ s, streams !! sk = Some s ∧ blocks_of k sk.1 (enc_pushed s.1) s.2 bl).

Lemma book_inv key b :
  book_of bls key = Some b →
  ∃ bl s, bls !! stream_of key = Some bl ∧ streams !! stream_of key = Some s ∧
    blocks_of k key.1.1 (enc_pushed s.1) s.2 bl ∧ 1 ≤ key.2 ∧ bl !! Z.to_nat (key.2 - 1) = Some b.
Proof.
  unfold book_of. destruct (bls !! stream_of key) as [bl|] eqn:E; [|done]. cbn [mbind option_bind].
  destruct (Z.leb_spec 1 key.2); [|done]. intros Hb. destruct (Hbls _ _ E) as (s & Hs & Hbo). by exists bl, s.
Qed.

Lemma stream_pushes (sk : streamKey) s : streams !! sk = Some s → pushes_ok sk.1 (enc_pushed s.1).
Proof. intros (q & e & e' & _ & _ & _ & HP & _)%Hstreams. exact HP. Qed.

Lemma book_sound key b : book_of bls key = Some b → block_sound k key.1.1 b ∧ 1 ≤ key.2 < 2 ^ 32.
Proof.
  intros (bl & s & _ & Hs & [Hsd Hd _] & H1 & Hb)%book_inv. split; [by eapply Forall_lookup_1|]. split; [done|].
  pose proof (ps_count _ _ (stream_pushes _ _ Hs)) as Hc. pose proof (blocks_fewer _ _ _ Hsd) as Hl.
  apply submseteq_length in Hd. apply lookup_lt_Some in Hb. lia.
Qed.

Lemma book_inj key key' b b' f :
  book_of bls key = Some b → book_of bls key' = Some b' → stream_of key = stream_of key' →
  f ∈ b.1 → f ∈ b'.1 → key = key'.
Proof.
  intros (bl & s & E & Hs & [_ Hd _] & H1 & Hb)%book_inv (bl' & s' & E' & _ & _ & H1' & Hb')%book_inv Ek Hf Hf'.
  rewrite Ek in E. assert (bl' = bl) as -> by congruence.
  assert (Hn : NoDup (concat bl.*1)).
  { eapply submseteq_NoDup; [|exact Hd]. eapply NoDup_fmap_1, (ps_nodup _ _ (stream_pushes _ _ Hs)). }
  assert (Z.to_nat (key.2 - 1) = Z.to_nat (key'.2 - 1)) by (by eapply one_block).
  destruct key as [sk x], key' as [sk' y]. cbn in *. f_equal; [done|lia].
Qed.

Lemma received_arrival o :
  (∀ (sk : streamKey) s, streams !! sk = Some s → ∃ bl, bls !! sk = Some bl ∧ blocks_of k sk.1 (enc_pushed s.1) s.2 bl) →
  received o → arrival_ok k (fill_params p) (book_of bls) o.
Proof.
  intros Hall. destruct o as [now path f| | |]; cbn [received arrival_ok]; try done. intros [?|(s & Hs & Hf)]; [by left|].
  destruct (Hall _ _ Hs) as (bl & Ebl & [Hsd _ Hw]). rewrite Forall_forall in Hw.
  destruct (Hw f Hf) as [?|(i & b & Hi & Hin)]; [by left|right]. exists b.
  set (key := filed (fill_params p) path f) in *.
  destruct (block_frames_key _ _ _ _ _ _ ltac:(by apply (Forall_lookup_1 _ _ _ _ Hsd Hi)) Hin) as [_ Hbl].
  assert (E2 : key.2 = Z.of_nat (S i)) by exact Hbl. split.
  - unfold book_of. rewrite Ebl. cbn [mbind option_bind]. rewrite E2, (proj2 (Z.leb_le _ _)) by lia.
    replace (Z.to_nat (Z.of_nat (S i) - 1)) with i by lia. exact Hi.
  - unfold frames_of. rewrite E2. exact Hin.
Qed.
End with_blocks.

(** C6 — Coded streams are safe against the network. Let any number of encoders,
    each on a stream (session and path) of its own, with any adaptive behaviour
    (coding switching on and off, redundancy changing, short blocks), send their
    frames over a network that loses, repeats and reorders them at will across
    blocks and streams, and let the decoder flush expired blocks at any time. It
    never panics, and what it hands out is, up to order, the frames without a
    block that arrived and frames of datagrams pushed into the encoder of their
    stream, each of these at most once. *)
Theorem coded_streams_safe ops :
  Forall received ops →
  ∃ once out d', dec_run ops (NewDecoder p) = Ok (out, d') ∧
    out ≡ₚ uncoded_of ops ++ map (λ x, handed x.1.1 x.2) once ∧ NoDup once ∧
    ∀ (sk : streamKey) f, (sk, f) ∈ once → ∃ s, streams !! sk = Some s ∧ f ∈ enc_pushed s.1.
Proof.
  intros Hops.
  destruct (map_choice (λ (sk : streamKey) s bl, blocks_of k sk.1 (enc_pushed s.1) s.2 bl) streams) as (bls & Hb1 & Hb2).
  { intros sk s Hs. by apply encoded_blocks, Hstreams. }
  assert (Harr : Forall (arrival_ok k (fill_params p) (book_of bls)) ops).
  { eapply Forall_impl; [exact Hops|]. intros o Ho. by apply received_arrival. }
  destruct (run_tracks k (fill_params p) (book_of bls) (book_sound bls Hb1) Hp ops [] (NewDecoder p)) as
    (E & out & d' & Erun & Hperm & [_ _ _ Hn Hd]); [by apply tracks_fresh|done|].
  exists (map (λ x, (stream_of x.1, x.2)) E), out, d'. split; [done|]. split; [by rewrite map_map|]. split.
  - apply NoDup_fmap_2_strong; [|done]. intros [key f] [key' f'] Hx Hy Hxy. cbn [fst snd] in Hxy. apply pair_equal_spec in Hxy as [Hsk ->].
    destruct (Hd _ _ Hx) as (_ & b & Hb & Hf). destruct (Hd _ _ Hy) as (_ & b' & Hb' & Hf').
    f_equal. by eapply (book_inj bls Hb1 key key').
  - intros sk f ([key g] & [= -> ->] & Hin)%list_elem_of_fmap. destruct (Hd _ _ Hin) as (_ & b & Hb & Hf).
    destruct (book_inv bls Hb1 _ _ Hb) as (bl & s & _ & Hs & [_ Hsub _] & _ & Hbl). exists s. split; [done|].
    eapply elem_of_submseteq; [|exact Hsub]. apply list_elem_of_In, in_concat. exists b.1. split; [|by apply list_elem_of_In].
    apply list_elem_of_In, list_elem_of_fmap. exists b. split; [done|by eapply list_elem_of_lookup_2].
Qed.
End end_to_end.

(** ** Two streams at work, with the single-parity code *)

#[local] Instance payload_order : RangeOrder Z (list byte) := key_order Z (list byte).
#[local] Instance block_order : RangeOrder blockKey blockState := key_order blockKey blockState.

(** A full block and a short one on the first WAN, a full one on the second. *)
Definition wan1_ops : list enc_op :=
  [OpPush 1 (data_frame 11 [x01; x02]); OpPush 2 (data_frame 13 [x03]); OpPush 3 (data_frame 15 [x05; x06; x07]);
   OpPush 4 (data_frame 17 [x08]); OpTick (20 * millisecond)].
Definition wan2_ops : list enc_op :=
  [OpPush 1 (data_frame 12 [x11]); OpPush 2 (data_frame 14 [x13; x14]); OpPush 3 (data_frame 16 [x15])].

Definition sent_by (ops : list enc_op) : list frame :=
  match enc_run ops (xor_encoder None) with Ok (fs, _) => fs | _ => [] end.
Definition two_streams : gmap streamKey (list enc_op * list frame) :=
  {[ (7, "wan1"%string) := (wan1_ops, sent_by wan1_ops); (7, "wan2"%string) := (wan2_ops, sent_by wan2_ops) ]}.

Definition from (path : string) (ops : list enc_op) (now : time) (i : nat) : dec_op :=
  DPush now path (nth i (sent_by ops) (data_frame 0 [])).

(** The parity frame first, the short block in between, the second data frame
    lost at first and late at last, the other stream incomplete until it expires. *)
Definition mixed_arrivals : list dec_op :=
  [from "wan1" wan1_ops 1 3; from "wan1" wan1_ops 2 4; from "wan2" wan2_ops 2 2; from "wan1" wan1_ops 3 2;
   DPush 3 "wan2" (data_frame 99 [x55]); from "wan1" wan1_ops 3 2; from "wan1" wan1_ops 4 0;
   from "wan1" wan1_ops 5 1; DTick (50 * millisecond); from "wan2" wan2_ops (51 * millisecond) 0].

(** A sufficient test of [pushes_ok]. *)
Definition check_push (sid : Z) (f : frame) : bool :=
  (f_session f =? sid) && negb (HasFlag f FlagFECParity) && negb (HasFlag f FlagPassSeq) && (f_block f =? 0) &&
  (0 <=? f_seq f) && (f_seq f <? 2 ^ 32) && (0 <? plen f) && (plen f <? 2 ^ 16).

Lemma check_pushes sid P :
  forallb (check_push sid) P && bool_decide (NoDup (map f_seq P)) && (Z.of_nat (length P) <? 2 ^ 32) = true → pushes_ok sid P.
Proof.
  intros [[Hf Hn%bool_decide_eq_true]%andb_true_iff Hc%Z.ltb_lt]%andb_true_iff. split; [|done|done].
  rewrite forallb_forall in Hf. apply Forall_forall. intros f Hin%list_elem_of_In%Hf. unfold check_push in Hin.
  rewrite !andb_true_iff, !negb_true_iff, !Z.eqb_eq, !Z.leb_le, !Z.ltb_lt in Hin.
  destruct Hin as [[[[[[[H1 H2] H3] H4] H5] H6] H7] H8]. by split.
Qed.

Lemma sample_encoded ops :
  forallb (check_push 7) (enc_pushed ops) && bool_decide (NoDup (map f_seq (enc_pushed ops))) &&
    (Z.of_nat (length (enc_pushed ops)) <? 2 ^ 32) = true →
  is_Ok (enc_run ops (xor_encoder None)) = true → encoded 3 7 ops (sent_by ops).
Proof.
  intros Hc%check_pushes Hr. unfold sent_by. destruct (enc_run ops _) as [[fs e']| |] eqn:E; [|discriminate Hr..].
  exists (xor_params None), (xor_encoder None), e'. split_and!; [reflexivity|reflexivity|cbn; lia|cbn; lia|exact Hc|exact E].
Qed.

Lemma two_streams_encoded (sk : streamKey) s : two_streams !! sk = Some s → encoded 3 sk.1 s.1 s.2.
Proof.
  unfold two_streams. intros [[<- <-]|[_ [<- <-]%lookup_singleton_Some]]%lookup_insert_Some;
    apply sample_encoded; vm_compute; reflexivity.
Qed.

Example mixed_arrivals_delivered :
  match dec_run mixed_arrivals (NewDecoder (xor_params None)) with
  | Ok (out, _) => map (λ f, (f_seq f, f_payload f)) out =
      [(99, [x55]); (11, [x01; x02]); (13, [x03]); (15, [x05; x06; x07]); (16, [x15]); (17, [x08])]
  | _ => False
  end.
Proof. vm_compute. reflexivity. Qed.

Lemma mixed_arrivals_received : Forall (received (xor_params None) two_streams) mixed_arrivals.
Proof.
  assert (H : ∀ path ops now i, two_streams !! (7, path) = Some (ops, sent_by ops) → (i < length (sent_by ops))%nat →
    f_session (nth i (sent_by ops) (data_frame 0 [])) = 7 → received (xor_params None) two_streams (from path ops now i)).
  { intros path ops now i Hs Hi Hsid. right. exists (ops, sent_by ops). split.
    - unfold stream_of, filed. cbn [fst CrossPath fill_params xor_params]. by rewrite Hsid.
    - cbn [snd]. apply list_elem_of_In, nth_In. exact Hi. }
  unfold mixed_arrivals. repeat (apply Forall_cons_2; [first [apply H; [reflexivity|vm_compute; lia|reflexivity]|exact I|left; reflexivity]|]).
  by apply Forall_nil_2.
Qed.

Lemma coded_streams_safe_witness :
  ∃ once out d', dec_run mixed_arrivals (NewDecoder (xor_params None)) = Ok (out, d') ∧
    out ≡ₚ uncoded_of mixed_arrivals ++ map (λ x, handed x.1.1 x.2) once ∧ NoDup once ∧
    ∀ (sk : streamKey) f, (sk, f) ∈ once → ∃ s, two_streams !! sk = Some s ∧ f ∈ enc_pushed s.1.
Proof.
  apply (coded_streams_safe 3 (xor_params None) ltac:(lia) eq_refl two_streams two_streams_encoded).
  exact mixed_arrivals_received.
Defined.
