(* ===== verification/FecIsolation.v ===== *)
(** * One coded session among others (internal/fec/fec.go)

    The server has one decoder for all sessions. Whatever the frames of the other
    sessions are (other numbers of shards, malformed parity, a poisoned codec
    cache), a session whose own frames are those its encoder sent gets out of the
    decoder nothing but its datagrams, each at most once; and what the decoder
    hands out for the other sessions is not of this one. *)

From S2P Require Import Prelude Float64 Frame FecCodec FecEncoder FecDecoder FecRecovery FecStreams.

#[local] Open Scope Z_scope.

Section isolation.
  Context `{ReedSolomon, !RangeOrder Z (list byte), !RangeOrder blockKey blockState}.
  (** The session and its number of data shards, the parameters of the decoder,
      the blocks the session has sent. *)
  Context (sid k : Z) (pd : Params) (book : blockKey → option block).

(** ** A codec of another shape *)

(** Every cached codec was built for some number of data shards. *)
Definition known (d : Decoder) : Prop := ∀ p rs, rsByParity d !! p = Some rs → ∃ k', rs_New k' p = Some rs.

Lemma rsFor_known k' p d :
  known d → known (rsFor k' p d).2 ∧ blocks (rsFor k' p d).2 = blocks d.
Proof.
  intros Hd. unfold rsFor. destruct (rsByParity d !! p); [done|]. destruct (rs_New k' p) as [rs|] eqn:E; [|done].
  split; [|done]. intros p' rs'. cbn. rewrite lookup_insert_Some. intros [[<- <-]|[_ ?]]; [by exists k'|by apply Hd].
Qed.

(** ** Deliveries *)

Lemma emit_frames_session s m seqs : Forall (λ f, f_session f = s) (emit_frames s m seqs).
Proof.
  unfold emit_frames. induction seqs as [|q seqs IH]; cbn [omap list_omap]; [constructor|].
  destruct (m !! q); cbn [mbind option_bind]; [by constructor|done].
Qed.

(** Delivery concerns its own block and hands out frames of its session. *)
Record local (key : blockKey) (d : Decoder) (out : list frame) (d' : Decoder) : Prop := {
  lo_known : known d → known d';
  lo_blocks : ∀ key', key' ≠ key → blocks d' !! key' = blocks d !! key';
  lo_session : Forall (λ f, f_session f = key.1.1) out;
}.

Lemma flush_local key st d : local key d (flush key st d).1 (flush key st d).2.
Proof.
  destruct (flush_fields key st d) as [E1 E2]. split.
  - intros Hd p rs. rewrite E2. apply Hd.
  - intros key' Hne. rewrite E1. by rewrite lookup_delete_ne.
  - apply emit_frames_session.
Qed.

Lemma local_nothing key d d' : known d' ∨ d' = d → blocks d' = blocks d → local key d [] d'.
Proof. intros Hk Hb. split; [by destruct Hk as [?| ->]|by intros; rewrite Hb|done]. Qed.

Lemma maybeDeliver_local key st d out d' : known d → maybeDeliver key st d = Ok (out, d') → local key d out d'.
Proof.
  intros Hd. unfold maybeDeliver. destruct (_ =? 0); [intros [= <- <-]; apply local_nothing; auto|].
  destruct (_ <? _); [intros [= <- <-]; apply local_nothing; auto|]. destruct (_ =? _).
  { intros E. pose proof (flush_local key st d) as Hl. assert (E' : flush key st d = (out, d')) by congruence. by rewrite E' in Hl. }
  unfold reconstruct. destruct (rsFor_known (b_k st) (b_p st) d Hd) as [Hk Hb].
  destruct (rsFor (b_k st) (b_p st) d) as [o d1]. cbn [snd] in Hk, Hb.
  destruct o as [rs|]; [|intros [= <- <-]; apply local_nothing; auto].
  destruct (rs_Reconstruct rs _); [|intros [= <- <-]; apply local_nothing; auto].
  intros (r & _ & E)%bind_Ok. pose proof (flush_local key (set_data r.1 st) (with_recovered r.2 d1)) as [L1 L2 L3].
  assert (E' : flush key (set_data r.1 st) (with_recovered r.2 d1) = (out, d')) by congruence. rewrite E' in *.
  split; [by auto|intros key' Hne; by rewrite L2 by done; cbn; rewrite Hb|done].
Qed.

(** Delivery of a block of the session: nothing, or some of its datagrams. *)
Definition delivers_some (key : blockKey) (b : block) (d : Decoder) (out : list frame) (d' : Decoder) : Prop :=
  (out = [] ∧ blocks d' = blocks d) ∨
  ∃ fs, out = map (handed key.1.1) fs ∧ NoDup fs ∧ (∀ f, f ∈ fs → f ∈ b.1) ∧
    closed_block key d' ∧ blocks d' = delete key (blocks d).

Lemma data_nodup s (b : block) : data_ok s b.1 → NoDup b.1.
Proof. intros Hd. apply (NoDup_fmap_1 f_seq), Hd. Qed.

Lemma maybeDeliver_some key b st d out d' :
  block_sound k key.1.1 b → fits k b st → known d → blocks d !! key = Some st →
  maybeDeliver key st d = Ok (out, d') → delivers_some key b d out d'.
Proof.
  intros Hb Hf Hd Hst E. pose proof Hb as [Hdat Hpar].
  assert (Hgood : (∀ rs, rs_New k (Z.of_nat (length b.2)) = Some rs → cache_ok (Z.of_nat (length b.2)) rs d) →
    delivers_some key b d out d').
  { intros Hc. destruct (deliver_all_or_nothing k key b st d Hb Hf Hc Hst) as (o & d1 & E1 & _ & Hor).
    rewrite E in E1. injection E1 as <- <-. destruct Hor as [[-> ->]|(-> & Hcl & Hbl)]; [by left|right].
    exists b.1. split_and!; try done. by eapply data_nodup. }
  destruct (rsByParity d !! Z.of_nat (length b.2)) as [rs'|] eqn:Ec;
    [|apply Hgood; intros rs _ rs' E'; congruence].
  destruct (Hd _ _ Ec) as [k' Hk']. destruct (decide (k' = k)) as [->|Hne].
  { apply Hgood. intros rs Hrs rs'' E'. congruence. }
  pose proof Hf as (_ & _ & [(_ & Hk & _)|(Hne' & seen & Ho)]); unfold maybeDeliver in E.
  { rewrite Hk in E. injection E as <- <-. by left. }
  destruct (ho_header _ _ _ _ _ _ Ho) as [(_ & Hk & _)|[_ Hh]]; [rewrite Hk in E; injection E as <- <-; by left|].
  destruct (_ =? 0); [injection E as <- <-; by left|]. destruct (_ <? _); [injection E as <- <-; by left|].
  destruct (_ =? _).
  - destruct (flush_sound k key b st d Hdat Hf) as (fs & Efs & Hnd & Hin). destruct (flush_fields key st d) as [Hbl _].
    pose proof (flush_closes key st d) as Hcl. assert (E' : flush key st d = (out, d')) by congruence. rewrite E' in *.
    right. by exists fs.
  - unfold reconstruct, rsFor in E. rewrite (hr_k _ _ _ _ Hh), (hr_p _ _ _ _ Hh), Ec in E.
    rewrite (rs_reconstruct_shape k' _ _ _ Hk') in E; [injection E as <- <-; by left|].
    destruct Hpar as [?|[rs Hblk]]; [done|].
    unfold held_shards. rewrite length_app, !length_map, length_seq, (hr_seqs _ _ _ _ Hh), (hr_p _ _ _ _ Hh).
    unfold seqs_of. rewrite length_map. pose proof (bk_len _ _ _ _ _ _ Hblk). lia.
Qed.

(** ** Pushes *)

Lemma local_step key d d1 out d' :
  rsByParity d1 = rsByParity d → (∀ key', key' ≠ key → blocks d1 !! key' = blocks d !! key') →
  local key d1 out d' → local key d out d'.
Proof.
  intros Hc Hb [L1 L2 L3]. split; [|by intros; rewrite L2, Hb|done].
  intros Hd. apply L1. intros p rs. rewrite Hc. apply Hd.
Qed.

Lemma store_local key st d d1 out d' :
  known d → rsByParity d1 = rsByParity d → blocks d1 = blocks d →
  maybeDeliver key st (with_blocks (<[key := st]> (blocks d1)) d1) = Ok (out, d') → local key d out d'.
Proof.
  intros Hd Hc Hb E. eapply local_step; [| |eapply maybeDeliver_local; [|exact E]]; [done| |].
  - intros key' Hne. cbn. by rewrite lookup_insert_ne, Hb.
  - intros p rs. cbn. rewrite Hc. apply Hd.
Qed.

Lemma push_block_local now key st f d out d' :
  known d → push_block now key st f d = Ok (out, d') → local key d out d'.
Proof.
  intros Hd. unfold push_block. destruct (b_flushed st); [intros [= <- <-]; apply local_nothing; auto|].
  destruct (HasFlag f FlagFECParity).
  - destruct (addParity _ _ _ _) as [st'|]; [by apply store_local|intros [= <- <-]; apply local_nothing; auto].
  - cbv zeta. cbn [b_data]. destruct (b_data st !! f_seq f); by apply store_local.
Qed.

(** The session's own blocks are under its id and of its shape. *)
Context (Hbook : ∀ key b, book key = Some b → key.1.1 = sid ∧ block_sound k sid b ∧ 1 ≤ key.2 < 2 ^ 32).
Context (Hon : Enabled pd = true).

(** The session's part of the decoder: its open blocks hold what was sent, and
    [D] are its datagrams delivered out of blocks, each with its block. *)
Record follows (D : list (blockKey * frame)) (d : Decoder) : Prop := {
  fo_params : dec_params d = pd;
  fo_blocks : ∀ (key : blockKey) st, key.1.1 = sid → blocks d !! key = Some st → ∃ b, book key = Some b ∧ fits k b st;
  fo_known : known d;
  fo_once : NoDup D;
  fo_done : ∀ key f, (key, f) ∈ D → closed_block key d ∧ ∃ b, book key = Some b ∧ f ∈ b.1;
}.

Lemma follows_step D d d' :
  follows D d → dec_params d' = dec_params d → known d' → (∀ sk, flushed_at sk d ≤ flushed_at sk d') →
  (∀ (key : blockKey) st, key.1.1 = sid → blocks d' !! key = Some st →
     blocks d !! key = Some st ∨ (¬ closed_block key d ∧ ∃ b, book key = Some b ∧ fits k b st)) →
  follows D d'.
Proof.
  intros [P B _ N Dn] Hp Hc Hf Hb. split; [congruence| |done|done|].
  - intros key st Hid Hk. destruct (Hb key st Hid Hk) as [?|[_ ?]]; [by apply B|done].
  - intros key f Hin. destruct (Dn key f Hin) as [C Hbk]. split; [|done]. destruct C as [C1 C2]. split.
    + destruct (blocks d' !! key) as [st|] eqn:E; [|done]. exfalso.
      destruct Hbk as (b & Hbk & _). destruct (Hbook _ _ Hbk) as [Hid _].
      destruct (Hb key st Hid E) as [E'|[E' _]]; [by rewrite C1 in E'|by apply E'].
    + etrans; [exact C2|apply Hf].
Qed.

Lemma follows_deliver D d d' key b fs :
  follows D d → dec_params d' = dec_params d → known d' → (∀ sk, flushed_at sk d ≤ flushed_at sk d') →
  (∀ key' st, blocks d' !! key' = Some st → blocks d !! key' = Some st) → closed_block key d' → ¬ closed_block key d →
  book key = Some b → NoDup fs → (∀ f, f ∈ fs → f ∈ b.1) →
  follows (D ++ map (pair key) fs) d'.
Proof.
  intros Ht Hp Hc Hf Hb Hcl Hno Hbk Hnd Hin.
  destruct (follows_step D d d' Ht Hp Hc Hf) as [P B C N Dn]; [intros key' st _ E; left; by apply Hb|].
  split; [done|done|done| |].
  - apply NoDup_app. split_and!; [done| |].
    + intros [key' f] H1 (g & [= -> ->] & _)%list_elem_of_fmap. apply Hno, (fo_done _ _ Ht _ _ H1).
    + by apply (NoDup_fmap_2 (pair key)).
  - intros key' f [H1|H1]%elem_of_app; [by apply Dn|].
    apply list_elem_of_fmap in H1 as (g & [= -> ->] & Hg). split; [done|]. exists b. auto.
Qed.

(** A step on a block of another session. *)
Lemma follows_foreign D d key out d' :
  follows D d → key.1.1 ≠ sid → extends (Some key) d d' → local key d out d' → follows D d'.
Proof.
  intros Ht Hne [E1 E2 _] [L1 L2 _]. eapply follows_step; [done|done|by apply L1, Ht|done|].
  intros key' st Hid. rewrite L2 by congruence. by left.
Qed.

(** The frames of the session among those handed out. *)
Definition own (fs : list frame) : list frame := List.filter (λ f, f_session f =? sid) fs.

Lemma own_app l1 l2 : own (l1 ++ l2) = own l1 ++ own l2.
Proof. apply List.filter_app. Qed.

Lemma own_all fs : Forall (λ f, f_session f = sid) fs → own fs = fs.
Proof. induction 1 as [|f fs Hf _ IH]; [done|]. unfold own in *. cbn. by rewrite Hf, Z.eqb_refl, IH. Qed.

Lemma own_none i fs : i ≠ sid → Forall (λ f, f_session f = i) fs → own fs = [].
Proof. intros Hi. induction 1 as [|f fs Hf _ IH]; [done|]. unfold own in *. cbn. by rewrite Hf, (proj2 (Z.eqb_neq _ _) Hi), IH. Qed.

Lemma hand_own (E : list (blockKey * frame)) : (∀ key f, (key, f) ∈ E → key.1.1 = sid) → own (map hand E) = map hand E.
Proof.
  intros HE. apply own_all, Forall_map, Forall_forall. intros [key f] Hin. exact (HE key f Hin).
Qed.

(** A frame of the session that arrives has no block, or is one of its block's. *)
Definition genuine (path : string) (f : frame) : Prop :=
  uncoded f = true ∨ ∃ b, book (filed pd path f) = Some b ∧ f ∈ frames_of k (filed pd path f) b.

Lemma follows_same D d d' :
  follows D d → dec_params d' = dec_params d → blocks d' = blocks d → rsByParity d' = rsByParity d →
  lastFlushed d' = lastFlushed d → follows D d'.
Proof.
  intros Ht E1 E2 E3 E4. eapply follows_step; [exact Ht|done| | |].
  - intros p rs. rewrite E3. apply Ht.
  - intros sk. unfold flushed_at. by rewrite E4.
  - intros key st _. rewrite E2. by left.
Qed.

(** A frame of the session for one of its blocks. *)
Lemma own_push_block now D d d1 key b st f out d' :
  follows D d → book key = Some b → ¬ closed_block key d → fits k b st → f ∈ frames_of k key b →
  dec_params d1 = dec_params d → rsByParity d1 = rsByParity d → lastFlushed d1 = lastFlushed d →
  (∀ key', key' ≠ key → blocks d1 !! key' = blocks d !! key') →
  push_block now key st f d1 = Ok (out, d') →
  ∃ E, own out = map hand E ∧ follows (D ++ E) d'.
Proof.
  intros Ht Hbk Hno Hf Hin E1 E2 E3 E4 E. destruct (Hbook _ _ Hbk) as (Hid & Hs & Hbs).
  assert (Hs' : block_sound k key.1.1 b) by (by rewrite Hid). pose proof (fo_known _ _ Ht) as Hd.
  destruct (push_block_stores k now key b st f d1 Hs' Hbs Hf Hin) as (st' & d2 & Ep & Hf' & P1 & P2 & P3 & P4).
  rewrite Ep in E. clear Ep. set (d3 := with_blocks (<[key := st']> (blocks d2)) d2) in E.
  assert (Hd3 : known d3) by (intros p rs; cbn; rewrite P2, E2; apply Hd).
  assert (H3 : ∀ key', key' ≠ key → blocks d3 !! key' = blocks d !! key').
  { intros key' Hne. cbn. by rewrite lookup_insert_ne, P4, E4. }
  pose proof (maybeDeliver_local _ _ _ _ _ Hd3 E) as [L1 L2 L3].
  pose proof (maybeDeliver_extends _ _ _ _ _ E) as [X1 X2 _].
  assert (Hp : dec_params d' = dec_params d) by (etrans; [exact X1|]; cbn; congruence).
  assert (Hfl : ∀ sk, flushed_at sk d ≤ flushed_at sk d').
  { intros sk. etrans; [|apply X2]. unfold flushed_at. cbn. by rewrite P3, E3. }
  rewrite own_all by (by rewrite <-Hid).
  destruct (maybeDeliver_some key b st' d3 out d' Hs' Hf' Hd3) as [[-> Hbl]|(fs & -> & Hnd & Hfs & Hcl & Hbl)];
    [apply lookup_insert_eq|exact E| |].
  - exists []. rewrite app_nil_r. split; [done|]. eapply follows_step; [exact Ht|done|by apply L1|done|].
    intros key' st1 _. rewrite Hbl. destruct (decide (key' = key)) as [->|Hne].
    + cbn. rewrite lookup_insert_eq. intros [= <-]. right. split; [done|]. by exists b.
    + rewrite H3 by done. by left.
  - exists (map (pair key) fs). rewrite map_hand. split; [done|].
    eapply (follows_deliver D d d' key b); try done; [by apply L1|].
    intros key' st1. rewrite Hbl. intros [Hne E']%lookup_delete_Some. by rewrite H3 in E'.
Qed.

Lemma push_follows now path f D d out d' :
  follows D d → (f_session f = sid → genuine path f) → Decoder_Push now path f d = Ok (out, d') →
  ∃ E, own out = own (if uncoded f then [f] else []) ++ map hand E ∧ follows (D ++ E) d'.
Proof.
  intros Ht Hg E. pose proof (push_extends _ _ _ _ _ _ E) as [Hx _]. unfold Decoder_Push, key_of in E, Hx.
  rewrite (fo_params _ _ Ht) in E, Hx. rewrite Hon in E. fold (filed pd path f) in E, Hx. cbn [negb] in E.
  destruct (uncoded f) eqn:Eu; unfold uncoded in Eu.
  { exists []. rewrite !app_nil_r. apply andb_true_iff in Eu as [U1 U2]. rewrite U2 in E. cbn [andb] in E. rewrite andb_true_r in E.
    destruct (HasFlag f FlagPassSeq); cbn [orb] in U1; [|rewrite U1 in E]; injection E as <- <-; (split; [done|]); [|done].
    unfold observePathSeq. destruct (observe_raw _ _ _); [by apply (follows_same D d)|done]. }
  assert (E1 : HasFlag f FlagPassSeq && negb (HasFlag f FlagFECParity) = false ∧
    negb (HasFlag f FlagFECParity) && (f_block f =? 0) = false).
  { by destruct (HasFlag f FlagPassSeq), (f_block f =? 0), (HasFlag f FlagFECParity). }
  destruct E1 as [Ea Eb]. rewrite Ea, Eb in E. cbn [app]. change (own []) with ([] : list frame). cbn [app].
  set (key := filed pd path f) in *. destruct (decide (f_session f = sid)) as [Hid|Hne].
  - destruct (Hg Hid) as [?|(b & Hb & Hin)]; [unfold uncoded in *; congruence|]. fold key in Hb, Hin.
    destruct (blocks d !! key) as [st|] eqn:Ek.
    + destruct (fo_blocks _ _ Ht key st Hid Ek) as (b' & Hb' & Hf). assert (b' = b) as -> by congruence.
      by eapply (own_push_block now D d d); [| |eapply open_not_closed| | | | | | |exact E].
    + destruct (Z.leb_spec key.2 (flushed_at (stream_of key) d)) as [Hle|Hlt].
      { injection E as <- <-. exists []. by rewrite app_nil_r. }
      set (d1 := with_blocks _ d) in E. apply (own_push_block now D d d1 key b new_block f out d'); try done.
      * intros [_ ?]. lia.
      * apply fits_new.
      * intros key' Hne. cbn. by rewrite lookup_insert_ne.
  - assert (Hl : local key d out d').
    { destruct (blocks d !! key) as [st|]; [by apply (push_block_local _ _ _ _ _ _ _ (fo_known _ _ Ht) E)|].
      destruct (key.2 <=? _); [injection E as <- <-; apply local_nothing; auto|].
      eapply local_step; [| |eapply push_block_local; [|exact E]; apply Ht]; [done|].
      intros key' Hk. cbn. by rewrite lookup_insert_ne. }
    exists []. rewrite app_nil_r. split; [|by eapply (follows_foreign D d key)].
    by apply (own_none (f_session f)), Hl.
Qed.

(** ** Ticks *)

Lemma flush_follows key st D d :
  follows D d → blocks d !! key = Some st →
  ∃ E, own (flush key st d).1 = map hand E ∧ follows (D ++ E) (flush key st d).2 ∧
    blocks (flush key st d).2 = delete key (blocks d).
Proof.
  intros Ht Hk. destruct (flush_fields key st d) as [F1 F2]. pose proof (flush_local key st d) as Hl.
  pose proof (flush_extends key st d) as Hx. destruct (decide (key.1.1 = sid)) as [Hid|Hne].
  - destruct (fo_blocks _ _ Ht _ _ Hid Hk) as (b & Hb & Hf). destruct (Hbook _ _ Hb) as (_ & [Hdat _] & _).
    rewrite <-Hid in Hdat. destruct (flush_sound k key b st d Hdat Hf) as (fs & Efs & Hnd & Hin).
    exists (map (pair key) fs). rewrite map_hand, Efs. split_and!; [|  |done].
    { rewrite <-Efs. apply own_all. rewrite <-Hid. apply Hl. }
    destruct Hx as [X1 X2 _]. eapply (follows_deliver D d _ key b); try done.
    + apply Hl, Ht.
    + intros key' st1. rewrite F1. by intros [_ ?]%lookup_delete_Some.
    + apply flush_closes.
    + by eapply open_not_closed.
  - exists []. rewrite app_nil_r. split_and!; [by apply (own_none key.1.1), Hl| |done].
    eapply (follows_foreign D d key); [done|done|by apply extends_weaken|exact Hl].
Qed.

Lemma tick_follows now D d :
  follows D d →
  ∃ E, own (Decoder_Tick now d).1 = map hand E ∧ follows (D ++ E) (Decoder_Tick now d).2.
Proof.
  intros Ht. unfold Decoder_Tick. set (d1 := flushPathGaps now d).
  assert (Ht1 : follows D d1) by (by apply (follows_same D d)). clearbody d1.
  rewrite (fo_params _ _ Ht1), Hon. cbn [negb].
  assert (Hl : ∀ l D d1 acc, follows D d1 → NoDup l.*1 → (∀ key st, (key, st) ∈ l → blocks d1 !! key = Some st) →
    ∃ E, let r := foldl (λ od kst, if b_flushed kst.2 || (now <? b_deadline kst.2) then od
           else let '(o, d) := flush kst.1 kst.2 od.2 in (od.1 ++ o, d)) (acc, d1) l in
      own r.1 = own acc ++ map hand E ∧ follows (D ++ E) r.2).
  { clear D d Ht d1 Ht1. intros l. induction l as [|[key st] l IH]; intros D d acc Ht Hnd Hl; cbn [foldl fst snd].
    { exists []. by rewrite !app_nil_r. }
    cbn [fmap list_fmap fst] in Hnd. apply NoDup_cons in Hnd as [Hnot Hnd]. destruct (b_flushed st || _).
    { apply IH; [done|done|]. intros ???. apply Hl. by right. }
    destruct (flush_follows key st D d Ht) as (E1 & Eo & Ht1 & Hb1); [apply Hl; by left|].
    destruct (flush key st d) as [o1 d1]. cbn [fst snd] in *.
    destruct (IH (D ++ E1) d1 (acc ++ o1) Ht1 Hnd) as (E2 & Ef & Ht2).
    { intros key' st' Hin. rewrite Hb1, lookup_delete_ne; [apply Hl; by right|].
      intros ->. apply Hnot. exact (list_elem_of_fmap_2 fst l (key', st') Hin). }
    exists (E1 ++ E2). rewrite own_app, Eo in Ef. by rewrite map_app, !app_assoc in *. }
  destruct (Hl (range (blocks d1)) D d1 [] Ht1) as (E & Ho & Hf).
  - rewrite range_perm. apply NoDup_fst_map_to_list.
  - intros key st. by rewrite elem_of_range.
  - by exists E.
Qed.
End isolation.

(** More blocks sent change nothing for those that were. *)
Lemma follows_mono `{ReedSolomon} sid k pd (book book' : blockKey → option block) D d :
  (∀ key b, book key = Some b → book' key = Some b) → follows sid k pd book D d → follows sid k pd book' D d.
Proof.
  intros Hm [P B C N Dn]. split; [done| |done|done|].
  - intros key st Hid Hk. destruct (B key st Hid Hk) as (b & Hb & Hf). exists b. auto.
  - intros key f Hin. destruct (Dn key f Hin) as [Hcl (b & Hb & Hf)]. split; [done|]. exists b. auto.
Qed.

(** ** A decoder of one session *)

Section lone.
  Context {rsl : ReedSolomon} `{!RangeOrder Z (list byte), !RangeOrder blockKey blockState} (sid : Z).

Definition lone (d : Decoder) : Prop := ∀ (key : blockKey) st, blocks d !! key = Some st → key.1.1 = sid.
Abbreviation of_session := (Forall (λ f, f_session f = sid)).

Lemma local_lone key d out d' : local key d out d' → key.1.1 = sid → lone d → lone d' ∧ of_session out.
Proof.
  intros [_ L2 L3] Hk Hl. split; [|by rewrite Hk in L3]. intros key' st. destruct (decide (key' = key)) as [->|Hne]; [done|].
  rewrite L2 by done. apply Hl.
Qed.

Lemma push_lone now path f d out d' :
  known d → lone d → f_session f = sid → Decoder_Push now path f d = Ok (out, d') → lone d' ∧ of_session out.
Proof.
  intros Hk Hl Hf. assert (H1 : ∀ d', blocks d' = blocks d → lone d' ∧ of_session [f])
    by (intros d2 E; split; [intros key st; rewrite E; apply Hl|by apply Forall_singleton]).
  unfold Decoder_Push. destruct (_ && _); [intros [= <- <-]; apply H1; unfold observePathSeq; by destruct (observe_raw _ _ _)|].
  destruct (negb (Enabled _)); [intros [= <- <-]; destruct (HasFlag f FlagFECParity); [by split|by apply H1]|].
  destruct (_ && _); [intros [= <- <-]; by apply H1|].
  assert (Hid : (key_of path f d).1.1 = sid) by done. set (key := key_of path f d) in *. clearbody key.
  destruct (blocks d !! key) as [st|].
  - intros H. eapply local_lone; [by eapply push_block_local|done|done].
  - destruct (_ <=? _); [intros [= <- <-]; by split|]. set (d1 := with_blocks _ d). intros H. apply (local_lone key d1); [by eapply (push_block_local _ key new_block f d1)|done|].
    intros key' st. cbn. rewrite lookup_insert_Some. intros [[<- _]|[_ ?]]; [done|by eapply Hl].
Qed.

Lemma tick_lone now d : lone d → lone (Decoder_Tick now d).2 ∧ of_session (Decoder_Tick now d).1.
Proof.
  intros Hl. unfold Decoder_Tick. set (d1 := flushPathGaps now d).
  assert (Hl1 : lone d1) by (intros key st; apply Hl). clearbody d1. destruct (negb _); [by split|].
  assert (H : ∀ l acc d, lone d → of_session acc → (∀ key st, (key, st) ∈ l → key.1.1 = sid) →
    let r := foldl (λ od kst, if b_flushed kst.2 || (now <? b_deadline kst.2) then od
           else let '(o, d) := flush kst.1 kst.2 od.2 in (od.1 ++ o, d)) (acc, d) l in
    lone r.2 ∧ of_session r.1).
  { clear. intros l. induction l as [|[key st] l IH]; intros acc d Hd Ha Hin; cbn [foldl fst snd]; [done|].
    destruct (b_flushed st || _); [apply IH; [done|done|]; intros ???; by eapply Hin, list_elem_of_further|].
    destruct (local_lone key d _ _ (flush_local key st d)) as [H1 H2]; [by eapply Hin, list_elem_of_here|done|].
    destruct (flush key st d) as [o d1]. apply IH; [done|by apply Forall_app|]. intros ???; by eapply Hin, list_elem_of_further. }
  apply H; [done|done|]. intros key st. rewrite elem_of_range. apply Hl1.
Qed.
End lone.
