(* ===== verification/Sha256.v ===== *)
(** * SHA-256 and HMAC (crypto/sha256 and crypto/hmac of the Go library)

    The two functions of the standard library that internal/crypto/crypto.go
    builds its key derivation on, executable on byte lists. *)

From S2P Require Import Prelude.

#[local] Open Scope Z_scope.

(** ** SHA-256 (FIPS 180-4) *)

(** The constants of the standard: the first 32 bits of the fractional parts of
    the cube roots, respectively the square roots, of the first primes. *)
Definition is_prime (n : nat) : bool :=
  (2 <=? n)%nat && forallb (λ d, negb (n mod d =? 0)%nat) (seq 2 (n - 2)).

Definition primes : list Z :=
  Eval vm_compute in Z.of_nat <$> List.filter is_prime (seq 2 310).

(** Integer cube root below 2^(n), bit by bit. *)
Fixpoint icbrt (n : nat) (x r : Z) : Z :=
  match n with
  | O => r
  | S m => let c := r + 2 ^ Z.of_nat m in icbrt m x (if c ^ 3 <=? x then c else r)
  end.

Definition sha_K : list Z :=
  Eval vm_compute in (λ p, u32 (icbrt 40 (p * 2 ^ 96) 0)) <$> primes.

(** The eight working words. *)
Record words8 := W8 { wa : Z; wb : Z; wc : Z; wd : Z; we : Z; wf : Z; wg : Z; wh : Z }.

Definition sha_init : words8 :=
  Eval vm_compute in
  match (λ p, u32 (Z.sqrt (p * 2 ^ 64))) <$> primes with
  | a :: b :: c :: d :: e :: f :: g :: h :: _ => W8 a b c d e f g h
  | _ => W8 0 0 0 0 0 0 0 0
  end.

Example sha_constants : length sha_K = 64%nat.
Proof. reflexivity. Qed.

Definition rotr (n x : Z) : Z := Z.lor (Z.shiftr x n) (u32 (Z.shiftl x (32 - n))).
Definition xor3 (a b c : Z) : Z := Z.lxor a (Z.lxor b c).

Definition sha_round (s : words8) (kw : Z * Z) : words8 :=
  let S1 := xor3 (rotr 6 (we s)) (rotr 11 (we s)) (rotr 25 (we s)) in
  let ch := Z.lxor (Z.land (we s) (wf s)) (Z.land (Z.lxor (we s) (2 ^ 32 - 1)) (wg s)) in
  let t1 := u32 (wh s + S1 + ch + kw.1 + kw.2) in
  let S0 := xor3 (rotr 2 (wa s)) (rotr 13 (wa s)) (rotr 22 (wa s)) in
  let maj := xor3 (Z.land (wa s) (wb s)) (Z.land (wa s) (wc s)) (Z.land (wb s) (wc s)) in
  let t2 := u32 (S0 + maj) in
  W8 (u32 (t1 + t2)) (wa s) (wb s) (wc s) (u32 (wd s + t1)) (we s) (wf s) (wg s).

(** The message schedule, latest word first. *)
Fixpoint sha_extend (n : nat) (w : list Z) : list Z :=
  match n with
  | O => w
  | S m =>
      let at_ i := default 0 (w !! i) in
      let s0 := xor3 (rotr 7 (at_ 14%nat)) (rotr 18 (at_ 14%nat)) (Z.shiftr (at_ 14%nat) 3) in
      let s1 := xor3 (rotr 17 (at_ 1%nat)) (rotr 19 (at_ 1%nat)) (Z.shiftr (at_ 1%nat) 10) in
      sha_extend m (u32 (at_ 15%nat + s0 + at_ 6%nat + s1) :: w)
  end.

(** [chunks k n l]: the first [n] pieces of [k] elements. *)
Fixpoint chunks {A} (k n : nat) (l : list A) : list (list A) :=
  match n with
  | O => []
  | S m => take k l :: chunks k m (drop k l)
  end.

Definition sha_block (s : words8) (block : list byte) : words8 :=
  let w := reverse (sha_extend 48 (reverse (be_get <$> chunks 4 16 block))) in
  let r := foldl sha_round s (zip sha_K w) in
  W8 (u32 (wa s + wa r)) (u32 (wb s + wb r)) (u32 (wc s + wc r)) (u32 (wd s + wd r))
     (u32 (we s + we r)) (u32 (wf s + wf r)) (u32 (wg s + wg r)) (u32 (wh s + wh r)).

Definition sha_pad (msg : list byte) : list byte :=
  let len := Z.of_nat (length msg) in
  msg ++ [x80] ++ replicate (Z.to_nat ((55 - len) mod 64)) x00 ++ be_put 8 (8 * len).

(** [sha256.Sum256(msg)]. *)
Definition sha256 (msg : list byte) : list byte :=
  let p := sha_pad msg in
  let s := foldl sha_block sha_init (chunks 64 (length p / 64) p) in
  concat (be_put 4 <$> [wa s; wb s; wc s; wd s; we s; wf s; wg s; wh s]).

Definition sha256_Size : nat := 32.

Lemma length_sha256 msg : length (sha256 msg) = sha256_Size.
Proof. reflexivity. Qed.

(** ** HMAC (RFC 2104) over it *)

Definition xor_bytes (c : Z) (l : list byte) : list byte := (λ b, z2b (Z.lxor (b2z b) c)) <$> l.

(** [m := hmac.New(sha256.New, key); m.Write(msg); m.Sum(nil)]: several [Write]s
    are one [Write] of the concatenation. *)
Definition hmac (key msg : list byte) : list byte :=
  let key := if (64 <? length key)%nat then sha256 key else key in
  let key := key ++ replicate (64 - length key) x00 in
  sha256 (xor_bytes 0x5c key ++ sha256 (xor_bytes 0x36 key ++ msg)).

Lemma length_hmac key msg : length (hmac key msg) = sha256_Size.
Proof. apply length_sha256. Qed.

(** The published test vectors: SHA-256 of "" and of "abc", and test case 2 of
    RFC 4231. *)
Example sha256_empty :
  be_get (sha256 []) = 0xe3b0c44298fc1c149afbf4c8996fb92427ae41e4649b934ca495991b7852b855.
Proof. vm_compute. reflexivity. Qed.

Example sha256_abc :
  be_get (sha256 (z2b <$> [97; 98; 99])) =
  0xba7816bf8f01cfea414140de5dae2223b00361a396177a9cb410ff61f20015ad.
Proof. vm_compute. reflexivity. Qed.

Example hmac_rfc4231 :
  be_get (hmac (z2b <$> [0x4a; 0x65; 0x66; 0x65])
    (be_put 28 0x7768617420646f2079612077616e7420666f72206e6f7468696e673f)) =
  0x5bdcc146bf60754e6a042426089575c75a003f089d2739839dec58b964ec3843.
Proof. vm_compute. reflexivity. Qed.
