(* ===== verification/Crypto.v ===== *)
(** * The secure channel (internal/crypto/crypto.go and pfs.go)

    Key derivation, the sealing of frames and the forward-secret session key.
    HKDF runs on the executable HMAC of [Sha256]. The AEAD ciphers and X25519
    are code outside the repository: they are the classes [AEADLaws], [Ciphers]
    and [X25519], with the documented behaviour of those packages as laws, and
    concrete instances at the end of the file. *)

From S2P Require Import Prelude Sha256 Frame.

#[local] Open Scope Z_scope.

Inductive crypto_error : Type :=
| ErrEmptyPSK
| ErrKeySize (got : nat)
| ErrUnknownCipher
| ErrCipherLibrary
| ErrTooShortToSeal
| ErrSealedTooShort
| ErrAuthentication
| ErrPrivateKeySize
| ErrPeerKeySize
| ErrECDH.

#[export] Instance crypto_error_eq_dec : EqDecision crypto_error.
Proof. solve_decision. Defined.

Inductive NonceDirection := DirClientToServer | DirServerToClient.

#[export] Instance dir_eq_dec : EqDecision NonceDirection.
Proof. solve_decision. Defined.

(** [byte(dir)]. *)
Definition dir_byte (d : NonceDirection) : byte :=
  match d with DirClientToServer => x00 | DirServerToClient => x01 end.

Definition nonceSize : nat := 12.
Definition keySize : nat := 32.

Definition bytes_of (s : string) : list byte := String.list_byte_of_string s.

(** ** Key derivation *)

(** The loop of [hkdfExpand]: [t] is the previous block, [counter] a byte. The
    fuel bounds the number of blocks; running out is [None]. *)
Fixpoint hkdf_loop (fuel : nat) (prk info : list byte) (n : nat)
    (t out : list byte) (counter : Z) : option (list byte) :=
  if (length out <? n)%nat then
    match fuel with
    | O => None
    | S fuel =>
        let t := hmac prk (t ++ info ++ [z2b counter]) in
        hkdf_loop fuel prk info n t (out ++ t) (u8 (counter + 1))
    end
  else Some out.

(** [hkdfExpand(prk, info, n)]: every block has 32 bytes, so [n] blocks are more
    than enough ([hkdf_rfc5869]). *)
Definition hkdfExpand (prk info : list byte) (n : nat) : list byte :=
  match hkdf_loop n prk info n [] [] 1 with
  | Some out => take n out
  | None => []
  end.

Definition derive (psk salt info : list byte) : list byte :=
  hkdfExpand (hmac salt psk) info keySize.

Definition DeriveKey (psk : list byte) : res crypto_error (list byte) :=
  if (length psk =? 0)%nat then Err ErrEmptyPSK
  else Ok (derive psk (bytes_of "flexbraid-v1") (bytes_of "channel-key")).

(** The info string of [DerivePFSKey]. *)
Definition pfs_info (sessionID : Z) : list byte :=
  bytes_of "pfs-session:" ++ be_put 8 sessionID.

Definition DerivePFSKey (psk shared : list byte) (sessionID : Z) : list byte :=
  derive shared psk (pfs_info sessionID).

(** ** The AEAD ciphers *)

(** [cipher.AEAD]; nonces have [nonceSize] bytes, as the code always passes. *)
Record AEAD := mkAEAD {
  aead_seal : list byte → list byte → list byte → list byte;         (* nonce, plaintext, data *)
  aead_open : list byte → list byte → list byte → option (list byte); (* nonce, ciphertext, data *)
  Overhead : nat;
}.

(** What crypto/cipher documents of an AEAD and both ciphers provide: opening
    inverts sealing, the ciphertext is longer by [Overhead], and since a
    ciphertext is determined by the nonce, the plaintext and the data, whatever
    opens is the sealing of its plaintext. *)
Class AEADLaws (a : AEAD) : Prop := {
  aead_open_seal n p ad : length n = nonceSize → aead_open a n (aead_seal a n p ad) ad = Some p;
  aead_seal_open n c ad p : length n = nonceSize → aead_open a n c ad = Some p → aead_seal a n p ad = c;
  aead_length n p ad : length n = nonceSize → length (aead_seal a n p ad) = (length p + Overhead a)%nat;
}.

(** The constructors [chacha20poly1305.New] and [aes.NewCipher] with
    [cipher.NewGCM]: they accept every 32-byte key. *)
Class Ciphers := {
  chacha20poly1305_New : list byte → option AEAD;
  aes_gcm_New : list byte → option AEAD;
  ciphers_total k : length k = keySize →
    (∃ a, chacha20poly1305_New k = Some a ∧ AEADLaws a) ∧
    (∃ a, aes_gcm_New k = Some a ∧ AEADLaws a);
}.

Definition of_library (a : option AEAD) : res crypto_error AEAD :=
  match a with Some a => Ok a | None => Err ErrCipherLibrary end.

Definition NewAEAD `{Ciphers} (key : list byte) (name : string) : res crypto_error AEAD :=
  if negb (length key =? keySize)%nat then Err (ErrKeySize (length key))
  else if String.eqb name "" || String.eqb name "chacha20poly1305" then
    of_library (chacha20poly1305_New key)
  else if String.eqb name "aes256gcm" then of_library (aes_gcm_New key)
  else Err ErrUnknownCipher.

(** ** Sealing frames *)

(** [makeNonce(dir, seq)]: four zero bytes, the direction, three zero bytes, the
    big-endian sequence number. *)
Definition makeNonce (dir : NonceDirection) (seq : Z) : list byte :=
  put_at 8 (be_put 4 seq) (<[4%nat := dir_byte dir]> (replicate nonceSize x00)).

Definition frameSeq (header : list byte) : Z := be_get (slice 16 20 header).

Definition Seal (aead : AEAD) (dir : NonceDirection) (plaintext : list byte)
    : res crypto_error (list byte) :=
  if (length plaintext <? 28)%nat then Err ErrTooShortToSeal
  else
    let header := take 28 plaintext in
    let payload := drop 28 plaintext in
    Ok (header ++ aead_seal aead (makeNonce dir (frameSeq header)) payload header).

Definition Open (aead : AEAD) (dir : NonceDirection) (sealed : list byte)
    : res crypto_error (list byte) :=
  if (length sealed <? 28 + Overhead aead)%nat then Err ErrSealedTooShort
  else
    let header := take 28 sealed in
    let body := drop 28 sealed in
    match aead_open aead (makeNonce dir (frameSeq header)) body header with
    | None => Err ErrAuthentication
    | Some payload => Ok (header ++ payload)
    end.

(** ** The key exchange *)

Definition PublicKeySize : nat := 32.

(** crypto/ecdh's X25519: a public key has 32 bytes, [ECDH] fails on a low-order
    point ([None]) and the two sides compute the same secret. *)
Class X25519 := {
  x_public : list byte → list byte;
  x_ecdh : list byte → list byte → option (list byte);
  x_public_length a : length a = PublicKeySize → length (x_public a) = PublicKeySize;
  x_ecdh_comm a b : length a = PublicKeySize → length b = PublicKeySize →
    x_ecdh a (x_public b) = x_ecdh b (x_public a);
}.

(** [ECDHShared]: [NewPrivateKey] and [NewPublicKey] accept every 32-byte key. *)
Definition ECDHShared `{X25519} (priv peerPub : list byte) : res crypto_error (list byte) :=
  if negb (length priv =? PublicKeySize)%nat then Err ErrPrivateKeySize
  else if negb (length peerPub =? PublicKeySize)%nat then Err ErrPeerKeySize
  else match x_ecdh priv peerPub with Some s => Ok s | None => Err ErrECDH end.

(** ** HKDF against RFC 5869 *)

(** T(i) of RFC 5869, section 2.3. *)
Fixpoint hkdf_T (prk info : list byte) (i : nat) : list byte :=
  match i with
  | O => []
  | S j => hmac prk (hkdf_T prk info j ++ info ++ [z2b (Z.of_nat i)])
  end.

(** T(1) | T(2) | ... | T(N). *)
Definition hkdf_blocks (prk info : list byte) (N : nat) : list byte :=
  concat (hkdf_T prk info <$> seq 1 N).

(** The number of blocks for [n] bytes: ceil(n / 32). *)
Definition hkdf_count (n : nat) : nat := ((n + 31) / 32)%nat.

Lemma hkdf_count_spec n : (n ≤ 32 * hkdf_count n < n + 32)%nat.
Proof.
  unfold hkdf_count. pose proof (Nat.div_mod_eq (n + 31) 32).
  pose proof (Nat.mod_upper_bound (n + 31) 32). lia.
Qed.

Lemma length_hkdf_T prk info i : length (hkdf_T prk info (S i)) = 32%nat.
Proof. apply length_hmac. Qed.

Lemma hkdf_blocks_S prk info N :
  hkdf_blocks prk info (S N) = hkdf_blocks prk info N ++ hkdf_T prk info (S N).
Proof.
  unfold hkdf_blocks. rewrite seq_S, fmap_app, concat_app. cbn [fmap list_fmap concat].
  by rewrite app_nil_r.
Qed.

Lemma length_hkdf_blocks prk info N : length (hkdf_blocks prk info N) = (32 * N)%nat.
Proof.
  induction N as [|N IH]; [done|].
  rewrite hkdf_blocks_S, length_app, IH, length_hkdf_T. lia.
Qed.

(** From any point of the loop the blocks still missing are appended. *)
Lemma hkdf_loop_spec prk info n fuel i :
  (n ≤ 255 * 32)%nat → (i ≤ hkdf_count n)%nat → (hkdf_count n ≤ fuel + i)%nat →
  hkdf_loop fuel prk info n (hkdf_T prk info i) (hkdf_blocks prk info i) (Z.of_nat i + 1) =
  Some (hkdf_blocks prk info (hkdf_count n)).
Proof.
  intros Hn. pose proof (hkdf_count_spec n) as Hc. revert i. induction fuel as [|fuel IH]; intros i Hi Hf; cbn [hkdf_loop];
    rewrite length_hkdf_blocks.
  - replace i with (hkdf_count n) by lia.
    rewrite (proj2 (Nat.ltb_ge _ _)); [done|]. lia.
  - destruct (Nat.ltb_spec (32 * i) n) as [Hlt|Hge].
    + assert (S i ≤ hkdf_count n)%nat by lia.
      assert (hkdf_count n ≤ 255)%nat by lia.
      specialize (IH (S i) ltac:(done) ltac:(lia)).
      rewrite hkdf_blocks_S in IH. rewrite Nat2Z.inj_succ in IH. unfold Z.succ in IH.
      cbn [hkdf_T] in IH. rewrite Nat2Z.inj_succ in IH. unfold Z.succ in IH.
      destruct (Nat.eq_dec i 254) as [->|].
      * destruct fuel as [|fuel]; cbn [hkdf_loop] in *.
        all: rewrite length_app, length_hkdf_blocks, length_hmac in *.
        all: assert ((32 * 254 + sha256_Size <? n)%nat = false) as Hdone
          by (unfold sha256_Size; apply Nat.ltb_ge; lia).
        all: by rewrite Hdone in *.
      * unfold u8. rewrite Z.mod_small by lia. done.
    + replace i with (hkdf_count n); [done|]. lia.
Qed.

Lemma hkdfExpand_blocks prk info n :
  (n ≤ 255 * 32)%nat →
  hkdf_loop n prk info n [] [] 1 = Some (hkdf_blocks prk info (hkdf_count n)) ∧
  hkdfExpand prk info n = take n (hkdf_blocks prk info (hkdf_count n)).
Proof.
  intros Hn. assert (E : hkdf_loop n prk info n [] [] 1 =
    Some (hkdf_blocks prk info (hkdf_count n))).
  { pose proof (hkdf_count_spec n). apply (hkdf_loop_spec prk info n n 0 Hn); lia. }
  unfold hkdfExpand. by rewrite E.
Qed.

Lemma length_hkdfExpand prk info n : (n ≤ 255 * 32)%nat → length (hkdfExpand prk info n) = n.
Proof.
  intros Hn. rewrite (proj2 (hkdfExpand_blocks prk info n Hn)).
  rewrite length_take, length_hkdf_blocks. pose proof (hkdf_count_spec n). lia.
Qed.

Lemma length_DerivePFSKey psk shared id : length (DerivePFSKey psk shared id) = keySize.
Proof. apply length_hkdfExpand. unfold keySize. lia. Qed.

(** ** Nonces *)

Lemma makeNonce_layout dir seq :
  makeNonce dir seq = [x00; x00; x00; x00; dir_byte dir; x00; x00; x00] ++ be_put 4 seq.
Proof. reflexivity. Qed.

Lemma length_makeNonce dir seq : length (makeNonce dir seq) = nonceSize.
Proof. reflexivity. Qed.

(** A direction and a 32-bit sequence number determine the nonce, and
    conversely. *)
Lemma makeNonce_inj d d' s s' :
  is_u32 s → is_u32 s' → makeNonce d s = makeNonce d' s' → d = d' ∧ s = s'.
Proof.
  intros Hs Hs'. rewrite !makeNonce_layout. intros [Hd He]%app_inj_1; [|done].
  split; [by destruct d, d'|].
  apply (f_equal be_get) in He.
  rewrite !be_get_put_small in He by (change (256 ^ Z.of_nat 4) with (2 ^ 32); done). done.
Qed.

(** ** Seal and Open *)

Section seal.
Context (a : AEAD) `{!AEADLaws a}.

Lemma Seal_Ok dir b s :
  Seal a dir b = Ok s → (28 ≤ length b)%nat ∧
    s = take 28 b ++ aead_seal a (makeNonce dir (frameSeq (take 28 b))) (drop 28 b) (take 28 b).
Proof.
  unfold Seal. destruct (Nat.ltb_spec (length b) 28); [done|]. intros [= <-]. done.
Qed.

Lemma length_Seal dir b s : Seal a dir b = Ok s → length s = (length b + Overhead a)%nat.
Proof.
  intros [Hl ->]%Seal_Ok. rewrite length_app, aead_length, length_take, length_drop
    by apply length_makeNonce. lia.
Qed.

Lemma Seal_header dir b s : Seal a dir b = Ok s → take 28 s = take 28 b.
Proof.
  intros [Hl ->]%Seal_Ok. apply take_app_length'. rewrite length_take. lia.
Qed.

Lemma Open_Seal dir b s : Seal a dir b = Ok s → Open a dir s = Ok b.
Proof.
  intros Hs. pose proof (length_Seal _ _ _ Hs) as Hlen. pose proof (Seal_header _ _ _ Hs) as Hh.
  apply Seal_Ok in Hs as [Hl Hs]. unfold Open.
  rewrite (proj2 (Nat.ltb_ge _ _)) by lia. rewrite Hh, Hs.
  rewrite drop_app_length' by (rewrite length_take; lia).
  rewrite aead_open_seal by apply length_makeNonce. by rewrite take_drop.
Qed.

Lemma Seal_Open dir s b : Open a dir s = Ok b → Seal a dir b = Ok s.
Proof.
  unfold Open. destruct (Nat.ltb_spec (length s) (28 + Overhead a)); [done|].
  destruct (aead_open _ _ _ _) as [p|] eqn:Ho; [|done]. intros [= <-].
  assert (Hl : length (take 28 s) = 28%nat) by (rewrite length_take; lia).
  unfold Seal. rewrite length_app, Hl. rewrite (proj2 (Nat.ltb_ge _ _)) by lia.
  rewrite take_app_length', drop_app_length' by done.
  rewrite (aead_seal_open _ _ _ _ (length_makeNonce _ _) Ho). by rewrite take_drop.
Qed.

(** A frame on the wire: what the sender makes of it, and the receiver back. *)
Lemma seal_frame dir f :
  wf_frame f → Z.of_nat (length (f_payload f)) ≤ MaxPayload →
  ∃ plain b, Encode f = Ok plain ∧ Seal a dir plain = Ok b ∧ Open a dir b = Ok plain ∧
    Decode plain = Ok (set_version Version f) ∧
    DecodeHeader b = Ok (set_payload [] (set_version Version f)).
Proof.
  intros Hwf Hlen. pose proof (Encode_layout f Hlen) as He. pose proof (length_Encode _ _ He) as Hl.
  eexists _, _. split; [exact He|]. unfold Seal at 1. rewrite (proj2 (Nat.ltb_ge _ _)) by (unfold HeaderSize in Hl; lia).
  split; [reflexivity|]. set (b := _ ++ aead_seal _ _ _ _).
  assert (Hs : Seal a dir (header_bytes f ++ f_payload f) = Ok b).
  { unfold Seal. rewrite (proj2 (Nat.ltb_ge _ _)) by (unfold HeaderSize in Hl; lia). reflexivity. }
  split; [by apply Open_Seal|]. split; [by apply Decode_Encode|].
  assert (Eb : b = header_bytes f ++ drop 28 b).
  { rewrite <-(take_drop 28 b) at 1. by rewrite (Seal_header _ _ _ Hs), take_app_length'. }
  rewrite Eb. by apply DecodeHeader_header.
Qed.
End seal.

Lemma of_library_Ok a aead : of_library a = Ok aead → a = Some aead.
Proof. destruct a; cbn; congruence. Qed.

(** A cipher that was made obeys the laws. *)
Lemma NewAEAD_laws `{Ciphers} key name aead : NewAEAD key name = Ok aead → AEADLaws aead.
Proof.
  unfold NewAEAD. destruct (Nat.eqb_spec (length key) keySize) as [Hk|]; [|done]. cbn [negb].
  destruct (ciphers_total key Hk) as [(a & Ea & La) (b & Eb & Lb)].
  destruct (_ || _); [intros ?%of_library_Ok; congruence|].
  destruct (_ =? _)%string; [intros ?%of_library_Ok; congruence|done].
Qed.

(** Whether a cipher can be made does not depend on a key of the right length. *)
Lemma NewAEAD_total `{Ciphers} key name :
  length key = keySize →
  (∃ a, NewAEAD key name = Ok a) ∨ (∀ key' a, NewAEAD key' name ≠ Ok a).
Proof.
  intros Hk. unfold NewAEAD. rewrite Hk. cbn [negb Nat.eqb keySize].
  destruct (ciphers_total key Hk) as [(a & Ea & _) (b & Eb & _)]. change (negb (32 =? 32)%nat) with false. cbn iota.
  destruct (_ || _); [left; exists a; by rewrite Ea|].
  destruct (_ =? _)%string; [left; exists b; by rewrite Eb|].
  right. intros key' a'. by destruct (negb _).
Qed.

(** ** The properties *)

(** C31 — HKDF. For every output length RFC 5869 allows (at most 255 blocks of
    32 bytes), the loop of [hkdfExpand] terminates within its fuel and the
    result is the first [n] bytes of T(1) | T(2) | ..., exactly [n] of them;
    the byte counter does not wrap. *)
Theorem hkdf_rfc5869 prk info n :
  (n ≤ 255 * 32)%nat →
  hkdf_loop n prk info n [] [] 1 ≠ None ∧
  hkdfExpand prk info n = take n (hkdf_blocks prk info (hkdf_count n)) ∧
  length (hkdfExpand prk info n) = n.
Proof.
  intros Hn. pose proof (hkdfExpand_blocks prk info n Hn) as [E E'].
  split_and!; [by rewrite E|done|by apply length_hkdfExpand].
Qed.

(** Test case 1 of RFC 5869. *)
Lemma hkdf_rfc5869_witness :
  let prk := hmac (be_put 13 0x000102030405060708090a0b0c) (replicate 22 x0b) in
  let okm := hkdfExpand prk (be_put 10 0xf0f1f2f3f4f5f6f7f8f9) 42 in
  length okm = 42%nat ∧
  be_get okm = 0x3cb25f25faacd57a90434f64d0362f2a2d2d0a90cf1a5a4c5db02d56ecc4c5bf34007208d5b887185865.
Proof.
  intros prk okm. split.
  - apply (hkdf_rfc5869 prk (be_put 10 0xf0f1f2f3f4f5f6f7f8f9) 42). lia.
  - vm_compute. reflexivity.
Defined.

(** C27 — Sealing. [Open] inverts [Seal] and accepts nothing else: a buffer
    opens to [b] exactly when it is the sealing of [b] in the same direction,
    so neither the clear header nor the body of a sealed frame is malleable.
    The sealed frame is longer by the overhead and keeps the header in clear.
    Frames without a whole header are refused. *)
Theorem seal_open_inverse a `{!AEADLaws a} dir b :
  (∀ s, Open a dir s = Ok b ↔ Seal a dir b = Ok s) ∧
  (if (length b <? 28)%nat then Seal a dir b = Err ErrTooShortToSeal
   else ∃ s, Seal a dir b = Ok s ∧ length s = (length b + Overhead a)%nat ∧ take 28 s = take 28 b).
Proof.
  split; [intros s; split; [by apply Seal_Open|by apply Open_Seal]|].
  destruct (length b <? 28)%nat eqn:Hl; unfold Seal at 1; rewrite Hl; [done|].
  eexists. split; [reflexivity|]. split.
  - apply (length_Seal a dir b). unfold Seal. by rewrite Hl.
  - apply (Seal_header a dir b). unfold Seal. by rewrite Hl.
Qed.

(** ** Concrete instances

    Used to evaluate the definitions and in the witnesses: encryption with an
    HMAC key stream and an HMAC tag over everything, or with a checksum, and a Diffie-Hellman
    exchange modulo the prime of Curve25519. *)

From Stdlib Require Import Zpow_facts.

Definition xor_stream (ks p : list byte) : list byte := zip_with bxor p ks.

Lemma xor_stream_involutive ks p : (length p ≤ length ks)%nat → xor_stream ks (xor_stream ks p) = p.
Proof.
  unfold xor_stream. revert ks. induction p as [|x p IH]; intros [|k ks] Hl; cbn in *; try done; [lia|].
  rewrite IH by lia. rewrite <- bxor_assoc, bxor_self, bxor_comm, bxor_0_l. done.
Qed.

Definition key_stream (key nonce : list byte) (n : nat) : list byte :=
  concat ((λ i, hmac key (nonce ++ be_put 4 (Z.of_nat i))) <$> seq 0 (n / 32 + 1)).

Lemma length_key_stream key nonce n : (n ≤ length (key_stream key nonce n))%nat.
Proof.
  assert (∀ m i, length (concat ((λ i, hmac key (nonce ++ be_put 4 (Z.of_nat i))) <$> seq i m)) =
    32 * m)%nat as Hm.
  { induction m as [|m IH]; intros i; [cbn; lia|].
    cbn [seq fmap list_fmap concat]. rewrite length_app, IH, length_hmac. unfold sha256_Size. lia. }
  unfold key_stream. rewrite Hm.
  pose proof (Nat.div_mod_eq n 32). pose proof (Nat.mod_upper_bound n 32). lia.
Qed.

Definition hmac_tag (key nonce ad c : list byte) : list byte :=
  take 16 (hmac key (x01 :: nonce ++ be_put 4 (Z.of_nat (length ad)) ++ ad ++ c)).

Lemma length_hmac_tag key nonce ad c : length (hmac_tag key nonce ad c) = 16%nat.
Proof. reflexivity. Qed.

(** A stream cipher with a tag of 16 bytes over the ciphertext and the data. *)
Definition stream_aead (ks : list byte → nat → list byte) (tag : list byte → list byte → list byte → list byte) : AEAD :=
  {| aead_seal n p ad := let c := xor_stream (ks n (length p)) p in c ++ tag n ad c;
     aead_open n c ad :=
       let m := (length c - 16)%nat in
       if (length c <? 16)%nat then None
       else if decide (drop m c = tag n ad (take m c)) then Some (xor_stream (ks n m) (take m c))
       else None;
     Overhead := 16 |}.

Lemma stream_aead_laws ks tag :
  (∀ n m, (m ≤ length (ks n m))%nat) → (∀ n ad c, length (tag n ad c) = 16%nat) → AEADLaws (stream_aead ks tag).
Proof.
  intros Hks Htag.
  assert (Hlen : ∀ n p, length (xor_stream (ks n (length p)) p) = length p).
  { intros n p. unfold xor_stream. rewrite length_zip_with. specialize (Hks n (length p)). lia. }
  split; cbn [stream_aead aead_seal aead_open Overhead].
  - intros n p ad _. set (c := xor_stream _ p). assert (Hc : length c = length p) by apply Hlen.
    rewrite length_app, Htag, Hc, Nat.add_sub. rewrite (proj2 (Nat.ltb_ge _ _)) by lia.
    rewrite drop_app_length', take_app_length' by done. rewrite decide_True by done.
    unfold c. by rewrite xor_stream_involutive.
  - intros n c ad p _. destruct (Nat.ltb_spec (length c) 16) as [|Hl]; [done|].
    destruct (decide _) as [Ht|]; [|done]. intros [= <-].
    assert (Hm : length (take (length c - 16) c) = (length c - 16)%nat) by (rewrite length_take; lia).
    pose proof (Hlen n (take (length c - 16) c)) as Hx. rewrite Hm in Hx. rewrite Hx.
    rewrite xor_stream_involutive; [rewrite <-Ht; apply take_drop|]. by rewrite Hm.
  - intros n p ad _. by rewrite length_app, Hlen, Htag.
Qed.

Definition hmac_aead (key : list byte) : AEAD := stream_aead (key_stream key) (hmac_tag key).

#[export] Instance hmac_aead_laws key : AEADLaws (hmac_aead key).
Proof. apply stream_aead_laws; [apply length_key_stream|apply length_hmac_tag]. Qed.

(** The same with a checksum for a tag, for runs over many frames. *)
Definition sum_tag (key nonce ad c : list byte) : list byte :=
  be_put 16 ((be_get key + 3 * be_get nonce + 5 * be_get ad + 7 * be_get c) mod (2 ^ 127 - 1)).

Definition sum_aead (key : list byte) : AEAD := stream_aead (λ _ m, replicate m x5a) (sum_tag key).

#[export] Instance sum_aead_laws key : AEADLaws (sum_aead key).
Proof. apply stream_aead_laws; intros; [by rewrite length_replicate|apply length_be_put]. Qed.

Definition sum_ciphers : Ciphers.
Proof.
  refine {| chacha20poly1305_New k := Some (sum_aead k); aes_gcm_New k := Some (sum_aead (x02 :: k)) |}.
  intros k _. split; eexists; (split; [reflexivity|apply _]).
Defined.

Definition dh_prime : Z := 2 ^ 255 - 19.

Lemma dh_prime_pow a e : 0 ≤ e → be_get (be_put 32 (Zpow_mod a e dh_prime)) = a ^ e mod dh_prime.
Proof.
  intros He. rewrite Zpow_mod_correct by done. apply be_get_put_small.
  pose proof (Z.mod_pos_bound (a ^ e) dh_prime ltac:(by vm_compute)).
  change (256 ^ Z.of_nat 32) with (2 ^ 256). assert (dh_prime < 2 ^ 256) by (by vm_compute). lia.
Qed.

Definition dh_shared (x y : list byte) : option (list byte) :=
  let s := Zpow_mod (be_get y) (be_get x) dh_prime in
  if s =? 0 then None else Some (be_put 32 s).

Definition dh_exchange : X25519.
Proof.
  refine {| x_public a := be_put 32 (Zpow_mod 9 (be_get a) dh_prime); x_ecdh := dh_shared |}.
  - intros a _. apply length_be_put.
  - intros a b _ _. unfold dh_shared.
    pose proof (be_get_range a). pose proof (be_get_range b).
    rewrite !dh_prime_pow by lia. rewrite !Zpow_mod_correct by (lia || by vm_compute).
    rewrite <- !Zpower_mod by (by vm_compute). rewrite <- !Z.pow_mul_r by lia.
    by rewrite (Z.mul_comm (be_get a)).
Defined.

(** A keepalive frame under a sample key. *)
Definition sample_key : list byte := be_put 32 0x1234567890.
Definition keepalive_bytes : list byte :=
  header_bytes (new_frame FlagKeepalive 77 5 0 [x01; x02]) ++ [x01; x02].

Lemma seal_open_inverse_witness :
  ∃ s, Seal (hmac_aead sample_key) DirClientToServer keepalive_bytes = Ok s ∧
       length s = 46%nat ∧
       Open (hmac_aead sample_key) DirClientToServer s = Ok keepalive_bytes.
Proof.
  destruct (seal_open_inverse (hmac_aead sample_key) DirClientToServer keepalive_bytes)
    as [Hinv (s & Hs & Hl & _)].
  exists s. split_and!; [exact Hs|exact Hl|by apply Hinv].
Defined.

(** A flipped bit of the header, or the other direction, is not accepted. *)
Example tampered_rejected :
  match Seal (hmac_aead sample_key) DirClientToServer keepalive_bytes with
  | Ok s =>
      Open (hmac_aead sample_key) DirClientToServer (<[5%nat := x00]> s) = Err ErrAuthentication ∧
      Open (hmac_aead sample_key) DirServerToClient s = Err ErrAuthentication
  | _ => False
  end.
Proof. vm_compute. done. Qed.
