(* ===== verification/Session.v ===== *)
(** * Sessions (internal/session/session.go)

    The client session, the server sessions with their manager, and the
    handshake anti-replay table. Server sessions are shared objects (the egress
    readers, the sweeper and the receive loop hold pointers to them), so the
    manager maps an id to a pointer into a heap; a closed socket is a member of
    the set [closed]. Every method runs under the manager's or the session's
    mutex or on one atomic, hence a method is one step of the model. *)

From S2P Require Import Prelude Replay Crypto.

#[local] Open Scope Z_scope.

(** [maxFirstWindows]. *)
Definition maxFirstWindows : nat := 4096.

Section session.
  (** UDP addresses and the per-session encoder ([FrameCodec]) are opaque here. *)
  Context {Addr Codec : Type}.

(** ** The client's session *)

Record Client := mkClient {
  c_ID : Z;
  c_seq : Z;                (* atomic.Uint32 *)
  c_replay : ReplayWindow;
  c_wgAddr : option Addr;
}.

(** [NewID]: eight random bytes [rnd], big-endian. *)
Definition NewID (rnd : list byte) : Z := be_get (take 8 rnd).

Definition NewClientWithID (id : Z) : Client :=
  mkClient id 0 (NewReplayWindow DefaultReplayWindow) None.

(** [c.NextSeq()]: [c.seq.Add(1)] wraps at 32 bits and returns the new value. *)
Definition Client_NextSeq (c : Client) : Z * Client :=
  let s := u32 (c_seq c + 1) in (s, mkClient (c_ID c) s (c_replay c) (c_wgAddr c)).

Definition Client_CheckReplay (c : Client) (seq : Z) : bool * Client :=
  let '(ok, w) := CheckAndMark (c_replay c) seq in
  (ok, mkClient (c_ID c) (c_seq c) w (c_wgAddr c)).

Definition SetWGAddr (c : Client) (a : Addr) : Client :=
  mkClient (c_ID c) (c_seq c) (c_replay c) (Some a).

(** ** The server's session *)

Record ServerSession := mkSess {
  s_ID : Z;
  s_aead : AEAD;
  s_Enc : option Codec;
  s_seq : Z;                       (* atomic.Uint32 *)
  s_replay : ReplayWindow;
  s_ServerPub : list byte;
  s_egress : option Z;             (* the socket, by number *)
  s_endpoints : gmap string Addr;  (* WAN id → address *)
  s_lastSeen : Z;                  (* atomic.Int64, unix nanoseconds *)
}.

(** [t.UnixNano()]. *)
Definition unixNano (t : time) : Z := i64 (t - unix_nano 0).

Definition NewServerSession (id : Z) (aead : AEAD) (now : time) : ServerSession :=
  mkSess id aead None 0 (NewReplayWindow DefaultReplayWindow) [] None ∅ (unixNano now).

Definition NextSeq (s : ServerSession) : Z * ServerSession :=
  let q := u32 (s_seq s + 1) in
  (q, mkSess (s_ID s) (s_aead s) (s_Enc s) q (s_replay s) (s_ServerPub s) (s_egress s)
        (s_endpoints s) (s_lastSeen s)).

Definition CheckReplay (s : ServerSession) (seq : Z) : bool * ServerSession :=
  let '(ok, w) := CheckAndMark (s_replay s) seq in
  (ok, mkSess (s_ID s) (s_aead s) (s_Enc s) (s_seq s) w (s_ServerPub s) (s_egress s)
         (s_endpoints s) (s_lastSeen s)).

Definition Touch (now : time) (s : ServerSession) : ServerSession :=
  mkSess (s_ID s) (s_aead s) (s_Enc s) (s_seq s) (s_replay s) (s_ServerPub s) (s_egress s)
    (s_endpoints s) (unixNano now).

Definition IdleSince (s : ServerSession) : time := unix_nano (s_lastSeen s).

Definition SetEgress (c : Z) (s : ServerSession) : ServerSession :=
  mkSess (s_ID s) (s_aead s) (s_Enc s) (s_seq s) (s_replay s) (s_ServerPub s) (Some c)
    (s_endpoints s) (s_lastSeen s).

Definition SetEndpoint (pathID : string) (a : Addr) (s : ServerSession) : ServerSession :=
  mkSess (s_ID s) (s_aead s) (s_Enc s) (s_seq s) (s_replay s) (s_ServerPub s) (s_egress s)
    (<[pathID := a]> (s_endpoints s)) (s_lastSeen s).

(** The assignments to the exported fields [Enc] and [ServerPub]. *)
Definition set_codec (enc : Codec) (pub : list byte) (s : ServerSession) : ServerSession :=
  mkSess (s_ID s) (s_aead s) (Some enc) (s_seq s) (s_replay s) pub (s_egress s)
    (s_endpoints s) (s_lastSeen s).

(** ** The manager *)

Record firstWindow := mkFirst { fw_win : ReplayWindow; fw_created : time }.

(** A pointer to a server session. *)
Definition ptr := nat.

Record Manager := mkMgr {
  sessions : gmap Z ptr;
  firstWindows : gmap Z firstWindow;
}.

Definition NewManager : Manager := mkMgr ∅ ∅.

(** The manager with the objects it points to. *)
Record world := mkWorld {
  mgr : Manager;
  heap : gmap ptr ServerSession;
  closed : gset Z;
}.

Context `{!RangeOrder Z firstWindow} `{!RangeOrder Z ptr}.

(** *** The handshake anti-replay table *)

(** The loop that looks for the oldest entry. *)
Definition oldest_loop (kvs : list (Z * firstWindow)) : Z * time :=
  foldl (λ acc kv,
    if is_zero acc.2 || (fw_created kv.2 <? acc.2) then (kv.1, fw_created kv.2) else acc)
    (0, 0) kvs.

(** The entry for [id], created on first sight; a full table loses its oldest
    entry. *)
Definition first_entry (m : gmap Z firstWindow) (id : Z) (now : time)
    : firstWindow * gmap Z firstWindow :=
  match m !! id with
  | Some fw => (fw, m)
  | None =>
      let m := if (maxFirstWindows <=? size m)%nat then delete (oldest_loop (range m)).1 m else m in
      let fw := mkFirst (NewReplayWindow DefaultReplayWindow) now in
      (fw, <[id := fw]> m)
  end.

Definition CheckFirstReplay (m : Manager) (id seq : Z) (now : time) : bool * Manager :=
  let '(fw, t) := first_entry (firstWindows m) id now in
  let '(ok, win) := CheckAndMark (fw_win fw) seq in
  (ok, mkMgr (sessions m) (<[id := mkFirst win (fw_created fw)]> t)).

Definition ExpireFirsts (m : Manager) (ttl : duration) (now : time) : Z * Manager :=
  let cutoff := now - ttl in
  let '(n, t) := foldl (λ acc kv,
      if fw_created kv.2 <? cutoff then (acc.1 + 1, delete kv.1 acc.2) else acc)
    (0, firstWindows m) (range (firstWindows m)) in
  (n, mkMgr (sessions m) t).

(** *** The session table *)

Definition Get (m : Manager) (id : Z) : option ptr := sessions m !! id.
Definition Delete (m : Manager) (id : Z) : Manager := mkMgr (delete id (sessions m)) (firstWindows m).
Definition Count (m : Manager) : nat := size (sessions m).
Definition All (m : Manager) : list ptr := (range (sessions m)).*2.

(** [m.Put(s)] for the session at [p]. *)
Definition Put (w : world) (p : ptr) : world :=
  match heap w !! p with
  | Some s => mkWorld (mkMgr (<[s_ID s := p]> (sessions (mgr w))) (firstWindows (mgr w))) (heap w) (closed w)
  | None => w
  end.

(** [s.CloseEgress()] for the session at [p]; closing again changes nothing. *)
Definition CloseEgress (w : world) (p : ptr) : world :=
  match heap w !! p with
  | Some s =>
      match s_egress s with
      | Some c => mkWorld (mgr w) (heap w) ({[c]} ∪ closed w)
      | None => w
      end
  | None => w
  end.

(** [s.IdleSince().Before(cutoff)] for the session at [p]. *)
Definition idle (h : gmap ptr ServerSession) (p : ptr) (cutoff : time) : bool :=
  match h !! p with Some s => IdleSince s <? cutoff | None => false end.

Definition Expire (w : world) (ttl : duration) (now : time) : nat * world :=
  let cutoff := now - ttl in
  let '(victims, t) := foldl (λ acc kv,
      if idle (heap w) kv.2 cutoff then (acc.1 ++ [kv.2], delete kv.1 acc.2) else acc)
    ([], sessions (mgr w)) (range (sessions (mgr w))) in
  let w := mkWorld (mkMgr t (firstWindows (mgr w))) (heap w) (closed w) in
  (length victims, foldl CloseEgress w victims).

Definition CloseAll (w : world) : world :=
  let '(all, t) := foldl (λ acc kv, (acc.1 ++ [kv.2], delete kv.1 acc.2))
    ([], sessions (mgr w)) (range (sessions (mgr w))) in
  foldl CloseEgress (mkWorld (mkMgr t (firstWindows (mgr w))) (heap w) (closed w)) all.

(** A method call through a pointer. *)
Definition update (w : world) (p : ptr) (f : ServerSession → ServerSession) : world :=
  mkWorld (mgr w) (alter f p (heap w)) (closed w).

(** [&ServerSession{...}]: a new object. *)
Definition alloc (w : world) (s : ServerSession) : ptr * world :=
  let p := fresh (dom (heap w)) in (p, mkWorld (mgr w) (<[p := s]> (heap w)) (closed w)).

(** ** The handshake anti-replay table *)

(** The calls that touch the table: a FIRST frame, the sweeper. *)
Inductive first_op :=
| OpFirst (id seq : Z) (now : time)
| OpExpire (ttl : duration) (now : time).

Definition valid_op (op : first_op) : Prop :=
  match op with OpFirst _ seq now => is_u32 seq ∧ 0 < now | OpExpire _ _ => True end.

Definition first_step (m : Manager) (op : first_op) : Manager :=
  match op with
  | OpFirst id seq now => (CheckFirstReplay m id seq now).2
  | OpExpire ttl now => (ExpireFirsts m ttl now).2
  end.

Definition first_run (m : Manager) (ops : list first_op) : Manager := foldl first_step m ops.

(** The entry of [id] survives every one of the calls. *)
Fixpoint kept (id : Z) (m : Manager) (ops : list first_op) : Prop :=
  match ops with
  | [] => True
  | op :: ops => is_Some (firstWindows (first_step m op) !! id) ∧ kept id (first_step m op) ops
  end.

Record table_ok (t : gmap Z firstWindow) : Prop := {
  tab_size : (size t ≤ maxFirstWindows)%nat;
  tab_created : ∀ id fw, t !! id = Some fw → 0 < fw_created fw;
  tab_windows : ∀ id fw, t !! id = Some fw → ∃ hist, win_inv (fw_win fw) hist;
}.

(** [seq] was accepted by the window of [id]. *)
Definition seen (t : gmap Z firstWindow) (id seq : Z) : Prop :=
  ∃ fw hist, t !! id = Some fw ∧ win_inv (fw_win fw) hist ∧ seq ∈ hist.

Lemma oldest_loop_spec kvs : kvs ≠ [] →
  ∃ fw, ((oldest_loop kvs).1, fw) ∈ kvs ∧ (oldest_loop kvs).2 = fw_created fw ∧
    ((∀ k v, (k, v) ∈ kvs → 0 < fw_created v) →
      ∀ k v, (k, v) ∈ kvs → fw_created fw ≤ fw_created v).
Proof.
  induction kvs as [|[k v] kvs IH] using rev_ind; [done|]. intros _.
  unfold oldest_loop in *. rewrite foldl_app. cbn [foldl].
  set (acc := foldl _ _ kvs) in *. cbn [fst snd].
  destruct (is_zero acc.2 || (fw_created v <? acc.2)) eqn:E; cbn [fst snd].
  - exists v. split_and!; [set_unfold; naive_solver|done|].
    intros Hpos k' v' [Hin|[= -> ->]%list_elem_of_singleton]%elem_of_app; [|lia].
    destruct (decide (kvs = [])) as [->|Hne]; [by apply elem_of_nil in Hin|].
    destruct (IH Hne) as (fw & Hfw & Hacc & Hmin).
    assert (Hpos' : ∀ k v, (k, v) ∈ kvs → 0 < fw_created v).
    { intros ?? H. eapply Hpos, elem_of_app. by left. }
    specialize (Hmin Hpos' _ _ Hin). specialize (Hpos' _ _ Hfw).
    unfold is_zero in E. lia.
  - apply orb_false_iff in E as [E1 E2]. unfold is_zero in E1.
    destruct (decide (kvs = [])) as [->|Hne]; [done|].
    destruct (IH Hne) as (fw & Hfw & Hacc & Hmin). exists fw.
    split_and!; [apply elem_of_app; by left|done|].
    intros Hpos k' v' [Hin|[= -> ->]%list_elem_of_singleton]%elem_of_app; [|lia].
    eapply Hmin; [|done]. intros ?? H. eapply Hpos, elem_of_app. by left.
Qed.

(** The table after making room for a new entry. *)
Definition make_room (t : gmap Z firstWindow) : gmap Z firstWindow :=
  if (maxFirstWindows <=? size t)%nat then delete (oldest_loop (range t)).1 t else t.

Lemma oldest_entry (t : gmap Z firstWindow) : t ≠ ∅ →
  ∃ fw, t !! (oldest_loop (range t)).1 = Some fw ∧
    ((∀ k v, t !! k = Some v → 0 < fw_created v) →
      ∀ k v, t !! k = Some v → fw_created fw ≤ fw_created v).
Proof.
  intros Hne. destruct (oldest_loop_spec (range t)) as (fw & Hin & _ & Hmin).
  { intros E. apply Hne, map_to_list_empty_iff. apply Permutation_nil.
    by rewrite <- range_perm, E. }
  exists fw. split; [by apply elem_of_range|].
  intros Hpos k v Hkv. apply (Hmin (λ k v H, Hpos k v (proj1 (elem_of_range _ _ _) H)) k v).
  by apply elem_of_range.
Qed.

Lemma make_room_size t : (size t ≤ maxFirstWindows)%nat → (size (make_room t) < maxFirstWindows)%nat.
Proof.
  unfold make_room. destruct (Nat.leb_spec maxFirstWindows (size t)); [|lia]. intros Hs.
  destruct (oldest_entry t) as (fw & Hfw & _).
  { intros ->. rewrite map_size_empty in *. unfold maxFirstWindows in *. lia. }
  rewrite map_size_delete_Some by (by eexists). unfold maxFirstWindows in *. lia.
Qed.

Lemma make_room_Some t id fw : make_room t !! id = Some fw → t !! id = Some fw.
Proof.
  unfold make_room. destruct (_ <=? _)%nat; [|done]. rewrite lookup_delete. by destruct (decide _).
Qed.

(** One call of [CheckFirstReplay], entry by entry. *)
Lemma CheckFirst_entry m id seq now :
  let r := CheckFirstReplay m id seq now in
  let t := firstWindows m in
  let fw := default (mkFirst (NewReplayWindow DefaultReplayWindow) now) (t !! id) in
  let t0 := match t !! id with Some _ => t | None => make_room t end in
  r.1 = (CheckAndMark (fw_win fw) seq).1 ∧
  firstWindows r.2 = <[id := mkFirst (CheckAndMark (fw_win fw) seq).2 (fw_created fw)]> t0 ∧
  sessions r.2 = sessions m.
Proof.
  unfold CheckFirstReplay, first_entry, make_room. cbn zeta.
  generalize (NewReplayWindow DefaultReplayWindow) as w. intros w.
  destruct (firstWindows m !! id) as [fw|]; cbn [from_option fw_win fw_created];
    destruct (CheckAndMark _ seq) as [ok win]; cbn [fst snd firstWindows sessions];
    rewrite ?insert_insert_eq; split_and!; reflexivity.
Qed.

Lemma ExpireFirsts_lookup m ttl now id :
  firstWindows (ExpireFirsts m ttl now).2 !! id =
  match firstWindows m !! id with
  | Some fw => if fw_created fw <? now - ttl then None else Some fw
  | None => None
  end.
Proof.
  unfold ExpireFirsts. cbn zeta.
  rewrite (delete_loop (λ kv : Z * firstWindow, fw_created kv.2 <? now - ttl) (λ n _, n + 1)).
  cbn [snd firstWindows]. by rewrite range_delete_lookup.
Qed.

Lemma default_window_inv : win_inv (NewReplayWindow DefaultReplayWindow) [].
Proof. apply win_inv_new. unfold DefaultReplayWindow. lia. Qed.

Lemma mark_window_inv w hist seq :
  win_inv w hist → is_u32 seq →
  ∃ hist', win_inv (CheckAndMark w seq).2 hist' ∧ (∀ s, s ∈ hist → s ∈ hist') ∧
    ((CheckAndMark w seq).1 = true → seq ∈ hist').
Proof.
  intros Hi Hs. destruct (CheckAndMark_step w hist seq Hi Hs) as (-> & H2 & _).
  eexists. split; [exact H2|].
  destruct (spec_accept _ _ _); split; try done; intros; apply elem_of_cons; auto.
Qed.

(** Checking a number makes the window refuse it from then on. *)
Lemma checked_refused w hist seq :
  win_inv w hist → is_u32 seq →
  ∃ hist', win_inv (CheckAndMark w seq).2 hist' ∧ (∀ s, s ∈ hist → s ∈ hist') ∧
    w_window (CheckAndMark w seq).2 = w_window w ∧ spec_accept (w_window w) hist' seq = false.
Proof.
  intros Hi Hs. destruct (CheckAndMark_step w hist seq Hi Hs) as (_ & H2 & H3). cbn zeta in H2.
  eexists. split; [exact H2|]. split; [|split; [exact H3|]].
  - destruct (spec_accept _ _ _); intros; [apply elem_of_cons; by right|done].
  - destruct (spec_accept (w_window w) hist seq) eqn:E; [|done].
    unfold spec_accept. apply andb_false_iff. left. apply bool_decide_eq_false_2.
    intros Hn. apply Hn, elem_of_cons. by left.
Qed.

Lemma table_ok_step m op :
  valid_op op → table_ok (firstWindows m) → table_ok (firstWindows (first_step m op)).
Proof.
  intros Hv [Hs Hc Hw]. destruct op as [id seq now|ttl now]; cbn [first_step valid_op] in *.
  - destruct Hv as [Hseq Hnow]. destruct (CheckFirst_entry m id seq now) as (_ & -> & _).
    pose proof default_window_inv as Hd. revert Hd.
    generalize (NewReplayWindow DefaultReplayWindow) as w0. intros w0 Hd.
    set (t := firstWindows m) in *.
    assert (Hfw : let fw := default (mkFirst w0 now) (t !! id) in
      0 < fw_created fw ∧ ∃ hist, win_inv (fw_win fw) hist).
    { destruct (t !! id) as [fw|] eqn:E; cbn; [by eauto|]. eauto. }
    destruct Hfw as [Hcr [hist Hh]].
    destruct (mark_window_inv _ _ seq Hh Hseq) as (hist' & Hh' & _).
    assert (Hsub : ∀ k v, match t !! id with Some _ => t | None => make_room t end !! k = Some v →
      t !! k = Some v).
    { intros k v. destruct (t !! id); [done|]. apply make_room_Some. }
    split.
    + rewrite map_size_insert. destruct (t !! id) as [fw|] eqn:E.
      * rewrite E. unfold Datatypes.id. lia.
      * pose proof (make_room_size t Hs). destruct (make_room t !! id); unfold Datatypes.id; lia.
    + intros k v. rewrite lookup_insert_Some. intros [[<- <-]|[_ H]]; [done|]. by eapply Hc, Hsub.
    + intros k v. rewrite lookup_insert_Some. intros [[<- <-]|[_ H]]; [by eexists|]. by eapply Hw, Hsub.
  - assert (Hsub : firstWindows (ExpireFirsts m ttl now).2 ⊆ firstWindows m).
    { apply map_subseteq_spec. intros k v. rewrite ExpireFirsts_lookup.
      destruct (firstWindows m !! k); [|done]. by destruct (_ <? _). }
    pose proof (map_subseteq_size _ _ Hsub). rewrite map_subseteq_spec in Hsub.
    split; [lia|eauto..].
Qed.

Lemma table_ok_run m ops :
  Forall valid_op ops → table_ok (firstWindows m) → table_ok (firstWindows (first_run m ops)).
Proof.
  intros Hv. revert m. induction Hv; intros m Hm; cbn; [done|]. by apply IHHv, table_ok_step.
Qed.

Lemma table_ok_empty : table_ok ∅.
Proof. split; [rewrite map_size_empty; lia|done..]. Qed.

Lemma CheckFirst_seen m id seq now :
  is_u32 seq → table_ok (firstWindows m) → (CheckFirstReplay m id seq now).1 = true →
  seen (firstWindows (CheckFirstReplay m id seq now).2) id seq.
Proof.
  intros Hseq [_ _ Hw]. destruct (CheckFirst_entry m id seq now) as (-> & -> & _). cbn zeta.
  pose proof default_window_inv as Hd. revert Hd.
  generalize (NewReplayWindow DefaultReplayWindow) as w0. intros w0 Hd Hok.
  assert (∃ hist, win_inv (fw_win (default (mkFirst w0 now) (firstWindows m !! id))) hist) as [hist Hh].
  { destruct (firstWindows m !! id) eqn:E; cbn; eauto. }
  destruct (mark_window_inv _ _ seq Hh Hseq) as (hist' & Hh' & _ & Hin).
  eexists _, hist'. rewrite lookup_insert_eq. cbn. auto.
Qed.

Lemma seen_rejected m id seq now :
  seen (firstWindows m) id seq → (CheckFirstReplay m id seq now).1 = false.
Proof.
  intros (fw & hist & E & Hh & Hin). destruct (CheckFirst_entry m id seq now) as (-> & _).
  rewrite E. change (default _ (Some fw)) with fw.
  assert (Hs : is_u32 seq) by (eapply Forall_forall; [apply Hh|done]).
  destruct (CheckAndMark_step _ hist seq Hh Hs) as (H1 & _). cbn zeta in H1.
  rewrite H1.
  unfold spec_accept. apply andb_false_iff. left. apply bool_decide_eq_false_2. intros Hn. by apply Hn.
Qed.

Lemma seen_step m op id seq :
  valid_op op → seen (firstWindows m) id seq → is_Some (firstWindows (first_step m op) !! id) →
  seen (firstWindows (first_step m op)) id seq.
Proof.
  intros Hv (fw & hist & E & Hh & Hin). destruct op as [id' seq' now|ttl now]; cbn [first_step].
  - destruct Hv as [Hs' _]. destruct (CheckFirst_entry m id' seq' now) as (_ & -> & _).
    generalize (NewReplayWindow DefaultReplayWindow) as w0. intros w0 Hkept.
    destruct (decide (id' = id)) as [->|Hne].
    + rewrite E in *. change (default _ (Some fw)) with fw.
      destruct (mark_window_inv _ _ seq' Hh Hs') as (hist' & Hh' & Hmono & _).
      eexists _, hist'. rewrite lookup_insert_eq. cbn. auto.
    + rewrite lookup_insert_ne in Hkept by done. destruct Hkept as [fw' E'].
      eexists fw', hist. rewrite lookup_insert_ne by done. split; [done|].
      assert (firstWindows m !! id = Some fw') as E''.
      { destruct (firstWindows m !! id'); [done|]. by apply make_room_Some. }
      rewrite E in E''. by injection E'' as <-.
  - rewrite ExpireFirsts_lookup, E. intros [fw' E'].
    destruct (_ <? _) eqn:Hold; [done|]. exists fw, hist. by rewrite ExpireFirsts_lookup, E, Hold.
Qed.

Lemma seen_run m ops id seq :
  Forall valid_op ops → seen (firstWindows m) id seq → kept id m ops →
  seen (firstWindows (first_run m ops)) id seq.
Proof.
  intros Hv. revert m. induction Hv; intros m Hs Hk; cbn; [done|].
  destruct Hk as [Hk1 Hk2]. apply IHHv; [|done]. by apply seen_step.
Qed.

(** The handshake table is bounded, and room is made at the expense of the
    oldest entry only. Whatever FIRST frames arrive and whenever the sweeper
    runs, the table holds at most 4096 windows; and a FIRST frame of an id
    removes another entry only when the id is new, the table is full and no
    entry was created earlier. *)
Theorem first_table_bounded ops id seq now :
  Forall valid_op ops →
  let m := first_run NewManager ops in
  let t' := firstWindows (CheckFirstReplay m id seq now).2 in
  (size (firstWindows m) ≤ maxFirstWindows)%nat ∧
  (∀ k fw, firstWindows m !! k = Some fw → t' !! k = None →
     firstWindows m !! id = None ∧ size (firstWindows m) = maxFirstWindows ∧
     ∀ k' fw', firstWindows m !! k' = Some fw' → fw_created fw ≤ fw_created fw').
Proof.
  intros Hv m t'. assert (Hok : table_ok (firstWindows m)) by (apply table_ok_run, table_ok_empty; done).
  pose proof Hok as [Hsize Hcr _]. split; [done|]. intros k fw Hk. unfold t'.
  destruct (CheckFirst_entry m id seq now) as (_ & -> & _). cbn zeta.
  generalize (NewReplayWindow DefaultReplayWindow) as w0. intros w0.
  rewrite lookup_insert_None. intros [Hnone Hne].
  destruct (firstWindows m !! id) eqn:E; [congruence|]. split; [done|].
  unfold make_room in Hnone. destruct (Nat.leb_spec maxFirstWindows (size (firstWindows m))); [|congruence].
  split; [lia|]. rewrite lookup_delete in Hnone.
  destruct (oldest_entry (firstWindows m)) as (fw0 & Hfw0 & Hmin).
  { intros H0. rewrite H0 in Hk. by rewrite lookup_empty in Hk. }
  destruct (decide _) as [Heq|]; [|congruence]. rewrite Heq in Hfw0.
  intros k' fw' Hk'. replace fw with fw0 by congruence. by eapply Hmin.
Qed.

(** A captured handshake does not replay. Once a FIRST frame was accepted
    for an id without a session, the same frame is refused however many other
    FIRST frames and sweeps come in between, as long as the window of the id is
    kept (see [first_table_bounded] and [first_replay_after_expiry] for when it
    is not). *)
Theorem first_frame_once pre id seq t mid t' :
  Forall valid_op (pre ++ OpFirst id seq t :: mid) →
  let m := first_run NewManager pre in
  (CheckFirstReplay m id seq t).1 = true →
  kept id (CheckFirstReplay m id seq t).2 mid →
  (CheckFirstReplay (first_run (CheckFirstReplay m id seq t).2 mid) id seq t').1 = false.
Proof.
  rewrite Forall_app, Forall_cons. intros (Hpre & [Hseq _] & Hmid) m Hacc Hkept.
  apply seen_rejected, seen_run; [done| |done].
  apply CheckFirst_seen; [done| |done]. apply table_ok_run, table_ok_empty. done.
Qed.

(** The protection ends with the window. When the sweeper has dropped the
    window of an id, the very FIRST frame it had accepted is accepted again:
    a captured handshake older than the time to live creates a session anew. *)
Theorem first_replay_after_expiry m id fw seq ttl now now' :
  is_u32 seq → firstWindows m !! id = Some fw → fw_created fw < now - ttl →
  (CheckFirstReplay (ExpireFirsts m ttl now).2 id seq now').1 = true.
Proof.
  intros Hseq E Hold. set (m' := (ExpireFirsts m ttl now).2).
  assert (E' : firstWindows m' !! id = None).
  { unfold m'. rewrite ExpireFirsts_lookup, E. by rewrite (proj2 (Z.ltb_lt _ _)). }
  destruct (CheckFirst_entry m' id seq now') as (-> & _). rewrite E'.
  destruct (CheckAndMark_step (NewReplayWindow DefaultReplayWindow) [] seq default_window_inv Hseq)
    as (H & _). cbn zeta in H. cbn [from_option fw_win]. rewrite H.
  unfold spec_accept. rewrite bool_decide_eq_true_2 by apply not_elem_of_nil.
  apply Z.ltb_lt. change (0 - DefaultReplayWindow < seq). unfold DefaultReplayWindow. unfold_int. lia.
Qed.

(** ** Expiry *)

(** The socket [c] belongs to a session that is in the table and satisfies [P]. *)
Definition socket_of (w : world) (P : ptr → Prop) (c : Z) : Prop :=
  ∃ id p s, sessions (mgr w) !! id = Some p ∧ P p ∧ heap w !! p = Some s ∧ s_egress s = Some c.

Lemma CloseEgress_all w ps :
  let w' := foldl CloseEgress w ps in
  mgr w' = mgr w ∧ heap w' = heap w ∧
  (∀ c, c ∈ closed w' ↔
     c ∈ closed w ∨ ∃ p s, p ∈ ps ∧ heap w !! p = Some s ∧ s_egress s = Some c).
Proof.
  revert w. induction ps as [|p ps IH]; intros w; cbn [foldl].
  { split_and!; [done..|]. intros c. split; [by left|]. intros [?|(p & s & H & _)]; [done|].
    by apply elem_of_nil in H. }
  destruct (IH (CloseEgress w p)) as (-> & -> & Hc).
  assert (mgr (CloseEgress w p) = mgr w ∧ heap (CloseEgress w p) = heap w) as [-> Hh].
  { unfold CloseEgress. destruct (heap w !! p) as [s|]; [|done]. by destruct (s_egress s). }
  rewrite Hh in *. split_and!; [done..|]. intros c. rewrite Hc. clear Hc IH.
  setoid_rewrite elem_of_cons. unfold CloseEgress.
  destruct (heap w !! p) as [s|] eqn:E; [destruct (s_egress s) as [c'|] eqn:E'|]; cbn [closed];
    rewrite ?elem_of_union, ?elem_of_singleton; clear Hh.
  - split.
    + intros [[->|?]|(q & s' & ? & ?)]; [right; exists p, s; auto|by left|right; exists q, s'; auto].
    + intros [?|(q & s' & [->|?] & Hq & Hs)]; [auto| |right; exists q, s'; auto].
      left. left. congruence.
  - split; (intros [?|(q & s' & Hq & Hs)]; [by left|right; exists q, s']); [by auto|].
    destruct Hq as [->|?]; [|done]. destruct Hs. congruence.
  - split; (intros [?|(q & s' & Hq & Hs)]; [by left|right; exists q, s']); [by auto|].
    destruct Hq as [->|?]; [|done]. destruct Hs. congruence.
Qed.

Lemma IdleSince_Touch now s :
  - 2 ^ 63 ≤ now - unix_nano 0 < 2 ^ 63 → IdleSince (Touch now s) = now.
Proof.
  intros H. unfold IdleSince, Touch, unixNano. cbn [s_lastSeen]. rewrite i64_small by done.
  unfold unix_nano. lia.
Qed.

Lemma Expire_unfold w ttl now :
  let f := λ kv : Z * ptr, idle (heap w) kv.2 (now - ttl) in
  let victims := (filter (λ kv, f kv = true) (range (sessions (mgr w)))).*2 in
  let t := foldl (λ t k, delete k t) (sessions (mgr w))
             (filter (λ kv, f kv = true) (range (sessions (mgr w)))).*1 in
  Expire w ttl now =
  (length victims,
   foldl CloseEgress (mkWorld (mkMgr t (firstWindows (mgr w))) (heap w) (closed w)) victims).
Proof.
  cbn zeta. unfold Expire.
  rewrite (delete_loop (λ kv : Z * ptr, idle (heap w) kv.2 (now - ttl)) (λ vs kv, vs ++ [kv.2])).
  assert (H : ∀ l (vs : list ptr),
    foldl (λ vs (kv : Z * ptr), vs ++ [kv.2]) vs l = vs ++ l.*2).
  { induction l as [|kv l IH]; intros vs; cbn; [by rewrite app_nil_r|]. by rewrite IH, <- app_assoc. }
  by rewrite H.
Qed.

Lemma selected_sessions (m : gmap Z ptr) (f : Z * ptr → bool) p :
  p ∈ (filter (λ kv, f kv = true) (range m)).*2 ↔ ∃ id, m !! id = Some p ∧ f (id, p) = true.
Proof.
  rewrite list_elem_of_fmap. split.
  - intros ([id p'] & -> & [Hf Hin]%list_elem_of_filter). apply elem_of_range in Hin. eauto.
  - intros (id & Hin & Hf). exists (id, p). split; [done|].
    apply list_elem_of_filter. split; [done|]. by apply elem_of_range.
Qed.

(** Expiry is exact. [Expire] removes the sessions whose last
    authenticated frame is older than the time to live and no other, closes the
    egress sockets of exactly those, touches neither the session objects nor
    the handshake table, and returns their number; for every order in which
    Go ranges over the table. *)
Theorem expire_exact w ttl now :
  let '(n, w') := Expire w ttl now in
  (∀ id, sessions (mgr w') !! id =
     match sessions (mgr w) !! id with
     | Some p => if idle (heap w) p (now - ttl) then None else Some p
     | None => None
     end) ∧
  (∀ c, c ∈ closed w' ↔
     c ∈ closed w ∨ socket_of w (λ p, idle (heap w) p (now - ttl) = true) c) ∧
  heap w' = heap w ∧ firstWindows (mgr w') = firstWindows (mgr w) ∧
  (n + size (sessions (mgr w')) = size (sessions (mgr w)))%nat.
Proof.
  rewrite Expire_unfold. cbn zeta.
  set (vs := (filter _ _).*2).
  set (t := foldl (λ (t : gmap Z ptr) k, delete k t) _ _).
  destruct (CloseEgress_all (mkWorld (mkMgr t (firstWindows (mgr w))) (heap w) (closed w)) vs)
    as (-> & -> & Hc). cbn [mgr heap closed sessions firstWindows] in *.
  assert (Ht : ∀ k, t !! k = match sessions (mgr w) !! k with
    Some p => if idle (heap w) p (now - ttl) then None else Some p | None => None end)
    by (intros k; apply (range_delete_lookup (λ kv : Z * ptr, idle (heap w) kv.2 (now - ttl)))).
  split_and!; [done| |done|done|].
  - intros c. rewrite Hc. unfold socket_of, vs. setoid_rewrite selected_sessions.
    cbn [snd]. f_equiv. split.
    + intros (p & s & (id & H1 & H2) & H3 & H4). by exists id, p, s.
    + intros (id & p & s & H1 & H2 & H3 & H4). exists p, s. split; [by exists id|done].
  - unfold vs, t. rewrite length_fmap. apply (range_delete_size (λ kv : Z * ptr, idle (heap w) kv.2 (now - ttl))).
Qed.

(** The table after expiry is part of the one before; nothing else changes. *)
Lemma expire_table w ttl now :
  let '(_, w') := Expire w ttl now in
  sessions (mgr w') ⊆ sessions (mgr w) ∧ heap w' = heap w ∧ firstWindows (mgr w') = firstWindows (mgr w).
Proof.
  rewrite Expire_unfold. cbn zeta.
  set (t := foldl (λ (t : gmap Z ptr) k, delete k t) _ _). set (vs := (filter _ _).*2).
  destruct (CloseEgress_all (mkWorld (mkMgr t (firstWindows (mgr w))) (heap w) (closed w)) vs)
    as (-> & -> & _). cbn [mgr heap sessions firstWindows]. split; [|done].
  apply map_subseteq_spec. intros k p Hp. unfold t in Hp.
  rewrite (range_delete_lookup (λ kv : Z * ptr, idle (heap w) kv.2 (now - ttl))) in Hp.
  destruct (sessions (mgr w) !! k); [|done]. destruct (idle _ _ _); [done|]. exact Hp.
Qed.

Lemma ExpireFirsts_sessions m ttl now : sessions (ExpireFirsts m ttl now).2 = sessions m.
Proof. unfold ExpireFirsts. cbn zeta. by destruct (foldl _ _ _). Qed.

(** Shutdown: the table is empty and every socket that was in it is closed. *)
Lemma CloseAll_spec w :
  sessions (mgr (CloseAll w)) = ∅ ∧ heap (CloseAll w) = heap w ∧
  (∀ c, c ∈ closed (CloseAll w) ↔ c ∈ closed w ∨ socket_of w (λ _, True) c).
Proof.
  unfold CloseAll.
  assert (E : ∀ l (vs : list ptr) (t : gmap Z ptr),
    foldl (λ acc kv, (acc.1 ++ [kv.2], delete kv.1 acc.2)) (vs, t) l =
    (vs ++ l.*2, foldl (λ t k, delete k t) t l.*1)).
  { induction l as [|kv l IH]; intros vs t; cbn; [by rewrite app_nil_r|]. by rewrite IH, <- app_assoc. }
  rewrite E. set (t := foldl (λ (t : gmap Z ptr) k, delete k t) _ _).
  destruct (CloseEgress_all (mkWorld (mkMgr t (firstWindows (mgr w))) (heap w) (closed w))
    ([] ++ (range (sessions (mgr w))).*2)) as (-> & -> & Hc).
  cbn [mgr heap closed sessions app] in *. split_and!; [|done|].
  - apply map_eq. intros k. unfold t. rewrite delete_list_lookup, lookup_empty.
    destruct (decide _) as [|Hn]; [done|]. apply eq_None_not_Some. intros [p Hp].
    apply Hn, list_elem_of_fmap. exists (k, p). split; [done|]. by apply elem_of_range.
  - intros c. rewrite Hc. f_equiv. unfold socket_of. split.
    + intros (p & s & ([id p'] & -> & Hin%elem_of_range)%list_elem_of_fmap & H2). by exists id, p', s.
    + intros (id & p & s & Hin & _ & H2). exists p, s. split; [|done].
      apply list_elem_of_fmap. exists (id, p). split; [done|]. by apply elem_of_range.
Qed.

(** ** Sequence numbers and nonces *)

(** [n] calls of [NextSeq] of a client, of a server session. *)
Fixpoint client_seqs (n : nat) (c : Client) : list Z :=
  match n with
  | O => []
  | S m => let '(s, c) := Client_NextSeq c in s :: client_seqs m c
  end.

Fixpoint server_seqs (n : nat) (s : ServerSession) : list Z :=
  match n with
  | O => []
  | S m => let '(q, s) := NextSeq s in q :: server_seqs m s
  end.

(** A counter that wraps at 32 bits. *)
Definition counter (start : Z) (n : nat) : list Z := (λ i, u32 (start + Z.of_nat i)) <$> seq 1 n.

Lemma counter_S start n : counter start (S n) = u32 (start + 1) :: counter (u32 (start + 1)) n.
Proof.
  unfold counter. cbn [seq fmap list_fmap]. f_equal. rewrite <- fmap_S_seq, <- list_fmap_compose.
  apply list_fmap_ext. intros i x _. cbn. unfold u32. rewrite Zplus_mod_idemp_l. f_equal. lia.
Qed.

Lemma client_seqs_counter n c : client_seqs n c = counter (c_seq c) n.
Proof.
  revert c. induction n as [|n IH]; intros c; [done|]. rewrite counter_S. cbn [client_seqs].
  unfold Client_NextSeq at 1. cbn zeta. by rewrite IH.
Qed.

Lemma server_seqs_counter n s : server_seqs n s = counter (s_seq s) n.
Proof.
  revert s. induction n as [|n IH]; intros s; [done|]. rewrite counter_S. cbn [server_seqs].
  unfold NextSeq at 1. cbn zeta. by rewrite IH.
Qed.

Lemma counter_NoDup start n : Z.of_nat n ≤ 2 ^ 32 → NoDup (counter start n).
Proof.
  intros Hn. unfold counter. apply NoDup_fmap_2_strong; [|apply NoDup_seq].
  intros i j Hi%elem_of_seq Hj%elem_of_seq H. unfold u32 in H.
  pose proof (Z.div_mod (start + Z.of_nat i) (2 ^ 32) ltac:(lia)).
  pose proof (Z.div_mod (start + Z.of_nat j) (2 ^ 32) ltac:(lia)). nia.
Qed.

Lemma counter_u32 start n : Forall is_u32 (counter start n).
Proof. apply Forall_fmap, Forall_true. intros. apply u32_range. Qed.

Lemma nonces_NoDup dir l : NoDup l → Forall is_u32 l → NoDup (makeNonce dir <$> l).
Proof.
  intros Hnd Hu. rewrite Forall_forall in Hu.
  apply NoDup_fmap_2_strong; [|done]. intros x y Hx%Hu Hy%Hu E. by eapply makeNonce_inj.
Qed.

(** C28 — Nonces do not repeat within a session. The nonces under which the two
    ends of one session seal their frames are pairwise distinct over 2^32 calls
    of [NextSeq] at each end, the two directions being told apart; the next
    call wraps the counter and repeats the first nonce. Across sessions there is
    no such guarantee: the first frames of any two clients use the same nonce,
    and the key of the handshake is the same for both. *)
Theorem session_nonces_unique id id' aead now nc ns :
  Z.of_nat nc ≤ 2 ^ 32 → Z.of_nat ns ≤ 2 ^ 32 →
  NoDup ((makeNonce DirClientToServer <$> client_seqs nc (NewClientWithID id)) ++
         (makeNonce DirServerToClient <$> server_seqs ns (NewServerSession id aead now))) ∧
  u32 (2 ^ 32 + 1) = (Client_NextSeq (NewClientWithID id)).1 ∧
  makeNonce DirClientToServer <$> client_seqs nc (NewClientWithID id) =
  makeNonce DirClientToServer <$> client_seqs nc (NewClientWithID id').
Proof.
  intros Hc Hs. split; [|split; [done|by rewrite !client_seqs_counter]]. rewrite client_seqs_counter, server_seqs_counter. cbn [c_seq s_seq].
  apply NoDup_app. split_and!.
  - apply nonces_NoDup; [by apply counter_NoDup|apply counter_u32].
  - intros n (x & -> & Hx)%list_elem_of_fmap (y & E & Hy)%list_elem_of_fmap.
    pose proof (counter_u32 0 nc) as Hxu. pose proof (counter_u32 0 ns) as Hyu.
    rewrite Forall_forall in Hxu, Hyu.
    by destruct (makeNonce_inj _ _ _ _ (Hxu _ Hx) (Hyu _ Hy) E).
  - apply nonces_NoDup; [by apply counter_NoDup|apply counter_u32].
Qed.

(** The counter does not outlive its range. Once a receiver has accepted
    the last 32-bit number, every number the sender hands out after the wrap,
    up to 2^32 - 4096 of them, is refused: the direction is dead until the
    session is replaced. *)
Theorem wrapped_seq_refused (s : ServerSession) seqs more q :
  s_replay s = after (NewReplayWindow DefaultReplayWindow) seqs →
  Forall is_u32 seqs → is_u32 q → 2 ^ 32 - 1 ∈ accepted (NewReplayWindow DefaultReplayWindow) seqs →
  q < 2 ^ 32 - DefaultReplayWindow → Forall is_u32 more →
  (CheckReplay (foldl (λ s x, (CheckReplay s x).2) s more) q).1 = false.
Proof.
  intros Hs Hq Hqu Hin Hlow Hmore.
  destruct (after_inv _ [] seqs default_window_inv Hq) as (hist & Hi & Hw & Hm).
  rewrite <- Hs in Hi, Hw. assert (Hhist : 2 ^ 32 - 1 ∈ hist) by (apply Hm; by right).
  clear Hs Hm Hin Hq. revert s hist Hi Hw Hhist.
  induction Hmore as [|x more Hx _ IH]; intros s hist Hi Hw Hhist; cbn [foldl].
  - destruct (CheckAndMark_step _ _ q Hi Hqu) as (H & _). cbn zeta in H. unfold CheckReplay.
    destruct (CheckAndMark (s_replay s) q) as [ok w']. cbn [fst] in *. rewrite H.
    unfold spec_accept. apply andb_false_iff. right. apply Z.ltb_ge.
    apply top_ge in Hhist. rewrite Hw. cbn [NewReplayWindow w_window].
    change (if DefaultReplayWindow =? 0 then _ else _) with DefaultReplayWindow. lia.
  - destruct (CheckAndMark_step _ _ x Hi Hx) as (_ & H2 & H3). cbn zeta in H2.
    eapply IH; unfold CheckReplay; destruct (CheckAndMark (s_replay s) x) as [ok w'];
      cbn [fst snd s_replay] in *.
    + exact H2.
    + congruence.
    + destruct (spec_accept _ _ _); [by right|done].
Qed.

End session.

Arguments Client : clear implicits.
Arguments ServerSession : clear implicits.
Arguments world : clear implicits.

(** ** Witnesses *)

#[local] Existing Instance key_order.

Lemma first_table_bounded_witness :
  let m := first_run NewManager [OpFirst 1 5 10; OpFirst 2 7 11; OpExpire 5 16] in
  (size (firstWindows m) ≤ maxFirstWindows)%nat ∧ size (firstWindows m) = 1%nat.
Proof.
  intros m. split; [|by vm_compute].
  apply (first_table_bounded [OpFirst 1 5 10; OpFirst 2 7 11; OpExpire 5 16] 3 1 20).
  repeat constructor; cbn; unfold_int; lia.
Defined.

Lemma first_frame_once_witness :
  let m := (CheckFirstReplay NewManager 1 5 10).2 in
  (CheckFirstReplay (first_run m [OpFirst 2 5 11; OpExpire 100 12]) 1 5 13).1 = false.
Proof.
  apply (first_frame_once [] 1 5 10 [OpFirst 2 5 11; OpExpire 100 12] 13).
  - repeat constructor; cbn; unfold_int; lia.
  - by vm_compute.
  - cbn [kept]. split_and!; vm_compute; [by eexists|by eexists|done].
Defined.

Lemma first_replay_after_expiry_witness :
  let m := (CheckFirstReplay NewManager 1 5 10).2 in
  (CheckFirstReplay m 1 5 30).1 = false ∧
  (CheckFirstReplay (ExpireFirsts m 15 30).2 1 5 31).1 = true.
Proof.
  intros m. split; [by vm_compute|].
  apply (first_replay_after_expiry m 1 (default (mkFirst (NewReplayWindow 0) 0) (firstWindows m !! 1))).
  - unfold_int; lia.
  - by vm_compute.
  - by vm_compute.
Defined.

Lemma session_nonces_unique_witness :
  NoDup ((makeNonce DirClientToServer <$> client_seqs 3 (@NewClientWithID Z 7)) ++
         (makeNonce DirServerToClient <$>
            server_seqs 2 (@NewServerSession Z unit 7 (hmac_aead sample_key) 0))).
Proof. apply (session_nonces_unique 7 8 (hmac_aead sample_key) 0 3 2); lia. Defined.

(** Two sessions, one silent for longer than the time to live. *)
Example expire_concrete :
  let w0 := @mkWorld Z unit NewManager ∅ ∅ in
  let aead := hmac_aead sample_key in
  let '(p, w1) := alloc w0 (SetEgress 100 (NewServerSession 7 aead (unix_nano 5))) in
  let '(q, w2) := alloc (Put w1 p) (SetEgress 200 (NewServerSession 8 aead (unix_nano 9))) in
  let '(n, w3) := Expire (Put w2 q) 3 (unix_nano 10) in
  n = 1%nat ∧ map_to_list (sessions (mgr w3)) = [(8, q)] ∧ elements (closed w3) = [100].
Proof. vm_compute. done. Qed.
