(* ===== verification/Config.v ===== *)
(** * Configuration (internal/config/config.go)

    The configuration document and [Validate], which checks it and fills in the
    defaults. [Load], which reads the file, is in Process.v; address resolution
    is the network's answer, a parameter. *)

From S2P Require Import Prelude Float64 Replay.

#[local] Open Scope string_scope.
#[local] Open Scope Z_scope.

(** Go's string constants of the named string types. *)
Definition ModeClient : string := "client".
Definition ModeServer : string := "server".
Definition SchedulerLB : string := "lb".
Definition SchedulerStandby : string := "standby".
Definition BalanceByCapacity : string := "capacity".
Definition BalanceByFEC : string := "fec".
Definition BalanceByRoundRobin : string := "roundrobin".
Definition AffinityFlow : string := "flow".
Definition AffinityPacket : string := "packet".
Definition FECAdaptive : string := "adaptive".
Definition FECFixed : string := "fixed".
Definition FECOff : string := "off".
Definition FECCrosspath : string := "crosspath".
Definition TransportUDP : string := "udp".
Definition TransportFakeTCP : string := "faketcp".
Definition TransportICMP : string := "icmp".

Definition DeliveryMaxPending : Z := 4096.
Definition DefaultMaxLossPct : f64 := of_Z 20.

Record Sched := mkSched {
  sc_Mode : string;
  sc_Affinity : string;
  sc_BalanceBy : string;
  sc_CapacityCapMbps : f64;
}.

Record DeliveryCfg := mkDelivery { GapTimeoutMS : Z; MaxPending : Z }.

Record FEC := mkFEC {
  fec_Enabled : bool;
  fec_Mode : string;
  fec_DataShards : Z;
  fec_MaxLossPct : f64;
  fec_BlockTimeoutMS : Z;
  fec_FixedOverheadPct : f64;
  fec_AdaptMinLossPct : f64;
  fec_AdaptResumePct : f64;
  fec_AdaptHoldSec : f64;
  fec_ProtectionLevel : f64;
}.

Record WAN := mkWAN {
  w_ID : string;
  w_Transport : string;
  w_Iface : string;
  w_LocalIP : string;
  w_FIB : Z;
  w_CapacityMbps : Z;
  w_Weight : f64;
  w_FECMaxLossPct : option f64;
}.

Record HealthCfg := mkHealth {
  h_LossAlphaFast : f64;
  h_LossAlphaSlow : f64;
  h_JitterAlpha : f64;
  h_DegradeSec : f64;
  h_RecoverMin : f64;
  h_ProbeInterval : f64;
  h_DownAfterMisses : Z;
  h_DownGraceSec : f64;
}.

Record CryptoCfg := mkCrypto { cr_Key : string; cr_Cipher : string }.
Record LogCfg := mkLog { lg_Level : string; lg_File : string }.
Record Telemetry := mkTelemetry { t_Listen : string; t_Path : string; t_IntervalSec : f64 }.
Record Queue := mkQueue {
  qc_Enabled : option bool;
  qc_MaxBytes : Z;
  qc_Drop : string;
  qc_RateLimit : bool;
}.

Record Config := mkConfig {
  cfg_Mode : string;
  cfg_Listen : string;
  cfg_Server : string;
  cfg_WGPeer : string;
  cfg_SessionID : string;
  cfg_Scheduler : Sched;
  cfg_FEC : FEC;
  cfg_MTU : Z;
  cfg_WANs : list WAN;
  cfg_Delivery : DeliveryCfg;
  cfg_Health : HealthCfg;
  cfg_Crypto : CryptoCfg;
  cfg_Log : LogCfg;
  cfg_Telemetry : Telemetry;
  cfg_Queue : Queue;
  cfg_Transport : string;
}.

(** ** Validate *)

(** [if x == zero { x = d }]. *)
Definition dflt_s (d s : string) : string := if String.eqb s "" then d else s.
Definition dflt_z (d z : Z) : Z := if z =? 0 then d else z.
Definition dflt_f (d x : f64) : f64 := if x =.? f0 then d else x.

(** [if b { return fmt.Errorf(e) }]; [k] is the rest of the function. *)
Definition refuse {A} (b : bool) (e : string) (k : res string A) : res string A :=
  if b then Err e else k.

Notation "'refuse_if' b 'with' e ';;' k" := (refuse b e k)
  (at level 200, b at level 100, e at level 0, k at level 200) : go_scope.

(** [s] is one of the cases of a switch. *)
Definition one_of (s : string) (l : list string) : bool := existsb (String.eqb s) l.

Definition validate_sched (s : Sched) : res string Sched :=
  let mode := dflt_s SchedulerLB (sc_Mode s) in
  refuse_if negb (one_of mode [SchedulerLB; SchedulerStandby]) with "invalid scheduler.mode" ;;
  let aff := dflt_s AffinityPacket (sc_Affinity s) in
  refuse_if negb (one_of aff [AffinityFlow; AffinityPacket]) with "invalid scheduler.affinity" ;;
  let bal := dflt_s BalanceByCapacity (sc_BalanceBy s) in
  refuse_if sc_CapacityCapMbps s <.? f0 with "scheduler.capacity_cap_mbps cannot be negative" ;;
  Ok (mkSched mode aff bal (sc_CapacityCapMbps s)).

Definition validate_delivery (d : DeliveryCfg) : res string DeliveryCfg :=
  let gap := dflt_z 100 (GapTimeoutMS d) in
  refuse_if (gap <? 10) || (5000 <? gap) with "delivery.gap_timeout_ms must be in [10,5000]" ;;
  let pend := dflt_z 4096 (MaxPending d) in
  refuse_if (pend <? 64) || (DeliveryMaxPending <? pend) with "delivery.max_pending must be in [64,4096]" ;;
  Ok (mkDelivery gap pend).

Definition validate_mtu (mtu : Z) : res string Z :=
  let mtu := dflt_z 1420 mtu in
  refuse_if (mtu <? 576) || (9000 <? mtu) with "mtu must be in [576,9000]" ;; Ok mtu.

(** The FEC section, given the affinity already validated. *)
Definition validate_fec (affinity : string) (f : FEC) : res string FEC :=
  let enabled := if String.eqb (fec_Mode f) FECOff then false else fec_Enabled f in
  if negb enabled then
    Ok (mkFEC false (fec_Mode f) (fec_DataShards f) (fec_MaxLossPct f) (fec_BlockTimeoutMS f)
          (fec_FixedOverheadPct f) (fec_AdaptMinLossPct f) (fec_AdaptResumePct f)
          (fec_AdaptHoldSec f) (fec_ProtectionLevel f))
  else
    let mode := dflt_s FECAdaptive (fec_Mode f) in
    refuse_if negb (one_of mode [FECAdaptive; FECFixed; FECCrosspath]) with "invalid fec.mode" ;;
    let k := dflt_z 10 (fec_DataShards f) in
    refuse_if (k <? 2) || (64 <? k) with "fec.data_shards must be in [2,64]" ;;
    refuse_if String.eqb mode FECCrosspath && negb (String.eqb affinity AffinityPacket)
      with "fec.mode=crosspath requires scheduler.affinity=packet" ;;
    let maxLoss := dflt_f DefaultMaxLossPct (fec_MaxLossPct f) in
    refuse_if (maxLoss <.? f0) || (of_Z 90 <.? maxLoss) with "fec.max_loss_pct must be in (0,90]" ;;
    let timeout := if fec_BlockTimeoutMS f <=? 0 then 8 else fec_BlockTimeoutMS f in
    let on := dflt_f (of_Z 2) (fec_AdaptMinLossPct f) in
    let off := dflt_f (of_dec 1 2) (fec_AdaptResumePct f) in
    let hold := dflt_f (of_Z 10) (fec_AdaptHoldSec f) in
    refuse_if (on <=.? f0) || (of_Z 90 <.? on) with "fec.adapt_min_loss_pct must be in (0,90]" ;;
    refuse_if (off <.? f0) || (on <=.? off) with "fec.adapt_resume_pct must be in [0, adapt_min_loss_pct)" ;;
    refuse_if (hold <.? f0) || (of_Z 3600 <.? hold) with "fec.adapt_hold_sec must be in [0,3600]" ;;
    refuse_if String.eqb mode FECFixed &&
        ((fec_FixedOverheadPct f <=.? f0) || (of_Z 200 <.? fec_FixedOverheadPct f))
      with "fec.fixed_overhead_pct must be in (0,200]" ;;
    let pl := if String.eqb mode FECCrosspath then dflt_f (of_dec 1 2) (fec_ProtectionLevel f)
              else fec_ProtectionLevel f in
    refuse_if String.eqb mode FECCrosspath && ((pl <.? f0) || (f1 <.? pl))
      with "fec.protection_level must be in [0,1]" ;;
    Ok (mkFEC true mode k maxLoss timeout (fec_FixedOverheadPct f) on off hold pl).

Definition transport_ok (t : string) : bool := one_of t [TransportUDP; TransportFakeTCP; TransportICMP].

(** [strconv.Itoa] for the positive index of a WAN. *)
Definition digit (d : nat) : string := String (Ascii.ascii_of_nat (48 + d)) "".
Fixpoint itoa_fuel (fuel n : nat) : string :=
  match fuel with
  | O => ""
  | S fuel => if (n <? 10)%nat then digit n else String.append (itoa_fuel fuel (n / 10)) (digit (n mod 10))
  end.
Definition Itoa (n : nat) : string := itoa_fuel (S n) n.

(** The loop over the WANs from index [i], with the ids seen so far. *)
Fixpoint validate_wans (i : nat) (seen : gset string) (ws : list WAN) : res string (list WAN) :=
  match ws with
  | [] => Ok []
  | w :: ws =>
      let id := if String.eqb (w_ID w) "" then String.append "wan" (Itoa (i + 1)) else w_ID w in
      refuse_if bool_decide (id ∈ seen) with "duplicate WAN id" ;;
      let tr := dflt_s TransportUDP (w_Transport w) in
      refuse_if negb (transport_ok tr) with "WAN: invalid transport" ;;
      let weight := dflt_f f1 (w_Weight w) in
      refuse_if w_CapacityMbps w <? 0 with "WAN: capacity_mbps cannot be negative" ;;
      let? rest := validate_wans (i + 1) ({[id]} ∪ seen) ws in
      Ok (mkWAN id tr (w_Iface w) (w_LocalIP w) (w_FIB w) (w_CapacityMbps w) weight
            (w_FECMaxLossPct w) :: rest)
  end.

Definition validate_health (h : HealthCfg) : res string HealthCfg :=
  let misses := dflt_z 3 (h_DownAfterMisses h) in
  refuse_if (misses <? 1) || (32 <? misses) with "health.down_after_misses must be in [1,32]" ;;
  refuse_if (h_DownGraceSec h <.? f0) || (of_Z 60 <.? h_DownGraceSec h)
    with "health.down_grace_sec must be in [0,60]" ;;
  Ok (mkHealth (dflt_f (of_dec 4 10) (h_LossAlphaFast h)) (dflt_f (of_dec 3 100) (h_LossAlphaSlow h))
        (dflt_f (of_dec 1 10) (h_JitterAlpha h)) (dflt_f (of_Z 3) (h_DegradeSec h))
        (dflt_f (of_Z 2) (h_RecoverMin h)) (dflt_f f1 (h_ProbeInterval h)) misses (h_DownGraceSec h)).

Definition validate_queue (q : Queue) : res string Queue :=
  let enabled := match qc_Enabled q with None => Some true | e => e end in
  let max := if qc_MaxBytes q <=? 0 then 262144 else qc_MaxBytes q in
  let drop := dflt_s "oldest" (qc_Drop q) in
  refuse_if negb (one_of drop ["oldest"; "newest"]) with "queue.drop must be oldest or newest" ;;
  Ok (mkQueue enabled max drop (qc_RateLimit q)).

Section validate.
  (** [net.ResolveUDPAddr] and [net.SplitHostPort] accept the string. *)
  Context (ResolveUDPAddr SplitHostPort : string → bool).

Definition validate_addresses (mode listen server wgpeer : string) : res string unit :=
  refuse_if negb (one_of mode [ModeClient; ModeServer]) with "invalid mode" ;;
  refuse_if String.eqb listen "" with "listen address is required" ;;
  refuse_if String.eqb mode ModeClient && String.eqb server "" with "client requires server address" ;;
  refuse_if String.eqb mode ModeServer && String.eqb wgpeer "" with "server requires wg_peer" ;;
  refuse_if negb (ResolveUDPAddr listen) with "invalid listen address" ;;
  refuse_if String.eqb mode ModeClient && negb (ResolveUDPAddr server) with "invalid server address" ;;
  refuse_if String.eqb mode ModeServer && negb (ResolveUDPAddr wgpeer) with "invalid wg_peer address" ;;
  Ok tt.

Definition validate_telemetry (t : Telemetry) : res string Telemetry :=
  refuse_if t_IntervalSec t <.? f0 with "telemetry.interval_sec must be >= 0" ;;
  refuse_if negb (String.eqb (t_Listen t) "") && negb (SplitHostPort (t_Listen t))
    with "telemetry.listen must be host:port" ;;
  Ok (mkTelemetry (t_Listen t) (dflt_s "/stats" (t_Path t)) (t_IntervalSec t)).

(** [c.Validate()]: the sections in the order of the code. *)
Definition Validate (c : Config) : res string Config :=
  let mode := dflt_s ModeClient (cfg_Mode c) in
  let? _ := validate_addresses mode (cfg_Listen c) (cfg_Server c) (cfg_WGPeer c) in
  let sid := dflt_s "auto" (cfg_SessionID c) in
  let? sched := validate_sched (cfg_Scheduler c) in
  let? deliv := validate_delivery (cfg_Delivery c) in
  let? mtu := validate_mtu (cfg_MTU c) in
  let? fec := validate_fec (sc_Affinity sched) (cfg_FEC c) in
  refuse_if (length (cfg_WANs c) =? 0)%nat && String.eqb mode ModeClient
    with "client requires at least one WAN" ;;
  let tr := if String.eqb mode ModeServer then dflt_s TransportUDP (cfg_Transport c)
            else cfg_Transport c in
  refuse_if String.eqb mode ModeServer && negb (transport_ok tr) with "server transport not supported" ;;
  let? wans := validate_wans 0 ∅ (cfg_WANs c) in
  let? health := validate_health (cfg_Health c) in
  refuse_if String.eqb (cr_Key (cfg_Crypto c)) "" with "crypto.key (shared PSK) is required" ;;
  let crypto := mkCrypto (cr_Key (cfg_Crypto c))
                  (dflt_s "chacha20poly1305" (cr_Cipher (cfg_Crypto c))) in
  let log := mkLog (dflt_s "info" (lg_Level (cfg_Log c))) (lg_File (cfg_Log c)) in
  let? tel := validate_telemetry (cfg_Telemetry c) in
  let? queue := validate_queue (cfg_Queue c) in
  Ok (mkConfig mode (cfg_Listen c) (cfg_Server c) (cfg_WGPeer c) sid sched fec mtu wans deliv
        health crypto log tel queue tr).

End validate.

(** ** Defaults are fixed points *)

Lemma dflt_s_idem d s : d ≠ "" → dflt_s d (dflt_s d s) = dflt_s d s.
Proof. unfold dflt_s. intros. by destruct (String.eqb_spec s ""), (String.eqb_spec d ""), (String.eqb_spec s ""). Qed.

Lemma dflt_z_idem d z : dflt_z d (dflt_z d z) = dflt_z d z.
Proof. unfold dflt_z. destruct (Z.eqb_spec z 0); [by destruct (d =? 0)|]. by rewrite (proj2 (Z.eqb_neq _ _)). Qed.

Lemma dflt_f_idem d x : dflt_f d (dflt_f d x) = dflt_f d x.
Proof. unfold dflt_f. destruct (x =.? f0) eqn:E; [by destruct (d =.? f0)|]. by rewrite E. Qed.

Lemma refuse_Ok {A} b e (k : res string A) r : refuse b e k = Ok r → b = false ∧ k = Ok r.
Proof. by destruct b. Qed.

(** Splits [H : validate ... = Ok _] at its guards and keeps them. *)
Ltac split_refuse H :=
  lazymatch type of H with
  | refuse _ _ _ = Ok _ =>
      let G := fresh "G" in apply refuse_Ok in H as [G H]; split_refuse H
  | _ => idtac
  end.

Lemma one_of_spec s l : one_of s l = true ↔ s ∈ l.
Proof.
  unfold one_of. rewrite existsb_exists. split.
  - intros (x & Hx & ->%String.eqb_eq). by apply list_elem_of_In.
  - intros H. exists s. split; [by apply list_elem_of_In|apply String.eqb_refl].
Qed.

(** Re-runs a validator on a record it returned. *)
Ltac revalidate :=
  repeat match goal with
  | G : ?b = false |- refuse ?b _ _ = _ => rewrite G; unfold refuse at 1
  end.

Lemma validate_sched_Ok s s' : validate_sched s = Ok s' →
  validate_sched s' = Ok s' ∧
  sc_Mode s' ∈ [SchedulerLB; SchedulerStandby] ∧ sc_Affinity s' ∈ [AffinityFlow; AffinityPacket] ∧
  (sc_CapacityCapMbps s' <.? f0) = false.
Proof.
  unfold validate_sched. cbn zeta. intros H. split_refuse H. injection H as <-.
  cbn [sc_Mode sc_Affinity sc_BalanceBy sc_CapacityCapMbps].
  rewrite !dflt_s_idem by done. split; [by revalidate|].
  apply negb_false_iff, one_of_spec in G. apply negb_false_iff, one_of_spec in G0. done.
Qed.

Lemma validate_delivery_Ok d d' : validate_delivery d = Ok d' →
  validate_delivery d' = Ok d' ∧
  10 ≤ GapTimeoutMS d' ≤ 5000 ∧ 64 ≤ MaxPending d' ≤ DeliveryMaxPending.
Proof.
  unfold validate_delivery. cbn zeta. intros H. split_refuse H. injection H as <-.
  cbn [GapTimeoutMS MaxPending]. rewrite !dflt_z_idem. split; [by revalidate|].
  unfold DeliveryMaxPending in *. lia.
Qed.

Lemma validate_mtu_Ok m m' : validate_mtu m = Ok m' → validate_mtu m' = Ok m' ∧ 576 ≤ m' ≤ 9000.
Proof.
  unfold validate_mtu. cbn zeta. intros H. split_refuse H. injection H as <-.
  rewrite !dflt_z_idem. split; [by revalidate|]. lia.
Qed.

Lemma validate_health_Ok h h' : validate_health h = Ok h' →
  validate_health h' = Ok h' ∧ 1 ≤ h_DownAfterMisses h' ≤ 32 ∧
  (h_DownGraceSec h' <.? f0) = false ∧ (of_Z 60 <.? h_DownGraceSec h') = false.
Proof.
  unfold validate_health. cbn zeta. intros H. split_refuse H. injection H as <-.
  cbn [h_LossAlphaFast h_LossAlphaSlow h_JitterAlpha h_DegradeSec h_RecoverMin h_ProbeInterval
       h_DownAfterMisses h_DownGraceSec].
  rewrite !dflt_z_idem, !dflt_f_idem. split; [by revalidate|].
  apply orb_false_iff in G0 as [? ?]. split_and!; [lia..|done|done].
Qed.

Lemma validate_queue_Ok q q' : validate_queue q = Ok q' →
  validate_queue q' = Ok q' ∧ is_Some (qc_Enabled q') ∧ 0 < qc_MaxBytes q' ∧
  qc_Drop q' ∈ ["oldest"; "newest"].
Proof.
  unfold validate_queue. cbn zeta. intros H. split_refuse H. injection H as <-.
  cbn [qc_Enabled qc_MaxBytes qc_Drop qc_RateLimit]. rewrite !dflt_s_idem by done. split.
  - revalidate. destruct (qc_Enabled q), (Z.leb_spec (qc_MaxBytes q) 0); try done;
      by rewrite (proj2 (Z.leb_gt _ _)).
  - apply negb_false_iff, one_of_spec in G.
    split_and!; [by destruct (qc_Enabled q)|by destruct (Z.leb_spec (qc_MaxBytes q) 0)|done].
Qed.

(** What an enabled, validated FEC section satisfies. *)
Record fec_ok (affinity : string) (f : FEC) : Prop := {
  fo_mode : fec_Mode f ∈ [FECAdaptive; FECFixed; FECCrosspath];
  fo_shards : 2 ≤ fec_DataShards f ≤ 64;
  fo_cross : fec_Mode f = FECCrosspath → affinity = AffinityPacket;
  fo_loss : (fec_MaxLossPct f =.? f0) = false ∧ (fec_MaxLossPct f <.? f0) = false ∧
            (of_Z 90 <.? fec_MaxLossPct f) = false;
  fo_timeout : 0 < fec_BlockTimeoutMS f;
  fo_fixed : fec_Mode f = FECFixed → (of_Z 200 <.? fec_FixedOverheadPct f) = false;
  fo_level : fec_Mode f = FECCrosspath → (f1 <.? fec_ProtectionLevel f) = false;
}.

Lemma of_Z_nonzero z : 0 < z ≤ 2 ^ 53 → (of_Z z =.? f0) = false.
Proof.
  intros H. rewrite of_Z_exact by lia. apply Z.eqb_neq. assert (0 < one_u) by (by vm_compute). nia.
Qed.

Lemma dflt_f_nonzero d x : (d =.? f0) = false → (dflt_f d x =.? f0) = false.
Proof. unfold dflt_f. by destruct (x =.? f0) eqn:E. Qed.

Lemma validate_fec_disabled aff f : fec_Enabled f = false → validate_fec aff f = Ok f.
Proof.
  intros H. unfold validate_fec. rewrite H. destruct (String.eqb _ _); cbn [negb]; by destruct f; cbn in *; subst.
Qed.

Lemma mode_not_off m : m ∈ [FECAdaptive; FECFixed; FECCrosspath] →
  String.eqb m FECOff = false ∧ dflt_s FECAdaptive m = m.
Proof.
  rewrite !elem_of_cons, elem_of_nil. by intros [->|[->|[->|[]]]].
Qed.

Lemma validate_fec_Ok aff f f' : validate_fec aff f = Ok f' →
  validate_fec aff f' = Ok f' ∧ (fec_Enabled f' = true → fec_ok aff f').
Proof.
  intros H. destruct (fec_Enabled f') eqn:En; [|split; [by apply validate_fec_disabled|done]].
  unfold validate_fec in H. destruct (negb _) eqn:E; [by injection H as <-|].
  cbn zeta in H. split_refuse H. injection H as <-.
  assert (Hmode := G). apply negb_false_iff, one_of_spec in Hmode.
  destruct (mode_not_off _ Hmode) as [Hoff Hd].
  set (mode := dflt_s FECAdaptive (fec_Mode f)) in *.
  set (pl := if String.eqb mode FECCrosspath then _ else _) in *.
  assert (Hpl : (if String.eqb mode FECCrosspath then dflt_f (of_dec 1 2) pl else pl) = pl).
  { unfold pl. destruct (String.eqb mode FECCrosspath); [apply dflt_f_idem|done]. }
  set (timeout := if fec_BlockTimeoutMS f <=? 0 then 8 else fec_BlockTimeoutMS f) in *.
  assert (Ht : (if timeout <=? 0 then 8 else timeout) = timeout ∧ 0 < timeout).
  { unfold timeout. destruct (Z.leb_spec (fec_BlockTimeoutMS f) 0); [done|].
    by rewrite (proj2 (Z.leb_gt _ _)). }
  destruct Ht as [Ht Ht0]. split.
  - unfold validate_fec. cbn [fec_Enabled fec_Mode fec_DataShards fec_MaxLossPct fec_BlockTimeoutMS
      fec_FixedOverheadPct fec_AdaptMinLossPct fec_AdaptResumePct fec_AdaptHoldSec fec_ProtectionLevel].
    rewrite Hoff. cbn [negb]. cbn zeta.
    rewrite Hd, !dflt_z_idem, !dflt_f_idem, Ht, Hpl. by revalidate.
  - intros _. apply orb_false_iff in G2 as [Hl1 Hl2].
    split; cbn [fec_Enabled fec_Mode fec_DataShards fec_MaxLossPct fec_BlockTimeoutMS
      fec_FixedOverheadPct fec_AdaptMinLossPct fec_AdaptResumePct fec_AdaptHoldSec fec_ProtectionLevel].
    + done.
    + lia.
    + intros Hm. apply andb_false_iff in G1 as [G1|G1]; [rewrite Hm in G1; discriminate G1|].
      by apply negb_false_iff, String.eqb_eq in G1.
    + split; [|split; [exact Hl1|exact Hl2]]. apply dflt_f_nonzero. apply (of_Z_nonzero 20). lia.
    + done.
    + intros Hm. apply andb_false_iff in G6 as [G6|G6]; [rewrite Hm in G6; discriminate G6|].
      apply orb_false_iff in G6 as [_ G6]. exact G6.
    + intros Hm. apply andb_false_iff in G7 as [G7|G7]; [rewrite Hm in G7; discriminate G7|].
      apply orb_false_iff in G7 as [_ G7]. exact G7.
Qed.

(** The loop over the WANs: ids are non-empty and distinct, the rest is in range. *)
Definition wan_ok (w : WAN) : Prop :=
  w_ID w ≠ "" ∧ transport_ok (w_Transport w) = true ∧ (w_Weight w =.? f0) = false ∧ 0 ≤ w_CapacityMbps w.

Lemma validate_wans_Ok i seen ws ws' : validate_wans i seen ws = Ok ws' →
  (∀ j, validate_wans j seen ws' = Ok ws') ∧ Forall wan_ok ws' ∧ NoDup (w_ID <$> ws') ∧
  Forall (λ w, w_ID w ∉ seen) ws' ∧ length ws' = length ws.
Proof.
  revert i seen ws'. induction ws as [|w ws IH]; intros i seen ws' H; cbn [validate_wans] in H.
  { injection H as <-. by split_and!; try constructor. }
  cbn zeta in H. split_refuse H.
  destruct (validate_wans _ _ ws) as [rest| |] eqn:Hr; cbn [res_bind] in H; [|done|done].
  injection H as <-. destruct (IH _ _ _ Hr) as (Hre & Hok & Hnd & Hns & Hl).
  set (id := if String.eqb (w_ID w) "" then _ else _) in *.
  assert (Hid : String.eqb id "" = false).
  { unfold id. by destruct (String.eqb (w_ID w) "") eqn:E. }
  split_and!.
  - intros j. cbn [validate_wans w_ID w_Transport w_Iface w_LocalIP w_FIB w_CapacityMbps w_Weight
      w_FECMaxLossPct]. rewrite Hid. cbn zeta. rewrite dflt_s_idem, dflt_f_idem by done.
    revalidate. by rewrite Hre.
  - constructor; [|done]. split_and!; cbn; [by apply String.eqb_neq|by apply negb_false_iff| |lia].
    apply dflt_f_nonzero. by vm_compute.
  - cbn. constructor; [|done]. intros (w' & E & Hin)%list_elem_of_fmap.
    rewrite Forall_forall in Hns. apply (Hns _ Hin). rewrite <- E. apply elem_of_union. left. by apply elem_of_singleton.
  - constructor; [cbn; by apply bool_decide_eq_false_1 in G|].
    eapply Forall_impl; [exact Hns|]. cbn. intros w' Hw' ?. apply Hw', elem_of_union. by right.
  - cbn. lia.
Qed.

(** ** The property *)

(** What every validated configuration satisfies. *)
Record config_ok (c : Config) : Prop := {
  co_mode : cfg_Mode c ∈ [ModeClient; ModeServer];
  co_listen : cfg_Listen c ≠ "";
  co_client : cfg_Mode c = ModeClient → cfg_Server c ≠ "" ∧ cfg_WANs c ≠ [];
  co_server : cfg_Mode c = ModeServer → cfg_WGPeer c ≠ "" ∧ transport_ok (cfg_Transport c) = true;
  co_affinity : sc_Affinity (cfg_Scheduler c) ∈ [AffinityFlow; AffinityPacket];
  co_delivery : 64 ≤ MaxPending (cfg_Delivery c) ≤ DefaultReplayWindow;
  co_gap : 10 ≤ GapTimeoutMS (cfg_Delivery c) ≤ 5000;
  co_mtu : 576 ≤ cfg_MTU c ≤ 9000;
  co_fec : fec_Enabled (cfg_FEC c) = true → fec_ok (sc_Affinity (cfg_Scheduler c)) (cfg_FEC c);
  co_wans : Forall wan_ok (cfg_WANs c);
  co_ids : NoDup (w_ID <$> cfg_WANs c);
  co_misses : 1 ≤ h_DownAfterMisses (cfg_Health c) ≤ 32;
  co_key : cr_Key (cfg_Crypto c) ≠ "";
  co_queue : 0 < qc_MaxBytes (cfg_Queue c) ∧ is_Some (qc_Enabled (cfg_Queue c));
}.

Section validated.
Context (R S : string → bool).

Lemma validate_addresses_Ok mode l s w : validate_addresses R mode l s w = Ok tt →
  mode ∈ [ModeClient; ModeServer] ∧ l ≠ "" ∧ (mode = ModeClient → s ≠ "") ∧
  (mode = ModeServer → w ≠ "").
Proof.
  unfold validate_addresses. intros H. split_refuse H.
  apply negb_false_iff, one_of_spec in G. apply String.eqb_neq in G0.
  split_and!; [done|done| |].
  - intros ->. by apply String.eqb_neq.
  - intros ->. by apply String.eqb_neq.
Qed.

Lemma validate_telemetry_Ok t t' : validate_telemetry S t = Ok t' → validate_telemetry S t' = Ok t'.
Proof.
  unfold validate_telemetry. intros H. split_refuse H. injection H as <-.
  cbn [t_Listen t_Path t_IntervalSec]. rewrite dflt_s_idem by done. by revalidate.
Qed.

Lemma Validate_Ok c c' : Validate R S c = Ok c' → Validate R S c' = Ok c' ∧ config_ok c'.
Proof.
  unfold Validate. cbn zeta. intros H.
  apply bind_Ok in H as ([] & Hadr & H). apply bind_Ok in H as (sched & Hsched & H).
  apply bind_Ok in H as (deliv & Hdeliv & H). apply bind_Ok in H as (mtu & Hmtu & H).
  apply bind_Ok in H as (fec & Hfec & H). split_refuse H.
  apply bind_Ok in H as (wans & Hwans & H). apply bind_Ok in H as (health & Hhealth & H).
  split_refuse H. apply bind_Ok in H as (tel & Htel & H). apply bind_Ok in H as (queue & Hqueue & H).
  injection H as <-.
  apply validate_sched_Ok in Hsched as (Es & _ & Haff & _).
  apply validate_delivery_Ok in Hdeliv as (Ed & Hgap & Hpend).
  apply validate_mtu_Ok in Hmtu as (Em & Hmtu).
  apply validate_fec_Ok in Hfec as (Ef & Hfec).
  pose proof (validate_wans_Ok _ _ _ _ Hwans) as (Ew & Hok & Hnd & _ & Hlen).
  apply validate_health_Ok in Hhealth as (Eh & Hmiss & _).
  apply validate_telemetry_Ok in Htel as Et.
  apply validate_queue_Ok in Hqueue as (Eq & Hen & Hmax & _).
  set (mode := dflt_s ModeClient (cfg_Mode c)) in *.
  set (tr := if String.eqb mode ModeServer then _ else _) in *.
  assert (Htr : (if String.eqb mode ModeServer then dflt_s TransportUDP tr else tr) = tr).
  { unfold tr. destruct (String.eqb mode ModeServer); [by apply dflt_s_idem|done]. }
  assert (Hmode : dflt_s ModeClient mode = mode) by (by apply dflt_s_idem).
  split.
  - cbn [cfg_Mode cfg_Listen cfg_Server cfg_WGPeer cfg_SessionID cfg_Scheduler cfg_FEC cfg_MTU cfg_WANs
      cfg_Delivery cfg_Health cfg_Crypto cfg_Log cfg_Telemetry cfg_Queue cfg_Transport cr_Key cr_Cipher
      lg_Level lg_File].
    rewrite Hmode, Hadr. cbn [res_bind]. rewrite Es. cbn [res_bind]. rewrite Ed. cbn [res_bind].
    rewrite Em. cbn [res_bind]. rewrite Ef. cbn [res_bind]. rewrite Hlen, Htr. revalidate.
    rewrite Ew. cbn [res_bind]. rewrite Eh. cbn [res_bind]. revalidate. rewrite Et. cbn [res_bind].
    rewrite Eq. cbn [res_bind]. by rewrite !dflt_s_idem by done.
  - apply validate_addresses_Ok in Hadr as (Hm & Hl & Hsv & Hwg).
    split; cbn [cfg_Mode cfg_Listen cfg_Server cfg_WGPeer cfg_Scheduler cfg_FEC cfg_MTU cfg_WANs
      cfg_Delivery cfg_Health cfg_Crypto cfg_Queue cfg_Transport cr_Key]; try done.
    + intros E. split; [by apply Hsv|]. rewrite E in G. intros ->. cbn in Hlen.
      by rewrite <- Hlen in G.
    + intros E. split; [by apply Hwg|]. rewrite E in G0. by apply negb_false_iff.
    + by apply String.eqb_neq.
Qed.

Lemma Validate_fec c c' : Validate R S c = Ok c' → ∃ aff f, validate_fec aff f = Ok (cfg_FEC c').
Proof.
  unfold Validate. cbn zeta. intros H.
  do 4 (apply bind_Ok in H as (? & _ & H)). apply bind_Ok in H as (fec & Hfec & H). split_refuse H.
  do 2 (apply bind_Ok in H as (? & _ & H)). split_refuse H.
  do 2 (apply bind_Ok in H as (? & _ & H)). injection H as <-. eauto.
Qed.
End validated.

(** C30 — Validation. A configuration that [Validate] accepts satisfies every
    range and consistency rule the other parts rely on (among them the design
    invariant that the reorder buffer does not exceed the anti-replay window,
    distinct WAN ids, and an FEC geometry in range), and validating it again
    changes nothing: the client and the server validate a document that
    [Load] has already validated. *)
Theorem validate_correct R S c c' :
  Validate R S c = Ok c' → Validate R S c' = Ok c' ∧ config_ok c'.
Proof. apply Validate_Ok. Qed.

(** A client with two WANs and everything else left to the defaults. *)
Definition sample_config : Config :=
  let wan := mkWAN "" "" "" "" 0 0 f0 None in
  mkConfig "" "127.0.0.1:51820" "vpn:4500" "" "" (mkSched "" "" "" f0)
    (mkFEC true "" 0 f0 0 f0 f0 f0 f0 f0) 0 [wan; wan] (mkDelivery 0 0)
    (mkHealth f0 f0 f0 f0 f0 f0 0 f0) (mkCrypto "secret" "") (mkLog "" "") (mkTelemetry "" "" f0)
    (mkQueue None 0 "" false) "".

Lemma validate_correct_witness :
  match Validate (λ _, true) (λ _, true) sample_config with
  | Ok c => config_ok c ∧ w_ID <$> cfg_WANs c = ["wan1"; "wan2"] ∧ cfg_MTU c = 1420
  | _ => False
  end.
Proof.
  destruct (Validate (λ _, true) (λ _, true) sample_config) as [c| |] eqn:E.
  - split; [apply (validate_correct _ _ _ _ E)|]. vm_compute in E. injection E as <-. by vm_compute.
  - vm_compute in E. discriminate E.
  - vm_compute in E. discriminate E.
Defined.
