(* ===== verification/TunnelParams.v ===== *)
(** * From configuration to codecs (internal/tunnel/tunnel.go)

    The functions that turn the FEC, WAN and health sections into codec
    parameters, scheduling weights and monitor options, and the adoption of the
    parameters the server announces in its key-exchange ACK. *)

From S2P Require Import Prelude Float64 Frame Crypto Config FecCodec FecEncoder FecDecoder Health.

#[local] Open Scope string_scope.
#[local] Open Scope Z_scope.

Definition pathMTU : Z := 1500.

(** [time.Duration(ms) * time.Millisecond] and [time.Duration(x * float64(unit))]. *)
Definition of_ms (ms : Z) : duration := i64 (ms * millisecond).
Definition of_units (x : f64) (unit : duration) : duration := to_int (x ⊠ of_Z unit).

(** [int(math.Ceil(x))]. *)
Definition ceil_int (x : f64) : Z := to_int (fceil x).

(** [fecParamsFor(cfg, wan)]: reads the FEC section and the MTU of [cfg]. The sum
    [k + parity] stays below 2^63: a float64 under 2^63 is at most 2^63 - 1024. *)
Definition fecParamsFor (f : FEC) (mtu : Z) (wan : option WAN) : res string Params :=
  let timeout := of_ms (fec_BlockTimeoutMS f) in
  if negb (fec_Enabled f) || String.eqb (fec_Mode f) FECOff then
    Ok (mkParams 0 0 timeout None false 0)
  else
    let k := if 0 <? fec_DataShards f then fec_DataShards f else DefaultDataShards in
    if String.eqb (fec_Mode f) FECCrosspath then
      let minParity := ceil_int (of_Z k ⊠ fec_ProtectionLevel f) in
      let minParity := if minParity <? 1 then 1 else minParity in
      Ok (mkParams k minParity timeout None true minParity)
    else
      let? pa :=
        if String.eqb (fec_Mode f) FECFixed then
          Ok (ceil_int ((of_Z k ⊠ fec_FixedOverheadPct f) ⊘ of_Z 100), None)
        else if String.eqb (fec_Mode f) FECAdaptive then
          let pct := match wan with
                     | Some w => default (fec_MaxLossPct f) (w_FECMaxLossPct w)
                     | None => fec_MaxLossPct f
                     end in
          let l := pct ⊘ of_Z 100 in
          if (l <=.? f0) || (f1 <=.? l) then Err "invalid fec max_loss_pct"
          else Ok (ceil_int ((of_Z k ⊠ l) ⊘ (f1 ⊟ l)),
                   Some (mkAdaptive (fec_AdaptMinLossPct f) (fec_AdaptResumePct f)
                           (of_units (fec_AdaptHoldSec f) second) (fec_MaxLossPct f) (of_dec 13 10)))
        else Err "unknown fec.mode" in
      let parity := if pa.1 <? 1 then 1 else pa.1 in
      if 256 <? k + parity then Err "fec geometry too large"
      else
        let maxInner := pathMTU - Z.of_nat HeaderSize - Z.of_nat TagSize - ParityHeaderSize k in
        if maxInner <? mtu then Err "inner mtu too large with FEC"
        else Ok (mkParams k parity timeout pa.2 false 0).

(** The block timeout is the configured one. *)
Lemma fecParamsFor_timeout f mtu wan p : fecParamsFor f mtu wan = Ok p → BlockTimeout p = of_ms (fec_BlockTimeoutMS f).
Proof.
  unfold fecParamsFor. destruct (_ || _); [by intros [= <-]|]. destruct (String.eqb _ FECCrosspath); [by intros [= <-]|].
  intros (pa & _ & H)%bind_Ok. destruct (256 <? _); [done|]. cbv zeta in H. destruct (_ <? mtu); [done|]. by injection H as <-.
Qed.

Definition fecCompensableLoss (p : Params) : f64 :=
  if negb (Enabled p) then f0
  else of_Z (ParityShards p) ⊘ of_Z (DataShards p + ParityShards p).

(** [effectiveCapacity(wan, p, balanceBy)]. *)
Definition effectiveCapacity (capacityMbps : Z) (weight : f64) (p : Params) (balanceBy : string) : f64 :=
  if String.eqb balanceBy BalanceByRoundRobin then f1
  else
    let cap := of_Z capacityMbps in
    let cap := if cap <=.? f0 then f1 else cap in
    let cap :=
      if String.eqb balanceBy BalanceByFEC && Enabled p then
        cap ⊠ (f1 ⊟ (of_Z (ParityShards p) ⊘ of_Z (DataShards p + ParityShards p)))
      else cap in
    if f0 <.? weight then cap ⊠ weight else cap.

Definition monitorMaxLoss (p : Params) : f64 :=
  let l := fecCompensableLoss p in if f0 <.? l then l else of_dec 1 100.

Definition healthOptions (h : HealthCfg) (maxLoss : f64) : Options :=
  mkOptions maxLoss (of_units (h_DegradeSec h) second) (of_units (h_RecoverMin h) minute)
    (h_DownAfterMisses h) (of_units (h_DownGraceSec h) second)
    (h_LossAlphaFast h) (h_LossAlphaSlow h) (h_JitterAlpha h).

(** [float64(lost) / float64(lost + received)] as the health ticks of both ends
    take it: when something was received and the rate is positive. *)
Definition loss_rate (lost received : Z) : option f64 :=
  if 0 <? received then
    let rate := of_Z lost ⊘ of_Z (u64 (lost + received)) in
    if f0 <.? rate then Some rate else None
  else None.

(** ** The announce *)

Definition AnnounceVersion : Z := 1.

Record ServerAnnounce := mkAnnounce { an_Version : Z; an_MTU : Z; an_FEC : FEC }.

(** The announce [NewServer] bakes. *)
Definition server_announce (c : Config) : ServerAnnounce :=
  mkAnnounce AnnounceVersion (cfg_MTU c) (cfg_FEC c).

(** The MaxLossPct default [applyAnnounce] applies. *)
Definition normalize_announce (f : FEC) : FEC :=
  if fec_Enabled f && (fec_MaxLossPct f =.? f0) then
    mkFEC (fec_Enabled f) (fec_Mode f) (fec_DataShards f) DefaultMaxLossPct (fec_BlockTimeoutMS f)
      (fec_FixedOverheadPct f) (fec_AdaptMinLossPct f) (fec_AdaptResumePct f) (fec_AdaptHoldSec f)
      (fec_ProtectionLevel f)
  else f.

Section announce.
  Context {rsl : ReedSolomon}.
  (** [json.Unmarshal] into a [ServerAnnounce]. *)
  Context (unmarshal : list byte → option ServerAnnounce).

(** The codec objects, by address: the slots of the client hold pointers, and in
    cross-path mode every slot points to the shared codec. A nil pointer is
    [None]. *)
Record codec_heap := mkHeap { h_encs : gmap nat Encoder; h_decs : gmap nat Decoder }.

Definition alloc_enc (e : Encoder) (h : codec_heap) : nat * codec_heap :=
  let p := fresh (dom (h_encs h)) in (p, mkHeap (<[p := e]> (h_encs h)) (h_decs h)).
Definition alloc_dec (d : Decoder) (h : codec_heap) : nat * codec_heap :=
  let p := fresh (dom (h_decs h)) in (p, mkHeap (h_encs h) (<[p := d]> (h_decs h))).

(** One WAN of the client with its codec slots. *)
Record wanCodec := mkWanCodec {
  wc_cfg : WAN;
  wc_enc : option nat;
  wc_dec : option nat;
}.

(** The codec fields of the client. *)
Record codecs := mkCodecs {
  k_heap : codec_heap;
  k_crossPath : bool;
  k_xenc : option nat;
  k_xdec : option nat;
  k_wans : list wanCodec;
  k_mtu : Z;
  k_adopted : option FEC;
}.

Definition set_heap (h : codec_heap) (c : codecs) : codecs :=
  mkCodecs h (k_crossPath c) (k_xenc c) (k_xdec c) (k_wans c) (k_mtu c) (k_adopted c).
Definition set_cross (b : bool) (c : codecs) : codecs :=
  mkCodecs (k_heap c) b (k_xenc c) (k_xdec c) (k_wans c) (k_mtu c) (k_adopted c).
Definition set_x (e d : option nat) (c : codecs) : codecs :=
  mkCodecs (k_heap c) (k_crossPath c) e d (k_wans c) (k_mtu c) (k_adopted c).
Definition set_wans (ws : list wanCodec) (c : codecs) : codecs :=
  mkCodecs (k_heap c) (k_crossPath c) (k_xenc c) (k_xdec c) ws (k_mtu c) (k_adopted c).
Definition adopted (mtu : Z) (f : FEC) (c : codecs) : codecs :=
  mkCodecs (k_heap c) (k_crossPath c) (k_xenc c) (k_xdec c) (k_wans c) mtu (Some f).

(** The encoder and the decoder a slot points to. *)
Definition enc_at (o : option nat) (c : codecs) : option Encoder := p ← o; h_encs (k_heap c) !! p.
Definition dec_at (o : option nat) (c : codecs) : option Decoder := p ← o; h_decs (k_heap c) !! p.

(** The loop over the WANs of the per-WAN branch: an error leaves the WANs before
    it with their new codecs, and the failing one without an encoder when the
    encoder could not be built. *)
Fixpoint adopt_wans (f : FEC) (mtu : Z) (ws : list wanCodec) (h : codec_heap) :
    option string * list wanCodec * codec_heap :=
  match ws with
  | [] => (None, [], h)
  | w :: ws =>
      match fecParamsFor f mtu (Some (wc_cfg w)) with
      | Ok p =>
          match NewEncoder p with
          | Ok e =>
              let '(pe, h) := alloc_enc e h in
              let '(pd, h) := alloc_dec (NewDecoder p) h in
              let '(err, rest, h) := adopt_wans f mtu ws h in
              (err, mkWanCodec (wc_cfg w) (Some pe) (Some pd) :: rest, h)
          | _ => (Some "adopt server FEC", mkWanCodec (wc_cfg w) None (wc_dec w) :: ws, h)
          end
      | _ => (Some "server FEC parameters invalid", w :: ws, h)
      end
  end.

(** [applyAnnounce(data)]: the error returned, if any, and the codec fields it
    leaves behind. *)
Definition applyAnnounce (data : list byte) (c : codecs) : option string * codecs :=
  if (length data =? 0)%nat then (Some "server sent no parameters block", c)
  else match unmarshal data with
  | None => (Some "malformed server parameters", c)
  | Some ann =>
      if negb (an_Version ann =? AnnounceVersion) then (Some "unsupported server parameters version", c)
      else
        let annFEC := normalize_announce (an_FEC ann) in
        let mtu := an_MTU ann in
        let c := set_cross (String.eqb (fec_Mode annFEC) FECCrosspath) c in
        if k_crossPath c then
          match fecParamsFor annFEC mtu None with
          | Ok p =>
              match NewEncoder p with
              | Ok e =>
                  let '(pe, h) := alloc_enc e (k_heap c) in
                  let '(pd, h) := alloc_dec (NewDecoder p) h in
                  let c := set_x (Some pe) (Some pd) (set_heap h c) in
                  let c := set_wans (map (λ w, mkWanCodec (wc_cfg w) (Some pe) (Some pd)) (k_wans c)) c in
                  (None, adopted mtu annFEC c)
              | _ => (Some "adopt server cross-path FEC", set_x None (k_xdec c) c)
              end
          | _ => (Some "server FEC parameters invalid", c)
          end
        else
          let '(err, ws, h) := adopt_wans annFEC mtu (k_wans c) (k_heap c) in
          let c := set_wans ws (set_heap h c) in
          match err with
          | Some e => (Some e, c)
          | None => (None, adopted mtu annFEC c)
          end
  end.

(** The parameters do not depend on a WAN without an override. *)
Lemma fecParamsFor_no_override f mtu w :
  w_FECMaxLossPct w = None → fecParamsFor f mtu (Some w) = fecParamsFor f mtu None.
Proof. intros H. unfold fecParamsFor. by rewrite H. Qed.

Lemma normalize_validated aff f f' : validate_fec aff f = Ok f' → normalize_announce f' = f'.
Proof.
  intros [_ H]%validate_fec_Ok. unfold normalize_announce.
  destruct (fec_Enabled f'); [|done]. by rewrite (proj1 (fo_loss _ _ (H eq_refl))).
Qed.

(** The parameters of the announce for the WAN [w], its override included, and
    the encoder built from them. *)
Definition coded_for (f : FEC) (mtu : Z) (w : WAN) (p : Params) (e : Encoder) : Prop :=
  fecParamsFor f mtu (Some w) = Ok p ∧ NewEncoder p = Ok e.

(** The codecs of the announce can be built for [w]. *)
Definition codable (f : FEC) (mtu : Z) (w : WAN) : Prop := ∃ p e, coded_for f mtu w p e.

Lemma codable_no_override f mtu w p e :
  fecParamsFor f mtu None = Ok p → NewEncoder p = Ok e → w_FECMaxLossPct w = None → codable f mtu w.
Proof. intros Hp He Hw. exists p, e. split; [by rewrite fecParamsFor_no_override|done]. Qed.

Lemma codable_all f mtu p e ws :
  fecParamsFor f mtu None = Ok p → NewEncoder p = Ok e →
  Forall (λ w, w_FECMaxLossPct (wc_cfg w) ≠ None → codable f mtu (wc_cfg w)) ws →
  Forall (λ w, codable f mtu (wc_cfg w)) ws.
Proof.
  intros Hp He Hws. eapply Forall_impl; [exact Hws|]. intros w Hw.
  destruct (decide (w_FECMaxLossPct (wc_cfg w) = None)); [by eapply codable_no_override|by apply Hw].
Qed.

(** The slots of [w] point to codecs of its own parameters. *)
Definition holds_own (f : FEC) (mtu : Z) (k : codecs) (w : wanCodec) : Prop :=
  ∃ p e, coded_for f mtu (wc_cfg w) p e ∧ enc_at (wc_enc w) k = Some e ∧ dec_at (wc_dec w) k = Some (NewDecoder p).

(** Slots of their own, outside [h] and inside [h'], each holding the codecs of
    its WAN. *)
Record own_slots (f : FEC) (mtu : Z) (h h' : codec_heap) (ws : list wanCodec) : Prop := {
  os_held : Forall (λ w, ∃ p e pe pd, coded_for f mtu (wc_cfg w) p e ∧ wc_enc w = Some pe ∧ wc_dec w = Some pd ∧
    h_encs h' !! pe = Some e ∧ h_decs h' !! pd = Some (NewDecoder p) ∧
    h_encs h !! pe = None ∧ h_decs h !! pd = None) ws;
  os_encs : NoDup (wc_enc <$> ws);
  os_decs : NoDup (wc_dec <$> ws);
  os_grows : h_encs h ⊆ h_encs h' ∧ h_decs h ⊆ h_decs h';
}.

Lemma adopt_wans_agree f mtu ws h :
  Forall (λ w, codable f mtu (wc_cfg w)) ws →
  ∃ ws' h', adopt_wans f mtu ws h = (None, ws', h') ∧
    wc_cfg <$> ws' = wc_cfg <$> ws ∧ own_slots f mtu h h' ws'.
Proof.
  intros Hw. revert h. induction Hw as [|w ws (p & e & Hp & He) _ IH]; intros h.
  { exists [], h. split_and!; [done..|]. split; [constructor|constructor..|done]. }
  cbn [adopt_wans]. rewrite Hp, He. cbn [alloc_enc alloc_dec h_encs h_decs].
  set (pe := fresh _). set (pd := fresh _).
  assert (Fe : h_encs h !! pe = None) by (apply not_elem_of_dom, is_fresh).
  assert (Fd : h_decs h !! pd = None) by (apply not_elem_of_dom, is_fresh).
  destruct (IH (mkHeap (<[pe := e]> (h_encs h)) (<[pd := NewDecoder p]> (h_decs h))))
    as (ws' & h' & -> & Hc & [H1 H2 H3 [H4 H5]]). cbn [h_encs h_decs] in *.
  eexists _, h'. split_and!; [reflexivity|by cbn; rewrite Hc|].
  assert (Hnew : ∀ w, w ∈ ws' → wc_enc w ≠ Some pe ∧ wc_dec w ≠ Some pd).
  { intros w' Hw'. rewrite Forall_forall in H1.
    destruct (H1 _ Hw') as (? & ? & qe & qd & _ & -> & -> & _ & _ & N1 & N2).
    split; intros [= ->]; rewrite lookup_insert_eq in *; done. }
  split.
  - constructor.
    + exists p, e, pe, pd. cbn. split_and!; [done..| | |done|done].
      * eapply lookup_weaken; [|exact H4]. apply lookup_insert_eq.
      * eapply lookup_weaken; [|exact H5]. apply lookup_insert_eq.
    + eapply Forall_impl; [exact H1|]. intros w' (p' & e' & qe & qd & ? & ? & ? & ? & ? & N1 & N2).
      exists p', e', qe, qd. apply lookup_insert_None in N1 as [? _], N2 as [? _]. by split_and!.
  - cbn. constructor; [|done]. intros (w' & E & Hin)%list_elem_of_fmap. by destruct (Hnew _ Hin).
  - cbn. constructor; [|done]. intros (w' & E & Hin)%list_elem_of_fmap. by destruct (Hnew _ Hin).
  - split; (etrans; [by apply insert_subseteq|done]).
Qed.

(** The loop fails at the first WAN whose codecs cannot be built. *)
Lemma adopt_wans_codable f mtu ws h ws' h' :
  adopt_wans f mtu ws h = (None, ws', h') → Forall (λ w, codable f mtu (wc_cfg w)) ws.
Proof.
  revert h ws' h'. induction ws as [|w ws IH]; intros h ws' h'; [constructor|]. cbn [adopt_wans].
  destruct (fecParamsFor f mtu (Some (wc_cfg w))) as [p| |] eqn:Hp; [|done..].
  destruct (NewEncoder p) as [e| |] eqn:He; [|done..]. cbn [alloc_enc alloc_dec].
  destruct (adopt_wans f mtu ws _) as [[err rest] h1] eqn:Hr. intros [= -> _ _].
  constructor; [by exists p, e|by eapply IH].
Qed.

(** The adoption of an announce that is already normal. *)
Lemma announce_adopted f mtu p e data k :
  normalize_announce f = f → fecParamsFor f mtu None = Ok p → NewEncoder p = Ok e →
  data ≠ [] → unmarshal data = Some (mkAnnounce AnnounceVersion mtu f) →
  (String.eqb (fec_Mode f) FECCrosspath = false →
   Forall (λ w, w_FECMaxLossPct (wc_cfg w) ≠ None → codable f mtu (wc_cfg w)) (k_wans k)) →
  ∃ k', applyAnnounce data k = (None, k') ∧
    wc_cfg <$> k_wans k' = wc_cfg <$> k_wans k ∧
    k_crossPath k' = String.eqb (fec_Mode f) FECCrosspath ∧
    Forall (λ w, k_crossPath k' = true ∨ w_FECMaxLossPct (wc_cfg w) = None →
      enc_at (wc_enc w) k' = Some e ∧ dec_at (wc_dec w) k' = Some (NewDecoder p)) (k_wans k') ∧
    (if k_crossPath k' then
       Forall (λ w, wc_enc w = k_xenc k' ∧ wc_dec w = k_xdec k') (k_wans k') ∧
       enc_at (k_xenc k') k' = Some e ∧ dec_at (k_xdec k') k' = Some (NewDecoder p)
     else Forall (holds_own f mtu k') (k_wans k') ∧
       NoDup (wc_enc <$> k_wans k') ∧ NoDup (wc_dec <$> k_wans k')) ∧
    k_mtu k' = mtu ∧ k_adopted k' = Some f.
Proof.
  intros Hn Hp He Hd Hj Hw. unfold applyAnnounce.
  destruct data as [|b data]; [done|]. cbn [length Nat.eqb]. rewrite Hj.
  cbn [an_Version an_MTU an_FEC]. change (negb (AnnounceVersion =? AnnounceVersion)) with false.
  cbn iota zeta. rewrite Hn. cbn [set_cross k_crossPath k_wans k_xdec k_heap].
  destruct (String.eqb (fec_Mode f) FECCrosspath) eqn:Ex.
  - rewrite Hp, He. cbn [alloc_enc alloc_dec h_encs h_decs]. eexists. split; [reflexivity|].
    cbn [k_wans k_crossPath k_xenc k_xdec adopted set_wans set_x set_heap k_mtu k_adopted enc_at dec_at mbind
      option_bind k_heap h_encs h_decs]. rewrite !lookup_insert_eq. split_and!; try done.
    + cbn [set_cross k_wans]. clear. induction (k_wans k) as [|w ws IH]; [done|]. cbn. by f_equal.
    + apply Forall_map, Forall_true. intros w _. cbn. by rewrite !lookup_insert_eq.
    + cbn. split_and!; try done. by apply Forall_map, Forall_true.
  - destruct (adopt_wans_agree f mtu (k_wans k) (k_heap k) (codable_all _ _ _ _ _ Hp He (Hw eq_refl)))
      as (ws & h & -> & Hc & [H1 H2 H3 _]).
    eexists. split; [reflexivity|]. cbn. split_and!; try done.
    + eapply Forall_impl; [exact H1|]. intros w (p' & e' & pe & pd & [Hp' He'] & -> & -> & E1 & E2 & _).
      intros [?|Ho]; [done|]. rewrite fecParamsFor_no_override in Hp' by done.
      cbn. rewrite E1, E2. assert (p' = p) as -> by congruence. assert (e' = e) as -> by congruence. done.
    + eapply Forall_impl; [exact H1|]. intros w (p' & e' & pe & pd & Hc' & Ee & Ed & E1 & E2 & _).
      exists p', e'. rewrite Ee, Ed. cbn. by rewrite E1, E2.
Qed.

(** An announce of per-WAN coding that was adopted had codecs for every WAN. *)
Lemma applyAnnounce_codable f mtu data k :
  normalize_announce f = f → unmarshal data = Some (mkAnnounce AnnounceVersion mtu f) →
  String.eqb (fec_Mode f) FECCrosspath = false → (applyAnnounce data k).1 = None →
  Forall (λ w, codable f mtu (wc_cfg w)) (k_wans k).
Proof.
  intros Hn Hj Hc. unfold applyAnnounce. destruct (_ =? 0)%nat; [done|]. rewrite Hj. cbn [an_Version an_MTU an_FEC].
  change (negb (AnnounceVersion =? AnnounceVersion)) with false. cbn iota zeta. rewrite Hn, Hc.
  cbn [set_cross k_crossPath k_wans k_heap]. destruct (adopt_wans f mtu (k_wans k) (k_heap k)) as [[err ws] h] eqn:E.
  destruct err; [done|]. intros _. by eapply adopt_wans_codable.
Qed.

(** What [Validate] leaves is normal. *)
Lemma Validate_normal R S c0 c : Validate R S c0 = Ok c → normalize_announce (cfg_FEC c) = cfg_FEC c.
Proof. intros (aff & f & Hf)%Validate_fec. by eapply normalize_validated. Qed.

(** C22 — The two ends code alike. A server runs on a validated configuration,
    its codecs could be built, and its announce reaches a client. The client
    adopts it exactly when cross-path coding is announced or the codecs of every
    WAN with a loss override of its own can be built from the announced section;
    a server's codecs exist for every other WAN. It then has the announced MTU
    and mode, and its encoders and decoders are the server's on every WAN without
    an override, and on every WAN in cross-path mode, where all WANs share one
    pair; in the other modes every WAN has a pair of its own, built from the
    announced section and its override. *)
Theorem announce_agreement R S c0 c p e data k :
  Validate R S c0 = Ok c →
  fecParamsFor (cfg_FEC c) (cfg_MTU c) None = Ok p → NewEncoder p = Ok e →
  data ≠ [] → unmarshal data = Some (server_announce c) →
  let crosspath := String.eqb (fec_Mode (cfg_FEC c)) FECCrosspath in
  let k' := (applyAnnounce data k).2 in
  ((applyAnnounce data k).1 = None ↔ (crosspath = false →
     Forall (λ w, w_FECMaxLossPct (wc_cfg w) ≠ None → codable (cfg_FEC c) (cfg_MTU c) (wc_cfg w)) (k_wans k))) ∧
  ((applyAnnounce data k).1 = None →
    wc_cfg <$> k_wans k' = wc_cfg <$> k_wans k ∧ k_crossPath k' = crosspath ∧
    Forall (λ w, crosspath = true ∨ w_FECMaxLossPct (wc_cfg w) = None →
      enc_at (wc_enc w) k' = Some e ∧ dec_at (wc_dec w) k' = Some (NewDecoder p)) (k_wans k') ∧
    (if crosspath then
       Forall (λ w, wc_enc w = k_xenc k' ∧ wc_dec w = k_xdec k') (k_wans k') ∧
       enc_at (k_xenc k') k' = Some e ∧ dec_at (k_xdec k') k' = Some (NewDecoder p)
     else Forall (holds_own (cfg_FEC c) (cfg_MTU c) k') (k_wans k') ∧
       NoDup (wc_enc <$> k_wans k') ∧ NoDup (wc_dec <$> k_wans k')) ∧
    k_mtu k' = cfg_MTU c ∧ k_adopted k' = Some (cfg_FEC c)).
Proof.
  intros Hv%Validate_normal Hp He Hd Hj crosspath k'.
  pose proof (announce_adopted (cfg_FEC c) (cfg_MTU c) p e data k Hv Hp He Hd Hj) as Had. fold crosspath in Had.
  assert (Hi : (applyAnnounce data k).1 = None ↔ (crosspath = false →
     Forall (λ w, w_FECMaxLossPct (wc_cfg w) ≠ None → codable (cfg_FEC c) (cfg_MTU c) (wc_cfg w)) (k_wans k))).
  { split; [|intros H; by destruct (Had H) as (? & -> & _)].
    intros H Hc. eapply Forall_impl; [exact (applyAnnounce_codable _ _ _ _ Hv Hj Hc H)|]. intros w Hw _. exact Hw. }
  split; [done|]. intros Ho. destruct (Had (proj1 Hi Ho)) as (k1 & E & H1 & H2 & H3 & H4 & H5).
  assert (k' = k1) as -> by (unfold k'; by rewrite E). rewrite H2 in H3, H4. split_and!; try done; by destruct H5.
Qed.

End announce.

(** ** The geometry of the codecs *)

Lemma ceil_int_le z k : 0 ≤ k → z ≤ k * one_u → ceil_int (Fin z) ≤ k.
Proof.
  intros Hk Hz. assert (0 < one_u) by (by vm_compute).
  unfold ceil_int, fceil, to_int. rewrite Z.quot_mul by lia.
  assert (- k ≤ - z / one_u) by (apply Z.div_le_lower_bound; nia).
  destruct ((- 2 ^ 63 <=? _) && _); lia.
Qed.

Lemma ceil_share k x : 0 ≤ k ≤ 64 → (f1 <.? x) = false → ceil_int (of_Z k ⊠ x) ≤ k.
Proof.
  intros Hk Hx. assert (0 < one_u) by (by vm_compute).
  rewrite of_Z_exact by lia.
  destruct x as [z|[]|]; cbn [fltb f1 negb] in Hx; [|clear Hx|discriminate Hx|].
  - apply Z.ltb_ge in Hx. cbn [fmul].
    destruct (Z.le_gt_cases 0 z).
    + destruct (round_between (k * one_u * z) one_u 0 (k * one_u)) as (z' & -> & [_ Hz'] & _).
      * done.
      * apply repr_0.
      * apply repr_int. lia.
      * split; [nia|]. apply Z.mul_le_mono_nonneg_l; nia.
      * apply ceil_int_le; lia.
    + rewrite round_def. cbn zeta. destruct (huge_u <=? _).
      * destruct (k * one_u * z <? 0); cbn; lia.
      * apply ceil_int_le; [lia|].
        pose proof (rnd_mag_nonneg (Z.abs (k * one_u * z)) one_u ltac:(lia) ltac:(lia)).
        assert (Z.sgn (k * one_u * z) ≤ 0) by (destruct (Z.eq_dec k 0) as [->|]; [done|]; apply Z.sgn_nonpos; nia).
        nia.
  - cbn [fmul]. destruct (k * one_u =? 0); [cbn; lia|]. destruct (xorb _ _); cbn; lia.
  - cbn. lia.
Qed.

(** What [emitBlock] sends of a block is no longer than its longest data frame
    with the parity sub-header. *)
Lemma emitBlock_payloads {rsl : ReedSolomon} e out e' g :
  emitBlock e = Ok (out, e') → g ∈ out → 0 ≤ DataShards (e_params e) →
  plen g ≤ ParityHeaderSize (DataShards (e_params e)) + max_len (e_pending e).
Proof.
  intros H Hg Hk. destruct (max_len_spec (e_pending e)) as (Hm & Hall & _).
  assert (Hh : 0 ≤ ParityHeaderSize (DataShards (e_params e))) by (unfold ParityHeaderSize, parityHdrFixed; lia).
  assert (Hdata : g ∈ map (set_block (u32 (e_block e + 1))) (e_pending e) →
    plen g ≤ ParityHeaderSize (DataShards (e_params e)) + max_len (e_pending e)).
  { intros (f & -> & Hf)%list_elem_of_fmap. rewrite Forall_forall in Hall.
    specialize (Hall f Hf). unfold plen in *. cbn. lia. }
  unfold emitBlock in H. cbn zeta in H. cbn [e_pending e_params e_rs e_block e_rsParity with_pending next_block] in H.
  destruct (_ <? _) in H; [discriminate H|]. destruct (e_rs e); [|discriminate H].
  destruct (rs_Encode _ _) as [shards|]; injection H as <- <-; [|by apply Hdata].
  apply elem_of_app in Hg as [Hg|Hg]; [by apply Hdata|].
  apply elem_of_lookup_imap in Hg as (i & s & -> & _).
  unfold plen, parity_frame, new_frame. cbn [f_payload]. rewrite length_take. lia.
Qed.

(** C29 — The geometry is sound and a sealed frame is at most 1500 bytes. For a
    validated, enabled FEC section, the derived parameters keep the configured
    data shards, have at least one parity shard, and fit the 256 shards of the
    code. With per-WAN coding every frame the encoder emits from inner datagrams
    within the MTU is, once sealed, at most [pathMTU] = 1500 bytes long. That is
    the length handed to the socket: the IP and UDP headers come on top, so the
    bound does not keep the packet within a 1500-byte path ([parity_fragments]). *)
Theorem fec_params_sound {rsl : ReedSolomon} aff f mtu wan p :
  fec_ok aff f → fec_Enabled f = true → 0 ≤ mtu → fecParamsFor f mtu wan = Ok p →
  DataShards p = fec_DataShards f ∧ 1 ≤ ParityShards p ∧ DataShards p + ParityShards p ≤ 256 ∧
  CrossPath p = String.eqb (fec_Mode f) FECCrosspath ∧
  (CrossPath p = false → ∀ e out e' g b a dir s,
     e_params e = fill_params p → Forall (λ g, plen g ≤ mtu) (e_pending e) →
     emitBlock e = Ok (out, e') → g ∈ out → Encode g = Ok b →
     AEADLaws a → Overhead a = TagSize → Seal a dir b = Ok s → Z.of_nat (length s) ≤ pathMTU).
Proof.
  intros Hok Hen Hmtu H. pose proof (fo_shards _ _ Hok) as Hk.
  destruct (mode_not_off _ (fo_mode _ _ Hok)) as [Hoff _].
  unfold fecParamsFor in H. rewrite Hen, Hoff in H. cbn [negb orb] in H.
  rewrite (proj2 (Z.ltb_lt _ _)) in H by lia.
  destruct (String.eqb (fec_Mode f) FECCrosspath) eqn:Hc.
  - injection H as <-. cbn [DataShards ParityShards CrossPath].
    pose proof (ceil_share (fec_DataShards f) (fec_ProtectionLevel f) ltac:(lia)
      (fo_level _ _ Hok (proj1 (String.eqb_eq _ _) Hc))).
    destruct (Z.ltb_spec (ceil_int (of_Z (fec_DataShards f) ⊠ fec_ProtectionLevel f)) 1);
      split_and!; (lia || done).
  - apply bind_Ok in H as ([x ad] & _ & H). cbn [fst snd] in H.
    set (parity := if x <? 1 then 1 else x) in *.
    assert (1 ≤ parity) by (unfold parity; destruct (Z.ltb_spec x 1); lia). clearbody parity.
    destruct (Z.ltb_spec 256 (fec_DataShards f + parity)); [discriminate H|].
    destruct (Z.ltb_spec (pathMTU - Z.of_nat HeaderSize - Z.of_nat TagSize -
      ParityHeaderSize (fec_DataShards f)) mtu) as [|Hfit]; [discriminate H|].
    injection H as <-. cbn [DataShards ParityShards CrossPath].
    split_and!; [done|done|lia|done|].
    intros _ e out e' g b a dir s He Hp Hout Hg Hb Ha Hov Hs.
    assert (HD : DataShards (e_params e) = fec_DataShards f).
    { rewrite He. cbn. by rewrite (proj2 (Z.leb_gt _ _)) by lia. }
    pose proof (emitBlock_payloads _ _ _ _ Hout Hg ltac:(rewrite HD; lia)) as Hlen. rewrite HD in Hlen.
    apply (length_Seal a) in Hs. apply length_Encode in Hb.
    destruct (max_len_spec (e_pending e)) as (_ & _ & Hm).
    assert (max_len (e_pending e) ≤ mtu).
    { destruct Hm as [->|(f' & Hf' & <-)]; [done|]. rewrite Forall_forall in Hp. by apply Hp. }
    unfold plen in Hlen. lia.
Qed.

(** The check leaves out the IP and UDP headers: with the MTU the documentation
    recommends for ten data shards, a block of full datagrams has a parity frame
    that is 1500 bytes when sealed and 1528 bytes as a UDP packet over IPv4. *)
Definition udp_packet (sealed : Z) : Z := 20 + 8 + sealed.

Definition full_block (mtu : Z) : list frame :=
  map (λ n, new_frame 0 1 n 0 (repeat x00 (Z.to_nat mtu))) (seqZ 1 10).

Example parity_fragments :
  let f := mkFEC true FECFixed 10 (of_Z 20) 8 (of_Z 10) (of_Z 2) (of_dec 1 2) (of_Z 10) (of_dec 1 2) in
  match validate_fec AffinityPacket f, fecParamsFor f 1388 None with
  | Ok _, Ok p =>
      match NewEncoder p with
      | Ok e =>
          match emitBlock (with_pending (full_block 1388) e) with
          | Ok (out, _) =>
              let sealed := map (λ g, match Encode g with Ok b => Z.of_nat (length b) + Z.of_nat TagSize | _ => 0 end) out in
              last sealed = Some pathMTU ∧ udp_packet pathMTU = 1528 ∧ pathMTU < udp_packet pathMTU
          | _ => False
          end
      | _ => False
      end
  | _, _ => False
  end.
Proof. vm_compute. done. Qed.

(** Cross-path coding skips that check altogether: a validated configuration with 64 data
    shards and the default MTU codes parity frames of 1856 bytes. *)
Example crosspath_parity_oversize :
  let f := mkFEC true FECCrosspath 64 (of_Z 20) 8 f0 (of_Z 2) (of_dec 1 2) (of_Z 10) (of_dec 1 2) in
  match validate_fec AffinityPacket f, fecParamsFor f 1420 None with
  | Ok _, Ok p => ParityHeaderSize (DataShards p) + 1420 + 28 + 16 = 1856
  | _, _ => False
  end.
Proof. vm_compute. reflexivity. Qed.

(** ** Witnesses *)

(** A server with fixed 10 % redundancy, and what [Validate] makes of it. *)
Definition server_document : Config :=
  mkConfig ModeServer "0.0.0.0:4500" "" "127.0.0.1:51820" "" (mkSched "" "" "" f0)
    (mkFEC true FECFixed 0 f0 0 (of_Z 10) f0 f0 f0 f0) 1380 [] (mkDelivery 0 0)
    (mkHealth f0 f0 f0 f0 f0 f0 0 f0) (mkCrypto "secret" "") (mkLog "" "") (mkTelemetry "" "" f0)
    (mkQueue None 0 "" false) "".

(** A server with adaptive redundancy up to 5 % loss. *)
Definition adaptive_document : Config :=
  mkConfig ModeServer "0.0.0.0:4500" "" "127.0.0.1:51820" "" (mkSched "" "" "" f0)
    (mkFEC true FECAdaptive 0 (of_Z 5) 0 f0 f0 f0 f0 f0) 1300 [] (mkDelivery 0 0)
    (mkHealth f0 f0 f0 f0 f0 f0 0 f0) (mkCrypto "secret" "") (mkLog "" "") (mkTelemetry "" "" f0)
    (mkQueue None 0 "" false) "".

Definition sample_server : Config :=
  match Validate (λ _, true) (λ _, true) server_document with Ok c => c | _ => server_document end.

Definition sample_params : Params :=
  match fecParamsFor (cfg_FEC sample_server) (cfg_MTU sample_server) None with
  | Ok p => p
  | _ => mkParams 0 0 0 None false 0
  end.

Definition sample_encoder : res string Encoder := NewEncoder sample_params.

Lemma sample_server_validated : Validate (λ _, true) (λ _, true) server_document = Ok sample_server.
Proof.
  unfold sample_server.
  assert (B : is_Ok (Validate (λ _, true) (λ _, true) server_document) = true) by (by vm_compute).
  destruct (Validate _ _ _) eqn:E; [reflexivity|discriminate B..].
Qed.

Lemma sample_params_derived :
  fecParamsFor (cfg_FEC sample_server) (cfg_MTU sample_server) None = Ok sample_params.
Proof.
  unfold sample_params.
  assert (B : is_Ok (fecParamsFor (cfg_FEC sample_server) (cfg_MTU sample_server) None) = true)
    by (by vm_compute).
  destruct (fecParamsFor _ _ _) eqn:E; [reflexivity|discriminate B..].
Qed.

Definition wan_two : WAN := mkWAN "wan2" "udp" "" "" 0 0 f1 (Some (of_Z 8)).

(** A client with an override of the loss ceiling on its second WAN only. *)
Definition mixed_codecs : codecs :=
  mkCodecs (mkHeap ∅ ∅) false None None
    [mkWanCodec (mkWAN "wan1" "udp" "" "" 0 0 f1 None) None None;
     mkWanCodec wan_two None None] 1420 None.

Definition adaptive_server : Config :=
  match Validate (λ _, true) (λ _, true) adaptive_document with Ok c => c | _ => adaptive_document end.
Definition params_of (o : option WAN) : Params :=
  match fecParamsFor (cfg_FEC adaptive_server) (cfg_MTU adaptive_server) o with
  | Ok p => p
  | _ => mkParams 0 0 0 None false 0
  end.

Lemma adaptive_facts :
  is_Ok (Validate (λ _, true) (λ _, true) adaptive_document) = true ∧
  is_Ok (fecParamsFor (cfg_FEC adaptive_server) (cfg_MTU adaptive_server) None) = true ∧
  is_Ok (fecParamsFor (cfg_FEC adaptive_server) (cfg_MTU adaptive_server) (Some wan_two)) = true ∧
  is_Ok (NewEncoder (params_of None)) = true ∧ is_Ok (NewEncoder (params_of (Some wan_two))) = true ∧
  (ParityShards (params_of None), ParityShards (params_of (Some wan_two))) = (1, 1) ∧
  String.eqb (fec_Mode (cfg_FEC adaptive_server)) FECCrosspath = false.
Proof. split_and!; vm_compute; reflexivity. Qed.

Lemma announce_agreement_witness :
  let r := applyAnnounce (λ _, Some (server_announce adaptive_server)) [x7b] mixed_codecs in
  r.1 = None ∧ k_mtu r.2 = 1300 ∧
  Forall (λ w, w_FECMaxLossPct (wc_cfg w) = None → dec_at (wc_dec w) r.2 = Some (NewDecoder (params_of None))) (k_wans r.2).
Proof.
  intros r. destruct adaptive_facts as (B1 & B2 & B3 & B4 & B5 & _ & Hc).
  assert (Hv : Validate (λ _, true) (λ _, true) adaptive_document = Ok adaptive_server)
    by (unfold adaptive_server; destruct (Validate _ _ _); [reflexivity|discriminate B1..]).
  assert (Hp : ∀ o, is_Ok (fecParamsFor (cfg_FEC adaptive_server) (cfg_MTU adaptive_server) o) = true →
    fecParamsFor (cfg_FEC adaptive_server) (cfg_MTU adaptive_server) o = Ok (params_of o))
    by (intros o; unfold params_of; destruct (fecParamsFor _ _ o); [reflexivity|discriminate..]).
  destruct (NewEncoder (params_of None)) as [e| |] eqn:E1; [|discriminate B4..].
  destruct (NewEncoder (params_of (Some wan_two))) as [e2| |] eqn:E2; [|discriminate B5..].
  destruct (announce_agreement (λ _, Some (server_announce adaptive_server)) (λ _, true) (λ _, true)
    adaptive_document adaptive_server (params_of None) e [x7b] mixed_codecs Hv (Hp None B2) E1) as (Hi & Ho).
  - discriminate.
  - reflexivity.
  - assert (Hn : r.1 = None).
    { apply Hi. intros _. repeat constructor; cbn; intros H; [by destruct H|].
      exists (params_of (Some wan_two)), e2. split; [exact (Hp (Some wan_two) B3)|exact E2]. }
    destruct (Ho Hn) as (_ & _ & H3 & _ & H5 & _). split; [exact Hn|]. split; [etrans; [exact H5|by vm_compute]|].
    eapply Forall_impl; [exact H3|]. intros w H Hw. by destruct (H (or_intror Hw)).
Defined.

Lemma fec_params_sound_witness :
  DataShards sample_params = 10 ∧ ParityShards sample_params = 1 ∧
  DataShards sample_params + ParityShards sample_params ≤ 256.
Proof.
  destruct (Validate_Ok _ _ _ _ sample_server_validated) as [_ Hok].
  assert (Hen : fec_Enabled (cfg_FEC sample_server) = true) by (by vm_compute).
  assert (Hmtu : 0 ≤ cfg_MTU sample_server) by (pose proof (co_mtu _ Hok); lia).
  destruct (fec_params_sound _ _ _ None _ (co_fec _ Hok Hen) Hen Hmtu sample_params_derived)
    as (_ & _ & H & _).
  split_and!; [by vm_compute|by vm_compute|exact H].
Defined.

(** A document that enables coding and leaves everything else to the defaults
    validates, and no codec parameters exist for it: the default MTU leaves no
    room for a parity frame. *)
Definition default_document : Config :=
  mkConfig ModeServer "0.0.0.0:4500" "" "127.0.0.1:51820" "" (mkSched "" "" "" f0)
    (mkFEC true "" 0 f0 0 f0 f0 f0 f0 f0) 0 [] (mkDelivery 0 0)
    (mkHealth f0 f0 f0 f0 f0 f0 0 f0) (mkCrypto "secret" "") (mkLog "" "") (mkTelemetry "" "" f0)
    (mkQueue None 0 "" false) "".

Example default_document_refused :
  match Validate (λ _, true) (λ _, true) default_document with
  | Ok c => fecParamsFor (cfg_FEC c) (cfg_MTU c) None = Err "inner mtu too large with FEC"
  | _ => False
  end.
Proof. by vm_compute. Qed.
