(* ===== verification/Server.v ===== *)
(** * The tunnel server (internal/tunnel/server.go)

    The handlers of the server as functions on its state: a frame from a client,
    a datagram from the WireGuard peer, the FEC tick, the health tick and the
    sweeper. A handler is one step: it reads the clock once ([e_now]) and what
    it writes to sockets is its list of outputs. Dialling, key generation and
    the seed of a new scheduler are inputs of the step. *)

From S2P Require Import Prelude Float64 Frame Replay Health Scheduler FecCodec FecEncoder FecDecoder Crypto Session Config TunnelParams.

#[local] Open Scope string_scope.
#[local] Open Scope Z_scope.
#[local] Open Scope list_scope.

Definition sessionTTL : duration := 5 * minute.
Definition maxSessions : nat := 1024.
Definition maxPathsPerSession : nat := 16.
Definition defaultProbeInterval : duration := second.

Section server.
  Context {Addr R : Type} (addr_string : Addr → string).
  Context `{!Rand R} {rsl : ReedSolomon} {cph : Ciphers} {dhx : X25519}.

(** [pathState] and [sessState]. *)
Record pathState := mkPathState {
  ps_addr : Addr;
  ps_capacity : f64;
  ps_health : Monitor;
  ps_lastArrive : Z;      (* unix nanoseconds *)
  ps_lastKeepalive : Z;
  ps_pathSeq : Z;         (* uint32 *)
}.

Record sessState := mkSessState {
  st_sched : Scheduler R;
  st_paths : gmap string pathState;
  st_lastSeen : option Addr;
}.

(** The parts of the configuration the handlers read. *)
Record server_cfg := mkServerCfg {
  v_psk : list byte;
  v_cipher : string;
  v_baseAEAD : AEAD;
  v_fecParams : Params;
  v_ann : list byte;          (* the JSON announce *)
  v_schedMode : string;
  v_balanceBy : string;
  v_capacityCap : f64;
  v_health : HealthCfg;
  v_mtu : Z;
}.

Record server := mkServer {
  sv_world : world Addr Encoder;           (* sessions and their manager *)
  sv_states : gmap Z sessState;
  sv_dec : Decoder;
}.

(** What a step writes: a sealed frame to a client endpoint, an inner datagram
    to a session's egress socket. *)
Inductive output :=
| Sent (a : Addr) (sealed : list byte)
| ToWG (socket : Z) (payload : list byte).

(** The inputs a step draws from its environment. *)
Record env := mkEnv {
  e_now : time;
  e_priv : option (list byte);   (* GenerateEphemeralKey *)
  e_dial : option Z;             (* net.DialUDP *)
  e_rng : R;                     (* the random source of scheduler.New *)
}.

Context (cfg : server_cfg).

Definition set_world (w : world Addr Encoder) (s : server) : server :=
  mkServer w (sv_states s) (sv_dec s).
Definition set_state (id : Z) (st : sessState) (s : server) : server :=
  mkServer (sv_world s) (<[id := st]> (sv_states s)) (sv_dec s).
Definition set_dec (d : Decoder) (s : server) : server :=
  mkServer (sv_world s) (sv_states s) d.
Definition set_sched (x : Scheduler R) (st : sessState) : sessState :=
  mkSessState x (st_paths st) (st_lastSeen st).
Definition set_path (k : string) (ps : pathState) (st : sessState) : sessState :=
  mkSessState (st_sched st) (<[k := ps]> (st_paths st)) (st_lastSeen st).

(** The session at [p], and a method call on it. *)
Definition session_at (p : ptr) (s : server) : option (ServerSession Addr Encoder) :=
  heap (sv_world s) !! p.
Definition on_session (p : ptr) (f : ServerSession Addr Encoder → ServerSession Addr Encoder)
    (s : server) : server := set_world (update (sv_world s) p f) s.

(** [sess.NextSeq()] through the pointer. *)
Definition next_seq (p : ptr) (s : server) : Z * server :=
  match session_at p s with
  | Some x => let '(q, x) := NextSeq x in (q, on_session p (λ _, x) s)
  | None => (0, s)
  end.

(** [stateFor(id)]. *)
Definition stateFor (r : R) (id : Z) (s : server) : sessState * server :=
  match sv_states s !! id with
  | Some st => (st, s)
  | None =>
      let st := mkSessState (newScheduler (mkSchedOptions (v_schedMode cfg) AffPacket (v_balanceBy cfg)) r)
                  ∅ None in
      (st, set_state id st s)
  end.

(** ** Sending *)

(** [sendToAddrKey] and [sendToAddr]: an encoding or sealing error sends nothing. *)
Definition sendToAddrKey (a : Addr) (f : frame) (aead : AEAD) : list output :=
  match Encode f with
  | Ok plain =>
      match Seal aead DirServerToClient plain with
      | Ok sealed => [Sent a sealed]
      | _ => []
      end
  | _ => []
  end.

Definition sendToAddr (x : ServerSession Addr Encoder) (a : Addr) (f : frame) : list output :=
  sendToAddrKey a f (s_aead x).

(** [sendPong(sess, ua, ts)]. *)
Definition sendPong (p : ptr) (a : Addr) (ts : list byte) (s : server) : server * list output :=
  match session_at p s with
  | None => (s, [])
  | Some x =>
      let '(q, s) := next_seq p s in
      (s, sendToAddr x a (new_frame FlagPong (s_ID x) q 0 ts))
  end.

(** [sendAck(sess, addr)]: the server's public key and the announce, under the
    base key. *)
Definition sendAck (p : ptr) (a : Addr) (s : server) : server * list output :=
  match session_at p s with
  | None => (s, [])
  | Some x =>
      let '(q, s) := next_seq p s in
      (s, sendToAddrKey a
            (new_frame (Z.lor FlagControl FlagKex) (s_ID x) q 0 (s_ServerPub x ++ v_ann cfg))
            (v_baseAEAD cfg))
  end.

(** ** Paths *)

Definition effectiveCapacityFor (capMbps : f64) : f64 :=
  effectiveCapacity (to_int capMbps) f0 (v_fecParams cfg) (v_balanceBy cfg).

(** The capacity a client declares, clamped. *)
Definition declared_capacity (payload : list byte) : f64 :=
  let capMbps := of_Z (be_get (take 4 payload)) in
  if (f0 <.? v_capacityCap cfg) && (v_capacityCap cfg <.? capMbps) then v_capacityCap cfg else capMbps.

(** The path of [ua] with its arrival noted, created if there is room. *)
Definition admit_path (e : env) (ua : Addr) (st : sessState) : option (pathState * sessState) :=
  let k := addr_string ua in
  match st_paths st !! k with
  | Some ps => Some (ps, st)
  | None =>
      if (maxPathsPerSession <=? size (st_paths st))%nat then None
      else
        let ps := mkPathState ua f1 (New (healthOptions (v_health cfg) (monitorMaxLoss (v_fecParams cfg))))
                    (unixNano (e_now e)) 0 0 in
        Some (ps, set_sched (AddPath k f1 (st_sched st)) (set_path k ps st))
  end.

(** [registerPath(sess, ua, payload)]; a nil payload is [[]]. *)
Definition registerPath (e : env) (p : ptr) (sid : Z) (ua : Addr) (payload : list byte) (s : server) : server :=
  let k := addr_string ua in
  let '(st, s) := stateFor (e_rng e) sid s in
  let st := mkSessState (st_sched st) (st_paths st) (Some ua) in
  match admit_path e ua st with
  | None => set_state sid st s
  | Some (ps, st) =>
      let ps := mkPathState (ps_addr ps) (ps_capacity ps) (ps_health ps) (unixNano (e_now e))
                  (ps_lastKeepalive ps) (ps_pathSeq ps) in
      let st := set_path k ps st in
      let st :=
        if (4 <=? length payload)%nat then
          let capMbps := declared_capacity payload in
          if negb (capMbps =.? ps_capacity ps) then
            set_sched (AddPath k (effectiveCapacityFor capMbps) (st_sched st))
              (set_path k (mkPathState (ps_addr ps) capMbps (ps_health ps) (ps_lastArrive ps)
                             (ps_lastKeepalive ps) (ps_pathSeq ps)) st)
          else st
        else st in
      on_session p (SetEndpoint k ua) (set_state sid st s)
  end.

(** The probe interval the server derives: whole seconds. *)
Definition server_interval : duration :=
  let i := i64 (to_int (h_ProbeInterval (v_health cfg)) * second) in
  if i <=? 0 then defaultProbeInterval else i.

(** [observeKeepalive], on one path. *)
Definition keepalive_path (now : time) (ps : pathState) : pathState :=
  let interval := server_interval in
  let mon := NoteAlive (ps_health ps) in
  let lastKA := unix_nano (ps_lastKeepalive ps) in
  let mon :=
    if is_zero lastKA then ObserveSample f0 0 mon
    else
      let gap := time_sub now lastKA in
      if (i64 (2 * interval) <? gap) && (i64 (2 * interval) <? time_sub now (unix_nano (ps_lastArrive ps))) then
        let missed := Z.min 8 (Z.quot gap interval - 1) in
        ObserveSample f1 0 (Nat.iter (Z.to_nat missed) (NoteMissedProbe now) mon)
      else ObserveSample f0 0 mon in
  mkPathState (ps_addr ps) (ps_capacity ps) mon (ps_lastArrive ps) (unixNano now) (ps_pathSeq ps).

Definition observeKeepalive (e : env) (sid : Z) (k : string) (s : server) : server :=
  let '(st, s) := stateFor (e_rng e) sid s in
  match st_paths st !! k with
  | None => s
  | Some ps => set_state sid (set_path k (keepalive_path (e_now e) ps) st) s
  end.

(** ** Blocks to a client *)

(** The frame passed to [Pick(nil)]: packet affinity never looks at it. *)
Definition nil_frame : frame := new_frame 0 0 0 0 [].

(** [pickPath(sess)]: the scheduler's path, else the last heard endpoint. A panic
    of [Pick] is that of an empty ring, which packet affinity does not use. *)
Definition pickPath (e : env) (sid : Z) (s : server) : res unit (option Addr * server) :=
  let '(st, s) := stateFor (e_rng e) sid s in
  let '(r, sched) := Pick nil_frame (st_sched st) in
  let s := set_state sid (set_sched sched st) s in
  match r with
  | Ok o => Ok (match (k ← o; st_paths st !! k) with
                | Some ps => Some (ps_addr ps)
                | None => st_lastSeen st
                end, s)
  | Err u => Err u
  | Panic => Panic
  end.

(** [pickCrossPath(sess)]. *)
Definition pickCrossPath (e : env) (sid : Z) (s : server) : option Addr * server :=
  let '(st, s) := stateFor (e_rng e) sid s in
  let '(o, sched) := PickWRR (st_sched st) in
  (k ← o; ps ← st_paths st !! k; Some (ps_addr ps), set_state sid (set_sched sched st) s).

(** The pass-through counter of the path of [a], stamped into [BlockSeq]. *)
Definition stamp (e : env) (sid : Z) (a : Addr) (f : frame) (s : server) : frame * server :=
  if HasFlag f FlagPassSeq then
    let '(st, s) := stateFor (e_rng e) sid s in
    let k := addr_string a in
    match st_paths st !! k with
    | None => (f, s)
    | Some ps =>
        (set_block (ps_pathSeq ps) f,
         set_state sid (set_path k (mkPathState (ps_addr ps) (ps_capacity ps) (ps_health ps)
           (ps_lastArrive ps) (ps_lastKeepalive ps) (u32 (ps_pathSeq ps + 1))) st) s)
    end
  else (f, s).

(** One frame of the loop of [sendToSession]; [one] is the picked endpoint, absent
    in cross-path mode. *)
Definition send_frame (e : env) (p : ptr) (x : ServerSession Addr Encoder) (one : option Addr)
    (f : frame) (s : server) : server * list output :=
  let '(f, s) := if HasFlag f FlagFECParity then
                   let '(q, s) := next_seq p s in (set_seq q f, s)
                 else (f, s) in
  let '(addr, s) := match one with
                    | Some a => (Some a, s)
                    | None => pickCrossPath e (s_ID x) s
                    end in
  match addr with
  | None => (s, [])
  | Some a => let '(f, s) := stamp e (s_ID x) a f s in (s, sendToAddr x a f)
  end.

Fixpoint send_frames (e : env) (p : ptr) (x : ServerSession Addr Encoder) (one : option Addr)
    (fs : list frame) (s : server) : server * list output :=
  match fs with
  | [] => (s, [])
  | f :: fs =>
      let '(s, out) := send_frame e p x one f s in
      let '(s, outs) := send_frames e p x one fs s in
      (s, out ++ outs)
  end.

(** [sendToSession(sess, frames)]. *)
Definition sendToSession (e : env) (p : ptr) (fs : list frame) (s : server) : res unit (server * list output) :=
  match fs, session_at p s with
  | [], _ | _, None => Ok (s, [])
  | _, Some x =>
      if CrossPath (v_fecParams cfg) then Ok (send_frames e p x None fs s)
      else
        let? r := pickPath e (s_ID x) s in
        match r.1 with
        | None => Ok (r.2, [])
        | Some a => Ok (send_frames e p x (Some a) fs r.2)
        end
  end.

(** [forwardDecoded(frames)]: writing to a nil socket is an error the code logs. *)
Definition forwardDecoded (fs : list frame) (s : server) : list output :=
  flat_map (λ f,
    match (p ← Get (mgr (sv_world s)) (f_session f); x ← session_at p s; s_egress x) with
    | Some c => [ToWG c (f_payload f)]
    | None => []
    end) fs.

(** The body of the loop of [egressReader]: one datagram from the WireGuard peer. *)
Definition egress_datagram (e : env) (p : ptr) (payload : list byte) (s : server) :
    res unit (server * list output) :=
  match session_at p s with
  | None => Ok (s, [])
  | Some x =>
      if v_mtu cfg <? Z.of_nat (length payload) then Ok (s, [])
      else
        let '(q, s) := next_seq p s in
        let f := new_frame 0 (s_ID x) q 0 payload in
        match s_Enc x with
        | None => sendToSession e p [f] s
        | Some enc =>
            let? r := Encoder_Push (e_now e) f enc in
            sendToSession e p r.1 (on_session p (λ x, set_codec r.2 (s_ServerPub x) x) s)
        end
  end.

(** ** Frames from clients *)

Context `{!RangeOrder Z firstWindow, !RangeOrder Z ptr, !RangeOrder Z (list byte),
          !RangeOrder blockKey blockState, !RangeOrder Z sessState, !RangeOrder string pathState}.

(** [sess.CheckReplay(seq)] through the pointer. *)
Definition check_replay (p : ptr) (seq : Z) (s : server) : bool * server :=
  match session_at p s with
  | Some x => let '(ok, x) := CheckReplay x seq in (ok, on_session p (λ _, x) s)
  | None => (false, s)
  end.

(** The creation of a session from an authenticated FIRST frame; [None] where the
    handler returns without one. The handshake window is marked even when a later
    step fails; a dialled socket is closed when the cipher or the encoder cannot
    be built. *)
Definition create_session (e : env) (id seq : Z) (f : frame) (s : server) : option ptr * server :=
  let w := sv_world s in
  if (maxSessions <=? Count (mgr w))%nat then (None, s)
  else
    let '(ok, m) := CheckFirstReplay (mgr w) id seq (e_now e) in
    let w := mkWorld m (heap w) (closed w) in
    let s := set_world w s in
    let close c := set_world (mkWorld (mgr w) (heap w) ({[c]} ∪ closed w)) s in
    if negb ok then (None, s)
    else if (length (f_payload f) <? 4 + PublicKeySize)%nat then (None, s)
    else
      let clientPub := slice 4 (4 + PublicKeySize) (f_payload f) in
      match e_priv e with
      | None => (None, s)
      | Some sPriv =>
          match ECDHShared sPriv clientPub with
          | Ok shared =>
              match e_dial e with
              | None => (None, s)
              | Some c =>
                  match NewAEAD (DerivePFSKey (v_psk cfg) shared id) (v_cipher cfg) with
                  | Ok aead =>
                      match NewEncoder (v_fecParams cfg) with
                      | Ok enc =>
                          let x := SetEgress c (set_codec enc (x_public sPriv)
                                     (NewServerSession id aead (e_now e))) in
                          let '(p, w) := alloc w x in
                          (Some p, set_world (Put w p) s)
                      | _ => (None, close c)
                      end
                  | _ => (None, close c)
                  end
              end
          | _ => (None, s)
          end
      end.

(** The FIRST branch; [ua] is absent for an address that is not a UDP address. *)
Definition handle_first (e : env) (hdr : frame) (sealed : list byte) (ua : option Addr) (s : server) :
    server * list output :=
  match ua with
  | None => (s, [])
  | Some ua =>
      match Open (v_baseAEAD cfg) DirClientToServer sealed with
      | Ok plain =>
          match Decode plain with
          | Ok f =>
              let id := f_session hdr in
              let '(sess, s) := match Get (mgr (sv_world s)) id with
                                | Some p => (Some p, s)
                                | None => create_session e id (f_seq hdr) f s
                                end in
              match sess with
              | None => (s, [])
              | Some p =>
                  let '(ok, s) := check_replay p (f_seq hdr) s in
                  if negb ok then (s, [])
                  else
                    let s := on_session p (Touch (e_now e)) s in
                    sendAck p ua (registerPath e p id ua (f_payload f) s)
              end
          | _ => (s, [])
          end
      | _ => (s, [])
      end
  end.

(** The data branch: the session must exist and its key authenticate. *)
Definition handle_data (e : env) (hdr : frame) (sealed : list byte) (ua : option Addr) (s : server) :
    res unit (server * list output) :=
  let id := f_session hdr in
  match (p ← Get (mgr (sv_world s)) id; x ← session_at p s; Some (p, x)) with
  | None => Ok (s, [])
  | Some (p, x) =>
      match Open (s_aead x) DirClientToServer sealed with
      | Ok plain =>
          let '(ok, s) := check_replay p (f_seq hdr) s in
          if negb ok then Ok (s, [])
          else
            match Decode plain with
            | Ok f =>
                let s := on_session p (Touch (e_now e)) s in
                let s := match ua with Some a => registerPath e p id a [] s | None => s end in
                let pathKey := match ua with Some a => addr_string a | None => "" end in
                if HasFlag f FlagKeepalive then
                  match ua with
                  | Some a => Ok (sendPong p a (f_payload f) (observeKeepalive e id pathKey s))
                  | None => Ok (s, [])
                  end
                else if (length (f_payload f) =? 0)%nat then Ok (s, [])
                else
                  let? r := Decoder_Push (e_now e) pathKey f (sv_dec s) in
                  let s := set_dec r.2 s in
                  Ok (s, forwardDecoded r.1 s)
            | _ => Ok (s, [])
            end
      | _ => Ok (s, [])
      end
  end.

(** [handleClientFrame(sealed, addr)]. *)
Definition handleClientFrame (e : env) (sealed : list byte) (ua : option Addr) (s : server) :
    res unit (server * list output) :=
  match DecodeHeader sealed with
  | Ok hdr =>
      if HasFlag hdr FlagFirst then Ok (handle_first e hdr sealed ua s)
      else handle_data e hdr sealed ua s
  | _ => Ok (s, [])
  end.

(** ** The periodic loops *)

(** The interval of [fecTickLoop]. *)
Definition server_fecTickInterval : duration :=
  let interval := Z.quot (BlockTimeout (v_fecParams cfg)) 2 in
  if interval <? 25 * millisecond then 250 * millisecond else interval.

(** [fecTickLoop], one tick: the blocks of every session, then the decoder. *)
Fixpoint tick_sessions (e : env) (ps : list ptr) (s : server) : res unit (server * list output) :=
  match ps with
  | [] => Ok (s, [])
  | p :: ps =>
      let? r :=
        match (x ← session_at p s; s_Enc x) with
        | None => Ok (s, [])
        | Some enc =>
            let '(fs, enc) := Encoder_Tick (e_now e) enc in
            sendToSession e p fs (on_session p (λ x, set_codec enc (s_ServerPub x) x) s)
        end in
      let? r' := tick_sessions e ps r.1 in
      Ok (r'.1, r.2 ++ r'.2)
  end.

Definition fecTick (e : env) (s : server) : res unit (server * list output) :=
  let? r := tick_sessions e (All (mgr (sv_world s))) s in
  let '(fs, d) := Decoder_Tick (e_now e) (sv_dec r.1) in
  let s := set_dec d r.1 in
  Ok (s, r.2 ++ forwardDecoded fs s).

(** The silence watchdog of [healthTickLoop] on one path. *)
Definition watchdog (now : time) (ps : pathState) : Monitor :=
  let interval := server_interval in
  let lastArr := unix_nano (ps_lastArrive ps) in
  if is_zero lastArr then ps_health ps
  else
    let silence := time_sub now lastArr in
    if i64 (3 * interval) <? silence then
      let missed := Z.min 4 (Z.quot silence interval - 2) in
      ObserveSample f1 0 (Nat.iter (Z.to_nat missed) (NoteMissedProbe now) (ps_health ps))
    else ps_health ps.

(** The health tick of one path: its monitor and the decoder's counters. *)
Definition health_path (now : time) (id : Z) (k : string) (ps : pathState) (d : Decoder) :
    pathState * Decoder :=
  let mon := watchdog now ps in
  let '(lost, received, d) := TakeStreamStats (id, k) d in
  let mon := match loss_rate lost received with Some r => ObserveInBand r mon | None => mon end in
  let '(rawLost, rawRecv, d) := TakePathStats (id, k) d in
  let mon := match loss_rate rawLost rawRecv with Some r => ObserveRaw r mon | None => mon end in
  (mkPathState (ps_addr ps) (ps_capacity ps) (Tick now mon) (ps_lastArrive ps) (ps_lastKeepalive ps)
     (ps_pathSeq ps), d).

(** The loop over the paths of one session: state, decoder, worst loss. *)
Definition health_paths (now : time) (id : Z) (kvs : list (string * pathState)) (st : sessState)
    (d : Decoder) : sessState * Decoder * f64 :=
  foldl (λ acc kv,
    let '(st, d, worst) := acc in
    let '(ps, d) := health_path now id kv.1 kv.2 d in
    let st := set_sched (OnState kv.1 (state (ps_health ps)) (loss (ps_health ps)) (st_sched st))
                (set_path kv.1 ps st) in
    (st, d, if worst <.? loss (ps_health ps) then loss (ps_health ps) else worst))
    (st, d, f0) kvs.

(** [healthTickLoop], one tick. *)
Definition healthTick (e : env) (s : server) : server :=
  foldl (λ s kv,
    match Get (mgr (sv_world s)) kv.1 with
    | None => s
    | Some p =>
        let '(st, d, worst) := health_paths (e_now e) kv.1 (range (st_paths kv.2)) kv.2 (sv_dec s) in
        on_session p (λ x, match s_Enc x with
                           | Some enc => set_codec (SetLossRate (e_now e) worst enc) (s_ServerPub x) x
                           | None => x
                           end) (set_dec d (set_state kv.1 st s))
    end) s (range (sv_states s)).

(** [sweepLoop], one tick. *)
Definition sweep (e : env) (s : server) : server :=
  let '(_, w) := Expire (sv_world s) sessionTTL (e_now e) in
  let '(_, m) := ExpireFirsts (mgr w) sessionTTL (e_now e) in
  let w := mkWorld m (heap w) (closed w) in
  let '(_, states) := foldl (λ acc kv,
      if match Get m kv.1 with None => true | Some _ => false end
      then (acc.1, delete kv.1 acc.2) else acc) (tt, sv_states s) (range (sv_states s)) in
  mkServer w states (sv_dec s).

(** ** The server as a transition system *)

Inductive event :=
| EvFrame (sealed : list byte) (ua : option Addr)
| EvEgress (p : ptr) (payload : list byte)
| EvFecTick
| EvHealthTick
| EvSweep.

Definition server_step (e : env) (ev : event) (s : server) : res unit (server * list output) :=
  match ev with
  | EvFrame sealed ua => handleClientFrame e sealed ua s
  | EvEgress p payload => egress_datagram e p payload s
  | EvFecTick => fecTick e s
  | EvHealthTick => Ok (healthTick e s, [])
  | EvSweep => Ok (sweep e s, [])
  end.

(** A run from a state: every step in its environment; a panic ends the process. *)
Fixpoint server_run (evs : list (env * event)) (s : server) : res unit (server * list output) :=
  match evs with
  | [] => Ok (s, [])
  | (e, ev) :: evs =>
      let? r := server_step e ev s in
      let? r' := server_run evs r.1 in
      Ok (r'.1, r.2 ++ r'.2)
  end.

Definition NewServer_state : server :=
  mkServer (mkWorld NewManager ∅ ∅) ∅ (NewDecoder (v_fecParams cfg)).

(** The loss branch of [keepalive_path] is dead: the frame that carries the
    keepalive has just stored its own arrival time ([registerPath]). *)
Lemma keepalive_never_lost now ps :
  - 2 ^ 63 ≤ now - unix_nano 0 < 2 ^ 63 → 0 ≤ i64 (2 * server_interval) →
  ps_lastArrive ps = unixNano now →
  ps_health (keepalive_path now ps) = ObserveSample f0 0 (NoteAlive (ps_health ps)).
Proof.
  intros Hn Hi Ha. unfold keepalive_path. cbn [ps_health]. destruct (is_zero _); [done|]. rewrite Ha.
  assert (time_sub now (unix_nano (unixNano now)) = 0) as ->.
  { unfold unixNano. rewrite i64_small by lia. unfold unix_nano, time_sub in *. lia. }
  rewrite (proj2 (Z.ltb_ge _ 0)) by lia. by rewrite andb_false_r.
Qed.

(** ** What every step keeps

    A session object changes only in its sequence counter, its encoder, its
    endpoints, its activity time and its replay window, and the window only
    grows in what it has seen. *)

Definition keeps (x x' : ServerSession Addr Encoder) : Prop :=
  s_ID x' = s_ID x ∧ s_aead x' = s_aead x ∧ s_egress x' = s_egress x ∧
  (∀ hist, win_inv (s_replay x) hist →
     w_window (s_replay x') = w_window (s_replay x) ∧
     ∃ hist', (∀ q, q ∈ hist → q ∈ hist') ∧ win_inv (s_replay x') hist').

Definition keeps_opt (o o' : option (ServerSession Addr Encoder)) : Prop :=
  match o, o' with
  | None, None => True
  | Some x, Some x' => keeps x x'
  | _, _ => False
  end.

Definition paths_ok (s : server) : Prop :=
  ∀ id st, sv_states s !! id = Some st → (size (st_paths st) ≤ maxPathsPerSession)%nat.

(** The parameters of a session's encoder. *)
Definition enc_params (x : ServerSession Addr Encoder) : option Params := e_params <$> s_Enc x.

(** A step that neither creates nor removes a session. *)
Record evolves (s s' : server) : Prop := {
  evo_mgr : mgr (sv_world s') = mgr (sv_world s);
  evo_heap : ∀ p, keeps_opt (session_at p s) (session_at p s');
  evo_paths : paths_ok s → paths_ok s';
  evo_closed : closed (sv_world s') = closed (sv_world s);
  evo_dec : dec_params (sv_dec s') = dec_params (sv_dec s);
  evo_encs : ∀ p, enc_params <$> session_at p s' = enc_params <$> session_at p s;
}.

Lemma keeps_refl x : keeps x x.
Proof. split_and!; eauto. Qed.

Lemma keeps_trans x y z : keeps x y → keeps y z → keeps x z.
Proof.
  intros (A1 & A2 & A3 & A4) (B1 & B2 & B3 & B4). split_and!; [congruence..|].
  intros h Hh. destruct (A4 h Hh) as (W1 & h1 & Hs1 & Hh1). destruct (B4 h1 Hh1) as (W2 & h2 & Hs2 & Hh2).
  split; [congruence|]. eauto.
Qed.

(** Same window: the common case. *)
Lemma keeps_same x x' :
  s_ID x' = s_ID x → s_aead x' = s_aead x → s_egress x' = s_egress x → s_replay x' = s_replay x → keeps x x'.
Proof. intros H1 H2 H3 H4. split_and!; [done..|]. intros h Hh. split; [by rewrite H4|]. exists h. rewrite H4. auto. Qed.

Lemma keeps_replay x seq : is_u32 seq → keeps x (CheckReplay x seq).2.
Proof.
  intros Hs. unfold CheckReplay. destruct (CheckAndMark (s_replay x) seq) as [ok w] eqn:E.
  split_and!; [done..|]. intros h Hh. destruct (checked_refused _ _ seq Hh Hs) as (h' & H1 & H2 & H3 & _).
  rewrite E in H1, H3. split; [exact H3|]. by exists h'.
Qed.

Lemma keeps_opt_refl o : keeps_opt o o.
Proof. destruct o; [apply keeps_refl|done]. Qed.

Lemma evolves_refl s : evolves s s.
Proof. split; try done. intros; apply keeps_opt_refl. Qed.

Lemma evolves_trans s1 s2 s3 : evolves s1 s2 → evolves s2 s3 → evolves s1 s3.
Proof.
  intros [A1 A2 A3 A4 A5 A6] [B1 B2 B3 B4 B5 B6]. split; [congruence| |auto|congruence..|congruence].
  intros p. specialize (A2 p). specialize (B2 p). unfold keeps_opt in *.
  destruct (session_at p s1), (session_at p s2), (session_at p s3); try done. by eapply keeps_trans.
Qed.

Lemma session_on_session p q f s :
  session_at q (on_session p f s) = if decide (q = p) then f <$> session_at q s else session_at q s.
Proof.
  unfold session_at, on_session, set_world, update. cbn [sv_world heap].
  destruct (decide (q = p)) as [->|]; [by rewrite lookup_alter_eq|by rewrite lookup_alter_ne].
Qed.

Lemma evolves_on_session p f s :
  (∀ x, session_at p s = Some x → keeps x (f x) ∧ enc_params (f x) = enc_params x) → evolves s (on_session p f s).
Proof.
  intros Hf. split; [done| |done..|].
  - intros q. rewrite session_on_session. destruct (decide (q = p)) as [->|]; unfold keeps_opt.
    + destruct (session_at p s) as [x|] eqn:E; cbn; [by apply Hf|done].
    + destruct (session_at q s); [apply keeps_refl|done].
  - intros q. rewrite session_on_session. destruct (decide (q = p)) as [->|]; [|done].
    destruct (session_at p s) as [x|] eqn:E; cbn; [|done]. f_equal. by apply Hf.
Qed.

Lemma evolves_set_state id st s :
  (paths_ok s → (size (st_paths st) ≤ maxPathsPerSession)%nat) → evolves s (set_state id st s).
Proof.
  intros Hst. split; [done|intros p; apply keeps_opt_refl| |done..].
  intros Hp k st'. cbn [set_state sv_states]. rewrite lookup_insert_Some.
  intros [[<- <-]|[_ H]]; [auto|by eapply Hp].
Qed.

Lemma evolves_set_dec d s : dec_params d = dec_params (sv_dec s) → evolves s (set_dec d s).
Proof. intros Hd. split; try done. intros p; apply keeps_opt_refl. Qed.

Lemma next_seq_evolves p s : evolves s (next_seq p s).2.
Proof.
  unfold next_seq. destruct (session_at p s) as [x|] eqn:E; [|apply evolves_refl].
  cbn. apply evolves_on_session. intros x' Hx'. rewrite E in Hx'. injection Hx' as <-.
  split; [by apply keeps_same|done].
Qed.

Lemma check_replay_evolves p seq s : is_u32 seq → evolves s (check_replay p seq s).2.
Proof.
  intros Hs. unfold check_replay. destruct (session_at p s) as [x|] eqn:E; [|apply evolves_refl].
  pose proof (keeps_replay x seq Hs) as Hk. unfold CheckReplay in *.
  destruct (CheckAndMark (s_replay x) seq) as [ok w]. cbn in *.
  apply evolves_on_session. intros y Hy. rewrite E in Hy. by injection Hy as <-.
Qed.

Lemma stateFor_evolves r id s : evolves s (stateFor r id s).2.
Proof.
  unfold stateFor. destruct (sv_states s !! id); [apply evolves_refl|].
  apply evolves_set_state. intros _. cbn. rewrite map_size_empty. lia.
Qed.

Lemma stateFor_after r id s : sv_states (stateFor r id s).2 !! id = Some (stateFor r id s).1.
Proof.
  unfold stateFor. destruct (sv_states s !! id) eqn:E; [done|]. cbn. by rewrite lookup_insert_eq.
Qed.

Lemma size_set_path k ps st n :
  (size (st_paths st) ≤ n)%nat → is_Some (st_paths st !! k) ∨ (size (st_paths st) < n)%nat →
  (size (st_paths (set_path k ps st)) ≤ n)%nat.
Proof.
  intros H Hk. cbn. rewrite map_size_insert. destruct (st_paths st !! k) eqn:E; unfold Datatypes.id; [lia|].
  destruct Hk as [[? ?]|?]; [congruence|lia].
Qed.

Lemma admit_path_size e ua st ps st' :
  admit_path e ua st = Some (ps, st') → (size (st_paths st) ≤ maxPathsPerSession)%nat →
  (size (st_paths st') ≤ maxPathsPerSession)%nat ∧ is_Some (st_paths st' !! addr_string ua).
Proof.
  unfold admit_path. destruct (st_paths st !! addr_string ua) eqn:E.
  { intros [= <- <-] H. rewrite E. split; [done|by eexists]. }
  destruct (Nat.leb_spec maxPathsPerSession (size (st_paths st))); [done|]. intros [= <- <-] H'. split.
  - apply size_set_path; [done|by right].
  - cbn. rewrite lookup_insert_eq. by eexists.
Qed.

(** The state [stateFor] returns, changed and stored back. *)
Lemma stateFor_store r id st s1 s st' :
  stateFor r id s = (st, s1) →
  ((size (st_paths st) ≤ maxPathsPerSession)%nat → (size (st_paths st') ≤ maxPathsPerSession)%nat) →
  evolves s s1 ∧ evolves s (set_state id st' s1).
Proof.
  intros E Hst. pose proof (stateFor_evolves r id s) as H1. pose proof (stateFor_after r id s) as H2.
  rewrite E in H1, H2. cbn [fst snd] in *. split; [done|].
  eapply evolves_trans; [exact H1|]. apply evolves_set_state. intros Hp. apply Hst. by eapply Hp.
Qed.

Lemma registerPath_evolves e p id ua payload s : evolves s (registerPath e p id ua payload s).
Proof.
  unfold registerPath. destruct (stateFor (e_rng e) id s) as [st s1] eqn:E.
  set (st1 := mkSessState (st_sched st) (st_paths st) (Some ua)).
  destruct (admit_path e ua st1) as [[ps st2]|] eqn:Ha; [|by eapply stateFor_store].
  eapply evolves_trans; [|apply evolves_on_session; intros; split; [by apply keeps_same|done]].
  eapply (stateFor_store _ _ _ _ _ _ E). intros Hsz.
  destruct (admit_path_size _ _ _ _ _ Ha Hsz) as [H1 H2].
  match goal with |- context [set_path _ ?ps' st2] => set (ps1 := ps') end.
  assert (Hs : (size (st_paths (set_path (addr_string ua) ps1 st2)) ≤ maxPathsPerSession)%nat)
    by (apply size_set_path; [done|by left]).
  destruct (4 <=? length payload)%nat; [|done]. destruct (negb _); [|done].
  apply size_set_path; [done|]. left. cbn. rewrite lookup_insert_eq. by eexists.
Qed.

Lemma observeKeepalive_evolves e id k s : evolves s (observeKeepalive e id k s).
Proof.
  unfold observeKeepalive. destruct (stateFor (e_rng e) id s) as [st s1] eqn:E.
  destruct (st_paths st !! k) as [ps|] eqn:Hk; [|by eapply stateFor_store].
  eapply (stateFor_store _ _ _ _ _ _ E). intros Hsz. apply size_set_path; [done|left; by eexists].
Qed.

Lemma sendPong_evolves p a ts s : evolves s (sendPong p a ts s).1.
Proof.
  unfold sendPong. destruct (session_at p s); [|apply evolves_refl].
  pose proof (next_seq_evolves p s). by destruct (next_seq p s).
Qed.

Lemma sendAck_evolves p a s : evolves s (sendAck p a s).1.
Proof.
  unfold sendAck. destruct (session_at p s); [|apply evolves_refl].
  pose proof (next_seq_evolves p s). by destruct (next_seq p s).
Qed.

Lemma pickPath_evolves e id s o s' : pickPath e id s = Ok (o, s') → evolves s s'.
Proof.
  unfold pickPath. destruct (stateFor (e_rng e) id s) as [st s1] eqn:E.
  destruct (Pick nil_frame (st_sched st)) as [r sched]. destruct r; intros H; try discriminate H.
  injection H as _ <-. by eapply (stateFor_store _ _ _ _ _ _ E).
Qed.

Lemma pickCrossPath_evolves e id s : evolves s (pickCrossPath e id s).2.
Proof.
  unfold pickCrossPath. destruct (stateFor (e_rng e) id s) as [st s1] eqn:E.
  destruct (PickWRR (st_sched st)). by eapply (stateFor_store _ _ _ _ _ _ E).
Qed.

Lemma stamp_evolves e id a f s : evolves s (stamp e id a f s).2.
Proof.
  unfold stamp. destruct (HasFlag f FlagPassSeq); [|apply evolves_refl].
  destruct (stateFor (e_rng e) id s) as [st s1] eqn:E.
  destruct (st_paths st !! addr_string a) as [ps|] eqn:Hk; [|by eapply stateFor_store].
  eapply (stateFor_store _ _ _ _ _ _ E). intros Hsz. apply size_set_path; [done|left; by eexists].
Qed.

Lemma send_frame_evolves e p x one f s : evolves s (send_frame e p x one f s).1.
Proof.
  unfold send_frame.
  set (r1 := if HasFlag f FlagFECParity then _ else _).
  assert (H1 : evolves s r1.2).
  { unfold r1. destruct (HasFlag f FlagFECParity); [|apply evolves_refl].
    pose proof (next_seq_evolves p s). by destruct (next_seq p s). }
  destruct r1 as [f1 s1]. cbn [snd] in H1.
  set (r2 := match one with Some a => _ | None => _ end).
  assert (H2 : evolves s1 r2.2) by (unfold r2; destruct one; [apply evolves_refl|apply pickCrossPath_evolves]).
  destruct r2 as [[a|] s2]; cbn [snd] in H2; [|by eapply evolves_trans].
  pose proof (stamp_evolves e (s_ID x) a f1 s2) as H3. destruct (stamp e (s_ID x) a f1 s2) as [f3 s3].
  cbn in *. by eapply evolves_trans; [|eapply evolves_trans].
Qed.

Lemma send_frames_evolves e p x one fs s : evolves s (send_frames e p x one fs s).1.
Proof.
  revert s. induction fs as [|f fs IH]; intros s; cbn [send_frames]; [apply evolves_refl|].
  pose proof (send_frame_evolves e p x one f s) as H1. destruct (send_frame e p x one f s) as [s1 out].
  specialize (IH s1). destruct (send_frames e p x one fs s1) as [s2 outs]. cbn in *. by eapply evolves_trans.
Qed.

Lemma sendToSession_evolves e p fs s s' out : sendToSession e p fs s = Ok (s', out) → evolves s s'.
Proof.
  unfold sendToSession. destruct fs as [|f fs]; [intros [= <- <-]; apply evolves_refl|].
  destruct (session_at p s) as [x|]; [|intros [= <- <-]; apply evolves_refl].
  destruct (CrossPath (v_fecParams cfg)).
  - intros H. pose proof (send_frames_evolves e p x None (f :: fs) s) as He.
    assert (send_frames e p x None (f :: fs) s = (s', out)) as E by congruence. by rewrite E in He.
  - intros H. apply bind_Ok in H as ([o s1] & Hp & H). apply pickPath_evolves in Hp. cbn [fst snd] in H.
    destruct o as [a|]; [|by injection H as <- <-].
    pose proof (send_frames_evolves e p x (Some a) (f :: fs) s1) as He.
    assert (send_frames e p x (Some a) (f :: fs) s1 = (s', out)) as E by congruence. rewrite E in He.
    by eapply evolves_trans.
Qed.

(** A session whose encoder is advanced. *)
Lemma set_codec_evolves p x enc enc' s s1 :
  session_at p s = Some x → s_Enc x = Some enc → e_params enc' = e_params enc → evolves s s1 →
  evolves s1 (on_session p (λ x, set_codec enc' (s_ServerPub x) x) s1).
Proof.
  intros Hx He Hp Hev. apply evolves_on_session. intros y Hy. split; [by apply keeps_same|].
  pose proof (evo_encs _ _ Hev p) as H. rewrite Hx, Hy in H. cbn in H. injection H as ->.
  unfold enc_params. cbn. rewrite He. cbn. by rewrite Hp.
Qed.

Lemma egress_evolves e p payload s s' out : egress_datagram e p payload s = Ok (s', out) → evolves s s'.
Proof.
  unfold egress_datagram. destruct (session_at p s) as [x|] eqn:Hx; [|intros [= <- <-]; apply evolves_refl].
  destruct (_ <? _); [intros [= <- <-]; apply evolves_refl|].
  pose proof (next_seq_evolves p s) as H1. destruct (next_seq p s) as [q s1]. cbn [snd] in H1.
  destruct (s_Enc x) as [enc|] eqn:He.
  - intros H. apply bind_Ok in H as ([fs enc'] & Hp & H). cbn [fst snd] in H. apply sendToSession_evolves in H.
    apply (enc_step_params (OpPush _ _)) in Hp.
    eapply evolves_trans; [exact H1|]. eapply evolves_trans; [by eapply set_codec_evolves|exact H].
  - intros H. apply sendToSession_evolves in H. by eapply evolves_trans.
Qed.

Lemma tick_sessions_evolves e ps s s' out : tick_sessions e ps s = Ok (s', out) → evolves s s'.
Proof.
  revert s s' out. induction ps as [|p ps IH]; intros s s' out; cbn [tick_sessions].
  { intros [= <- <-]. apply evolves_refl. }
  intros H. apply bind_Ok in H as ([s1 o1] & H1 & H). apply bind_Ok in H as ([s2 o2] & H2 & H).
  cbn [fst snd] in *. injection H as <- <-. apply IH in H2. eapply evolves_trans; [|exact H2].
  destruct (session_at p s) as [x|] eqn:Hx; cbn in H1; [|injection H1 as <- <-; apply evolves_refl].
  destruct (s_Enc x) as [enc|] eqn:He; [|injection H1 as <- <-; apply evolves_refl].
  pose proof (enc_step_params (OpTick (e_now e)) enc _ _ (f_equal Ok (surjective_pairing _))) as Hp.
  destruct (Encoder_Tick (e_now e) enc) as [fs enc']. apply sendToSession_evolves in H1.
  eapply evolves_trans; [|exact H1]. by eapply set_codec_evolves, evolves_refl.
Qed.

Lemma fecTick_evolves e s s' out : fecTick e s = Ok (s', out) → evolves s s'.
Proof.
  unfold fecTick. intros H. apply bind_Ok in H as ([s1 o1] & H1 & H). cbn [fst snd] in H.
  pose proof (tick_params (e_now e) (sv_dec s1)) as Hd.
  destruct (Decoder_Tick _ _) as [fs d]. injection H as <- <-. apply tick_sessions_evolves in H1.
  eapply evolves_trans; [exact H1|by apply evolves_set_dec].
Qed.

Lemma health_path_params now id k ps d : dec_params (health_path now id k ps d).2 = dec_params d.
Proof. done. Qed.

(** The health tick replaces paths that exist. *)
Lemma health_paths_keys now id kvs st d worst :
  (∀ k ps, (k, ps) ∈ kvs → is_Some (st_paths st !! k)) →
  let r := foldl (λ acc kv,
    let '(st, d, worst) := acc in
    let '(ps, d) := health_path now id kv.1 kv.2 d in
    let st := set_sched (OnState kv.1 (state (ps_health ps)) (loss (ps_health ps)) (st_sched st))
                (set_path kv.1 ps st) in
    (st, d, if worst <.? loss (ps_health ps) then loss (ps_health ps) else worst)) (st, d, worst) kvs in
  size (st_paths r.1.1) = size (st_paths st) ∧ dec_params r.1.2 = dec_params d.
Proof.
  revert st d worst. induction kvs as [|[k ps] kvs IH]; intros st d worst Hk; [done|].
  cbn [foldl fst snd]. pose proof (health_path_params now id k ps d) as Hd.
  destruct (health_path now id k ps d) as [ps' d']. cbn [snd] in Hd. rewrite <-Hd.
  assert (Hin : is_Some (st_paths st !! k)) by (apply (Hk k ps), elem_of_cons; by left).
  match goal with |- context [foldl _ (?st2, d', ?w) kvs] => destruct (IH st2 d' w) as [E1 E2] end.
  2:{ split; [|exact E2]. etrans; [exact E1|]. cbn. rewrite map_size_insert. by destruct Hin as [? ->]. }
  - intros k' ps'' Hin'. cbn. rewrite lookup_insert_is_Some.
    destruct (decide (k = k')); [by left|]. right. split; [done|].
    apply (Hk k' ps''), elem_of_cons. by right.
Qed.

Lemma healthTick_evolves e s : evolves s (healthTick e s).
Proof.
  unfold healthTick.
  assert (H : ∀ kvs s0, evolves s s0 →
    (∀ k st, (k, st) ∈ kvs → sv_states s !! k = Some st) →
    evolves s (foldl (λ s kv,
      match Get (mgr (sv_world s)) kv.1 with
      | None => s
      | Some p =>
          let '(st, d, worst) := health_paths (e_now e) kv.1 (range (st_paths kv.2)) kv.2 (sv_dec s) in
          on_session p (λ x, match s_Enc x with
                             | Some enc => set_codec (SetLossRate (e_now e) worst enc) (s_ServerPub x) x
                             | None => x
                             end) (set_dec d (set_state kv.1 st s))
      end) s0 kvs)).
  { induction kvs as [|[id st] kvs IH]; intros s0 H0 Hin; [done|]. cbn [foldl fst snd].
    apply IH; [|intros k st' Hk; apply Hin, elem_of_cons; by right].
    destruct (Get (mgr (sv_world s0)) id) as [p|]; [|done].
    pose proof (health_paths_keys (e_now e) id (range (st_paths st)) st (sv_dec s0) f0) as Hsz.
    unfold health_paths. destruct (foldl _ _ _) as [[st' d] worst]. cbn [fst snd] in Hsz.
    assert (Hks : ∀ k ps, (k, ps) ∈ range (st_paths st) → is_Some (st_paths st !! k))
      by (intros k ps Hk%elem_of_range; by eexists).
    destruct (Hsz Hks) as [Hsz' Hd]. clear Hsz Hks.
    split.
    - cbn. apply H0.
    - intros q. rewrite session_on_session.
      pose proof (evo_heap _ _ H0 q) as Hq. destruct (decide (q = p)) as [->|]; [|exact Hq].
      change (session_at p (set_dec d (set_state id st' s0))) with (session_at p s0).
      unfold keeps_opt in *. destruct (session_at p s) as [x|], (session_at p s0) as [x0|]; try done. cbn.
      eapply keeps_trans; [exact Hq|]. destruct (s_Enc x0); [by apply keeps_same|apply keeps_refl].
    - intros Hp k st''. cbn. rewrite lookup_insert_Some. intros [[<- <-]|[_ H]].
      + rewrite Hsz'. apply (Hp id). apply Hin, elem_of_cons. by left.
      + by apply (evo_paths _ _ H0 Hp k).
    - cbn. apply H0.
    - cbn. rewrite Hd. apply H0.
    - intros q. rewrite session_on_session. rewrite <-(evo_encs _ _ H0 q).
      change (session_at q (set_dec d (set_state id st' s0))) with (session_at q s0).
      destruct (decide (q = p)) as [->|]; [|done]. destruct (session_at p s0) as [x0|]; cbn; [|done].
      f_equal. unfold enc_params. destruct (s_Enc x0) as [enc|] eqn:He; cbn; rewrite ?He; [|done]. cbn.
      f_equal. exact (enc_step_params (OpLoss (e_now e) worst) enc _ _ eq_refl). }
  apply H; [apply evolves_refl|]. intros k st. apply elem_of_range.
Qed.

(** ** The invariant of the server *)

Record server_ok (s : server) : Prop := {
  so_count : (Count (mgr (sv_world s)) ≤ maxSessions)%nat;
  so_table : table_ok (firstWindows (mgr (sv_world s)));
  so_paths : paths_ok s;
  so_windows : ∀ p x, session_at p s = Some x → ∃ hist, win_inv (s_replay x) hist;
  so_ptrs : ∀ id p, sessions (mgr (sv_world s)) !! id = Some p →
    ∃ x, session_at p s = Some x ∧ s_ID x = id;
  so_aeads : ∀ p x, session_at p s = Some x → AEADLaws (s_aead x);
}.

(** Session objects persist, whatever happens to the table. *)
Definition persists (s s' : server) : Prop :=
  ∀ p x, session_at p s = Some x → ∃ x', session_at p s' = Some x' ∧ keeps x x'.

Lemma persists_refl s : persists s s.
Proof. intros p x H. exists x. split; [done|apply keeps_refl]. Qed.

Lemma persists_trans s1 s2 s3 : persists s1 s2 → persists s2 s3 → persists s1 s3.
Proof.
  intros A B p x H. destruct (A p x H) as (y & Hy & K1). destruct (B p y Hy) as (z & Hz & K2).
  exists z. split; [done|by eapply keeps_trans].
Qed.

Lemma evolves_persists s s' : evolves s s' → persists s s'.
Proof.
  intros [_ H _ _ _ _] p x Hx. specialize (H p). rewrite Hx in H. unfold keeps_opt in H.
  destruct (session_at p s') as [x'|]; [|done]. by exists x'.
Qed.

Lemma evolves_ok s s' : evolves s s' → server_ok s → server_ok s'.
Proof.
  intros Hev [H1 H2 H3 H4 H5 H6]. pose proof Hev as [E1 E2 E3 _ _ _]. split; rewrite ?E1; auto.
  - intros p x Hx. specialize (E2 p). rewrite Hx in E2. unfold keeps_opt in E2.
    destruct (session_at p s) as [y|] eqn:Hy; [|done].
    destruct (H4 p y Hy) as [h Hh]. destruct E2 as (_ & _ & _ & Hk). destruct (Hk h Hh) as (_ & h' & _ & ?). eauto.
  - intros id p Hid. destruct (H5 id p Hid) as (x & Hx & Hi).
    destruct (evolves_persists _ _ Hev p x Hx) as (x' & Hx' & Hk & _). exists x'. split; [done|congruence].
  - intros p x Hx. specialize (E2 p). rewrite Hx in E2. unfold keeps_opt in E2.
    destruct (session_at p s) as [y|] eqn:Hy; [|done]. destruct E2 as (_ & -> & _). by eapply H6.
Qed.

(** Marking the handshake table, closing a socket. *)
Lemma set_first_ok s id seq now closed' :
  is_u32 seq → 0 < now → server_ok s →
  let m := (CheckFirstReplay (mgr (sv_world s)) id seq now).2 in
  server_ok (set_world (mkWorld m (heap (sv_world s)) closed') s) ∧ sessions m = sessions (mgr (sv_world s)).
Proof.
  intros Hs Hn [H1 H2 H3 H4 H5 H6] m.
  destruct (CheckFirst_entry (mgr (sv_world s)) id seq now) as (_ & _ & Hsess). fold m in Hsess.
  split; [|done]. split; cbn [set_world sv_world mgr sv_states] in *; auto.
  - unfold Count in *. by rewrite Hsess.
  - apply (table_ok_step (mgr (sv_world s)) (OpFirst id seq now)); [by split|done].
  - intros id' p. rewrite Hsess. apply H5.
Qed.

(** Adding a fresh session to a table with room. *)
Lemma put_ok s x p w :
  alloc (sv_world s) x = (p, w) → s_replay x = NewReplayWindow DefaultReplayWindow → AEADLaws (s_aead x) →
  sessions (mgr (sv_world s)) !! s_ID x = None → (Count (mgr (sv_world s)) < maxSessions)%nat → server_ok s →
  server_ok (set_world (Put w p) s) ∧ persists s (set_world (Put w p) s) ∧
  Get (mgr (sv_world (set_world (Put w p) s))) (s_ID x) = Some p ∧
  session_at p (set_world (Put w p) s) = Some x.
Proof.
  unfold alloc. intros [= <- <-] Hr Hlaws Hnone Hroom [H1 H2 H3 H4 H5 H6].
  set (p := fresh (dom (heap (sv_world s)))).
  assert (Hfresh : heap (sv_world s) !! p = None) by (apply not_elem_of_dom, is_fresh).
  unfold Put. cbn [heap mgr closed]. rewrite lookup_insert_eq.
  assert (Hper : ∀ q y, session_at q s = Some y → <[p:=x]> (heap (sv_world s)) !! q = Some y).
  { intros q y Hq. rewrite lookup_insert_ne; [done|]. intros <-. unfold session_at in Hq. congruence. }
  split_and!.
  - split; cbn [set_world sv_world mgr sv_states sessions firstWindows]; auto.
    + unfold Count in *. cbn [sessions]. rewrite map_size_insert_None by done. lia.
    + intros q y. unfold session_at. cbn [set_world sv_world heap]. rewrite lookup_insert_Some.
      intros [[<- <-]|[_ Hq]]; [|by eapply H4]. exists []. rewrite Hr. apply default_window_inv.
    + intros id q. rewrite lookup_insert_Some. intros [[<- <-]|[_ Hq]].
      * exists x. unfold session_at. cbn. by rewrite lookup_insert_eq.
      * destruct (H5 id q Hq) as (y & Hy & Hi). exists y. split; [|done].
        unfold session_at. cbn. by apply Hper.
    + intros q y. unfold session_at. cbn [set_world sv_world heap]. rewrite lookup_insert_Some.
      intros [[<- <-]|[_ Hq]]; [done|by eapply H6].
  - intros q y Hq. exists y. split; [|apply keeps_refl]. unfold session_at. cbn. by apply Hper.
  - unfold Get. cbn. by rewrite lookup_insert_eq.
  - unfold session_at. cbn. by rewrite lookup_insert_eq.
Qed.

Lemma create_session_ok e id seq f s :
  is_u32 seq → 0 < e_now e → Get (mgr (sv_world s)) id = None → server_ok s →
  server_ok (create_session e id seq f s).2 ∧ persists s (create_session e id seq f s).2.
Proof.
  intros Hs Hn Hget Hok. unfold create_session.
  destruct (Nat.leb_spec maxSessions (Count (mgr (sv_world s)))) as [|Hroom];
    [by split; [|apply persists_refl]|].
  pose proof (λ c, set_first_ok s id seq (e_now e) c Hs Hn Hok) as Hf. cbn zeta in Hf.
  destruct (CheckFirstReplay (mgr (sv_world s)) id seq (e_now e)) as [ok m]. cbn [snd fst] in Hf.
  cbn zeta. destruct (Hf (closed (sv_world s))) as [Hs1 Hm].
  set (s1 := set_world (mkWorld m (heap (sv_world s)) (closed (sv_world s))) s) in *.
  assert (Hp1 : ∀ c, persists s (set_world (mkWorld m (heap (sv_world s)) c) s))
    by (intros c p x Hx; exists x; split; [done|apply keeps_refl]).
  assert (Hclose : ∀ c, server_ok (set_world (mkWorld m (heap (sv_world s)) c) s1) ∧
    persists s (set_world (mkWorld m (heap (sv_world s)) c) s1)).
  { intros c. split; [exact (proj1 (Hf c))|exact (Hp1 c)]. }
  assert (Hsame : server_ok s1 ∧ persists s s1) by (split; [done|apply Hp1]).
  destruct ok; cbn [negb]; [|done].
  destruct (length (f_payload f) <? 4 + PublicKeySize)%nat; [done|].
  destruct (e_priv e) as [sPriv|]; [|done]. destruct (ECDHShared _ _) as [shared| |]; [|done..].
  destruct (e_dial e) as [c|]; [|done]. cbn [mgr heap closed].
  destruct (NewAEAD _ _) as [aead| |] eqn:Ha; [|apply Hclose..].
  apply NewAEAD_laws in Ha.
  destruct (NewEncoder _) as [enc| |]; [|apply Hclose..].
  destruct (alloc _ _) as [p w] eqn:Ea. cbn [snd].
  assert (Hnone : sessions (mgr (sv_world s1)) !! id = None) by (cbn; rewrite Hm; exact Hget).
  assert (Hc : (Count (mgr (sv_world s1)) < maxSessions)%nat) by (cbn; unfold Count in *; by rewrite Hm).
  destruct (put_ok s1 _ p w Ea eq_refl Ha Hnone Hc Hs1) as (H1 & H2 & _).
  split; [exact H1|]. eapply persists_trans; [apply Hp1|exact H2].
Qed.

Lemma touch_evolves now p s : evolves s (on_session p (Touch now) s).
Proof. apply evolves_on_session. intros. split; [by apply keeps_same|done]. Qed.

Lemma handle_first_ok e hdr sealed ua s :
  is_u32 (f_seq hdr) → 0 < e_now e → server_ok s →
  server_ok (handle_first e hdr sealed ua s).1 ∧ persists s (handle_first e hdr sealed ua s).1.
Proof.
  intros Hs Hn Hok. assert (Hid : server_ok s ∧ persists s s) by (split; [done|apply persists_refl]).
  unfold handle_first. destruct ua as [ua|]; [|done].
  destruct (Open _ _ _) as [plain| |]; [|done..]. destruct (Decode plain) as [f| |]; [|done..].
  cbn zeta. set (r := match Get _ _ with Some p => _ | None => _ end).
  assert (Hr : server_ok r.2 ∧ persists s r.2).
  { unfold r. destruct (Get (mgr (sv_world s)) (f_session hdr)) eqn:E; [done|].
    by apply create_session_ok. }
  destruct r as [[p|] s1]; cbn [snd] in Hr; [|done]. destruct Hr as [Hok1 Hp1].
  pose proof (check_replay_evolves p (f_seq hdr) s1 Hs) as H2.
  destruct (check_replay p (f_seq hdr) s1) as [ok s2]. cbn [snd] in H2.
  assert (Hfin : ∀ s', evolves s1 s' → server_ok s' ∧ persists s s').
  { intros s' H. split; [by eapply evolves_ok|]. eapply persists_trans; [exact Hp1|by apply evolves_persists]. }
  destruct ok; cbn [negb]; [|by apply Hfin].
  apply Hfin. eapply evolves_trans; [exact H2|].
  eapply evolves_trans; [apply touch_evolves|].
  eapply evolves_trans; [apply registerPath_evolves|apply sendAck_evolves].
Qed.

(** Past the key check, everything but the window update is an [evolves] step. *)
Lemma handle_data_checked e hdr sealed ua p x plain s s' out :
  Get (mgr (sv_world s)) (f_session hdr) = Some p → session_at p s = Some x →
  Open (s_aead x) DirClientToServer sealed = Ok plain →
  handle_data e hdr sealed ua s = Ok (s', out) → evolves (check_replay p (f_seq hdr) s).2 s'.
Proof.
  intros Hg Hx Ho. unfold handle_data. rewrite Hg. cbn. rewrite Hx. cbn. rewrite Ho.
  destruct (check_replay p (f_seq hdr) s) as [ok s1]. cbn [snd].
  assert (Hid : @Ok unit _ (s1, []) = Ok (s', out) → evolves s1 s')
    by (intros [= <- _]; apply evolves_refl).
  destruct ok; cbn [negb]; [|exact Hid]. destruct (Decode plain) as [f| |]; [|exact Hid..].
  set (s2 := on_session p (Touch (e_now e)) s1).
  set (s3 := match ua with Some a => registerPath e p (f_session hdr) a [] s2 | None => s2 end).
  assert (H3 : evolves s1 s3).
  { eapply evolves_trans; [apply touch_evolves|].
    unfold s3. destruct ua; [apply registerPath_evolves|apply evolves_refl]. }
  destruct (HasFlag f FlagKeepalive).
  - destruct ua as [a|]; [|by intros [= <- <-]]. intros H.
    assert (E : (sendPong p a (f_payload f) (observeKeepalive e (f_session hdr) (addr_string a) s3)) = (s', out))
      by congruence.
    pose proof (sendPong_evolves p a (f_payload f) (observeKeepalive e (f_session hdr) (addr_string a) s3)) as H4.
    rewrite E in H4. eapply evolves_trans; [exact H3|].
    eapply evolves_trans; [apply observeKeepalive_evolves|exact H4].
  - destruct (_ =? _)%nat; [by intros [= <- <-]|]. intros H. apply bind_Ok in H as ([fs d] & Hd & H).
    apply push_params in Hd. injection H as <- <-. eapply evolves_trans; [exact H3|by apply evolves_set_dec].
Qed.

Lemma handle_data_evolves e hdr sealed ua s s' out :
  is_u32 (f_seq hdr) → handle_data e hdr sealed ua s = Ok (s', out) → evolves s s'.
Proof.
  intros Hs H.
  assert (Hid : @Ok unit _ (s, []) = Ok (s', out) → evolves s s')
    by (intros [= <- _]; apply evolves_refl).
  destruct (Get (mgr (sv_world s)) (f_session hdr)) as [p|] eqn:Hg;
    [|revert H; unfold handle_data; rewrite Hg; exact Hid].
  destruct (session_at p s) as [x|] eqn:Hx;
    [|revert H; unfold handle_data; rewrite Hg; cbn; rewrite Hx; exact Hid].
  destruct (Open (s_aead x) DirClientToServer sealed) as [plain| |] eqn:Ho;
    [|revert H; unfold handle_data; rewrite Hg; cbn; rewrite Hx; cbn; rewrite Ho; exact Hid..].
  eapply evolves_trans; [by apply (check_replay_evolves p (f_seq hdr))|]. by eapply handle_data_checked.
Qed.

Lemma sweep_ok e s : server_ok s → server_ok (sweep e s) ∧ persists s (sweep e s).
Proof.
  intros [H1 H2 H3 H4 H5 H6]. unfold sweep.
  pose proof (expire_table (sv_world s) sessionTTL (e_now e)) as Hx.
  destruct (Expire (sv_world s) sessionTTL (e_now e)) as [n w]. destruct Hx as (Hs & Hh & Hf).
  pose proof (ExpireFirsts_sessions (mgr w) sessionTTL (e_now e)) as Hm.
  pose proof (table_ok_step (mgr w) (OpExpire sessionTTL (e_now e)) I) as Ht. cbn [first_step] in Ht.
  destruct (ExpireFirsts (mgr w) sessionTTL (e_now e)) as [n' m]. cbn [snd] in Hm, Ht.
  pose proof (delete_loop (λ kv : Z * sessState, match Get m kv.1 with None => true | Some _ => false end)
    (λ (u : unit) _, u) (range (sv_states s)) tt (sv_states s)) as Hd. cbn [mgr].
  rewrite Hd. clear Hd. split.
  - split; cbn [sv_world mgr sv_states].
    + unfold Count in *. rewrite Hm. pose proof (map_subseteq_size _ _ Hs). lia.
    + apply Ht. by rewrite Hf.
    + intros id st. cbn [sv_states].
      rewrite (range_delete_lookup (λ kv : Z * sessState, match Get m kv.1 with None => true | Some _ => false end)).
      destruct (sv_states s !! id) as [st'|] eqn:E; [|done]. cbn [fst]. destruct (Get m id); [|done].
      intros [= <-]. by eapply H3.
    + intros p x. unfold session_at. cbn. rewrite Hh. apply H4.
    + intros id p. rewrite Hm. intros Hp. unfold session_at. cbn. rewrite Hh. apply H5.
      eapply map_subseteq_spec in Hs; [exact Hs|exact Hp].
    + intros p x. unfold session_at. cbn. rewrite Hh. apply H6.
  - intros p x Hx. exists x. unfold session_at. cbn. rewrite Hh. split; [exact Hx|apply keeps_refl].
Qed.

Lemma step_ok e ev s s' out :
  0 < e_now e → server_ok s → server_step e ev s = Ok (s', out) → server_ok s' ∧ persists s s'.
Proof.
  intros Hn Hok.
  assert (Hev : evolves s s' → server_ok s' ∧ persists s s')
    by (intros H; split; [by eapply evolves_ok|by apply evolves_persists]).
  destruct ev as [sealed ua|p payload| | |]; cbn [server_step].
  - unfold handleClientFrame. destruct (DecodeHeader sealed) as [hdr| |] eqn:Eh;
      [|intros [= <- <-]; apply Hev, evolves_refl..].
    assert (Hseq : is_u32 (f_seq hdr)) by (by eapply wf_seq, DecodeHeader_wf).
    destruct (HasFlag hdr FlagFirst).
    + intros H. assert (handle_first e hdr sealed ua s = (s', out)) as E by congruence.
      pose proof (handle_first_ok e hdr sealed ua s Hseq Hn Hok) as Hf. by rewrite E in Hf.
    + intros H. apply Hev. by eapply handle_data_evolves.
  - intros H. apply Hev. by eapply egress_evolves.
  - intros H. apply Hev. by eapply fecTick_evolves.
  - intros [= <- <-]. apply Hev, healthTick_evolves.
  - intros [= <- <-]. by apply sweep_ok.
Qed.

Definition env_ok (ev : env * event) : Prop := 0 < e_now ev.1.

Lemma run_ok evs s s' out :
  Forall env_ok evs → server_ok s → server_run evs s = Ok (s', out) → server_ok s' ∧ persists s s'.
Proof.
  intros Hev. revert s out. induction Hev as [|[e ev] evs He _ IH]; intros s out Hok; cbn [server_run].
  { intros [= <- <-]. split; [done|apply persists_refl]. }
  intros H. apply bind_Ok in H as ([s1 o1] & H1 & H). apply bind_Ok in H as ([s2 o2] & H2 & H).
  cbn [fst snd] in *. injection H as <- <-.
  destruct (step_ok _ _ _ _ _ He Hok H1) as [Hok1 Hp1]. destruct (IH _ _ Hok1 H2) as [Hok2 Hp2].
  split; [done|by eapply persists_trans].
Qed.

Lemma NewServer_ok : server_ok NewServer_state.
Proof.
  split; cbn.
  - unfold Count. cbn. rewrite map_size_empty. lia.
  - apply table_ok_empty.
  - intros id st. cbn. by rewrite lookup_empty.
  - intros p x. unfold session_at. cbn. by rewrite lookup_empty.
  - intros id p. by rewrite lookup_empty.
  - intros p x. unfold session_at. cbn. by rewrite lookup_empty.
Qed.

(** ** The key a frame must be sealed under *)

(** The base key for a FIRST frame, the key of the session it names otherwise. *)
Definition key_for (hdr : frame) (s : server) : option AEAD :=
  if HasFlag hdr FlagFirst then Some (v_baseAEAD cfg)
  else p ← Get (mgr (sv_world s)) (f_session hdr); x ← session_at p s; Some (s_aead x).

(** [sealed] is what a holder of that key makes of [plain]. *)
Definition authentic (sealed plain : list byte) (s : server) : Prop :=
  ∃ hdr a, DecodeHeader sealed = Ok hdr ∧ key_for hdr s = Some a ∧ Seal a DirClientToServer plain = Ok sealed.

Definition reachable (s : server) : Prop :=
  ∃ evs out, Forall env_ok evs ∧ server_run evs NewServer_state = Ok (s, out).

Lemma server_reachable_ok s : reachable s → server_ok s.
Proof. intros (evs & out & He & Hr). by apply (run_ok evs _ _ _ He NewServer_ok) in Hr as [? _]. Qed.

Context `{!AEADLaws (v_baseAEAD cfg)}.

Lemma key_for_laws hdr s a : server_ok s → key_for hdr s = Some a → AEADLaws a.
Proof.
  intros Hok. unfold key_for. destruct (HasFlag hdr FlagFirst); [congruence|].
  destruct (Get _ _) as [p|]; [|done]. cbn. destruct (session_at p s) as [x|] eqn:Hx; [|done]. cbn.
  intros [= <-]. by eapply so_aeads.
Qed.

(** ** Sequence numbers spent in a session *)

Definition spent (p : ptr) (seq : Z) (s : server) : Prop :=
  ∃ x hist, session_at p s = Some x ∧ win_inv (s_replay x) hist ∧
    spec_accept (w_window (s_replay x)) hist seq = false.

Lemma check_replay_spends p seq x s :
  is_u32 seq → session_at p s = Some x → (∃ hist, win_inv (s_replay x) hist) →
  spent p seq (check_replay p seq s).2.
Proof.
  intros Hq Hx [hist Hi]. destruct (checked_refused _ _ seq Hi Hq) as (h & H1 & _ & H3 & H4).
  unfold check_replay, CheckReplay. rewrite Hx. destruct (CheckAndMark (s_replay x) seq) as [ok w].
  cbn [snd] in *. eexists _, h. rewrite session_on_session. case_decide; [|done]. rewrite Hx.
  split; [done|]. cbn. split; [done|]. by rewrite H3.
Qed.

Lemma spent_persists p seq s s' : persists s s' → spent p seq s → spent p seq s'.
Proof.
  intros Hp (x & hist & Hx & Hi & Hr). destruct (Hp p x Hx) as (x' & Hx' & _ & _ & _ & Hk).
  destruct (Hk hist Hi) as (Hw & h' & Hsub & Hi'). exists x', h'. split_and!; [done..|].
  rewrite Hw. by eapply refused_mono.
Qed.

(** A spent number is refused and the refusal changes nothing. *)
Lemma spent_refused p seq s : is_u32 seq → spent p seq s → check_replay p seq s = (false, s).
Proof.
  intros Hq (x & hist & Hx & Hi & Hr). unfold check_replay, CheckReplay. rewrite Hx.
  rewrite (CheckAndMark_refused _ _ _ Hi Hq Hr). f_equal. destruct s as [[m h c] st d], x.
  unfold on_session, set_world, update. unfold session_at in Hx. cbn in *. do 2 f_equal.
  apply map_eq. intros q. destruct (decide (q = p)) as [->|];
    [by rewrite lookup_alter_eq, Hx|by rewrite lookup_alter_ne].
Qed.

Lemma create_session_table e id seq f s :
  is_u32 seq → 0 < e_now e → Get (mgr (sv_world s)) id = None → server_ok s →
  let '(o, s') := create_session e id seq f s in Get (mgr (sv_world s')) id = o.
Proof.
  intros Hs Hn Hget Hok. unfold create_session.
  destruct (Nat.leb_spec maxSessions (Count (mgr (sv_world s)))) as [|Hroom]; [done|].
  pose proof (λ c, set_first_ok s id seq (e_now e) c Hs Hn Hok) as Hf. cbn zeta in Hf.
  destruct (CheckFirstReplay (mgr (sv_world s)) id seq (e_now e)) as [ok m]. cbn [snd fst] in Hf.
  cbn zeta. destruct (Hf (closed (sv_world s))) as [Hs1 Hm].
  set (s1 := set_world (mkWorld m (heap (sv_world s)) (closed (sv_world s))) s) in *.
  assert (Hnone : Get m id = None) by (unfold Get; rewrite Hm; exact Hget).
  destruct ok; cbn [negb]; [|done].
  destruct (length (f_payload f) <? 4 + PublicKeySize)%nat; [done|].
  destruct (e_priv e) as [sPriv|]; [|done]. destruct (ECDHShared _ _) as [shared| |]; [|done..].
  destruct (e_dial e) as [c|]; [|done]. cbn [mgr heap closed].
  destruct (NewAEAD _ _) as [aead| |] eqn:Ha; [|done..].
  destruct (NewEncoder _) as [enc| |]; [|done..].
  destruct (alloc _ _) as [p w] eqn:Ea. apply NewAEAD_laws in Ha.
  assert (Hc : (Count (mgr (sv_world s1)) < maxSessions)%nat) by (cbn; unfold Count in *; by rewrite Hm).
  by destruct (put_ok s1 _ p w Ea eq_refl Ha Hnone Hc Hs1) as (_ & _ & H3 & _).
Qed.

(** A FIRST frame that decodes reaches the window of the session it leaves in
    the table. *)
Lemma handle_first_checked e hdr sealed ua plain f p s :
  is_u32 (f_seq hdr) → 0 < e_now e → server_ok s →
  Open (v_baseAEAD cfg) DirClientToServer sealed = Ok plain → Decode plain = Ok f →
  let s' := (handle_first e hdr sealed (Some ua) s).1 in
  Get (mgr (sv_world s')) (f_session hdr) = Some p →
  ∃ s0, server_ok s0 ∧ is_Some (session_at p s0) ∧ evolves (check_replay p (f_seq hdr) s0).2 s'.
Proof.
  intros Hs Hn Hok Ho Hd. unfold handle_first. rewrite Ho, Hd. cbn zeta.
  set (r := match Get _ _ with Some p => _ | None => _ end).
  assert (Hr : server_ok r.2 ∧ Get (mgr (sv_world r.2)) (f_session hdr) = r.1).
  { unfold r. destruct (Get (mgr (sv_world s)) (f_session hdr)) eqn:E; [by split|].
    pose proof (create_session_ok e _ _ f s Hs Hn E Hok) as [H1 _].
    pose proof (create_session_table e _ _ f s Hs Hn E Hok) as H2.
    by destruct (create_session e (f_session hdr) (f_seq hdr) f s). }
  destruct r as [[p0|] s1]; cbn [fst snd] in Hr; destruct Hr as [Hok1 Hg1]; [|cbn; congruence].
  set (s' := fst _).
  assert (Hev : evolves (check_replay p0 (f_seq hdr) s1).2 s').
  { unfold s'. destruct (check_replay p0 (f_seq hdr) s1) as [ok s2]. cbn [snd].
    destruct ok; cbn [negb]; [|apply evolves_refl].
    eapply evolves_trans; [apply touch_evolves|].
    eapply evolves_trans; [apply registerPath_evolves|apply sendAck_evolves]. }
  intros Hg. assert (p0 = p) as ->.
  { pose proof (check_replay_evolves p0 (f_seq hdr) s1 Hs) as H2.
    pose proof (evo_mgr _ _ (evolves_trans _ _ _ H2 Hev)) as Hm. rewrite Hm in Hg. congruence. }
  exists s1. split_and!; [done| |done].
  destruct (so_ptrs _ Hok1 _ _ Hg1) as (x & Hx & _). by exists x.
Qed.

(** After an authentic, well-formed frame was handled its number is spent. *)
Lemma handled_spends e sealed ua hdr plain f p s s' out :
  server_ok s → 0 < e_now e → DecodeHeader sealed = Ok hdr → authentic sealed plain s →
  Decode plain = Ok f → handleClientFrame e sealed (Some ua) s = Ok (s', out) →
  Get (mgr (sv_world s')) (f_session hdr) = Some p → spent p (f_seq hdr) s'.
Proof.
  intros Hok Hn Hh (hdr' & a & Hh' & Ha & Hsl) Hd. rewrite Hh in Hh'. injection Hh' as <-.
  assert (Hq : is_u32 (f_seq hdr)) by (by eapply wf_seq, DecodeHeader_wf).
  pose proof (key_for_laws _ _ _ Hok Ha) as Hl. apply Open_Seal in Hsl; [|done].
  unfold handleClientFrame. rewrite Hh. unfold key_for in Ha. destruct (HasFlag hdr FlagFirst).
  - injection Ha as <-. intros H Hg.
    pose proof (handle_first_checked e hdr sealed ua plain f p s Hq Hn Hok Hsl Hd) as Hc.
    assert (handle_first e hdr sealed (Some ua) s = (s', out)) as E by congruence. rewrite E in Hc.
    destruct (Hc Hg) as (s0 & Hok0 & [x Hx] & Hev).
    eapply spent_persists; [by apply evolves_persists|]. eapply check_replay_spends; [done..|].
    by eapply so_windows.
  - destruct (Get _ _) as [p0|] eqn:Hg0; [|done]. cbn in Ha.
    destruct (session_at p0 s) as [x|] eqn:Hx; [|done]. cbn in Ha. injection Ha as <-.
    intros H Hg. pose proof (handle_data_checked _ _ _ _ _ _ _ _ _ _ Hg0 Hx Hsl H) as Hev.
    pose proof (evo_mgr _ _ (evolves_trans _ _ _ (check_replay_evolves p0 _ s Hq) Hev)) as Hm.
    rewrite Hm in Hg. assert (p0 = p) as -> by congruence.
    eapply spent_persists; [by apply evolves_persists|]. eapply check_replay_spends; [done..|].
    by eapply so_windows.
Qed.

(** ** The properties *)

(** C10 — Forgeries are ignored. A buffer that is not the sealing of anything
    under the key its header selects (the base key for a FIRST frame, the key
    of the named session otherwise) leaves the server exactly as it was, sends
    nothing and does not crash it, in every reachable state. *)
Theorem unauthenticated_ignored e sealed ua s :
  reachable s → (∀ plain, authentic sealed plain s → False) →
  handleClientFrame e sealed ua s = Ok (s, []).
Proof.
  intros Hok%server_reachable_ok Hno. unfold handleClientFrame.
  destruct (DecodeHeader sealed) as [hdr| |] eqn:Hh; [|done..].
  assert (Hk : ∀ a plain, key_for hdr s = Some a → Open a DirClientToServer sealed = Ok plain → False).
  { intros a plain Ha Ho. apply (Hno plain). exists hdr, a. split_and!; [done..|].
    pose proof (key_for_laws _ _ _ Hok Ha). by apply Seal_Open. }
  unfold key_for in Hk. destruct (HasFlag hdr FlagFirst).
  - unfold handle_first. destruct ua; [|done]. destruct (Open _ _ _) eqn:Ho; [|done..].
    by destruct (Hk _ _ eq_refl Ho).
  - unfold handle_data. destruct (Get _ _) as [p|]; [|done]. cbn in *.
    destruct (session_at p s) as [x|]; [|done]. cbn in *.
    destruct (Open _ _ _) eqn:Ho; [|done..]. by destruct (Hk _ _ eq_refl Ho).
Qed.

(** C20 — Resources are bounded. Whatever frames, datagrams and ticks the server
    went through, it holds at most 1024 sessions, at most 4096 handshake
    windows and at most 16 paths in any session's state, and every entry of the
    session table points to a live session of that id. *)
Theorem server_bounded evs s out :
  Forall env_ok evs → server_run evs NewServer_state = Ok (s, out) →
  (Count (mgr (sv_world s)) ≤ 1024)%nat ∧
  (size (firstWindows (mgr (sv_world s))) ≤ 4096)%nat ∧
  (∀ id st, sv_states s !! id = Some st → (size (st_paths st) ≤ 16)%nat) ∧
  (∀ id p, Get (mgr (sv_world s)) id = Some p → ∃ x, session_at p s = Some x ∧ s_ID x = id).
Proof.
  intros He Hr. destruct (run_ok evs _ _ _ He NewServer_ok Hr) as [[H1 H2 H3 _ H5 _] _].
  split_and!; [exact H1|apply H2|exact H3|exact H5].
Qed.

(** C15 — A sequence number acts once per session. Once an authentic frame was
    handled, any later buffer with the same session and sequence number, FIRST
    or not and whatever it contains, changes nothing and sends nothing, after
    any run of the server and for as long as that session is in the table. *)
Theorem frame_acts_once e1 sealed1 ua1 hdr plain f s s1 out1 evs s2 out2 p e2 sealed2 ua2 hdr2 :
  reachable s → 0 < e_now e1 → Forall env_ok evs →
  DecodeHeader sealed1 = Ok hdr → authentic sealed1 plain s → Decode plain = Ok f →
  handleClientFrame e1 sealed1 (Some ua1) s = Ok (s1, out1) →
  Get (mgr (sv_world s1)) (f_session hdr) = Some p →
  server_run evs s1 = Ok (s2, out2) →
  Get (mgr (sv_world s2)) (f_session hdr) = Some p →
  DecodeHeader sealed2 = Ok hdr2 → f_session hdr2 = f_session hdr → f_seq hdr2 = f_seq hdr →
  handleClientFrame e2 sealed2 ua2 s2 = Ok (s2, []).
Proof.
  intros Hok%server_reachable_ok Hn He Hh Ha Hd H1 Hg1 Hrun Hg2 Hh2 Hid Hseq.
  assert (Hq : is_u32 (f_seq hdr)) by (by eapply wf_seq, DecodeHeader_wf).
  destruct (step_ok e1 (EvFrame sealed1 (Some ua1)) s s1 out1 Hn Hok H1) as [Hok1 _].
  assert (Hsp : spent p (f_seq hdr) s2).
  { apply (spent_persists _ _ s1); [by destruct (run_ok _ _ _ _ He Hok1 Hrun)|].
    by apply (handled_spends e1 sealed1 ua1 hdr plain f p s s1 out1). }
  pose proof (spent_refused _ _ _ Hq Hsp) as Href. destruct Hsp as (x & _ & Hx & _).
  unfold handleClientFrame. rewrite Hh2. destruct (HasFlag hdr2 FlagFirst).
  - unfold handle_first. destruct ua2; [|done]. destruct (Open _ _ _) as [pl| |]; [|done..].
    destruct (Decode pl); [|done..]. rewrite Hid, Hseq, Hg2. rewrite Href. reflexivity.
  - unfold handle_data. rewrite Hid, Hseq, Hg2. cbn. rewrite Hx. cbn.
    destruct (Open _ _ _); [|done..]. rewrite Href. reflexivity.
Qed.
End server.

Arguments server _ _ {_}.
Arguments sessState : clear implicits.
Arguments pathState : clear implicits.
Arguments output : clear implicits.
Arguments env : clear implicits.
Arguments event : clear implicits.

(** ** Construction *)

Section new_server.
  Context {Addr R : Type} {rsl : ReedSolomon} {cph : Ciphers}.
  (** [net.ResolveUDPAddr] and [net.SplitHostPort] accept the string;
      [json.Marshal] of the announce. *)
  Context (ResolveUDPAddr SplitHostPort : string → bool) (marshal : ServerAnnounce → list byte).

(** [NewServer(cfg)]: the configuration its handlers read and its first state. *)
Definition NewServer (c0 : Config) : res string (server_cfg * server Addr R) :=
  let? c := Validate ResolveUDPAddr SplitHostPort c0 in
  refuse_if String.eqb (cfg_WGPeer c) "" with "server requires wg_peer" ;;
  match DeriveKey (bytes_of (cr_Key (cfg_Crypto c))) with
  | Ok key =>
      match NewAEAD key (cr_Cipher (cfg_Crypto c)) with
      | Ok base =>
          let? params := fecParamsFor (cfg_FEC c) (cfg_MTU c) None in
          let v := mkServerCfg (bytes_of (cr_Key (cfg_Crypto c))) (cr_Cipher (cfg_Crypto c)) base params
                     (marshal (server_announce c)) (sc_Mode (cfg_Scheduler c))
                     (sc_BalanceBy (cfg_Scheduler c)) (sc_CapacityCapMbps (cfg_Scheduler c))
                     (cfg_Health c) (cfg_MTU c) in
          Ok (v, NewServer_state v)
      | _ => Err "cipher"
      end
  | _ => Err "derive key"
  end.

(** Blocks cut short wait for the tick, not for their timeout: with a timeout of
    less than 50 milliseconds, as the 8 of the default are, the loop that emits
    them runs four times a second, with FEC on as well. *)
Lemma short_blocks_wait c c' v s :
  Validate ResolveUDPAddr SplitHostPort c = Ok c' → NewServer c = Ok (v, s) → 0 ≤ fec_BlockTimeoutMS (cfg_FEC c') < 50 →
  server_fecTickInterval v = 250 * millisecond.
Proof.
  intros Hv. unfold NewServer. rewrite Hv. cbn [res_bind]. intros [_ H]%refuse_Ok Hb.
  destruct (DeriveKey _) as [key| |]; [|done..]. destruct (NewAEAD _ _) as [base| |]; [|done..].
  apply bind_Ok in H as (p & Hp & H). injection H as <- _. apply fecParamsFor_timeout in Hp.
  unfold server_fecTickInterval. cbn [v_fecParams]. rewrite Hp. unfold of_ms, millisecond.
  rewrite i64_small by (unfold_int; lia). rewrite Z.quot_div_nonneg by lia.
  destruct (Z.ltb_spec (fec_BlockTimeoutMS (cfg_FEC c') * 1000000 / 2) (25 * 1000000)) as [|Hle]; [done|].
  pose proof (Z.mul_div_le (fec_BlockTimeoutMS (cfg_FEC c') * 1000000) 2). lia.
Qed.

(** The base key of a server that was built obeys the laws. *)
Lemma NewServer_laws c v s : NewServer c = Ok (v, s) → AEADLaws (v_baseAEAD v) ∧ s = NewServer_state v.
Proof.
  unfold NewServer. intros H. apply bind_Ok in H as (c' & _ & H). apply refuse_Ok in H as [_ H].
  destruct (DeriveKey _) as [key| |]; [|done..]. destruct (NewAEAD _ _) as [base| |] eqn:Ha; [|done..].
  apply bind_Ok in H as (p & _ & H). injection H as <- <-. split; [|done]. by eapply NewAEAD_laws.
Qed.

(** It was built from its cipher's name. *)
Lemma NewServer_cipher c v s : NewServer c = Ok (v, s) → ∃ key a, NewAEAD key (v_cipher v) = Ok a.
Proof.
  unfold NewServer. intros H. apply bind_Ok in H as (c' & _ & H). apply refuse_Ok in H as [_ H].
  destruct (DeriveKey _) as [key| |]; [|done..]. destruct (NewAEAD _ _) as [base| |] eqn:Ha; [|done..].
  apply bind_Ok in H as (p & _ & H). injection H as <- <-. by exists key, base.
Qed.
End new_server.

(** ** Witnesses: a server built from the sample configuration *)

Section demo.
Lemma Ok_inj {E A} (x y : A) : @Ok E A x = Ok y → x = y.
Proof. congruence. Qed.

#[local] Existing Instances key_order sum_ciphers dh_exchange.

Definition demo_marshal (_ : ServerAnnounce) : list byte := [x7b; x7d].

Definition demo_server : res string (server_cfg * server string unit) :=
  NewServer (λ _, true) (λ _, true) demo_marshal server_document.

Definition cfg_of (r : res string (server_cfg * server string unit)) : server_cfg :=
  match r with Ok (v, _) => v
  | _ => mkServerCfg [] "" (sum_aead []) sample_params [] "" "" f0 (cfg_Health server_document) 0 end.
Definition demo_cfg : server_cfg := cfg_of demo_server.

Definition demo_env (n : Z) : env unit := mkEnv (unix_nano (n * second)) (Some (be_put 32 n)) (Some (100 + n)) tt.

(** A FIRST frame of session 77 declaring 50 Mbit/s, and its sealing. *)
Definition demo_hello : frame :=
  new_frame FlagFirst 77 1 0 (be_put 4 50 ++ x_public (be_put 32 4711)).

Definition demo_plain : list byte := match Encode demo_hello with Ok b => b | _ => [] end.
Definition demo_back : frame := match Decode demo_plain with Ok f => f | _ => demo_hello end.
Definition demo_first : list byte :=
  match Seal (v_baseAEAD demo_cfg) DirClientToServer demo_plain with Ok b => b | _ => [] end.
Definition demo_hdr : frame := match DecodeHeader demo_first with Ok h => h | _ => demo_hello end.

Abbreviation demo_step := (server_step (λ a : string, a) demo_cfg).
Abbreviation demo_run := (server_run (λ a : string, a) demo_cfg).

Definition state_of (r : res unit (server string unit * list (output string))) : server string unit :=
  match r with Ok (s, _) => s | _ => NewServer_state demo_cfg end.
Definition outputs_of (r : res unit (server string unit * list (output string))) : list (output string) :=
  match r with Ok (_, o) => o | _ => [] end.

Lemma result_of r : is_Ok r = true → r = Ok (state_of r, outputs_of r).
Proof. by destruct r as [[s o]| |]. Qed.

Definition demo_events : list (env unit * event string) :=
  [(demo_env 1, EvFrame demo_first (Some "10.0.0.1:4000")); (demo_env 2, EvSweep);
   (demo_env 3, EvFrame [x01; x02] (Some "10.0.0.9:4000"))].

Abbreviation demo_handle := (handleClientFrame (λ a : string, a) demo_cfg).

(** A run with a handshake, a sweep and junk; a forged and a replayed hello. *)
Definition demo_end : server string unit := state_of (demo_run demo_events (NewServer_state demo_cfg)).
Definition demo_forged : list byte := <[30%nat := x00]> demo_first.
Definition demo_s1 : server string unit :=
  state_of (demo_handle (demo_env 1) demo_first (Some "10.0.0.1:4000") (NewServer_state demo_cfg)).
Definition demo_s2 : server string unit := state_of (demo_run [(demo_env 2, EvSweep)] demo_s1).

(** What the witnesses need, evaluated. *)
Lemma demo_run_facts :
  is_Ok (demo_run demo_events (NewServer_state demo_cfg)) = true ∧ Count (mgr (sv_world demo_end)) = 1%nat.
Proof. vm_compute. done. Qed.

Lemma demo_frame_facts :
  HasFlag demo_hdr FlagFirst = true ∧
  is_Ok (Open (v_baseAEAD demo_cfg) DirClientToServer demo_forged) = false ∧
  DecodeHeader demo_forged = Ok demo_hdr ∧ DecodeHeader demo_first = Ok demo_hdr ∧
  Seal (v_baseAEAD demo_cfg) DirClientToServer demo_plain = Ok demo_first ∧
  Decode demo_plain = Ok demo_back.
Proof. vm_compute. split_and!; reflexivity. Qed.

Lemma demo_once_facts :
  is_Ok (demo_handle (demo_env 1) demo_first (Some "10.0.0.1:4000") (NewServer_state demo_cfg)) = true ∧
  is_Ok (demo_run [(demo_env 2, EvSweep)] demo_s1) = true ∧
  Get (mgr (sv_world demo_s1)) (f_session demo_hdr) = Some 0%nat ∧
  Get (mgr (sv_world demo_s2)) (f_session demo_hdr) = Some 0%nat.
Proof. vm_compute. split_and!; reflexivity. Qed.

Lemma demo_laws : AEADLaws (v_baseAEAD demo_cfg).
Proof.
  unfold demo_cfg, cfg_of. destruct demo_server as [[v s]| |] eqn:E; [|apply sum_aead_laws..].
  by destruct (NewServer_laws _ _ _ _ _ _ E).
Qed.

Lemma demo_env_ok : Forall (λ ev : env unit * event string, env_ok ev) demo_events.
Proof. repeat constructor. Qed.

Lemma server_bounded_witness :
  (Count (mgr (sv_world demo_end)) ≤ 1024)%nat ∧ Count (mgr (sv_world demo_end)) = 1%nat.
Proof.
  destruct demo_run_facts as [B C].
  pose proof (server_bounded (λ a : string, a) demo_cfg demo_events demo_end _ demo_env_ok (result_of _ B)) as (H & _).
  split; [exact H|exact C].
Defined.

Lemma unauthenticated_ignored_witness :
  demo_handle (demo_env 5) demo_forged (Some "10.0.0.7:1") demo_end = Ok (demo_end, []).
Proof.
  destruct demo_run_facts as [B _].
  destruct demo_frame_facts as (F1 & F2 & Hh & _). pose proof demo_laws as L.
  refine (unauthenticated_ignored (λ a : string, a) demo_cfg (demo_env 5) demo_forged _ demo_end _ _).
  - exact (ex_intro _ _ (ex_intro _ _ (conj demo_env_ok (result_of _ B)))).
  - intros plain (hdr & a & Hh' & Hk & Hs). rewrite Hh in Hh'. apply Ok_inj in Hh'. subst hdr.
    unfold key_for in Hk. rewrite F1 in Hk. apply (inj Some) in Hk. subst a.
    apply Open_Seal in Hs; [|exact L]. rewrite Hs in F2. exact (diff_true_false F2).
Defined.

Lemma frame_acts_once_witness :
  demo_handle (demo_env 9) demo_first (Some "10.0.0.2:4000") demo_s2 = Ok (demo_s2, []).
Proof.
  pose proof demo_laws as L. destruct demo_frame_facts as (_ & _ & _ & Hh & Hs & Hd).
  destruct demo_once_facts as (B1 & B2 & G1 & G2).
  refine (frame_acts_once (λ a : string, a) demo_cfg (demo_env 1) demo_first "10.0.0.1:4000" demo_hdr
    demo_plain demo_back (NewServer_state demo_cfg) demo_s1 _ [(demo_env 2, EvSweep)]
    demo_s2 _ 0%nat (demo_env 9) demo_first _ demo_hdr
    _ _ _ Hh _ Hd (result_of _ B1) G1 (result_of _ B2) G2 Hh eq_refl eq_refl).
  - exact (ex_intro _ [] (ex_intro _ [] (conj (Forall_nil_2 _) eq_refl))).
  - reflexivity.
  - apply Forall_singleton. exact eq_refl.
  - exact (ex_intro _ demo_hdr (ex_intro _ (v_baseAEAD demo_cfg) (conj Hh (conj eq_refl Hs)))).
Defined.
End demo.
