(* ===== verification/Client.v ===== *)
(** * The tunnel client (internal/tunnel/tunnel.go)

    The client's state and the bodies of its loops as functions on it: a
    handshake or keepalive tick of a WAN, a datagram from the inner WireGuard
    peer, a buffer received on a WAN, the FEC tick and the health tick. A body is
    one step: it reads the clock once ([now]) and what it writes to sockets is
    its list of outputs. WANs are numbered by their index in the configuration. *)

From S2P Require Import Prelude Float64 Frame Replay Delivery Health SendQueue Scheduler FecCodec FecEncoder FecDecoder Crypto Session Config TunnelParams.

#[local] Open Scope string_scope.
#[local] Open Scope Z_scope.
#[local] Open Scope list_scope.

Definition maxWANs : nat := 16.
Definition clientProbeInterval : duration := second.   (* defaultProbeInterval *)

(** [wanLink], without its codec slots and configuration, which are those of the
    same index in [k_wans]. *)
Record wanLink := mkLink {
  l_health : Monitor;
  l_pathSeq : Z;          (* uint32 *)
  l_framesSent : Z;       (* atomic.Uint64 *)
  l_pongs : Z;
  l_missedProbes : Z;
  l_lastRx : Z;           (* unix nanoseconds *)
  l_probeOut : bool;
  l_probeRTT : duration;
  l_probeStart : time;
  l_q : option sendQueue;
}.

Definition with_health (m : Monitor) (l : wanLink) : wanLink :=
  mkLink m (l_pathSeq l) (l_framesSent l) (l_pongs l) (l_missedProbes l) (l_lastRx l)
    (l_probeOut l) (l_probeRTT l) (l_probeStart l) (l_q l).
Definition with_pathseq (n : Z) (l : wanLink) : wanLink :=
  mkLink (l_health l) n (l_framesSent l) (l_pongs l) (l_missedProbes l) (l_lastRx l)
    (l_probeOut l) (l_probeRTT l) (l_probeStart l) (l_q l).
Definition with_counts (sent pongs missed : Z) (l : wanLink) : wanLink :=
  mkLink (l_health l) (l_pathSeq l) sent pongs missed (l_lastRx l)
    (l_probeOut l) (l_probeRTT l) (l_probeStart l) (l_q l).
Definition with_rx (t : Z) (l : wanLink) : wanLink :=
  mkLink (l_health l) (l_pathSeq l) (l_framesSent l) (l_pongs l) (l_missedProbes l) t
    (l_probeOut l) (l_probeRTT l) (l_probeStart l) (l_q l).
Definition with_probe (out : bool) (rtt : duration) (start : time) (l : wanLink) : wanLink :=
  mkLink (l_health l) (l_pathSeq l) (l_framesSent l) (l_pongs l) (l_missedProbes l) (l_lastRx l)
    out rtt start (l_q l).
Definition with_q (q : option sendQueue) (l : wanLink) : wanLink :=
  mkLink (l_health l) (l_pathSeq l) (l_framesSent l) (l_pongs l) (l_missedProbes l) (l_lastRx l)
    (l_probeOut l) (l_probeRTT l) (l_probeStart l) q.

(** The parts of the configuration the loops read, and the key pair. *)
Record client_cfg := mkClientCfg {
  cc_baseAEAD : AEAD;
  cc_psk : list byte;
  cc_cipher : string;
  cc_priv : list byte;
  cc_pub : list byte;
  cc_probeInterval : duration;
  cc_gapMS : Z;
}.

(** [d.Milliseconds()] of the unix time, and [time.UnixMilli]. *)
Definition unixMilli (t : time) : Z := i64 ((t - unix_nano 0) / millisecond).
Definition time_of_milli (ms : Z) : time := unix_nano (ms * millisecond).

Inductive send_error := ErrEncode | ErrSeal | errQueueDropped.

Section client.
  Context {Addr R : Type} (addr_string : Addr → string).
  Context `{!Rand R} {rsl : ReedSolomon} {cph : Ciphers} {dhx : X25519}.
  (** [json.Unmarshal] into a [ServerAnnounce]. *)
  Context (unmarshal : list byte → option ServerAnnounce).

(** [Client]; [cl_session] is [sessAEAD] once [sessionReady]. *)
Record client := mkTunnel {
  cl_sess : Session.Client Addr;
  cl_codecs : codecs;
  cl_links : list wanLink;
  cl_sched : Scheduler R;
  cl_delivery : deliveryBuffer;
  cl_session : option AEAD;
}.

Definition set_sess (x : Session.Client Addr) (c : client) : client :=
  mkTunnel x (cl_codecs c) (cl_links c) (cl_sched c) (cl_delivery c) (cl_session c).
Definition set_codecs (k : codecs) (c : client) : client :=
  mkTunnel (cl_sess c) k (cl_links c) (cl_sched c) (cl_delivery c) (cl_session c).
Definition set_links (l : list wanLink) (c : client) : client :=
  mkTunnel (cl_sess c) (cl_codecs c) l (cl_sched c) (cl_delivery c) (cl_session c).
Definition set_csched (s : Scheduler R) (c : client) : client :=
  mkTunnel (cl_sess c) (cl_codecs c) (cl_links c) s (cl_delivery c) (cl_session c).
Definition set_delivery (d : deliveryBuffer) (c : client) : client :=
  mkTunnel (cl_sess c) (cl_codecs c) (cl_links c) (cl_sched c) d (cl_session c).

(** A change of one WAN. *)
Definition on_link (i : nat) (f : wanLink → wanLink) (c : client) : client :=
  set_links (alter f i (cl_links c)) c.

(** What a step writes: a sealed frame to a WAN's transport (a WAN with a queue
    is written by its consumer instead), a datagram to the inner peer. *)
Inductive client_output :=
| ToWAN (i : nat) (sealed : list byte)
| ToInner (a : Addr) (payload : list byte).

Context (cfg : client_cfg).

(** [c.sess.NextSeq()]. *)
Definition sess_seq (c : client) : Z * client :=
  let '(q, x) := Client_NextSeq (cl_sess c) in (q, set_sess x c).

(** A method call on the codec a slot points to; a nil pointer panics. *)
Definition call_enc {A} (o : option nat) (f : Encoder → res unit (A * Encoder)) (c : client) :
    res unit (A * client) :=
  match o with
  | None => Panic
  | Some p =>
      match h_encs (k_heap (cl_codecs c)) !! p with
      | None => Panic
      | Some e =>
          let? r := f e in
          let h := k_heap (cl_codecs c) in
          Ok (r.1, set_codecs (set_heap (mkHeap (<[p := r.2]> (h_encs h)) (h_decs h)) (cl_codecs c)) c)
      end
  end.

Definition call_dec {A} (o : option nat) (f : Decoder → res unit (A * Decoder)) (c : client) :
    res unit (A * client) :=
  match o with
  | None => Panic
  | Some p =>
      match h_decs (k_heap (cl_codecs c)) !! p with
      | None => Panic
      | Some d =>
          let? r := f d in
          let h := k_heap (cl_codecs c) in
          Ok (r.1, set_codecs (set_heap (mkHeap (h_encs h) (<[p := r.2]> (h_decs h))) (cl_codecs c)) c)
      end
  end.

Definition slot_enc (i : nat) (c : client) : option nat := w ← k_wans (cl_codecs c) !! i; wc_enc w.
Definition slot_dec (i : nat) (c : client) : option nat := w ← k_wans (cl_codecs c) !! i; wc_dec w.

(** [wan.id], and the index of [c.byWAN[id]]. *)
Definition wan_id (i : nat) (c : client) : string :=
  match k_wans (cl_codecs c) !! i with Some w => w_ID (wc_cfg w) | None => "" end.
Definition byWAN (id : string) (c : client) : option nat :=
  fst <$> list_find (λ w, w_ID (wc_cfg w) = id) (k_wans (cl_codecs c)).

(** ** Sending *)

(** [sendLocked(wan, f, aead)]: the error returned, if any; a transport error is
    one the caller only counts. *)
Definition sendLocked (i : nat) (f : frame) (aead : option AEAD) (c : client) :
    option send_error * client * list client_output :=
  match aead, cl_links c !! i with
  | None, _ | _, None => (None, c, [])
  | Some aead, Some wan =>
      let '(f, c) := if HasFlag f FlagPassSeq then
                       (set_block (l_pathSeq wan) f,
                        on_link i (with_pathseq (u32 (l_pathSeq wan + 1))) c)
                     else (f, c) in
      match Encode f with
      | Ok plain =>
          match Seal aead DirClientToServer plain with
          | Ok sealed =>
              match l_q wan with
              | Some q =>
                  let '(ok, q) := enqueue sealed q in
                  (if ok then None else Some errQueueDropped, on_link i (with_q (Some q)) c, [])
              | None => (None, c, [ToWAN i sealed])
              end
          | _ => (Some ErrSeal, c, [])
          end
      | _ => (Some ErrEncode, c, [])
      end
  end.

(** [sendEncoded(wan, frames)]. *)
Fixpoint send_encoded (i : nat) (aead : option AEAD) (fs : list frame) (c : client) :
    client * list client_output :=
  match fs with
  | [] => (c, [])
  | f :: fs =>
      let '(f, c) := if HasFlag f FlagFECParity then
                       let '(q, c) := sess_seq c in (set_seq q f, c)
                     else (f, c) in
      let c := on_link i (λ l, with_counts (u64 (l_framesSent l + 1)) (l_pongs l) (l_missedProbes l) l) c in
      let '(_, c, out) := sendLocked i f aead c in
      let '(c, outs) := send_encoded i aead fs c in
      (c, out ++ outs)
  end.

Definition sendEncoded (i : nat) (fs : list frame) (c : client) : client * list client_output :=
  match cl_session c with
  | None => (c, [])
  | Some a => send_encoded i (Some a) fs c
  end.

(** [sendCrossEncoded(frames)]; a picked id without a WAN would be a nil pointer. *)
Fixpoint send_cross (aead : option AEAD) (fs : list frame) (c : client) :
    res unit (client * list client_output) :=
  match fs with
  | [] => Ok (c, [])
  | f :: fs =>
      let '(f, c) := if HasFlag f FlagFECParity then
                       let '(q, c) := sess_seq c in (set_seq q f, c)
                     else (f, c) in
      let '(o, sched) := PickWRR (cl_sched c) in
      let c := set_csched sched c in
      let? r :=
        match o with
        | None => Ok (c, [])
        | Some id =>
            match byWAN id c with
            | None => Panic
            | Some i => let '(_, c, out) := sendLocked i f aead c in Ok (c, out)
            end
        end in
      let? r' := send_cross aead fs r.1 in
      Ok (r'.1, r.2 ++ r'.2)
  end.

Definition sendCrossEncoded (fs : list frame) (c : client) : res unit (client * list client_output) :=
  match cl_session c with
  | None => Ok (c, [])
  | Some a => send_cross (Some a) fs c
  end.

(** ** The handshake and the probes *)

(** The closure [send] of [handshakeLoop]. *)
Definition handshake_send (i : nat) (c : client) : client * list client_output :=
  match k_wans (cl_codecs c) !! i with
  | None => (c, [])
  | Some w =>
      let payload := be_put 4 (u32 (w_CapacityMbps (wc_cfg w))) ++ fit PublicKeySize (cc_pub cfg) in
      let '(q, c) := sess_seq c in
      let '(_, c, out) := sendLocked i (new_frame FlagFirst (c_ID (cl_sess c)) q 0 payload)
                            (Some (cc_baseAEAD cfg)) c in
      (c, out)
  end.

(** The closure [send] of [keepaliveLoop]. *)
Definition keepalive_send (now : time) (i : nat) (c : client) : client * list client_output :=
  match cl_session c with
  | None => (c, [])
  | Some a =>
      let '(q, c) := sess_seq c in
      let '(_, c, out) := sendLocked i
        (new_frame FlagKeepalive (c_ID (cl_sess c)) q 0 (be_put 8 (u64 (unixMilli now)))) (Some a) c in
      (on_link i (λ l, with_probe true (l_probeRTT l) now l) c, out)
  end.

(** What a tick of [keepaliveLoop] does before it sends the next probe. *)
Definition probe_outcome (now : time) (l : wanLink) : wanLink :=
  if l_probeOut l then
    if i64 (2 * cc_probeInterval cfg) <? time_sub now (unix_nano (l_lastRx l)) then
      with_counts (l_framesSent l) (l_pongs l) (u64 (l_missedProbes l + 1))
        (with_health (ObserveSample f1 0 (NoteMissedProbe now (l_health l))) l)
    else with_health (ObserveSample f0 0 (l_health l)) l
  else with_health (ObserveSample f0 (l_probeRTT l) (l_health l)) l.

Definition keepalive_tick (now : time) (i : nat) (c : client) : client * list client_output :=
  keepalive_send now i (on_link i (probe_outcome now) c).

(** [handlePong(wan, f)]. *)
Definition handlePong (now : time) (i : nat) (f : frame) (c : client) : client :=
  if negb (length (f_payload f) =? 8)%nat then c
  else
    let ts := i64 (be_get (f_payload f)) in
    on_link i (λ l, with_counts (l_framesSent l) (u64 (l_pongs l + 1)) (l_missedProbes l)
                      (with_probe false (time_sub now (time_of_milli ts)) (l_probeStart l) l)) c.

(** [setSessionAEAD(a)]. *)
Definition setSessionAEAD (a : AEAD) (c : client) : client :=
  match cl_session c with
  | Some _ => c
  | None => mkTunnel (cl_sess c) (cl_codecs c) (cl_links c) (cl_sched c) (cl_delivery c) (Some a)
  end.

(** [handleKexAck(sealed)]. *)
Definition handleKexAck (sealed : list byte) (c : client) : bool * client :=
  match Open (cc_baseAEAD cfg) DirServerToClient sealed with
  | Ok plain =>
      match Decode plain with
      | Ok f =>
          if negb (f_session f =? c_ID (cl_sess c)) then (false, c)
          else if (length (f_payload f) <? PublicKeySize)%nat then (false, c)
          else match cl_session c with
          | Some _ => (true, c)
          | None =>
              match ECDHShared (cc_priv cfg) (take PublicKeySize (f_payload f)) with
              | Ok shared =>
                  match NewAEAD (DerivePFSKey (cc_psk cfg) shared (c_ID (cl_sess c))) (cc_cipher cfg) with
                  | Ok aead =>
                      let '(err, k) := applyAnnounce unmarshal (skipn PublicKeySize (f_payload f)) (cl_codecs c) in
                      let c := set_codecs k c in
                      match err with
                      | Some _ => (false, c)
                      | None => (true, setSessionAEAD aead c)
                      end
                  | _ => (false, c)
                  end
              | _ => (false, c)
              end
          end
      | _ => (false, c)
      end
  | _ => (false, c)
  end.

(** ** Receiving *)

(** [openAndVerify(sealed)]. *)
Definition openAndVerify (sealed : list byte) (c : client) : option frame * client :=
  match DecodeHeader sealed with
  | Ok hdr =>
      if negb (f_session hdr =? c_ID (cl_sess c)) then (None, c)
      else match cl_session c with
      | None => (None, c)
      | Some aead =>
          match Open aead DirServerToClient sealed with
          | Ok plain =>
              match Decode plain with
              | Ok f =>
                  let '(ok, x) := Client_CheckReplay (cl_sess c) (f_seq f) in
                  (if ok then Some f else None, set_sess x c)
              | _ => (None, c)
              end
          | _ => (None, c)
          end
      end
  | _ => (None, c)
  end.

(** [deliverToWG(frames)]. *)
Definition deliverToWG (fs : list frame) (c : client) : list client_output :=
  match c_wgAddr (cl_sess c) with
  | None => []
  | Some a => map (λ f, ToInner a (f_payload f)) fs
  end.

Context `{!RangeOrder Z frame, !RangeOrder Z (list byte), !RangeOrder blockKey blockState}.

(** [c.delivery.Push(frames)], then [deliverToWG]. *)
Definition push_delivery (now : time) (fs : list frame) (c : client) : client * list client_output :=
  let '(fs, d) := Delivery_Push now (cl_delivery c) fs in
  (set_delivery d c, deliverToWG fs c).

(** [c.delivery.Tick(now)], then [deliverToWG]. *)
Definition tick_delivery (now : time) (c : client) : client * list client_output :=
  let '(fs, d) := Delivery_Tick now (cl_delivery c) in
  (set_delivery d c, deliverToWG fs c).

(** The body of [recvLoop]: one buffer received on a WAN. *)
Definition recv_frame (now : time) (i : nat) (sealed : list byte) (c : client) :
    res unit (client * list client_output) :=
  match DecodeHeader sealed with
  | Ok hdr =>
      if (f_session hdr =? c_ID (cl_sess c)) && HasFlag hdr FlagKex then
        let '(ok, c) := handleKexAck sealed c in
        Ok (if ok then on_link i (with_rx (unixNano now)) c else c, [])
      else
        let '(o, c) := openAndVerify sealed c in
        match o with
        | None => Ok (c, [])
        | Some f =>
            let c := on_link i (with_rx (unixNano now)) c in
            if HasFlag f FlagPong then Ok (handlePong now i f c, [])
            else if HasFlag f FlagControl || HasFlag f FlagKeepalive || (length (f_payload f) =? 0)%nat
            then Ok (c, [])
            else
              let? r := call_dec (slot_dec i c) (Decoder_Push now (wan_id i c) f) c in
              Ok (push_delivery now r.1 r.2)
        end
  | _ => Ok (c, [])
  end.

(** The body of [ingressLoop]: one datagram from the inner peer. *)
Definition ingress (now : time) (addr : Addr) (payload : list byte) (c : client) :
    res unit (client * list client_output) :=
  let same := match c_wgAddr (cl_sess c) with
              | None => false
              | Some prev => String.eqb (addr_string prev) (addr_string addr)
              end in
  let c := if same then c else set_sess (SetWGAddr (cl_sess c) addr) c in
  if k_mtu (cl_codecs c) <? Z.of_nat (length payload) then Ok (c, [])
  else match cl_session c with
  | None => Ok (c, [])
  | Some _ =>
      let '(q, c) := sess_seq c in
      let f := new_frame 0 (c_ID (cl_sess c)) q 0 payload in
      if k_crossPath (cl_codecs c) then
        let? r := call_enc (k_xenc (cl_codecs c)) (Encoder_Push now f) c in
        sendCrossEncoded r.1 r.2
      else
        let '(r, sched) := Pick f (cl_sched c) in
        let c := set_csched sched c in
        let? o := r in
        match o with
        | None => Ok (c, [])
        | Some id =>
            match byWAN id c with
            | None => Panic
            | Some i =>
                let? r := call_enc (slot_enc i c) (Encoder_Push now f) c in
                Ok (sendEncoded i r.1 r.2)
            end
        end
  end.

(** ** The periodic loops *)

(** [fecTickInterval()]: [p.BlockTimeout] of the codec, read through the slot. *)
Definition fecTickInterval (c : client) : duration :=
  let k := cl_codecs c in
  let slot := if k_crossPath k then k_xenc k else w ← head (k_wans k); wc_enc w in
  let bt := match enc_at slot k with Some e => BlockTimeout (e_params e) | None => 0 end in
  let interval := Z.quot bt 2 in
  let gap := i64 (Z.quot (cc_gapMS cfg) 4 * millisecond) in
  let interval := if interval <? millisecond then (if interval <? gap then gap else interval) else interval in
  if interval <? millisecond then millisecond else interval.

(** The loop over the WANs of [fecTickLoop]. *)
Fixpoint tick_wans (now : time) (ids : list nat) (c : client) : res unit (client * list client_output) :=
  match ids with
  | [] => Ok (c, [])
  | i :: ids =>
      let dec := slot_dec i c in
      let? r := call_enc (slot_enc i c) (λ e, Ok (Encoder_Tick now e)) c in
      let '(c, out) := sendEncoded i r.1 r.2 in
      let? r := call_dec dec (λ d, Ok (Decoder_Tick now d)) c in
      let '(c, out') := push_delivery now r.1 r.2 in
      let? r := tick_wans now ids c in
      Ok (r.1, out ++ out' ++ r.2)
  end.

(** [fecTickLoop], one tick. *)
Definition client_fecTick (now : time) (c : client) : res unit (client * list client_output) :=
  let? r :=
    if k_crossPath (cl_codecs c) then
      let dec := k_xdec (cl_codecs c) in
      let? r := call_enc (k_xenc (cl_codecs c)) (λ e, Ok (Encoder_Tick now e)) c in
      let? s := sendCrossEncoded r.1 r.2 in
      let? r := call_dec dec (λ d, Ok (Decoder_Tick now d)) s.1 in
      let '(c, out) := push_delivery now r.1 r.2 in
      Ok (c, s.2 ++ out)
    else tick_wans now (seq 0 (length (cl_links c))) c in
  let '(c, out) := tick_delivery now r.1 in
  Ok (c, r.2 ++ out).

(** The body of the loop over the WANs of [healthTickLoop]. *)
Definition health_wan (now : time) (i : nat) (c : client) : res unit client :=
  match cl_links c !! i with
  | None => Ok c
  | Some l =>
      let key := (c_ID (cl_sess c), wan_id i c) in
      let enc := slot_enc i c in
      let dec := slot_dec i c in
      let? r := call_dec dec (λ d, let '(l, r, d) := TakeStreamStats key d in Ok ((l, r), d)) c in
      let m := match loss_rate r.1.1 r.1.2 with Some x => ObserveInBand x (l_health l) | None => l_health l end in
      let? r := call_dec dec (λ d, let '(l, r, d) := TakePathStats key d in Ok ((l, r), d)) r.2 in
      let m := match loss_rate r.1.1 r.1.2 with Some x => ObserveRaw x m | None => m end in
      let? r := call_enc enc (λ e, Ok (tt, SetLossRate now (loss m) e)) r.2 in
      let m := Tick now m in
      Ok (set_csched (OnState (wan_id i c) (state m) (loss m) (cl_sched r.2)) (on_link i (with_health m) r.2))
  end.

Fixpoint health_wans (now : time) (ids : list nat) (c : client) : res unit client :=
  match ids with
  | [] => Ok c
  | i :: ids => let? c := health_wan now i c in health_wans now ids c
  end.

Definition client_healthTick (now : time) (c : client) : res unit client :=
  health_wans now (seq 0 (length (cl_links c))) c.

(** ** The client as a transition system *)

Inductive client_event :=
| CHandshake (i : nat)
| CProbe (i : nat)                (* the first probe of keepaliveLoop *)
| CKeepalive (i : nat)
| CRecv (i : nat) (sealed : list byte)
| CIngress (a : Addr) (payload : list byte)
| CFecTick
| CHealthTick.

Definition client_step (now : time) (ev : client_event) (c : client) :
    res unit (client * list client_output) :=
  match ev with
  | CHandshake i => Ok (handshake_send i c)
  | CProbe i => Ok (keepalive_send now i c)
  | CKeepalive i => Ok (keepalive_tick now i c)
  | CRecv i sealed => recv_frame now i sealed c
  | CIngress a payload => ingress now a payload c
  | CFecTick => client_fecTick now c
  | CHealthTick => let? c := client_healthTick now c in Ok (c, [])
  end.

Fixpoint client_run (evs : list (time * client_event)) (c : client) : res unit (client * list client_output) :=
  match evs with
  | [] => Ok (c, [])
  | (now, ev) :: evs =>
      let? r := client_step now ev c in
      let? r' := client_run evs r.1 in
      Ok (r'.1, r.2 ++ r'.2)
  end.
End client.

Arguments client _ _ {_}.
Arguments client_output : clear implicits.
Arguments client_event : clear implicits.

(** ** Construction *)

Section new_client.
  Context {Addr R : Type} `{!Rand R} {rsl : ReedSolomon} {cph : Ciphers} {dhx : X25519}.
  Context (ResolveUDPAddr SplitHostPort : string → bool).

(** A fresh pair of codecs for the next WAN. *)
Definition own_codecs (w : WAN) (p : Params) (k : codecs) : res string codecs :=
  let? e := NewEncoder p in
  let '(pe, h) := alloc_enc e (k_heap k) in
  let '(pd, h) := alloc_dec (NewDecoder p) h in
  Ok (set_wans (k_wans k ++ [mkWanCodec w (Some pe) (Some pd)]) (set_heap h k)).

(** The loop over the WANs of [NewClient]. *)
Fixpoint new_wans (now : time) (c : Config) (ws : list WAN) (k : codecs) (sched : Scheduler R) :
    res string (codecs * list wanLink * Scheduler R) :=
  match ws with
  | [] => Ok (k, [], sched)
  | w :: ws =>
      let? params := fecParamsFor (cfg_FEC c) (cfg_MTU c) (Some w) in
      let? k := if k_crossPath k
                then Ok (set_wans (k_wans k ++ [mkWanCodec w (k_xenc k) (k_xdec k)]) k)
                else own_codecs w params k in
      let mon := New (healthOptions (cfg_Health c) (fecCompensableLoss params)) in
      refuse_if negb (transport_ok (w_Transport w)) with "wan: unsupported transport" ;;
      let qc := cfg_Queue c in
      let drop := match parseQueueDrop (qc_Drop qc) with Ok d => d | _ => dropOldest end in
      let rate := if qc_RateLimit qc then (of_Z (w_CapacityMbps w) ⊠ of_Z 1000000) ⊘ of_Z 8 else f0 in
      let q := if default false (qc_Enabled qc) then Some (newSendQueue (qc_MaxBytes qc) drop rate now) else None in
      let sched := AddPath (w_ID w)
        (effectiveCapacity (w_CapacityMbps w) (w_Weight w) params (sc_BalanceBy (cfg_Scheduler c))) sched in
      let? r := new_wans now c ws k sched in
      Ok (r.1.1, mkLink mon 0 0 0 0 0 false 0 0 q :: r.1.2, r.2)
  end.

(** The shared codec of cross-path mode. *)
Definition new_shared (c : Config) : res string codecs :=
  let k := mkCodecs (mkHeap ∅ ∅) false None None [] (cfg_MTU c) None in
  if String.eqb (fec_Mode (cfg_FEC c)) FECCrosspath then
    let? p := fecParamsFor (cfg_FEC c) (cfg_MTU c) (head (cfg_WANs c)) in
    let? e := NewEncoder p in
    let '(pe, h) := alloc_enc e (k_heap k) in
    let '(pd, h) := alloc_dec (NewDecoder p) h in
    Ok (set_x (Some pe) (Some pd) (set_heap h (set_cross true k)))
  else Ok k.

(** [wan.probeInterval] as [NewClient] derives it. *)
Definition client_interval (h : HealthCfg) : duration :=
  let i := of_units (h_ProbeInterval h) second in if i <=? 0 then clientProbeInterval else i.

(** [NewClient(cfg)], with the random bytes of [NewID], the key pair of
    [GenerateEphemeralKey] and the random source of the scheduler as inputs. *)
Definition NewClient (now : time) (rnd priv : option (list byte)) (r : R) (c0 : Config) :
    res string (client_cfg * client Addr R) :=
  let? c := Validate ResolveUDPAddr SplitHostPort c0 in
  refuse_if (length (cfg_WANs c) =? 0)%nat with "client requires at least one WAN" ;;
  refuse_if (maxWANs <? length (cfg_WANs c))%nat with "too many WANs" ;;
  refuse_if existsb (λ w, String.eqb (w_ID w) "") (cfg_WANs c) with "wan id is required" ;;
  match DeriveKey (bytes_of (cr_Key (cfg_Crypto c))), rnd, priv with
  | Ok key, Some rnd, Some priv =>
      match NewAEAD key (cr_Cipher (cfg_Crypto c)) with
      | Ok base =>
          let? k := new_shared c in
          let sched := newScheduler (mkSchedOptions (sc_Mode (cfg_Scheduler c)) (sc_Affinity (cfg_Scheduler c))
                         (sc_BalanceBy (cfg_Scheduler c))) r in
          let? r := new_wans now c (cfg_WANs c) k sched in
          Ok (mkClientCfg base (bytes_of (cr_Key (cfg_Crypto c))) (cr_Cipher (cfg_Crypto c)) priv (x_public priv)
                (client_interval (cfg_Health c)) (GapTimeoutMS (cfg_Delivery c)),
              mkTunnel (NewClientWithID (NewID rnd)) r.1.1 r.1.2 r.2
                (newDeliveryBuffer (of_ms (GapTimeoutMS (cfg_Delivery c))) (MaxPending (cfg_Delivery c))) None)
      | _ => Err "cipher"
      end
  | _, _, _ => Err "derive key, session or pfs keypair"
  end.
End new_client.
