(* ===== verification/ClientProps.v ===== *)
(** * What the client's steps keep, and the key-exchange gate

    Every step leaves the session key, the identity and the codec wiring alone,
    except the acceptance of the server's key-exchange ACK; until that ACK
    nothing but hello frames leaves the client. *)

From S2P Require Import Prelude Float64 Frame Replay Delivery Health SendQueue Scheduler FecCodec FecEncoder FecDecoder Crypto Session Config TunnelParams Client.

#[local] Open Scope string_scope.
#[local] Open Scope Z_scope.
#[local] Open Scope list_scope.

(** The queue never holds anything but what was in it and what was offered. *)
Lemma evict_suffix n max l b d l' b' d' : evict n max l b d = (Some l', b', d') → l' `suffix_of` l.
Proof.
  revert b d. induction l as [|x l IH]; intros b d; cbn [evict].
  - destruct (_ <=? _); [|done]. by intros [= <- _ _].
  - destruct (_ <=? _); [by intros [= <- _ _]|]. intros H%IH. by apply suffix_cons_r.
Qed.

Lemma enqueue_elem b s x : x ∈ q (enqueue b s).2 → x ∈ q s ∨ x = b.
Proof.
  unfold enqueue. destruct (SendQueue.closed s); [by left|]. destruct (_ <? _); [by left|].
  assert (A : ∀ l, l `suffix_of` q s → x ∈ l ++ [b] → x ∈ q s ∨ x = b).
  { intros l [k ->]. rewrite !elem_of_app. intros [?|?%list_elem_of_singleton]; [left; by right|by right]. }
  destruct (_ <? _); [|by apply A].
  destruct (SendQueue.drop s); [|by left]. destruct (evict _ _ _ _ _) as [[[l|] n] d] eqn:E; cbn.
  - apply A. by eapply evict_suffix.
  - by intros ?%elem_of_nil.
Qed.

Section keeps.
  Context {Addr R : Type} (addr_string : Addr → string).
  Context `{!Rand R} {rsl : ReedSolomon} {cph : Ciphers} {dhx : X25519}.
  Context (unmarshal : list byte → option ServerAnnounce).
  Context `{!RangeOrder Z frame, !RangeOrder Z (list byte), !RangeOrder blockKey blockState}.
  Context (cfg : client_cfg).

  Implicit Types (c : client Addr R) (out : list (client_output Addr)).

(** The wiring of the codecs: everything but the codecs themselves. *)
Definition wiring (k : codecs) := (k_crossPath k, k_xenc k, k_xdec k, k_wans k, k_mtu k, k_adopted k).

(** The parameters of the codec objects. *)
Definition heap_params (k : codecs) : gmap nat Params * gmap nat Params :=
  (e_params <$> h_encs (k_heap k), dec_params <$> h_decs (k_heap k)).

(** Nothing but counters, queues, monitors, codecs and buffers changed. *)
Record ckeeps c c' : Prop := {
  ck_session : cl_session c' = cl_session c;
  ck_id : c_ID (cl_sess c') = c_ID (cl_sess c);
  ck_wiring : wiring (cl_codecs c') = wiring (cl_codecs c);
  ck_params : heap_params (cl_codecs c') = heap_params (cl_codecs c);
}.

(** Nor were frames queued or handed to a WAN. *)
Definition queues c : list (option sendQueue) := l_q <$> cl_links c.
Definition silent c c' out : Prop :=
  ckeeps c c' ∧ queues c' = queues c ∧ Forall (λ o, ∃ a p, o = ToInner a p) out.

Lemma ckeeps_refl c : ckeeps c c.
Proof. by split. Qed.
Lemma ckeeps_trans c1 c2 c3 : ckeeps c1 c2 → ckeeps c2 c3 → ckeeps c1 c3.
Proof. intros [] []. split; congruence. Qed.

Lemma silent_refl c : silent c c [].
Proof. split_and!; [apply ckeeps_refl|done|constructor]. Qed.
Lemma silent_trans c1 c2 c3 o1 o2 : silent c1 c2 o1 → silent c2 c3 o2 → silent c1 c3 (o1 ++ o2).
Proof.
  intros (A1 & A2 & A3) (B1 & B2 & B3). split_and!; [by eapply ckeeps_trans|congruence|by apply Forall_app].
Qed.

Lemma silent_on_link i f c : (∀ l, l_q (f l) = l_q l) → silent c (on_link i f c) [].
Proof.
  intros Hf. split_and!; [by split| |constructor]. unfold queues, on_link. cbn.
  apply list_eq. intros j. rewrite !list_lookup_fmap. destruct (decide (j = i)) as [->|].
  - rewrite list_lookup_alter_eq. destruct (cl_links c !! i); cbn; by rewrite ?Hf.
  - by rewrite list_lookup_alter_ne.
Qed.

Lemma silent_sess x c : c_ID x = c_ID (cl_sess c) → silent c (set_sess x c) [].
Proof. intros. split_and!; [by split|done|constructor]. Qed.
Lemma silent_sched x c : silent c (set_csched x c) [].
Proof. split_and!; [by split|done|constructor]. Qed.
Lemma silent_deliver c d fs : silent c (set_delivery d c) (deliverToWG fs c).
Proof.
  split_and!; [by split|done|]. unfold deliverToWG. destruct (c_wgAddr _); [|constructor].
  apply Forall_map, Forall_true. eauto.
Qed.

Lemma silent_call_enc {A} o (f : Encoder → res unit (A * Encoder)) c a c' :
  (∀ e b e', f e = Ok (b, e') → e_params e' = e_params e) → call_enc o f c = Ok (a, c') → silent c c' [].
Proof.
  intros Hf. unfold call_enc. destruct o as [p|]; [|done]. destruct (_ !! p) as [e|] eqn:Ee; [|done].
  intros H. apply bind_Ok in H as ([y e'] & E & H). injection H as <- <-.
  split_and!; [|done|constructor]. split; [done..|]. unfold heap_params. cbn.
  rewrite fmap_insert, (Hf _ _ _ E). f_equal. apply insert_id. by rewrite lookup_fmap, Ee.
Qed.

Lemma push_call_params now f e fs e' : Encoder_Push now f e = Ok (fs, e') → e_params e' = e_params e.
Proof. exact (enc_step_params (OpPush now f) e fs e'). Qed.
Lemma tick_call_params now e fs e' :
  @Ok unit _ (Encoder_Tick now e) = Ok (fs, e') → e_params e' = e_params e.
Proof. exact (enc_step_params (OpTick now) e fs e'). Qed.
Lemma loss_call_params now x e u e' :
  @Ok unit _ (tt, SetLossRate now x e) = Ok (u, e') → e_params e' = e_params e.
Proof. intros [= _ <-]. exact (enc_step_params (OpLoss now x) e _ _ eq_refl). Qed.
Lemma silent_call_dec {A} o (f : Decoder → res unit (A * Decoder)) c a c' :
  (∀ d b d', f d = Ok (b, d') → dec_params d' = dec_params d) → call_dec o f c = Ok (a, c') → silent c c' [].
Proof.
  intros Hf. unfold call_dec. destruct o as [p|]; [|done]. destruct (_ !! p) as [d|] eqn:Ed; [|done].
  intros H. apply bind_Ok in H as ([y d'] & E & H). injection H as <- <-.
  split_and!; [|done|constructor]. split; [done..|]. unfold heap_params. cbn.
  rewrite fmap_insert, (Hf _ _ _ E). f_equal. apply insert_id. by rewrite lookup_fmap, Ed.
Qed.

Lemma dec_tick_params now d fs d' :
  @Ok unit _ (Decoder_Tick now d) = Ok (fs, d') → dec_params d' = dec_params d.
Proof. intros [= E]. pose proof (tick_params now d) as H. by rewrite E in H. Qed.

(** ** Sending keeps the session *)

Lemma ckeeps_on_link i f c : ckeeps c (on_link i f c).
Proof. by split. Qed.

Lemma sess_seq_silent c : silent c (sess_seq c).2 [].
Proof. by apply silent_sess. Qed.

Lemma sendLocked_ckeeps i f a c : ckeeps c (sendLocked i f a c).1.2.
Proof.
  unfold sendLocked. destruct a as [a|]; [|apply ckeeps_refl].
  destruct (cl_links c !! i) as [wan|]; [|apply ckeeps_refl].
  set (r := if HasFlag f FlagPassSeq then _ else _).
  assert (Hr : ckeeps c r.2) by (unfold r; destruct (HasFlag f FlagPassSeq); [apply ckeeps_on_link|apply ckeeps_refl]).
  destruct r as [f' c']. cbn [snd] in Hr. destruct (Encode f') as [plain| |]; [|done..].
  destruct (Seal _ _ plain) as [b| |]; [|done..]. destruct (l_q wan) as [s|]; [|done].
  destruct (enqueue b s). eapply ckeeps_trans; [exact Hr|apply ckeeps_on_link].
Qed.

Lemma parity_seq_ckeeps (f : frame) c :
  ckeeps c (if HasFlag f FlagFECParity then let '(q, c) := sess_seq c in (set_seq q f, c) else (f, c)).2.
Proof. destruct (HasFlag f FlagFECParity); [|apply ckeeps_refl]. apply (sess_seq_silent c). Qed.

Lemma send_encoded_ckeeps i a fs c : ckeeps c (send_encoded i a fs c).1.
Proof.
  revert c. induction fs as [|f fs IH]; intros c; cbn [send_encoded]; [apply ckeeps_refl|].
  pose proof (parity_seq_ckeeps f c) as H1. destruct (if HasFlag f FlagFECParity then _ else _) as [f1 c1].
  cbn [snd] in H1. set (c2 := on_link i _ c1).
  pose proof (sendLocked_ckeeps i f1 a c2) as H2. destruct (sendLocked i f1 a c2) as [[e c3] out]. cbn in H2.
  specialize (IH c3). destruct (send_encoded i a fs c3) as [c4 outs]. cbn in *.
  eapply ckeeps_trans; [exact H1|]. eapply ckeeps_trans; [apply ckeeps_on_link|].
  by eapply ckeeps_trans.
Qed.

Lemma send_cross_ckeeps a fs c c' out : send_cross a fs c = Ok (c', out) → ckeeps c c'.
Proof.
  revert c c' out. induction fs as [|f fs IH]; intros c c' out; cbn [send_cross].
  { intros [= <- <-]. apply ckeeps_refl. }
  pose proof (parity_seq_ckeeps f c) as H1. destruct (if HasFlag f FlagFECParity then _ else _) as [f1 c1].
  cbn [snd] in H1. destruct (PickWRR (cl_sched c1)) as [o sched]. intros H.
  apply bind_Ok in H as ([c3 out3] & H3 & H). apply bind_Ok in H as ([c4 out4] & H4 & H). cbn [fst snd] in *.
  injection H as <- <-. eapply ckeeps_trans; [exact H1|].
  eapply ckeeps_trans; [apply (silent_sched sched)|]. eapply ckeeps_trans; [|by eapply IH].
  destruct o as [id|]; [|injection H3 as <- _; apply ckeeps_refl].
  destruct (byWAN id _) as [i|]; [|done].
  pose proof (sendLocked_ckeeps i f1 a (set_csched sched c1)) as H5.
  destruct (sendLocked i f1 a (set_csched sched c1)) as [[e c5] o5]. by injection H3 as <- _.
Qed.

Lemma sendEncoded_ckeeps i fs c : ckeeps c (sendEncoded i fs c).1.
Proof. unfold sendEncoded. destruct (cl_session c); [apply send_encoded_ckeeps|apply ckeeps_refl]. Qed.
Lemma sendCrossEncoded_ckeeps fs c c' out : sendCrossEncoded fs c = Ok (c', out) → ckeeps c c'.
Proof.
  unfold sendCrossEncoded. destruct (cl_session c); [apply send_cross_ckeeps|].
  intros [= <- <-]. apply ckeeps_refl.
Qed.

(** Before the session nothing is encoded for a WAN. *)
Lemma sendEncoded_silent i fs c : cl_session c = None → silent c (sendEncoded i fs c).1 (sendEncoded i fs c).2.
Proof. intros H. unfold sendEncoded. rewrite H. apply silent_refl. Qed.
Lemma sendCrossEncoded_silent fs c c' out :
  cl_session c = None → sendCrossEncoded fs c = Ok (c', out) → silent c c' out.
Proof. intros H. unfold sendCrossEncoded. rewrite H. intros [= <- <-]. apply silent_refl. Qed.

(** ** The handlers *)

Lemma silent_ckeeps c c' out : silent c c' out → ckeeps c c'.
Proof. by intros [? _]. Qed.

Lemma handshake_send_ckeeps i c : ckeeps c (handshake_send cfg i c).1.
Proof.
  unfold handshake_send. destruct (_ !! i) as [w|]; [|apply ckeeps_refl].
  pose proof (silent_ckeeps _ _ _ (sess_seq_silent c)) as H1. destruct (sess_seq c) as [q c1]. cbn [snd] in H1.
  set (f := new_frame _ _ _ _ _).
  pose proof (sendLocked_ckeeps i f (Some (cc_baseAEAD cfg)) c1) as H2. unfold f in *.
  destruct (sendLocked i _ _ c1) as [[e c2] out]. by eapply ckeeps_trans.
Qed.

Lemma keepalive_send_ckeeps now i c : ckeeps c (keepalive_send now i c).1.
Proof.
  unfold keepalive_send. destruct (cl_session c) as [a|]; [|apply ckeeps_refl].
  pose proof (silent_ckeeps _ _ _ (sess_seq_silent c)) as H1. destruct (sess_seq c) as [q c1]. cbn [snd] in H1.
  set (f := new_frame _ _ _ _ _).
  pose proof (sendLocked_ckeeps i f (Some a) c1) as H2. unfold f in *.
  destruct (sendLocked i _ _ c1) as [[e c2] out].
  eapply ckeeps_trans; [exact H1|]. eapply ckeeps_trans; [exact H2|apply ckeeps_on_link].
Qed.

Lemma probe_outcome_silent now i c : silent c (on_link i (probe_outcome cfg now) c) [].
Proof. apply silent_on_link. intros l. unfold probe_outcome. by destruct (l_probeOut l); [case_match|]. Qed.

Lemma keepalive_silent now i c : cl_session c = None →
  silent c (keepalive_send now i c).1 (keepalive_send now i c).2.
Proof. intros H. unfold keepalive_send. rewrite H. apply silent_refl. Qed.

Lemma handlePong_silent now i f c : silent c (handlePong now i f c) [].
Proof. unfold handlePong. destruct (negb _); [apply silent_refl|by apply silent_on_link]. Qed.

Lemma push_delivery_silent now fs c : silent c (push_delivery now fs c).1 (push_delivery now fs c).2.
Proof. unfold push_delivery. destruct (Delivery_Push _ _ _). apply silent_deliver. Qed.
Lemma tick_delivery_silent now c : silent c (tick_delivery now c).1 (tick_delivery now c).2.
Proof. unfold tick_delivery. destruct (Delivery_Tick _ _). apply silent_deliver. Qed.

Lemma openAndVerify_silent sealed c : silent c (openAndVerify sealed c).2 [].
Proof.
  unfold openAndVerify. destruct (DecodeHeader sealed) as [hdr| |]; [|apply silent_refl..].
  destruct (negb _); [apply silent_refl|]. destruct (cl_session c); [|apply silent_refl].
  destruct (Open _ _ _) as [plain| |]; [|apply silent_refl..].
  destruct (Decode plain) as [f| |]; [|apply silent_refl..].
  unfold Client_CheckReplay. destruct (CheckAndMark _ _). cbn. by apply silent_sess.
Qed.

(** Opening a frame touches neither the codecs nor the delivery buffer. *)
Lemma openAndVerify_fields sealed c :
  cl_codecs (openAndVerify sealed c).2 = cl_codecs c ∧ cl_delivery (openAndVerify sealed c).2 = cl_delivery c.
Proof.
  unfold openAndVerify. destruct (DecodeHeader sealed); [|done..]. destruct (negb _); [done|].
  destruct (cl_session c); [|done]. destruct (Open _ _ _); [|done..]. destruct (Decode _); [|done..].
  by destruct (Client_CheckReplay _ _).
Qed.

(** The KEX ACK: nothing once the session is established, else the key and the
    codecs at most. *)
Lemma handleKexAck_established sealed c a :
  cl_session c = Some a → (handleKexAck unmarshal cfg sealed c).2 = c.
Proof.
  intros H. unfold handleKexAck. destruct (Open _ _ _) as [plain| |]; [|done..].
  destruct (Decode plain); [|done..]. destruct (negb _); [done|]. destruct (_ <? _)%nat; [done|]. by rewrite H.
Qed.

Lemma handleKexAck_fields sealed c :
  let c' := (handleKexAck unmarshal cfg sealed c).2 in
  cl_sess c' = cl_sess c ∧ cl_links c' = cl_links c.
Proof.
  unfold handleKexAck. destruct (Open _ _ _) as [plain| |]; [|done..].
  destruct (Decode plain); [|done..]. destruct (negb _); [done|]. destruct (_ <? _)%nat; [done|].
  destruct (cl_session c) eqn:E; [done|]. destruct (ECDHShared _ _); [|done..].
  destruct (NewAEAD _ _); [|done..]. destruct (applyAnnounce _ _ _) as [[err|] k]; [done|].
  unfold setSessionAEAD, set_codecs. cbn. by rewrite E.
Qed.

Lemma recv_frame_silent now i sealed c c' out :
  recv_frame unmarshal cfg now i sealed c = Ok (c', out) →
  silent c c' out ∨
  (cl_session c = None ∧ out = [] ∧ c_ID (cl_sess c') = c_ID (cl_sess c) ∧ queues c' = queues c).
Proof.
  unfold recv_frame. destruct (DecodeHeader sealed) as [hdr| |];
    [|intros [= <- <-]; left; apply silent_refl..].
  destruct (_ && _).
  - destruct (handleKexAck_fields sealed c) as [H1 H2].
    pose proof (λ a H, handleKexAck_established sealed c a H) as H3.
    destruct (handleKexAck _ _ sealed c) as [ok c1]. cbn [snd] in *. intros [= <- <-].
    assert (Hq : ∀ t, silent c1 (on_link i (with_rx t) c1) []) by (intros; by apply silent_on_link).
    destruct (cl_session c) as [a|].
    + rewrite (H3 a eq_refl). left. destruct ok; [apply silent_on_link; done|apply silent_refl].
    + right. split_and!; [done|done| |].
      * destruct ok; [|by rewrite H1]. destruct (Hq (unixNano now)) as ([_ -> _] & _). by rewrite H1.
      * unfold queues. destruct ok; [|by rewrite H2]. destruct (Hq (unixNano now)) as (_ & E & _).
        unfold queues in E. by rewrite E, H2.
  - pose proof (openAndVerify_silent sealed c) as H1. destruct (openAndVerify sealed c) as [[f|] c1];
      cbn [snd] in H1; [|intros [= <- <-]; by left].
    set (c2 := on_link i (with_rx (unixNano now)) c1). intros H. left.
    assert (H2 : silent c c2 []) by (apply (silent_trans _ c1 _ [] []); [done|by apply silent_on_link]).
    destruct (HasFlag f FlagPong).
    { injection H as <- <-. apply (silent_trans _ c2 _ [] []); [done|apply handlePong_silent]. }
    destruct (_ || _). { by injection H as <- <-. }
    apply bind_Ok in H as ([fs c3] & H3 & H). cbn [fst snd] in H.
    apply silent_call_dec in H3; [|apply push_params].
    assert (E : push_delivery now fs c3 = (c', out)) by congruence.
    pose proof (push_delivery_silent now fs c3) as H4. rewrite E in H4.
    apply (silent_trans _ c2 _ [] out); [done|]. by apply (silent_trans _ c3 _ [] out).
Qed.

Lemma ingress_ckeeps now a payload c c' out :
  ingress addr_string now a payload c = Ok (c', out) →
  ckeeps c c' ∧ (cl_session c = None → silent c c' out).
Proof.
  unfold ingress.
  match goal with |- context [if ?b then c else set_sess ?x c] =>
    set (c1 := if b then c else set_sess x c);
    assert (H1 : silent c c1 []) by (unfold c1; destruct b; [apply silent_refl|by apply silent_sess]) end.
  clearbody c1.
  destruct (_ <? _). { intros [= <- <-]. split; [by eapply silent_ckeeps|done]. }
  destruct (cl_session c1) as [k|] eqn:Es; [|intros [= <- <-]; split; [by eapply silent_ckeeps|done]].
  pose proof (silent_ckeeps _ _ _ H1) as K1. pose proof (ck_session _ _ K1) as E1.
  intros H. split; [|intros; congruence].
  pose proof (silent_ckeeps _ _ _ (sess_seq_silent c1)) as K2. destruct (sess_seq c1) as [q c2]. cbn [snd] in K2.
  pose proof (ckeeps_trans _ _ _ K1 K2) as K. clear K1 K2.
  destruct (k_crossPath _).
  - apply bind_Ok in H as ([fs c3] & H3 & H). cbn [fst snd] in H. apply silent_call_enc, silent_ckeeps in H3; [|apply push_call_params].
    apply sendCrossEncoded_ckeeps in H. eapply ckeeps_trans; [exact K|]. by eapply ckeeps_trans.
  - destruct (Pick _ _) as [r sched]. apply bind_Ok in H as (o & _ & H).
    assert (K3 : ckeeps c (set_csched sched c2)) by (eapply ckeeps_trans; [exact K|apply (silent_sched sched)]).
    destruct o as [id|]; [|by injection H as <- _]. destruct (byWAN id _) as [i|]; [|done].
    apply bind_Ok in H as ([fs c3] & H3 & H). cbn [fst snd] in H. apply silent_call_enc, silent_ckeeps in H3; [|apply push_call_params].
    pose proof (sendEncoded_ckeeps i fs c3) as H4.
    assert (E : sendEncoded i fs c3 = (c', out)) by congruence. rewrite E in H4.
    eapply ckeeps_trans; [exact K3|]. by eapply ckeeps_trans.
Qed.

(** A loop body that keeps, and is silent before the session. *)
Definition loop_keeps c c' out : Prop := ckeeps c c' ∧ (cl_session c = None → silent c c' out).

Lemma loop_refl c : loop_keeps c c [].
Proof. split; [apply ckeeps_refl|intros; apply silent_refl]. Qed.
Lemma loop_trans c1 c2 c3 o1 o2 : loop_keeps c1 c2 o1 → loop_keeps c2 c3 o2 → loop_keeps c1 c3 (o1 ++ o2).
Proof.
  intros [A1 A2] [B1 B2]. split; [by eapply ckeeps_trans|]. intros H.
  eapply silent_trans; [by apply A2|]. apply B2. by rewrite (ck_session _ _ A1).
Qed.
Lemma silent_loop c c' out : silent c c' out → loop_keeps c c' out.
Proof. intros H. split; [by eapply silent_ckeeps|done]. Qed.

Lemma sendEncoded_loop i fs c : loop_keeps c (sendEncoded i fs c).1 (sendEncoded i fs c).2.
Proof. split; [apply sendEncoded_ckeeps|apply sendEncoded_silent]. Qed.
Lemma sendCrossEncoded_loop fs c c' out : sendCrossEncoded fs c = Ok (c', out) → loop_keeps c c' out.
Proof. split; [by eapply sendCrossEncoded_ckeeps|intros; by eapply sendCrossEncoded_silent]. Qed.

Lemma tick_wans_loop now ids c c' out : tick_wans now ids c = Ok (c', out) → loop_keeps c c' out.
Proof.
  revert c c' out. induction ids as [|i ids IH]; intros c c' out; cbn [tick_wans].
  { intros [= <- <-]. apply loop_refl. }
  intros H. apply bind_Ok in H as ([fs c1] & H1 & H). cbn [fst snd] in H. apply silent_call_enc, silent_loop in H1; [|apply tick_call_params].
  pose proof (sendEncoded_loop i fs c1) as H2. destruct (sendEncoded i fs c1) as [c2 o2]. cbn [fst snd] in H2.
  apply bind_Ok in H as ([ds c3] & H3 & H). cbn [fst snd] in H. apply silent_call_dec, silent_loop in H3; [|apply dec_tick_params].
  pose proof (push_delivery_silent now ds c3) as H4. destruct (push_delivery now ds c3) as [c4 o4].
  apply silent_loop in H4. cbn [fst snd] in H4.
  apply bind_Ok in H as ([c5 o5] & H5 & H). cbn [fst snd] in H. apply IH in H5. injection H as <- <-.
  apply (loop_trans c c1 _ [] _ H1), (loop_trans c1 c2 _ o2 _ H2), (loop_trans c2 c3 _ [] _ H3).
  exact (loop_trans c3 c4 _ _ _ H4 H5).
Qed.

Lemma fecTick_loop now c c' out : client_fecTick now c = Ok (c', out) → loop_keeps c c' out.
Proof.
  unfold client_fecTick. intros H. apply bind_Ok in H as ([c1 o1] & H1 & H). cbn [fst snd] in H.
  pose proof (tick_delivery_silent now c1) as H2. destruct (tick_delivery now c1) as [c2 o2].
  apply silent_loop in H2. cbn [fst snd] in H2. injection H as <- <-.
  eapply loop_trans; [|exact H2]. clear H2. destruct (k_crossPath _); [|by eapply tick_wans_loop].
  apply bind_Ok in H1 as ([fs c3] & H3 & H). cbn [fst snd] in H. apply silent_call_enc, silent_loop in H3; [|apply tick_call_params].
  apply bind_Ok in H as ([c4 o4] & H4 & H). cbn [fst snd] in H. apply sendCrossEncoded_loop in H4.
  apply bind_Ok in H as ([ds c5] & H5 & H). cbn [fst snd] in H. apply silent_call_dec, silent_loop in H5; [|apply dec_tick_params].
  pose proof (push_delivery_silent now ds c5) as H6. destruct (push_delivery now ds c5) as [c6 o6].
  apply silent_loop in H6. cbn [fst snd] in H6. injection H as <- <-.
  apply (loop_trans c c3 _ [] _ H3), (loop_trans c3 c4 _ _ _ H4).
  exact (loop_trans c4 c5 _ [] _ H5 H6).
Qed.

Lemma health_wan_silent now i c c' : health_wan now i c = Ok c' → silent c c' [].
Proof.
  unfold health_wan. destruct (cl_links c !! i) as [l|]; [|intros [= <-]; apply silent_refl].
  intros H. apply bind_Ok in H as ([x1 c1] & H1 & H). cbn [fst snd] in H. apply silent_call_dec in H1; [|by intros d b d' [= _ <-]].
  apply bind_Ok in H as ([x2 c2] & H2 & H). cbn [fst snd] in H. apply silent_call_dec in H2; [|by intros d b d' [= _ <-]].
  apply bind_Ok in H as ([x3 c3] & H3 & H). cbn [fst snd] in H. apply silent_call_enc in H3; [|apply loss_call_params]. injection H as <-.
  apply (silent_trans c c1 _ [] [] H1), (silent_trans c1 c2 _ [] [] H2), (silent_trans c2 c3 _ [] [] H3).
  match goal with |- silent _ (set_csched ?s (on_link _ ?f _)) _ =>
    apply (silent_trans c3 (on_link i f c3) _ [] []); [by apply silent_on_link|apply (silent_sched s)] end.
Qed.

Lemma healthTick_silent now c c' : client_healthTick now c = Ok c' → silent c c' [].
Proof.
  unfold client_healthTick. generalize (seq 0 (length (cl_links c))). intros ids. revert c.
  induction ids as [|i ids IH]; intros c; cbn [health_wans]; [intros [= <-]; apply silent_refl|].
  intros H. apply bind_Ok in H as (c1 & H1 & H). apply health_wan_silent in H1. apply IH in H.
  exact (silent_trans c c1 _ [] [] H1 H).
Qed.

(** Once established, the key, the identity and the codec wiring are final. *)
Lemma step_established now ev c c' out a :
  cl_session c = Some a → client_step addr_string unmarshal cfg now ev c = Ok (c', out) → ckeeps c c'.
Proof.
  intros Hs. destruct ev as [i|i|i|i sealed|ad payload| |]; cbn [client_step]; intros H.
  - pose proof (handshake_send_ckeeps i c) as K.
    assert (E : handshake_send cfg i c = (c', out)) by congruence. by rewrite E in K.
  - pose proof (keepalive_send_ckeeps now i c) as K.
    assert (E : keepalive_send now i c = (c', out)) by congruence. by rewrite E in K.
  - pose proof (keepalive_send_ckeeps now i (on_link i (probe_outcome cfg now) c)) as K.
    assert (E : keepalive_send now i (on_link i (probe_outcome cfg now) c) = (c', out)) by (unfold keepalive_tick in H; congruence).
    rewrite E in K. exact (ckeeps_trans _ _ _ (ckeeps_on_link i (probe_outcome cfg now) c) K).
  - apply recv_frame_silent in H as [H|[H _]]; [by eapply silent_ckeeps|congruence].
  - by apply ingress_ckeeps in H as [H _].
  - by apply fecTick_loop in H as [H _].
  - apply bind_Ok in H as (c1 & H1 & H). injection H as <- _. by eapply silent_ckeeps, healthTick_silent.
Qed.

Lemma run_established evs c c' out a :
  cl_session c = Some a → client_run addr_string unmarshal cfg evs c = Ok (c', out) → ckeeps c c'.
Proof.
  revert c out. induction evs as [|[now ev] evs IH]; intros c out Hs; cbn [client_run].
  { intros [= <- _]. apply ckeeps_refl. }
  intros H. apply bind_Ok in H as ([c1 o1] & H1 & H). apply bind_Ok in H as ([c2 o2] & H2 & H).
  cbn [fst snd] in *. injection H as <- _. pose proof (step_established _ _ _ _ _ _ Hs H1) as K.
  eapply ckeeps_trans; [exact K|]. eapply IH; [|exact H2]. by rewrite (ck_session _ _ K).
Qed.

(** ** The key-exchange gate *)

(** The sealing of a hello of session [id] under the base key: what
    [handshakeLoop] sends. *)
Definition hello (id : Z) (b : list byte) : Prop :=
  ∃ seq cap plain,
    Encode (new_frame FlagFirst id seq 0 (be_put 4 cap ++ fit PublicKeySize (cc_pub cfg))) = Ok plain ∧
    Seal (cc_baseAEAD cfg) DirClientToServer plain = Ok b.

(** [b] waits in the send queue of some WAN. *)
Definition queued c (b : list byte) : Prop := ∃ s, Some s ∈ queues c ∧ b ∈ SendQueue.q s.

Definition gate c : Prop := cl_session c = None ∧ ∀ b, queued c b → hello (c_ID (cl_sess c)) b.

Lemma silent_gate c c' out :
  gate c → silent c c' out → gate c' ∧ ∀ i b, ToWAN i b ∉ out.
Proof.
  intros [Hn Hq] ([K1 K2 _ _] & Hs & Ho). split; [split|].
  - congruence.
  - intros b (s & H1 & H2). rewrite K2. apply Hq. exists s. by rewrite <-Hs.
  - intros i b Hin. rewrite Forall_forall in Ho. destruct (Ho _ Hin) as (a & p & ?). done.
Qed.

Lemma handshake_gate i c :
  gate c → gate (handshake_send cfg i c).1 ∧
    ∀ j b, ToWAN j b ∈ (handshake_send cfg i c).2 → hello (c_ID (cl_sess c)) b.
Proof.
  intros Hg. unfold handshake_send. destruct (_ !! i) as [w|].
  2:{ split; [done|]. by intros ? ? ?%elem_of_nil. }
  destruct (silent_gate c (sess_seq c).2 [] Hg (sess_seq_silent c)) as [Hg1 _].
  assert (Hid : c_ID (cl_sess (sess_seq c).2) = c_ID (cl_sess c)) by done.
  destruct (sess_seq c) as [sq c1]. cbn [snd] in *. rewrite <-Hid. set (f := new_frame _ _ _ _ _).
  unfold sendLocked. destruct (cl_links c1 !! i) as [wan|] eqn:Hl.
  2:{ split; [done|]. by intros ? ? ?%elem_of_nil. }
  change (HasFlag f FlagPassSeq) with false. cbn iota beta.
  destruct (Encode f) as [plain| |] eqn:Ep; [|split; [done|by intros ? ? ?%elem_of_nil]..].
  destruct (Seal _ _ plain) as [b| |] eqn:Eb; [|split; [done|by intros ? ? ?%elem_of_nil]..].
  assert (Hb : hello (c_ID (cl_sess c1)) b) by by eexists _, _, plain.
  destruct (l_q wan) as [s|] eqn:Hq.
  - destruct (enqueue b s) as [ok s'] eqn:Ee. cbn [fst snd].
    split; [|by intros ? ? ?%elem_of_nil]. destruct Hg1 as [Hn Hg1]. split; [done|].
    intros b' (s'' & Hin & Hb'). apply list_elem_of_lookup in Hin as [j Hj]. unfold queues in Hj.
    rewrite list_lookup_fmap in Hj. cbn in Hj. destruct (decide (j = i)) as [->|Hne].
    + rewrite list_lookup_alter_eq, Hl in Hj. cbn in Hj. injection Hj as <-.
      pose proof (enqueue_elem b s b') as H. rewrite Ee in H. destruct (H Hb') as [Hold| ->]; [|done].
      apply Hg1. exists s. split; [|done]. apply list_elem_of_lookup. exists i. unfold queues.
      by rewrite list_lookup_fmap, Hl; cbn; rewrite Hq.
    + rewrite list_lookup_alter_ne in Hj by done. apply Hg1. exists s''. split; [|done].
      apply list_elem_of_lookup. exists j. unfold queues. by rewrite list_lookup_fmap.
  - cbn [fst snd]. split; [done|]. by intros j b' [= -> ->]%list_elem_of_singleton.
Qed.

Lemma step_gate now ev c c' out :
  gate c → client_step addr_string unmarshal cfg now ev c = Ok (c', out) →
  c_ID (cl_sess c') = c_ID (cl_sess c) ∧
  (cl_session c' = None → gate c' ∧ ∀ i b, ToWAN i b ∈ out → hello (c_ID (cl_sess c)) b).
Proof.
  intros Hg. pose proof Hg as [Hn Hq].
  assert (Hsil : ∀ c' out, silent c c' out → c_ID (cl_sess c') = c_ID (cl_sess c) ∧
    (cl_session c' = None → gate c' ∧ ∀ i b, ToWAN i b ∈ out → hello (c_ID (cl_sess c)) b)).
  { intros d o Hs. split; [by destruct Hs as ([] & _)|]. intros _.
    destruct (silent_gate _ _ _ Hg Hs) as [H1 H2]. split; [done|]. by intros i b ?%H2. }
  destruct ev as [i|i|i|i sealed|ad payload| |]; cbn [client_step]; intros H.
  - pose proof (handshake_send_ckeeps i c) as K. pose proof (handshake_gate i c Hg) as G.
    assert (E : handshake_send cfg i c = (c', out)) by congruence. rewrite E in K, G. by destruct K.
  - pose proof (keepalive_silent now i c Hn) as K.
    assert (E : keepalive_send now i c = (c', out)) by congruence. rewrite E in K. by apply Hsil.
  - unfold keepalive_tick in H. set (c1 := on_link i (probe_outcome cfg now) c) in *.
    pose proof (keepalive_silent now i c1 Hn) as K.
    assert (E : keepalive_send now i c1 = (c', out)) by congruence. rewrite E in K.
    apply Hsil, (silent_trans c c1 c' [] out); [apply probe_outcome_silent|done].
  - apply recv_frame_silent in H as [H|(_ & -> & H1 & H2)]; [by apply Hsil|]. split; [done|].
    intros Hn'. split; [|by intros ? ? ?%elem_of_nil]. split; [done|]. intros b (s & Hs & Hb).
    rewrite H1. apply Hq. exists s. by rewrite <-H2.
  - apply ingress_ckeeps in H as [_ H]. by apply Hsil, H.
  - apply fecTick_loop in H as [_ H]. by apply Hsil, H.
  - apply bind_Ok in H as (c1 & H1 & H). injection H as <- <-. by apply Hsil, (healthTick_silent now).
Qed.

Lemma run_gate evs c c' out :
  gate c → client_run addr_string unmarshal cfg evs c = Ok (c', out) → cl_session c' = None →
  gate c' ∧ c_ID (cl_sess c') = c_ID (cl_sess c) ∧ ∀ i b, ToWAN i b ∈ out → hello (c_ID (cl_sess c)) b.
Proof.
  revert c out. induction evs as [|[now ev] evs IH]; intros c out Hg; cbn [client_run].
  { intros [= <- <-] _. split_and!; [done|done|]. by intros ? ? ?%elem_of_nil. }
  intros H Hn. apply bind_Ok in H as ([c1 o1] & H1 & H). apply bind_Ok in H as ([c2 o2] & H2 & H).
  cbn [fst snd] in *. injection H as <- <-.
  destruct (step_gate _ _ _ _ _ Hg H1) as [Hid Hs].
  assert (Hn1 : cl_session c1 = None).
  { destruct (cl_session c1) as [a|] eqn:E; [|done].
    pose proof (ck_session _ _ (run_established _ _ _ _ _ E H2)). congruence. }
  destruct (Hs Hn1) as [Hg1 Ho1]. destruct (IH _ _ Hg1 H2 Hn) as (Hg2 & Hid2 & Ho2).
  split_and!; [done|congruence|]. intros i b [?|?]%elem_of_app; [by eapply Ho1|].
  rewrite <-Hid. by eapply Ho2.
Qed.
End keeps.

(** ** A new client *)

Section new_client.
  Context {Addr R : Type} (addr_string : Addr → string).
  Context `{!Rand R} {rsl : ReedSolomon} {cph : Ciphers} {dhx : X25519}.
  Context (unmarshal : list byte → option ServerAnnounce) (ResolveUDPAddr SplitHostPort : string → bool).
  Context `{!RangeOrder Z frame, !RangeOrder Z (list byte), !RangeOrder blockKey blockState}.

Lemma new_wans_queues now (c : Config) ws k (sched : Scheduler R) k' ls sched' :
  new_wans now c ws k sched = Ok (k', ls, sched') →
  length ls = length ws ∧ Forall (λ l, ∀ s, l_q l = Some s → SendQueue.q s = []) ls.
Proof.
  revert k sched k' ls sched'. induction ws as [|w ws IH]; intros k sched k' ls sched'; cbn [new_wans].
  { intros [= <- <- <-]. by split. }
  intros H. apply bind_Ok in H as (p & _ & H). apply bind_Ok in H as (k1 & _ & H).
  apply refuse_Ok in H as [_ H]. apply bind_Ok in H as ([[k2 ls2] s2] & H2 & H). cbn [fst snd] in H.
  injection H as <- <- <-. destruct (IH _ _ _ _ _ H2) as [Hl Hq]. split; [by cbn; rewrite Hl|].
  constructor; [|done]. cbn. intros s. destruct (default _ _); [|done]. by intros [= <-].
Qed.

Lemma NewClient_gate now rnd priv r c0 v (c : client Addr R) :
  NewClient ResolveUDPAddr SplitHostPort now rnd priv r c0 = Ok (v, c) → gate v c.
Proof.
  unfold NewClient. intros H. apply bind_Ok in H as (cf & _ & H).
  do 3 apply refuse_Ok in H as [_ H].
  destruct (DeriveKey _) as [key| |]; [|done..]. destruct rnd as [rnd|]; [|done].
  destruct priv as [priv|]; [|done]. destruct (NewAEAD _ _) as [base| |]; [|done..].
  apply bind_Ok in H as (k & _ & H). apply bind_Ok in H as ([[k' ls] s'] & Hw & H).
  cbn [fst snd] in H. injection H as <- <-. apply new_wans_queues in Hw as [_ Hq].
  split; [done|]. intros b (s & Hs & Hb). unfold queues in Hs. cbn in Hs.
  apply list_elem_of_fmap in Hs as (l & E & Hl). rewrite Forall_forall in Hq.
  rewrite (Hq l Hl s (eq_sym E)) in Hb. by apply elem_of_nil in Hb.
Qed.

(** C14 — The key-exchange gate. From its construction on, whatever the inner
    peer, the network and the timers do, a client without a session key has
    handed to its WANs, or queued for them, nothing but sealed hello frames of
    its own session: no inner datagram and no probe leaves before the key
    exchange. *)
Theorem nothing_before_kex now rnd priv r c0 v c evs c' out :
  NewClient ResolveUDPAddr SplitHostPort now rnd priv r c0 = Ok (v, c) →
  client_run addr_string unmarshal v evs c = Ok (c', out) → cl_session c' = None →
  (∀ i b, ToWAN i b ∈ out → hello v (c_ID (cl_sess c)) b) ∧
  (∀ b, queued c' b → hello v (c_ID (cl_sess c)) b).
Proof.
  intros Hc Hr Hn. apply NewClient_gate in Hc.
  destruct (run_gate _ _ _ _ _ _ _ Hc Hr Hn) as ([_ Hq] & Hid & Ho). split; [done|].
  intros b Hb. rewrite <-Hid. by apply Hq.
Qed.
End new_client.

(** A cross-path announce whose codec cannot be built leaves the client in
    cross-path mode without an encoder; its next FEC tick calls a method of the
    nil pointer. *)
Lemma failed_announce_crashes {Addr R : Type} {rsl : ReedSolomon} `{!RangeOrder Z frame, !RangeOrder Z (list byte),
    !RangeOrder blockKey blockState} (unmarshal : list byte → option ServerAnnounce) now data ann p (c : client Addr R) :
  data ≠ [] → unmarshal data = Some ann → an_Version ann = AnnounceVersion →
  fec_Mode (normalize_announce (an_FEC ann)) = FECCrosspath →
  fecParamsFor (normalize_announce (an_FEC ann)) (an_MTU ann) None = Ok p → is_Ok (NewEncoder p) = false →
  let '(err, k) := applyAnnounce unmarshal data (cl_codecs c) in
  is_Some err ∧ client_fecTick now (set_codecs k c) = Panic.
Proof.
  intros Hd Hu Hv Hm Hp He. unfold applyAnnounce.
  rewrite (proj2 (Nat.eqb_neq _ _)) by (by destruct data). rewrite Hu, Hv, Z.eqb_refl, Hm. cbn [negb].
  cbn [set_cross k_crossPath]. rewrite String.eqb_refl, Hp. destruct (NewEncoder p); [done|by split..].
Qed.

(** ** Witness: a client with two WANs and no send queue *)

Section demo_client.
#[local] Existing Instances key_order sum_ciphers dh_exchange.

Definition client_document : Config :=
  mkConfig ModeClient "127.0.0.1:51821" "192.0.2.1:4500" "" "" (mkSched "" "" "" f0)
    (mkFEC false "" 0 f0 0 f0 f0 f0 f0 f0) 0
    [mkWAN "" "" "" "" 0 50 f0 None; mkWAN "lte" "" "" "" 0 20 f0 None] (mkDelivery 0 0)
    (mkHealth f0 f0 f0 f0 f0 f0 0 f0) (mkCrypto "secret" "") (mkLog "" "") (mkTelemetry "" "" f0)
    (mkQueue (Some false) 0 "" false) "".

Abbreviation demo_client := (NewClient (Addr := string) (λ _, true) (λ _, true) (unix_nano 0)
  (Some (be_put 8 77)) (Some (be_put 32 4711)) tt client_document).

Definition new_of (r : res string (client_cfg * client string unit)) : client_cfg * client string unit :=
  match r with
  | Ok p => p
  | _ => (mkClientCfg (sum_aead []) [] "" [] [] 0 0,
          mkTunnel (NewClientWithID 0) (mkCodecs (mkHeap ∅ ∅) false None None [] 0 None) []
            (newScheduler (mkSchedOptions "" "" "") tt) (newDeliveryBuffer 0 0) None)
  end.

Definition demo_ccfg : client_cfg := (new_of demo_client).1.
Definition demo_c0 : client string unit := (new_of demo_client).2.

Abbreviation demo_crun := (client_run (λ a : string, a) (λ _, None) demo_ccfg).

Definition demo_cevents : list (time * client_event string) :=
  [(unix_nano second, CHandshake 0); (unix_nano second, CProbe 0);
   (unix_nano (2 * second), CIngress "127.0.0.1:51820" [x45; x00]); (unix_nano (3 * second), CFecTick)].

Definition cresult (r : res unit (client string unit * list (client_output string))) :
    client string unit * list (client_output string) :=
  match r with Ok p => p | _ => (demo_c0, []) end.

Lemma new_of_Ok r : is_Ok r = true → r = Ok ((new_of r).1, (new_of r).2).
Proof. by destruct r as [[]| |]. Qed.
Lemma cresult_Ok r : is_Ok r = true → r = Ok ((cresult r).1, (cresult r).2).
Proof. by destruct r as [[]| |]. Qed.

(** One hello leaves; the probe and the datagram do not. *)
Definition demo_cend := cresult (demo_crun demo_cevents demo_c0).

Lemma demo_client_facts :
  is_Ok demo_client = true ∧ is_Ok (demo_crun demo_cevents demo_c0) = true ∧
  cl_session demo_cend.1 = None ∧ length demo_cend.2 = 1%nat.
Proof. vm_compute. done. Qed.

Lemma nothing_before_kex_witness :
  (∀ i b, ToWAN i b ∈ demo_cend.2 →
     hello demo_ccfg (c_ID (cl_sess demo_c0)) b) ∧ length demo_cend.2 = 1%nat.
Proof.
  destruct demo_client_facts as (B1 & B2 & B3 & B4). split; [|exact B4].
  exact (proj1 (nothing_before_kex (λ a : string, a) (λ _, None) (λ _, true) (λ _, true)
    (unix_nano 0) (Some (be_put 8 77)) (Some (be_put 32 4711)) tt client_document
    demo_ccfg demo_c0 demo_cevents demo_cend.1 demo_cend.2
    (new_of_Ok _ B1) (cresult_Ok _ B2) B3)).
Defined.
End demo_client.
