(* ===== verification/Wire.v ===== *)
(** * What a WAN of the client puts on the wire

    A sealed frame leaves the client at once on a WAN without a send queue, and
    through the queue's consumer otherwise. [carries] states what goes out for a
    step of the client in both cases. The consumer's token bucket only delays a
    frame and is the subject of SendQueue.v. *)

From S2P Require Import Prelude Float64 Frame SendQueue Scheduler FecCodec FecEncoder FecDecoder Crypto Session Config TunnelParams Client.

#[local] Open Scope Z_scope.
#[local] Open Scope list_scope.

(** [b] is a sealing that the other end opens as the frame [f]. *)
Definition reads (a : AEAD) (dir : NonceDirection) (f : frame) (b : list byte) : Prop :=
  ∃ plain, Open a dir b = Ok plain ∧ Decode plain = Ok (set_version Version f) ∧
    DecodeHeader b = Ok (set_payload [] (set_version Version f)).

(** An open queue with [n] bytes to spare takes a frame of at most that size. *)
Definition has_room (n : Z) (s : sendQueue) : Prop :=
  SendQueue.closed s = false ∧ queue_ok s ∧ total (q s) + n ≤ maxBytes s.

Lemma enqueue_room n b s :
  has_room n s → len b ≤ n →
  (enqueue b s).1 = true ∧ q (enqueue b s).2 = q s ++ [b] ∧ has_room (n - len b) (enqueue b s).2.
Proof.
  intros (Hc & [Hb Hbd Hm] & Hr) Hn. pose proof (len_nonneg b). pose proof (total_nonneg (q s)).
  unfold enqueue. rewrite Hc, (proj2 (Z.ltb_ge _ _)) by lia. rewrite Hb, i64_small by lia.
  rewrite (proj2 (Z.ltb_ge _ _)) by lia. cbn [fst snd]. do 2 (split; [done|]).
  split; [exact Hc|]. split; [split|]; cbn; rewrite ?total_snoc; lia.
Qed.

Section wire.
  Context {Addr R : Type} {rsl : ReedSolomon}.

  Implicit Types (c : client Addr R) (out : list (client_output Addr)).

Definition sent_up out : list (list byte) :=
  flat_map (λ o, match o with ToWAN _ b => [b] | ToInner _ _ => [] end) out.

(** The consumer of WAN [i] takes the head of the queue and sends it. *)
Definition consume (i : nat) c : client Addr R * list (list byte) :=
  match cl_links c !! i ≫= l_q with
  | None => (c, [])
  | Some s =>
      let '(r, s) := popNext s in
      (on_link i (with_q (Some s)) c, match r with Popped b => [b] | _ => [] end)
  end.

Fixpoint drain (n : nat) (i : nat) c : client Addr R * list (list byte) :=
  match n with
  | O => (c, [])
  | S n => let '(c, b) := consume i c in let '(c, bs) := drain n i c in (c, b ++ bs)
  end.

(** The frames waiting in the queue of WAN [i]. *)
Definition waiting (i : nat) c : list (list byte) := from_option q [] (cl_links c !! i ≫= l_q).

(** The WAN has no queue, or an open one with [n] bytes to spare. *)
Definition room (i : nat) (n : Z) c : Prop :=
  ∃ l, cl_links c !! i = Some l ∧ from_option (has_room n) True (l_q l).

(** A step from [c] with the result [r] hands frames to WAN [i] alone, and that
    WAN sends exactly [bs], after what its queue held before: at once, or as the
    consumer empties the queue. *)
Definition carries (i : nat) c (r : client Addr R * list (client_output Addr)) (bs : list (list byte)) : Prop :=
  Forall (λ o, ∃ b, o = ToWAN i b) r.2 ∧
  sent_up r.2 ++ (drain (length (waiting i c ++ bs)) i r.1).2 = waiting i c ++ bs.

(** The consumer touches nothing but the queue. *)
Lemma consume_fields i c :
  let c' := (consume i c).1 in
  cl_sess c' = cl_sess c ∧ cl_codecs c' = cl_codecs c ∧ cl_session c' = cl_session c ∧
  cl_sched c' = cl_sched c ∧ cl_delivery c' = cl_delivery c.
Proof. unfold consume. destruct (_ ≫= _) as [s|]; [|done]. by destruct (popNext s). Qed.

Lemma drain_fields n i c :
  let c' := (drain n i c).1 in
  cl_sess c' = cl_sess c ∧ cl_codecs c' = cl_codecs c ∧ cl_session c' = cl_session c ∧
  cl_sched c' = cl_sched c ∧ cl_delivery c' = cl_delivery c.
Proof.
  revert c. induction n as [|n IH]; intros c; [done|]. cbn [drain]. pose proof (consume_fields i c) as K.
  destruct (consume i c) as [c1 b]. specialize (IH c1). destruct (drain n i c1) as [c2 bs]. cbn [fst] in *.
  destruct K as (-> & -> & -> & -> & ->) in IH. exact IH.
Qed.

Lemma waiting_on_link i f c :
  waiting i (on_link i f c) = from_option q [] (cl_links c !! i ≫= λ l, l_q (f l)).
Proof. unfold waiting, on_link. cbn. rewrite list_lookup_alter_eq. by destruct (cl_links c !! i). Qed.

(** Draining the queue sends what waited in it. *)
Lemma drain_waiting n i c : (length (waiting i c) ≤ n)%nat → (drain n i c).2 = waiting i c.
Proof.
  revert c. induction n as [|n IH]; intros c Hn.
  { cbn [drain snd]. symmetry. apply nil_length_inv. lia. }
  assert (K : (consume i c).2 ++ waiting i (consume i c).1 = waiting i c ∧
    (length (waiting i (consume i c).1) ≤ n)%nat).
  { unfold consume. destruct (cl_links c !! i ≫= l_q) as [s|] eqn:E.
    - assert (Ew : waiting i c = q s) by (unfold waiting; by rewrite E). rewrite Ew in *.
      assert (Hs : ∀ s', waiting i (on_link i (with_q (Some s')) c) = q s').
      { intros s'. rewrite waiting_on_link. by destruct (cl_links c !! i). }
      unfold popNext. destruct (q s) as [|b l] eqn:Eq; [destruct (SendQueue.closed s)|]; cbn [fst snd]; rewrite Hs.
      1,2: rewrite Eq; split; [done|cbn; lia].
      split; [done|]. cbn in *. lia.
    - assert (Ew : waiting i c = []) by (unfold waiting; by rewrite E). cbn [fst snd]. rewrite Ew. split; [done|cbn; lia]. }
  cbn [drain]. destruct (consume i c) as [c1 b]. destruct K as [K1 K2]. specialize (IH c1 K2).
  destruct (drain n i c1) as [c2 bs]. cbn [fst snd] in *. by rewrite IH, K1.
Qed.

Lemma carries_intro i c c' out bs :
  Forall (λ o, ∃ b, o = ToWAN i b) out → sent_up out ++ waiting i c' = waiting i c ++ bs → carries i c (c', out) bs.
Proof.
  intros Ho Hw. split; [done|]. cbn [fst snd]. rewrite drain_waiting; [done|].
  rewrite <-Hw, length_app. lia.
Qed.

(** Without a queue the frames are the output itself. *)
Lemma carries_direct i c c' out bs :
  (cl_links c !! i ≫= l_q) = None → (cl_links c' !! i ≫= l_q) = None → carries i c (c', out) bs → out = map (ToWAN i) bs.
Proof.
  intros H1 H2 [Ho Hw]. cbn [fst snd] in *. unfold waiting in Hw. rewrite H1 in Hw. cbn [from_option app] in Hw.
  rewrite (drain_waiting _ i c') in Hw; unfold waiting in *; rewrite ?H2 in *; cbn [from_option length] in *; [|lia].
  rewrite app_nil_r in Hw. subst bs. induction Ho as [|o out (b & ->) _ IH]; [done|]. cbn. by f_equal.
Qed.

Lemma room_le i n m c : m ≤ n → room i n c → room i m c.
Proof.
  intros Hm (l & Hl & Hr). exists l. split; [done|]. destruct (l_q l) as [s|]; [|done]. cbn in *.
  destruct Hr as (H1 & H2 & H3). split_and!; [done..|lia].
Qed.

Lemma room_waiting_on_link i n f c :
  (∀ l, l_q (f l) = l_q l) → room i n c → room i n (on_link i f c) ∧ waiting i (on_link i f c) = waiting i c.
Proof.
  intros Hf (l & Hl & Hr). split.
  - exists (f l). unfold on_link. cbn. by rewrite list_lookup_alter_eq, Hl, Hf.
  - rewrite waiting_on_link. unfold waiting. rewrite Hl. cbn. by rewrite Hf.
Qed.

(** The size of a frame once sealed. *)
Definition sealed_len (a : AEAD) (n : Z) : Z := Z.of_nat HeaderSize + n + Z.of_nat (Overhead a).

Lemma seal_reads a f `{!AEADLaws a} :
  wf_frame f → Z.of_nat (length (f_payload f)) ≤ MaxPayload →
  ∃ plain b, Encode f = Ok plain ∧ Seal a DirClientToServer plain = Ok b ∧ reads a DirClientToServer f b ∧
    len b = sealed_len a (Z.of_nat (length (f_payload f))).
Proof.
  intros Hwf Hlen. destruct (seal_frame a DirClientToServer f Hwf Hlen) as (plain & b & E1 & E2 & E3 & E4 & E5).
  exists plain, b. split_and!; [done|done|by exists plain|].
  unfold len, sealed_len. rewrite (length_Seal a _ _ _ E2), (length_Encode _ _ E1). lia.
Qed.

(** The frame [sendLocked] seals: data frames of the pass-through path take the
    WAN's own number. *)
Definition stamped (l : wanLink) (f : frame) : frame :=
  if HasFlag f FlagPassSeq then set_block (l_pathSeq l) f else f.

(** [sendLocked] on a WAN with room: the frame is sealed and goes out, or to the
    end of the queue. *)
Lemma sendLocked_room i f a c l n `{!AEADLaws a} :
  cl_links c !! i = Some l → from_option (has_room n) True (l_q l) →
  wf_frame (stamped l f) → Z.of_nat (length (f_payload f)) ≤ MaxPayload →
  sealed_len a (Z.of_nat (length (f_payload f))) ≤ n →
  ∃ b c' out, sendLocked i f (Some a) c = (None, c', out) ∧ reads a DirClientToServer (stamped l f) b ∧
    Forall (λ o, ∃ b, o = ToWAN i b) out ∧ sent_up out ++ waiting i c' = waiting i c ++ [b] ∧
    room i (n - sealed_len a (Z.of_nat (length (f_payload f)))) c' ∧
    cl_sess c' = cl_sess c ∧ cl_codecs c' = cl_codecs c ∧ cl_session c' = cl_session c.
Proof.
  intros Hl Hr Hwf Hlen Hn. unfold sendLocked. rewrite Hl.
  set (r := if HasFlag f FlagPassSeq then _ else (f, c)).
  assert (Hrr : r.1 = stamped l f ∧ (∃ l', cl_links r.2 !! i = Some l' ∧ l_q l' = l_q l) ∧
    cl_sess r.2 = cl_sess c ∧ cl_codecs r.2 = cl_codecs c ∧ cl_session r.2 = cl_session c).
  { unfold r, stamped. destruct (HasFlag f FlagPassSeq); cbn [fst snd]; split_and!; try done; [|by exists l].
    exists (with_pathseq (u32 (l_pathSeq l + 1)) l). unfold on_link. cbn. by rewrite list_lookup_alter_eq, Hl. }
  destruct r as [f' c1]. cbn [fst snd] in Hrr. destruct Hrr as (-> & (l1 & Hl1 & Hq1) & K1 & K2 & K3).
  assert (Hpl : f_payload (stamped l f) = f_payload f) by (unfold stamped; by destruct (HasFlag _ _)).
  destruct (seal_reads a (stamped l f) Hwf) as (plain & b & -> & -> & Hb & Hsz); [by rewrite Hpl|].
  rewrite Hpl in Hsz. assert (Hw : waiting i c = from_option q [] (l_q l)) by (unfold waiting; by rewrite Hl).
  rewrite Hw. destruct (l_q l) as [s|].
  - cbn [from_option] in *. pose proof (enqueue_room n b s Hr) as He. rewrite Hsz in He.
    destruct (enqueue b s) as [ok s']. cbn [fst snd] in He. destruct (He Hn) as (-> & Hq & Hr').
    exists b, (on_link i (with_q (Some s')) c1), []. split_and!; try done.
    + cbn. rewrite waiting_on_link, Hl1. cbn. by rewrite Hq.
    + exists (with_q (Some s') l1). unfold on_link. cbn. by rewrite list_lookup_alter_eq, Hl1.
  - exists b, c1, [ToWAN i b]. split_and!; try done.
    + repeat constructor. by exists b.
    + unfold waiting. rewrite Hl1. cbn. by rewrite Hq1.
    + exists l1. rewrite Hq1. done.
Qed.
End wire.

(** A test for [room]. *)
Definition room_check {Addr R : Type} {rsl : ReedSolomon} (i : nat) (n : Z) (c : client Addr R) : bool :=
  match cl_links c !! i with
  | None => false
  | Some l =>
      match l_q l with
      | None => true
      | Some s =>
          negb (SendQueue.closed s) && (bytes s =? total (q s)) && (total (q s) <=? maxBytes s) &&
          (0 <? maxBytes s) && (maxBytes s <? 2 ^ 62) && (total (q s) + n <=? maxBytes s)
      end
  end.

Lemma room_check_sound {Addr R : Type} {rsl : ReedSolomon} i n (c : client Addr R) : room_check i n c = true → room i n c.
Proof.
  unfold room_check, room. destruct (cl_links c !! i) as [l|]; [|done]. intros H. exists l. split; [done|].
  destruct (l_q l) as [s|]; [|done]. cbn. rewrite !andb_true_iff, negb_true_iff, Z.eqb_eq, !Z.leb_le, !Z.ltb_lt in H.
  destruct H as (((((H1 & H2) & H3) & H4) & H5) & H6). split; [done|]. split; [by split|done].
Qed.
