(* ===== verification/Handshake.v ===== *)
(** * The two ends together

    The client's loops against the server's handlers: the key exchange
    establishes one session key and one coding on both ends, an inner datagram
    crosses the tunnel in either direction, and what a control frame in between
    does to the client's reassembly. *)

From S2P Require Import Prelude Float64 Frame Replay Delivery Health Scheduler FecCodec FecEncoder FecDecoder Crypto Session Config TunnelParams Client ClientProps Wire Server.

#[local] Open Scope string_scope.
#[local] Open Scope Z_scope.
#[local] Open Scope list_scope.

Section both_ends.
  (** Endpoints of the server, endpoints of the client's inner side. *)
  Context {Addr Inner R : Type} (addr_string : Addr → string) (inner_string : Inner → string).
  Context `{!Rand R} {rsl : ReedSolomon} {cph : Ciphers} {dhx : X25519}.
  Context `{!RangeOrder Z firstWindow, !RangeOrder Z ptr, !RangeOrder Z (list byte),
            !RangeOrder blockKey blockState, !RangeOrder Z (sessState Addr R), !RangeOrder string (pathState Addr),
            !RangeOrder Z frame}.
  (** [json.Marshal] and [json.Unmarshal] of the announce. *)
  Context (marshal : ServerAnnounce → list byte) (unmarshal : list byte → option ServerAnnounce).
  Context (v : server_cfg) (cc : client_cfg).

  Implicit Types (c : client Inner R) (s : server Addr R).

(** ** The server's side *)

(** [x'] is [x] up to its endpoints and its activity time. *)
Definition touched (x x' : ServerSession Addr Encoder) : Prop :=
  s_replay x' = s_replay x ∧ s_ID x' = s_ID x ∧ s_aead x' = s_aead x ∧ s_Enc x' = s_Enc x ∧
  s_seq x' = s_seq x ∧ s_ServerPub x' = s_ServerPub x ∧ s_egress x' = s_egress x.

Lemma touched_refl x : touched x x.
Proof. by split_and!. Qed.

Lemma stateFor_world r id s : sv_world (stateFor v r id s).2 = sv_world s ∧ sv_dec (stateFor v r id s).2 = sv_dec s.
Proof. unfold stateFor. by destruct (sv_states s !! id). Qed.

(** [registerPath] touches the session and leaves the table and the decoder. *)
Lemma registerPath_session e p id ua payload s x :
  session_at p s = Some x →
  let s' := registerPath addr_string v e p id ua payload s in
  mgr (sv_world s') = mgr (sv_world s) ∧ sv_dec s' = sv_dec s ∧
  ∃ x', session_at p s' = Some x' ∧ touched x x'.
Proof.
  intros Hx. unfold registerPath. destruct (stateFor_world (e_rng e) id s) as [W1 W2].
  destruct (stateFor v (e_rng e) id s) as [st s1]. cbn [snd] in *.
  set (st1 := mkSessState _ _ _).
  assert (H1 : ∀ st', session_at p (set_state id st' s1) = Some x)
    by (intros; unfold session_at; cbn; by rewrite W1).
  destruct (admit_path _ _ e ua st1) as [[ps st2]|]; cbn zeta.
  - split_and!; [by cbn; rewrite W1|by cbn; rewrite W2|].
    rewrite session_on_session. case_decide; [|done]. rewrite H1. cbn. eexists. split; [reflexivity|].
    by split_and!.
  - split_and!; [by cbn; rewrite W1|by cbn; rewrite W2|]. eauto using touched_refl.
Qed.

Lemma feqb_eq x y : (x =.? y) = true → x = y.
Proof.
  destruct x as [a|a|], y as [b|b|]; cbn; try done; [by intros ->%Z.eqb_eq|by intros ->%Bool.eqb_prop].
Qed.

(** The path [ua] of session [id] after the handler registered it with a declared
    capacity: it is the last one seen, and with room for it it is the entry of
    its address among the session's paths, the others as they were. *)
Definition registered (id : Z) (ua : Addr) (cap : f64) s s' : Prop :=
  ∃ st, sv_states s' !! id = Some st ∧ st_lastSeen st = Some ua ∧
    let old := from_option st_paths ∅ (sv_states s !! id) in
    let k := addr_string ua in
    (is_Some (old !! k) ∨ (size old < maxPathsPerSession)%nat →
     ∃ ps, st_paths st = <[k := ps]> old ∧ ps_capacity ps = cap ∧ (old !! k = None → ps_addr ps = ua)).

(** The first path of a session is its only one. *)
Lemma registered_first id ua cap s s' :
  registered id ua cap s s' → sv_states s !! id = None →
  ∃ st ps, sv_states s' !! id = Some st ∧ st_lastSeen st = Some ua ∧
    st_paths st = {[addr_string ua := ps]} ∧ ps_addr ps = ua ∧ ps_capacity ps = cap.
Proof.
  intros (st & H1 & H2 & H3) Hn. rewrite Hn in H3. cbn in H3.
  destruct H3 as (ps & H4 & H5 & H6); [right; rewrite map_size_empty; unfold maxPathsPerSession; lia|].
  exists st, ps. split_and!; try done. apply H6. by rewrite lookup_empty.
Qed.

Lemma registerPath_registered e p id ua payload s :
  (4 ≤ length payload)%nat →
  registered id ua (declared_capacity v payload) s (registerPath addr_string v e p id ua payload s).
Proof.
  intros Hp. unfold registerPath, registered. set (old := from_option st_paths ∅ (sv_states s !! id)).
  assert (Ho : st_paths (stateFor v (e_rng e) id s).1 = old)
    by (unfold stateFor, old; by destruct (sv_states s !! id)).
  destruct (stateFor v (e_rng e) id s) as [st s1]. cbn [fst] in Ho. rewrite (proj2 (Nat.leb_le _ _) Hp).
  set (k := addr_string ua). set (st1 := mkSessState _ (st_paths st) (Some ua)).
  destruct (admit_path addr_string v e ua st1) as [[ps st2]|] eqn:Ha.
  2:{ exists st1. cbn. rewrite lookup_insert_eq. split_and!; try done. rewrite <-Ho. intros Hroom. exfalso.
      unfold admit_path in Ha. cbn [st1 st_paths] in Ha. fold k in Ha. destruct (st_paths st !! k) eqn:Ek; [done|].
      destruct (Nat.leb_spec maxPathsPerSession (size (st_paths st))) as [|Hlt]; [|done].
      destruct Hroom as [[? ?]|?]; [congruence|lia]. }
  assert (H2 : st_lastSeen st2 = Some ua ∧ (∀ ps', <[k := ps']> (st_paths st2) = <[k := ps']> old) ∧
    (old !! k = None → ps_addr ps = ua)).
  { unfold admit_path in Ha. cbn [st1 st_paths] in Ha. fold k in Ha. destruct (st_paths st !! k) eqn:Ek.
    - injection Ha as <- <-. cbn. rewrite <-Ho, Ek. by split_and!.
    - destruct (_ <=? _)%nat; [done|]. injection Ha as <- <-. cbn. rewrite Ho.
      split_and!; [done| |done]. intros ps'. by rewrite insert_insert_eq. }
  destruct H2 as (L2 & P2 & A2). set (ps1 := mkPathState _ _ _ _ _ _).
  destruct (declared_capacity v payload =.? ps_capacity ps1) eqn:Ec; cbn [negb];
    eexists; (split; [cbn; by rewrite lookup_insert_eq|]); (split; [exact L2|]); cbn [set_sched set_path st_paths];
    intros _; rewrite ?insert_insert_eq, P2.
  - exists ps1. split_and!; [done| |exact A2]. by rewrite (feqb_eq _ _ Ec).
  - eexists. split_and!; [reflexivity|done|exact A2].
Qed.

(** A window that has seen nothing accepts any number. *)
Lemma fresh_window_accepts seq :
  is_u32 seq → (CheckAndMark (NewReplayWindow DefaultReplayWindow) seq).1 = true.
Proof.
  intros Hq. destruct (CheckAndMark_step _ [] seq default_window_inv Hq) as (-> & _).
  change (w_window (NewReplayWindow DefaultReplayWindow)) with DefaultReplayWindow. unfold spec_accept. apply andb_true_iff. split.
  - apply bool_decide_eq_true_2. by intros ?%elem_of_nil.
  - apply Z.ltb_lt. unfold DefaultReplayWindow, top, is_u32 in *. cbn. lia.
Qed.

(** The session the handler creates for a hello. *)
Definition new_session (id : Z) (aead : AEAD) (enc : Encoder) (sp : list byte) (sock : Z) (now : time) :
    ServerSession Addr Encoder :=
  SetEgress sock (set_codec enc (x_public sp) (NewServerSession id aead now)).

(** What the server needs to accept a hello of session [id]: room, a first sight
    of the id, a key pair, a socket, and a cipher and an encoder that can be
    built. *)
Record ready (e : env R) (id : Z) (pub : list byte) (s : server Addr R)
    (sp : list byte) (sock : Z) (aead : AEAD) (enc : Encoder) : Prop := {
  rd_room : (Count (mgr (sv_world s)) < maxSessions)%nat;
  rd_new : Get (mgr (sv_world s)) id = None;
  rd_first : firstWindows (mgr (sv_world s)) !! id = None;
  rd_priv : e_priv e = Some sp;
  rd_dial : e_dial e = Some sock;
  rd_now : 0 < e_now e;
  rd_aead : ∃ shared, ECDHShared sp pub = Ok shared ∧
    NewAEAD (DerivePFSKey (v_psk v) shared id) (v_cipher v) = Ok aead;
  rd_enc : NewEncoder (v_fecParams v) = Ok enc;
}.

Lemma create_session_new e id seq f s pub sp sock aead enc :
  server_ok s → is_u32 seq → ready e id pub s sp sock aead enc →
  (4 + PublicKeySize ≤ length (f_payload f))%nat → slice 4 (4 + PublicKeySize) (f_payload f) = pub →
  ∃ p s', create_session v e id seq f s = (Some p, s') ∧ Get (mgr (sv_world s')) id = Some p ∧
    session_at p s' = Some (new_session id aead enc sp sock (e_now e)) ∧ sv_dec s' = sv_dec s ∧
    sv_states s' = sv_states s.
Proof.
  intros Hok Hq [H1 H2 H3 H4 H5 H6 (shared & H7 & H7') H8] Hlen Hpub.
  unfold create_session. rewrite (proj2 (Nat.leb_gt _ _) H1).
  pose proof (set_first_ok s id seq (e_now e) (closed (sv_world s)) Hq H6 Hok) as [Hs1 Hm]. cbn zeta in *.
  destruct (CheckFirst_entry (mgr (sv_world s)) id seq (e_now e)) as (Hacc & _ & _). cbn zeta in Hacc.
  rewrite H3 in Hacc. cbn [from_option fw_win] in Hacc. rewrite fresh_window_accepts in Hacc by done.
  destruct (CheckFirstReplay _ _ _ _) as [ok m]. cbn [fst snd] in *. subst ok. cbn [negb].
  rewrite (proj2 (Nat.ltb_ge _ _) Hlen), Hpub, H4, H7, H5. cbn [mgr heap closed]. rewrite H7', H8.
  set (s1 := set_world _ s) in *. fold (new_session id aead enc sp sock (e_now e)).
  destruct (alloc _ _) as [p w] eqn:Ea.
  destruct (put_ok s1 (new_session id aead enc sp sock (e_now e)) p w Ea eq_refl (NewAEAD_laws _ _ _ H7'))
    as (_ & _ & G1 & G2).
  - cbn. rewrite Hm. exact H2.
  - cbn. unfold Count in *. by rewrite Hm.
  - exact Hs1.
  - by exists p, (set_world (Put w p) s1).
Qed.

(** The whole answer to a hello: the session and the ACK under the base key. *)
Lemma server_greets e hdr sealed ua s plain f pub sp sock aead enc :
  server_ok s → is_u32 (f_seq hdr) → ready e (f_session hdr) pub s sp sock aead enc →
  Open (v_baseAEAD v) DirClientToServer sealed = Ok plain → Decode plain = Ok f →
  (4 + PublicKeySize ≤ length (f_payload f))%nat → slice 4 (4 + PublicKeySize) (f_payload f) = pub →
  ∃ s' p x, handle_first addr_string v e hdr sealed (Some ua) s =
      (s', sendToAddrKey ua (new_frame (Z.lor FlagControl FlagKex) (f_session hdr) 1 0 (x_public sp ++ v_ann v))
             (v_baseAEAD v)) ∧
    Get (mgr (sv_world s')) (f_session hdr) = Some p ∧ session_at p s' = Some x ∧
    s_ID x = f_session hdr ∧ s_aead x = aead ∧ s_egress x = Some sock ∧ s_Enc x = Some enc ∧ sv_dec s' = sv_dec s ∧
    registered (f_session hdr) ua (declared_capacity v (f_payload f)) s s'.
Proof.
  intros Hok Hq Hr Ho Hd Hlen Hpub. unfold handle_first. rewrite Ho, Hd. cbn zeta. rewrite (rd_new _ _ _ _ _ _ _ _ Hr).
  destruct (create_session_new e _ (f_seq hdr) f s pub sp sock aead enc Hok Hq Hr Hlen Hpub)
    as (p & s1 & -> & Hg1 & Hx1 & Hd1 & Hst1).
  unfold check_replay, CheckReplay. rewrite Hx1. set (x0 := new_session _ _ _ _ _ _) in *.
  pose proof (fresh_window_accepts (f_seq hdr) Hq) as Ha.
  change (s_replay x0) with (NewReplayWindow DefaultReplayWindow).
  destruct (CheckAndMark (NewReplayWindow DefaultReplayWindow) (f_seq hdr)) as [ok w]. cbn [fst] in Ha. subst ok.
  cbn [negb]. set (x1 := mkSess _ _ _ _ _ _ _ _ _). set (s2 := on_session p (λ _, x1) s1).
  assert (Hx2 : session_at p s2 = Some x1) by (unfold s2; rewrite session_on_session; case_decide; [by rewrite Hx1|done]).
  set (s3 := on_session p (Touch (e_now e)) s2).
  assert (Hx3 : session_at p s3 = Some (Touch (e_now e) x1))
    by (unfold s3; rewrite session_on_session; case_decide; [by rewrite Hx2|done]).
  destruct (registerPath_session e p (f_session hdr) ua (f_payload f) s3 _ Hx3) as (M & D & x4 & Hx4 & T).
  assert (Hreg := registerPath_registered e p (f_session hdr) ua (f_payload f) s3 ltac:(lia)).
  unfold registered in Hreg. change (sv_states s3) with (sv_states s1) in Hreg. rewrite Hst1 in Hreg.
  set (s4 := registerPath _ _ _ _ _ _ _ _) in *. destruct T as (_ & T1 & T2 & T3 & T4 & T5 & T6).
  unfold sendAck, next_seq. rewrite Hx4. cbn [NextSeq]. rewrite T1, T4, T5.
  eexists _, p, _. split; [reflexivity|].
  rewrite session_on_session. case_decide; [|done]. rewrite Hx4. cbn.
  change (mgr (sv_world s4) = mgr (sv_world s1)) in M. rewrite M, D. split_and!; try done.
Qed.

(** ** The client's side *)

(** Both ends run with the same pre-shared key, and the client with a key pair
    of its own. *)
Record paired : Prop := {
  pr_base : cc_baseAEAD cc = v_baseAEAD v;
  pr_psk : cc_psk cc = v_psk v;
  pr_cipher : cc_cipher cc = v_cipher v;
  pr_priv : length (cc_priv cc) = PublicKeySize;
  pr_pub : cc_pub cc = x_public (cc_priv cc);
}.

Lemma fit_exact n b : length b = n → fit n b = b.
Proof. intros <-. unfold fit. by rewrite take_ge, Nat.sub_diag, app_nil_r. Qed.

Definition hello_frame (id q cap : Z) : frame := new_frame FlagFirst id q 0 (be_put 4 (u32 cap) ++ cc_pub cc).

(** The length of a sealed hello. *)
Definition hello_len : Z := sealed_len (cc_baseAEAD cc) (Z.of_nat (4 + PublicKeySize)).

Lemma client_greets i c w `{!AEADLaws (cc_baseAEAD cc)} :
  k_wans (cl_codecs c) !! i = Some w → room i hello_len c → is_u64 (c_ID (cl_sess c)) →
  length (cc_pub cc) = PublicKeySize →
  ∃ q b c1 out, is_u32 q ∧ handshake_send cc i c = (c1, out) ∧ carries i c (c1, out) [b] ∧
    cl_sess c1 = cl_sess (sess_seq c).2 ∧ cl_codecs c1 = cl_codecs c ∧ cl_session c1 = cl_session c ∧
    reads (cc_baseAEAD cc) DirClientToServer (hello_frame (c_ID (cl_sess c)) q (w_CapacityMbps (wc_cfg w))) b.
Proof.
  intros Hw (l & Hl & Hr) Hid Hp. unfold handshake_send. rewrite Hw, fit_exact by done.
  cbn [sess_seq Client_NextSeq fst snd]. set (q := u32 _). set (c1 := set_sess _ c).
  set (f := hello_frame (c_ID (cl_sess c)) q (w_CapacityMbps (wc_cfg w))).
  assert (Hlen : Z.of_nat (length (f_payload f)) = Z.of_nat (4 + PublicKeySize)) by (cbn; by rewrite Hp).
  destruct (sendLocked_room i f (cc_baseAEAD cc) c1 l hello_len) as (b & c2 & out & E & Hb & Ho & Hw' & _ & K1 & K2 & K3).
  - exact Hl.
  - exact Hr.
  - split; [done..|done|apply u32_range|done].
  - rewrite Hlen. done.
  - rewrite Hlen. done.
  - exists q, b, c2, out. split; [apply u32_range|].
    assert (E' : sendLocked i (new_frame FlagFirst (c_ID (cl_sess c1)) q 0
      (be_put 4 (u32 (w_CapacityMbps (wc_cfg w))) ++ cc_pub cc)) (Some (cc_baseAEAD cc)) c1 = (None, c2, out)) by exact E.
    rewrite E'. split_and!; try done. by apply carries_intro.
Qed.

(** The ACK of a server whose announce the client can adopt. *)
Lemma client_adopts c ack plain f spub shared aead k' :
  cl_session c = None → Open (cc_baseAEAD cc) DirServerToClient ack = Ok plain → Decode plain = Ok f →
  f_session f = c_ID (cl_sess c) → take PublicKeySize (f_payload f) = spub → length spub = PublicKeySize →
  ECDHShared (cc_priv cc) spub = Ok shared →
  NewAEAD (DerivePFSKey (cc_psk cc) shared (c_ID (cl_sess c))) (cc_cipher cc) = Ok aead →
  applyAnnounce unmarshal (drop PublicKeySize (f_payload f)) (cl_codecs c) = (None, k') →
  handleKexAck unmarshal cc ack c = (true, setSessionAEAD aead (set_codecs k' c)).
Proof.
  intros Hn Ho Hd Hid Hpub Hlen He Ha Hk. unfold handleKexAck.
  rewrite Ho, Hd, Hid, Z.eqb_refl. cbn [negb].
  rewrite (proj2 (Nat.ltb_ge _ _)).
  - by rewrite Hn, Hpub, He, Ha, Hk.
  - rewrite <-Hlen, <-Hpub, length_take. lia.
Qed.

(** Two documents with one pre-shared key and one cipher make a pair. *)
Lemma paired_documents V1 V2 V3 V4 now rnd priv r sdoc cdoc sc cl (s0 : server Addr R) (c0 : client Inner R) :
  NewServer V1 V2 marshal sdoc = Ok (v, s0) → NewClient V3 V4 now rnd (Some priv) r cdoc = Ok (cc, c0) →
  Validate V1 V2 sdoc = Ok sc → Validate V3 V4 cdoc = Ok cl → cfg_Crypto cl = cfg_Crypto sc →
  length priv = PublicKeySize → paired.
Proof.
  unfold NewServer, NewClient. intros Hs Hc Vs Vc Hcr Hp. rewrite Vs in Hs. rewrite Vc in Hc.
  cbn [res_bind] in *. apply refuse_Ok in Hs as [_ Hs]. do 3 apply refuse_Ok in Hc as [_ Hc]. rewrite Hcr in Hc.
  destruct (DeriveKey _) as [key| |]; [|done..]. destruct rnd as [rnd|]; [|done].
  destruct (NewAEAD key _) as [base| |]; [|done..].
  apply bind_Ok in Hs as (ps & _ & Hs). apply bind_Ok in Hc as (k & _ & Hc). apply bind_Ok in Hc as (k' & _ & Hc).
  injection Hs as Ev _. injection Hc as Ec _. split; rewrite <-?Ev, <-?Ec; done.
Qed.

(** What [NewServer] leaves of the configuration. *)
Lemma NewServer_fields V1 V2 doc s0 :
  NewServer V1 V2 marshal doc = Ok (v, s0) →
  ∃ c : Config, Validate V1 V2 doc = Ok c ∧ fecParamsFor (cfg_FEC c) (cfg_MTU c) None = Ok (v_fecParams v) ∧
    v_ann v = marshal (server_announce c) ∧ v_mtu v = cfg_MTU c.
Proof.
  unfold NewServer. intros H. apply bind_Ok in H as (c & Hv & H). apply refuse_Ok in H as [_ H].
  destruct (DeriveKey _); [|done..]. destruct (NewAEAD _ _); [|done..].
  apply bind_Ok in H as (p & Hp & H). injection H as <- _. by exists c.
Qed.

(** The cipher of a running server takes every session key. *)
Lemma session_cipher V1 V2 doc s0 id shared :
  NewServer V1 V2 marshal doc = Ok (v, s0) → ∃ aead, NewAEAD (DerivePFSKey (v_psk v) shared id) (v_cipher v) = Ok aead.
Proof.
  intros Hs0. destruct (NewAEAD_total (DerivePFSKey (v_psk v) shared id) (v_cipher v)) as [?|Hbad];
    [apply length_DerivePFSKey|done|].
  destruct (NewServer_cipher _ _ _ _ _ _ Hs0) as (k0 & a0 & Hc0). by destruct (Hbad k0 a0).
Qed.

(** The codecs the announce of [cf] asks for can be built on the WANs that
    override the loss ceiling; in cross-path mode overrides do not matter. *)
Definition overrides_codable (cf : Config) (k : codecs) : Prop :=
  String.eqb (fec_Mode (cfg_FEC cf)) FECCrosspath = false →
  Forall (λ w, w_FECMaxLossPct (wc_cfg w) ≠ None → codable (cfg_FEC cf) (cfg_MTU cf) (wc_cfg w)) (k_wans k).

(** The client codes as the server with the configuration [cf] announced: with
    the server's codecs, or on a WAN with an override with codecs built from the
    announced section and the override. *)
Record alike (cf : Config) (enc : Encoder) (k : codecs) : Prop := {
  al_mode : k_crossPath k = String.eqb (fec_Mode (cfg_FEC cf)) FECCrosspath;
  al_codecs : Forall (λ w, k_crossPath k = true ∨ w_FECMaxLossPct (wc_cfg w) = None →
    enc_at (wc_enc w) k = Some enc ∧ dec_at (wc_dec w) k = Some (NewDecoder (v_fecParams v))) (k_wans k);
  al_own : k_crossPath k = false → Forall (holds_own (cfg_FEC cf) (cfg_MTU cf) k) (k_wans k);
  al_mtu : k_mtu k = v_mtu v;
}.

(** A client that receives the ACK of a session of that server. *)
Lemma client_completes V1 V2 doc s0 cf c sp shared enc aead :
  NewServer V1 V2 marshal doc = Ok (v, s0) → Validate V1 V2 doc = Ok cf → paired →
  cl_session c = None → is_u64 (c_ID (cl_sess c)) → overrides_codable cf (cl_codecs c) →
  length sp = PublicKeySize → x_ecdh sp (x_public (cc_priv cc)) = Some shared →
  NewAEAD (DerivePFSKey (v_psk v) shared (c_ID (cl_sess c))) (v_cipher v) = Ok aead →
  NewEncoder (v_fecParams v) = Ok enc → Z.of_nat (PublicKeySize + length (v_ann v)) ≤ MaxPayload →
  marshal (server_announce cf) ≠ [] → unmarshal (marshal (server_announce cf)) = Some (server_announce cf) →
  let af := new_frame (Z.lor FlagControl FlagKex) (c_ID (cl_sess c)) 1 0 (x_public sp ++ v_ann v) in
  ∃ ap ack k', Encode af = Ok ap ∧ Seal (v_baseAEAD v) DirServerToClient ap = Ok ack ∧
    DecodeHeader ack = Ok (set_payload [] (set_version Version af)) ∧
    handleKexAck unmarshal cc ack c = (true, setSessionAEAD aead (set_codecs k' c)) ∧
    alike cf enc k'.
Proof.
  intros Hs0 Hcf [P1 P2 P3 P4 P5] Hn Hid Hov Hsp Hx Ha He Hsize J1 J2 af.
  destruct (NewServer_laws _ _ _ _ _ _ Hs0) as [Hlaws _].
  destruct (NewServer_fields _ _ _ _ Hs0) as (cf' & Hv & Hp & Hann & Hmtu). assert (cf' = cf) as -> by congruence.
  assert (Hspub : length (x_public sp) = PublicKeySize) by (by apply x_public_length).
  assert (Hwf : wf_frame af) by (by split).
  assert (Hlen : Z.of_nat (length (f_payload af)) ≤ MaxPayload) by (cbn; by rewrite length_app, Hspub).
  destruct (seal_frame (v_baseAEAD v) DirServerToClient af Hwf Hlen) as (ap & ack & A1 & A2 & A3 & A4 & A5).
  destruct (announce_adopted unmarshal (cfg_FEC cf) (cfg_MTU cf) (v_fecParams v) enc (v_ann v) (cl_codecs c))
    as (k' & K1 & K2 & K3 & K4 & K5 & K6 & _); try done.
  { by eapply Validate_normal. } { by rewrite Hann. } { by rewrite Hann. }
  exists ap, ack, k'. split; [done|]. split; [done|]. split; [done|]. split.
  2:{ split; [exact K3|exact K4| |by rewrite K6, Hmtu]. intros Hc. rewrite Hc in K5. apply K5. }
  apply (client_adopts c ack ap (set_version Version af) (x_public sp) shared aead k'); try done.
  - by rewrite P1.
  - cbn. by rewrite take_app_length'.
  - unfold ECDHShared. rewrite P4, Hspub. cbn. rewrite x_ecdh_comm by done. by rewrite Hx.
  - by rewrite P2, P3.
  - cbn. by rewrite drop_app_length'.
Qed.

(** One key exchange, step by step. *)
Lemma key_exchange V1 V2 doc s0 cf s e i c w ua now sp sock enc shared :
  NewServer V1 V2 marshal doc = Ok (v, s0) → Validate V1 V2 doc = Ok cf → reachable addr_string v s → paired →
  cl_session c = None → is_u64 (c_ID (cl_sess c)) →
  k_wans (cl_codecs c) !! i = Some w → room i hello_len c → overrides_codable cf (cl_codecs c) →
  (Count (mgr (sv_world s)) < maxSessions)%nat → Get (mgr (sv_world s)) (c_ID (cl_sess c)) = None →
  firstWindows (mgr (sv_world s)) !! c_ID (cl_sess c) = None →
  0 < e_now e → e_priv e = Some sp → length sp = PublicKeySize → e_dial e = Some sock →
  x_ecdh sp (x_public (cc_priv cc)) = Some shared → NewEncoder (v_fecParams v) = Ok enc →
  Z.of_nat (PublicKeySize + length (v_ann v)) ≤ MaxPayload →
  marshal (server_announce cf) ≠ [] → unmarshal (marshal (server_announce cf)) = Some (server_announce cf) →
  let id := c_ID (cl_sess c) in
  ∃ c1 out hello s1 ack p x aead,
    handshake_send cc i c = (c1, out) ∧ carries i c (c1, out) [hello] ∧
    handleClientFrame addr_string v e hello (Some ua) s = Ok (s1, [Sent ua ack]) ∧
    Get (mgr (sv_world s1)) id = Some p ∧ session_at p s1 = Some x ∧
    s_ID x = id ∧ s_aead x = aead ∧ s_egress x = Some sock ∧ s_Enc x = Some enc ∧
    registered id ua (declared_capacity v (be_put 4 (u32 (w_CapacityMbps (wc_cfg w))))) s s1 ∧
    (sv_states s !! id = None → ∃ st ps, sv_states s1 !! id = Some st ∧ st_lastSeen st = Some ua ∧
       st_paths st = {[addr_string ua := ps]} ∧ ps_addr ps = ua) ∧
    ∀ n, ∃ c2, recv_frame unmarshal cc now i ack (drain n i c1).1 = Ok (c2, []) ∧
      cl_session c2 = Some aead ∧ alike cf enc (cl_codecs c2).
Proof.
  intros Hs0 Hcf Hreach HP Hn Hid Hw Hroom Hov Hcnt Hnew Hfirst Hnow Hpriv Hsp Hdial Hx He Hsize J1 J2 id.
  destruct (NewServer_laws _ _ _ _ _ _ Hs0) as [Hlaws _]. pose proof HP as [P1 _ _ P4 P5].
  assert (Hbase : AEADLaws (cc_baseAEAD cc)) by (by rewrite P1).
  assert (Hpub : length (cc_pub cc) = PublicKeySize) by (rewrite P5; by apply x_public_length).
  destruct (client_greets i c w Hw Hroom Hid Hpub)
    as (q & b & c1 & out & Hq & Hsend & Hcar & C1 & C2 & C3 & plain & Ho & Hd & Hh). fold id in Hd, Hh.
  set (f := hello_frame _ _ _) in *. destruct (session_cipher _ _ _ _ id shared Hs0) as (aead & Ha).
  destruct (server_greets e (set_payload [] (set_version Version f)) b ua s plain (set_version Version f)
    (x_public (cc_priv cc)) sp sock aead enc (server_reachable_ok _ _ s Hreach) Hq)
    as (s1 & p & x & E1 & G1 & G2 & G3 & G4 & G5 & G6 & _ & G7); [|by rewrite <-P1|exact Hd| | |].
  { split; try done. exists shared. split; [|done]. unfold ECDHShared. rewrite Hsp.
    rewrite x_public_length by done. cbn. by rewrite Hx. }
  { cbn. rewrite Hpub. done. }
  { change (slice 4 (4 + PublicKeySize) (be_put 4 (u32 (w_CapacityMbps (wc_cfg w))) ++ cc_pub cc) = x_public (cc_priv cc)).
    unfold slice. rewrite drop_app_length' by reflexivity. by rewrite P5, take_ge by (rewrite x_public_length by done; reflexivity). }
  change (f_session (set_payload [] (set_version Version f))) with id in *.
  assert (G8 : registered id ua (declared_capacity v (be_put 4 (u32 (w_CapacityMbps (wc_cfg w))))) s s1).
  { enough (declared_capacity v (be_put 4 (u32 (w_CapacityMbps (wc_cfg w)))) =
      declared_capacity v (f_payload (set_version Version f))) as -> by exact G7.
    unfold declared_capacity. cbn [f f_payload set_version hello_frame new_frame].
    rewrite take_app_length' by reflexivity. by rewrite take_ge by reflexivity. }
  assert (Hack : ∀ d : client Inner R, cl_sess d = cl_sess c1 → cl_codecs d = cl_codecs c1 → cl_session d = cl_session c1 →
    ∃ ap ack k', Encode (new_frame (Z.lor FlagControl FlagKex) id 1 0 (x_public sp ++ v_ann v)) = Ok ap ∧
      Seal (v_baseAEAD v) DirServerToClient ap = Ok ack ∧ alike cf enc k' ∧
      recv_frame unmarshal cc now i ack d =
        Ok (on_link i (with_rx (unixNano now)) (setSessionAEAD aead (set_codecs k' d)), [])).
  { intros d D1 D2 D3. assert (Hidd : c_ID (cl_sess d) = id) by (by rewrite D1, C1).
    destruct (client_completes V1 V2 doc s0 cf d sp shared enc aead Hs0 Hcf HP) as (ap & ack & k' & A1 & A2 & A3 & Hkex & Hal);
      rewrite ?Hidd; try done; [by rewrite D3, C3|by rewrite D2, C2|].
    rewrite Hidd in A1, A3. exists ap, ack, k'. split_and!; try done. unfold recv_frame. rewrite A3.
    cbn [set_payload set_version new_frame f_session]. rewrite Hidd, Z.eqb_refl.
    change (HasFlag _ FlagKex) with true. cbn [andb]. by rewrite Hkex. }
  destruct (Hack c1) as (ap & ack & k0 & A1 & A2 & _ & _); [done..|].
  exists c1, out, b, s1, ack, p, x, aead. split_and!; try done.
  - unfold handleClientFrame. rewrite Hh. change (HasFlag _ FlagFirst) with true. cbn iota.
    rewrite E1. unfold sendToAddrKey. by rewrite A1, A2.
  - intros Hst. destruct (registered_first _ _ _ _ _ G8 Hst) as (st & ps & H1 & H2 & H3 & H4 & _). by exists st, ps.
  - intros n. destruct (drain_fields n i c1) as (D1 & D2 & D3 & _). set (d := (drain n i c1).1) in *.
    destruct (Hack d D1 D2 D3) as (ap' & ack' & k' & A1' & A2' & Hal & Er).
    assert (ack' = ack) as -> by congruence. eexists. split; [exact Er|].
    unfold setSessionAEAD. cbn. rewrite D3, C3, Hn. by split.
Qed.

(** C1 — The key exchange establishes the session. Let a server built from a
    configuration be in any reachable state with room for a session it has not
    seen, let the session keys, a socket and the codecs be available to it, and
    let its announce survive the JSON round trip. A client of the same pre-shared
    key and without a session, whose WANs can build the announced codecs with
    their overrides, sends a hello on a WAN that has no send queue or one with
    room for it. That WAN carries exactly the hello. The server answers it with
    exactly one frame and has then stored the session, with an encoder and a
    socket of its own, and the path of the hello with the capacity it declares;
    a session it kept no state of has that path and no other. The client, when it
    receives the answer, whatever its queue has sent meanwhile, ends with the
    session key of the server's new session, and its WANs code as announced, with
    the server's codecs where they have no override. *)
Theorem handshake_establishes V1 V2 doc s0 cf s e i c w ua now sp sock enc shared :
  NewServer V1 V2 marshal doc = Ok (v, s0) → Validate V1 V2 doc = Ok cf → reachable addr_string v s → paired →
  cl_session c = None → is_u64 (c_ID (cl_sess c)) →
  k_wans (cl_codecs c) !! i = Some w → room i hello_len c → overrides_codable cf (cl_codecs c) →
  (Count (mgr (sv_world s)) < maxSessions)%nat → Get (mgr (sv_world s)) (c_ID (cl_sess c)) = None →
  firstWindows (mgr (sv_world s)) !! c_ID (cl_sess c) = None →
  0 < e_now e → e_priv e = Some sp → length sp = PublicKeySize → e_dial e = Some sock →
  x_ecdh sp (x_public (cc_priv cc)) = Some shared → NewEncoder (v_fecParams v) = Ok enc →
  Z.of_nat (PublicKeySize + length (v_ann v)) ≤ MaxPayload →
  marshal (server_announce cf) ≠ [] → unmarshal (marshal (server_announce cf)) = Some (server_announce cf) →
  let id := c_ID (cl_sess c) in
  ∃ c1 out hello s1 ack p x aead,
    handshake_send cc i c = (c1, out) ∧ carries i c (c1, out) [hello] ∧
    handleClientFrame addr_string v e hello (Some ua) s = Ok (s1, [Sent ua ack]) ∧
    Get (mgr (sv_world s1)) id = Some p ∧ session_at p s1 = Some x ∧
    s_ID x = id ∧ s_aead x = aead ∧ s_egress x = Some sock ∧ s_Enc x = Some enc ∧
    registered id ua (declared_capacity v (be_put 4 (u32 (w_CapacityMbps (wc_cfg w))))) s s1 ∧
    (sv_states s !! id = None → ∃ st ps, sv_states s1 !! id = Some st ∧ st_lastSeen st = Some ua ∧
       st_paths st = {[addr_string ua := ps]} ∧ ps_addr ps = ua) ∧
    ∀ n, ∃ c2, recv_frame unmarshal cc now i ack (drain n i c1).1 = Ok (c2, []) ∧
      cl_session c2 = Some aead ∧ alike cf enc (cl_codecs c2).
Proof. by apply key_exchange. Qed.

(** ** Datagrams through an established tunnel *)

(** The encoder passes a frame straight through: coding is off, or adaptive
    coding is idle. *)
Definition passes (now : time) (en : Encoder) : Prop :=
  Enabled (e_params en) = false ∨ (e_codingOn (refreshLocked now en) = false ∧ e_pending en = []).

Lemma passes_push now f en :
  passes now en → ∃ en', Encoder_Push now f en = Ok ([set_flags (Z.lor (f_flags f) FlagPassSeq) f], en').
Proof.
  unfold Encoder_Push. intros [->|[H1 H2]]; [by eexists|]. destruct (Enabled (e_params en)); [|by eexists].
  cbn [negb]. rewrite H1. cbn [negb]. destruct (refresh_fields now en) as (_ & -> & _). rewrite H2. by eexists.
Qed.

(** A data frame from an authenticated, fresh, well-formed datagram of the client
    is written to the session's socket. *)
Lemma server_forwards e b ua s hdr plain f p x sock :
  DecodeHeader b = Ok hdr → HasFlag hdr FlagFirst = false → Get (mgr (sv_world s)) (f_session hdr) = Some p →
  session_at p s = Some x → Open (s_aead x) DirClientToServer b = Ok plain →
  (CheckReplay x (f_seq hdr)).1 = true → Decode plain = Ok f → f_session f = f_session hdr →
  HasFlag f FlagKeepalive = false → HasFlag f FlagPassSeq = true → HasFlag f FlagFECParity = false →
  f_payload f ≠ [] → s_egress x = Some sock →
  ∃ s', handleClientFrame addr_string v e b (Some ua) s = Ok (s', [ToWG sock (f_payload f)]) ∧
    Get (mgr (sv_world s')) (f_session hdr) = Some p.
Proof.
  intros Hh Hf Hg Hx Ho Hr Hd Hid Hk Hp Hpar Hne He. unfold handleClientFrame. rewrite Hh, Hf.
  unfold handle_data. rewrite Hg. cbn [mbind option_bind]. rewrite Hx. cbn [mbind option_bind]. rewrite Ho.
  unfold check_replay. rewrite Hx.
  assert (Hx1 : s_egress (CheckReplay x (f_seq hdr)).2 = Some sock)
    by (unfold CheckReplay; by destruct (CheckAndMark _ _)).
  destruct (CheckReplay x (f_seq hdr)) as [ok x1]. cbn [fst snd] in *. subst ok. cbn [negb]. rewrite Hd.
  set (s1 := on_session p (λ _, x1) s). set (s2 := on_session p (Touch (e_now e)) s1).
  assert (Hs2 : session_at p s2 = Some (Touch (e_now e) x1)).
  { unfold s2, s1. rewrite !session_on_session. case_decide; [|done]. by rewrite Hx. }
  destruct (registerPath_session e p (f_session hdr) ua [] s2 _ Hs2) as (M & D & x3 & Hx3 & T).
  set (s3 := registerPath _ _ _ _ _ _ _ _) in *. cbn zeta. rewrite Hk.
  destruct (f_payload f) as [|b0 pl] eqn:Epl; [done|]. change (length (b0 :: pl) =? 0)%nat with false. cbn iota.
  unfold Decoder_Push. rewrite Hp, Hpar. cbn [negb andb res_bind fst snd].
  set (s4 := set_dec _ s3). exists s4.
  assert (Hm : Get (mgr (sv_world s4)) (f_session hdr) = Some p).
  { change (mgr (sv_world s4)) with (mgr (sv_world s3)). by rewrite M. }
  split; [|exact Hm]. unfold forwardDecoded. cbn [flat_map]. rewrite Hid, Hm. cbn [mbind option_bind].
  change (session_at p s4) with (session_at p s3). rewrite Hx3. cbn [mbind option_bind].
  destruct T as (_ & _ & _ & _ & _ & _ & ->). cbn [Touch s_egress]. rewrite Hx1. by rewrite Epl.
Qed.

(** What the client's ingress hands to the encoder of the picked WAN, and what it
    does with the frames it gets. *)
Lemma ingress_encodes now addr payload c a i en wid sched' fs en' :
  cl_session c = Some a → k_crossPath (cl_codecs c) = false →
  Z.of_nat (length payload) ≤ k_mtu (cl_codecs c) →
  let q := u32 (c_seq (cl_sess c) + 1) in
  let f := new_frame 0 (c_ID (cl_sess c)) q 0 payload in
  Pick f (cl_sched c) = (Ok (Some wid), sched') → byWAN wid c = Some i →
  enc_at (slot_enc i c) (cl_codecs c) = Some en → Encoder_Push now f en = Ok (fs, en') →
  ∃ c', ingress inner_string now addr payload c = Ok (send_encoded i (Some a) fs c') ∧
    cl_links c' = cl_links c ∧ c_seq (cl_sess c') = q.
Proof.
  intros Hs Hx Hmtu q f Hpick Hby Hen Hpush. unfold ingress.
  match goal with |- context [if ?b then c else set_sess ?x c] =>
    set (c1 := if b then c else set_sess x c);
    assert (H1 : cl_codecs c1 = cl_codecs c ∧ cl_session c1 = cl_session c ∧ c_ID (cl_sess c1) = c_ID (cl_sess c) ∧
      c_seq (cl_sess c1) = c_seq (cl_sess c) ∧ cl_sched c1 = cl_sched c ∧ cl_links c1 = cl_links c)
      by (unfold c1; by destruct b) end.
  clearbody c1. destruct H1 as (K1 & K2 & K3 & K4 & K5 & K6).
  rewrite K1, (proj2 (Z.ltb_ge _ _) Hmtu), K2, Hs.
  cbn [sess_seq Client_NextSeq set_sess cl_sess c_ID c_seq cl_codecs]. rewrite K1, K3, K4, Hx. fold q f.
  set (cs := set_sess _ c1). change (cl_sched cs) with (cl_sched c1). rewrite K5, Hpick. cbn [res_bind].
  set (c2 := set_csched sched' cs).
  assert (Hc2 : byWAN wid c2 = byWAN wid c ∧ slot_enc i c2 = slot_enc i c ∧ cl_codecs c2 = cl_codecs c ∧
    cl_links c2 = cl_links c ∧ cl_session c2 = Some a ∧ c_seq (cl_sess c2) = q)
    by (unfold byWAN, slot_enc; cbn; rewrite K1, K6, K2, Hs; done).
  destruct Hc2 as (B1 & B2 & B3 & B4 & B5 & B6). clearbody c2. rewrite B1, Hby, B2.
  unfold call_enc, enc_at in *. destruct (slot_enc i c) as [pe|]; [|done]. cbn [mbind option_bind] in Hen.
  rewrite B3, Hen, Hpush. cbn [res_bind fst snd]. set (c3 := set_codecs _ c2).
  unfold sendEncoded. change (cl_session c3) with (cl_session c2). rewrite B5. exists c3. split; [done|].
  by rewrite <-B4, <-B6.
Qed.

(** What the client's ingress makes of a datagram on a WAN that passes through. *)
Lemma client_forwards now addr payload c a i l en wid sched' `{!AEADLaws a} :
  cl_session c = Some a → k_crossPath (cl_codecs c) = false →
  Z.of_nat (length payload) ≤ k_mtu (cl_codecs c) → Z.of_nat (length payload) ≤ MaxPayload →
  is_u64 (c_ID (cl_sess c)) →
  let q := u32 (c_seq (cl_sess c) + 1) in
  Pick (new_frame 0 (c_ID (cl_sess c)) q 0 payload) (cl_sched c) = (Ok (Some wid), sched') →
  byWAN wid c = Some i → cl_links c !! i = Some l → room i (sealed_len a (Z.of_nat (length payload))) c →
  is_u32 (l_pathSeq l) → enc_at (slot_enc i c) (cl_codecs c) = Some en → passes now en →
  ∃ c' out b, ingress inner_string now addr payload c = Ok (c', out) ∧ carries i c (c', out) [b] ∧
    reads a DirClientToServer (new_frame FlagPassSeq (c_ID (cl_sess c)) q (l_pathSeq l) payload) b.
Proof.
  intros Hs Hx Hmtu Hmax Hid q Hpick Hby Hl (l0 & Hl0 & Hr) Hps Hen Hpass. assert (l0 = l) as -> by congruence.
  destruct (passes_push now (new_frame 0 (c_ID (cl_sess c)) q 0 payload) en Hpass) as (en' & Hpush).
  destruct (ingress_encodes now addr payload c a i en wid sched' _ en' Hs Hx Hmtu Hpick Hby Hen Hpush)
    as (c3 & -> & Hl3 & _).
  cbn [send_encoded]. set (f1 := set_flags _ _).
  change (HasFlag f1 FlagFECParity) with false. cbn iota. set (g := λ l : wanLink, with_counts _ _ _ l).
  set (c4 := on_link i g c3).
  assert (Hl4 : cl_links c4 !! i = Some (g l)) by (unfold c4, on_link; cbn; by rewrite Hl3, list_lookup_alter_eq, Hl).
  destruct (sendLocked_room i f1 a c4 (g l) _ Hl4 Hr) as (b & c5 & out & E & Hb & Ho & Hw & _); [|done|done|].
  { split; [done..|done|apply u32_range|done]. }
  rewrite E. rewrite app_nil_r. exists c5, out, b. split; [done|]. split; [|exact Hb].
  apply carries_intro; [done|]. rewrite Hw. unfold waiting. by rewrite Hl4, Hl.
Qed.

(** C11 — A datagram crosses the tunnel. On an established session with per-WAN
    coding, whose encoder on the picked WAN passes through (no FEC, or adaptive
    FEC on a clean path), the client takes in a datagram that is not empty and
    fits the MTU, and the scheduler picks a WAN for it that has no send queue or
    one with room for the sealed frame. Then that WAN carries exactly one frame
    for it, and the server, on receiving that frame from any address while its
    number is fresh in the session's replay window, writes exactly the datagram
    to the session's socket. *)
Theorem datagram_through now addr payload c s e p x sock ua i l en wid sched' :
  Get (mgr (sv_world s)) (c_ID (cl_sess c)) = Some p → session_at p s = Some x → AEADLaws (s_aead x) →
  cl_session c = Some (s_aead x) → s_egress x = Some sock → is_u64 (c_ID (cl_sess c)) →
  let q := u32 (c_seq (cl_sess c) + 1) in
  (CheckReplay x q).1 = true →
  payload ≠ [] → Z.of_nat (length payload) ≤ k_mtu (cl_codecs c) → Z.of_nat (length payload) ≤ MaxPayload →
  k_crossPath (cl_codecs c) = false →
  Pick (new_frame 0 (c_ID (cl_sess c)) q 0 payload) (cl_sched c) = (Ok (Some wid), sched') →
  byWAN wid c = Some i → cl_links c !! i = Some l →
  room i (sealed_len (s_aead x) (Z.of_nat (length payload))) c → is_u32 (l_pathSeq l) →
  enc_at (slot_enc i c) (cl_codecs c) = Some en → passes now en →
  ∃ c' out b s', ingress inner_string now addr payload c = Ok (c', out) ∧ carries i c (c', out) [b] ∧
    handleClientFrame addr_string v e b (Some ua) s = Ok (s', [ToWG sock payload]).
Proof.
  intros Hg Hx Hlaws Hs He Hid q Hfresh Hne Hmtu Hmax Hcross Hpick Hby Hl Hroom Hps Hen Hpass.
  destruct (client_forwards now addr payload c (s_aead x) i l en wid sched' Hs Hcross Hmtu Hmax Hid Hpick Hby Hl Hroom
    Hps Hen Hpass) as (c' & out & b & E1 & Hc & plain & E2 & E3 & E4).
  destruct (server_forwards e b ua s _ plain _ p x sock E4 eq_refl Hg Hx E2 Hfresh E3 eq_refl eq_refl eq_refl eq_refl
    Hne He) as (s' & E5 & _).
  by exists c', out, b, s'.
Qed.

(** ** The way back *)

(** What the server seals for a frame whose block number may be any counter. *)
Lemma seal_stamped a `{!AEADLaws a} dir f k :
  wf_frame f → Z.of_nat (length (f_payload f)) ≤ MaxPayload →
  ∃ plain b, Encode (set_block k f) = Ok plain ∧ Seal a dir plain = Ok b ∧ Open a dir b = Ok plain ∧
    Decode plain = Ok (set_version Version (set_block (u32 k) f)) ∧
    DecodeHeader b = Ok (set_payload [] (set_version Version (set_block (u32 k) f))).
Proof.
  intros [H1 H2 H3 H4 H5] Hl. destruct (seal_frame a dir (set_block (u32 k) f)) as (plain & b & E & Hr);
    [split; try done; apply u32_range|done|].
  exists plain, b. split; [|exact Hr]. rewrite <-E.
  rewrite !Encode_layout by done. unfold header_bytes. cbn [set_block f_flags f_session f_seq f_block f_payload].
  by rewrite be_put_u32.
Qed.

Lemma stamp_spec e sid a f s :
  HasFlag f FlagPassSeq = true → ∃ k s', stamp addr_string v e sid a f s = (set_block k f, s').
Proof.
  intros Hf. unfold stamp. rewrite Hf. destruct (stateFor v (e_rng e) sid s) as [st s1].
  destruct (st_paths st !! addr_string a); [by eexists _, _|]. exists (f_block f), s1. by destruct f.
Qed.

(** A datagram from the WireGuard peer on a session that passes through leaves as
    at most one frame, sealed under the session key with the next number. *)
Lemma server_egress e p payload s x en s' a b :
  session_at p s = Some x → s_Enc x = Some en → passes (e_now e) en → CrossPath (v_fecParams v) = false →
  AEADLaws (s_aead x) → is_u64 (s_ID x) → Z.of_nat (length payload) ≤ MaxPayload →
  egress_datagram addr_string v e p payload s = Ok (s', [Sent a b]) →
  ∃ k plain, let f := new_frame FlagPassSeq (s_ID x) (u32 (s_seq x + 1)) k payload in
    Open (s_aead x) DirServerToClient b = Ok plain ∧ Decode plain = Ok (set_version Version f) ∧
    DecodeHeader b = Ok (set_payload [] (set_version Version f)).
Proof.
  intros Hx He Hpass Hcross Hlaws Hid Hmax. unfold egress_datagram. rewrite Hx.
  destruct (_ <? _); [done|]. unfold next_seq. rewrite Hx. cbn [NextSeq]. rewrite He.
  set (q := u32 _). set (x1 := mkSess _ _ _ _ _ _ _ _ _). set (s1 := on_session p (λ _, x1) s).
  destruct (passes_push (e_now e) (new_frame 0 (s_ID x) q 0 payload) en Hpass) as (en' & ->).
  cbn [res_bind fst snd]. set (f1 := set_flags _ _). set (s2 := on_session p _ s1).
  assert (Hx2 : ∃ x2, session_at p s2 = Some x2 ∧ s_ID x2 = s_ID x ∧ s_aead x2 = s_aead x).
  { unfold s2, s1. rewrite !session_on_session. case_decide; [|done]. rewrite Hx. cbn. by eexists. }
  destruct Hx2 as (x2 & Hx2 & I2 & A2). unfold sendToSession. rewrite Hx2, Hcross.
  intros H. apply bind_Ok in H as ([[a1|] s3] & _ & H); cbn [fst snd] in H; [|done].
  cbn [send_frames] in H. unfold send_frame in H. change (HasFlag f1 FlagFECParity) with false in H.
  cbn iota in H. destruct (stamp_spec e (s_ID x2) a1 f1 s3 eq_refl) as (k & s4 & Est). rewrite Est in H.
  assert (Hwf : wf_frame f1) by (split; try done; apply u32_range).
  destruct (seal_stamped (s_aead x) DirServerToClient f1 k Hwf Hmax) as (plain & b' & E1 & E2 & E3 & E4 & E5).
  unfold sendToAddr, sendToAddrKey in H. rewrite A2, E1, E2 in H.
  assert (b' = b) as -> by (cbn in H; congruence). by exists (u32 k), plain.
Qed.

(** A number above everything seen is fresh. *)
Lemma client_accepts (x : Session.Client Inner) hist q :
  win_inv (c_replay x) hist → is_u32 q → top hist < q →
  ∃ x', Client_CheckReplay x q = (true, x') ∧ win_inv (c_replay x') (q :: hist) ∧
    c_ID x' = c_ID x ∧ c_wgAddr x' = c_wgAddr x.
Proof.
  intros Hi Hq Ht. destruct (CheckAndMark_step _ _ q Hi Hq) as (H1 & H2 & _). cbn zeta in H2.
  assert (Hacc : spec_accept (w_window (c_replay x)) hist q = true).
  { unfold spec_accept. apply andb_true_iff. pose proof (inv_size _ _ Hi). split; [|lia].
    apply bool_decide_eq_true_2. intros ?%top_ge. lia. }
  rewrite Hacc in *. unfold Client_CheckReplay. destruct (CheckAndMark (c_replay x) q) as [ok w].
  cbn [fst snd] in *. subst ok. by eexists.
Qed.

(** A fresh, authentic frame of the session gets past [openAndVerify]. *)
Lemma client_opens c a b hdr plain f hist :
  cl_session c = Some a → DecodeHeader b = Ok hdr → f_session hdr = c_ID (cl_sess c) →
  Open a DirServerToClient b = Ok plain → Decode plain = Ok f →
  win_inv (c_replay (cl_sess c)) hist → is_u32 (f_seq f) → top hist < f_seq f →
  ∃ x', openAndVerify b c = (Some f, set_sess x' c) ∧ win_inv (c_replay x') (f_seq f :: hist) ∧
    c_ID x' = c_ID (cl_sess c) ∧ c_wgAddr x' = c_wgAddr (cl_sess c).
Proof.
  intros Hs Hh Hid Ho Hd Hi Hq Ht. destruct (client_accepts _ _ _ Hi Hq Ht) as (x' & E & Hr).
  exists x'. split; [|exact Hr]. unfold openAndVerify. rewrite Hh, Hid, Z.eqb_refl. cbn [negb].
  by rewrite Hs, Ho, Hd, E.
Qed.

(** A pass-through data frame reaches the delivery buffer. *)
Lemma client_receives now i c a b hdr plain f hist d :
  cl_session c = Some a → DecodeHeader b = Ok hdr → f_session hdr = c_ID (cl_sess c) →
  Open a DirServerToClient b = Ok plain → Decode plain = Ok f →
  win_inv (c_replay (cl_sess c)) hist → is_u32 (f_seq f) → top hist < f_seq f →
  HasFlag hdr FlagKex = false → f_flags f = FlagPassSeq → f_payload f ≠ [] →
  dec_at (slot_dec i c) (cl_codecs c) = Some d →
  ∃ c', recv_frame unmarshal cc now i b c = Ok (push_delivery now [f] c') ∧
    cl_delivery c' = cl_delivery c ∧ c_wgAddr (cl_sess c') = c_wgAddr (cl_sess c).
Proof.
  intros Hs Hh Hid Ho Hd Hi Hq Ht Hkex Hfl Hne Hdec. unfold recv_frame. rewrite Hh, Hkex, andb_false_r.
  destruct (client_opens c a b hdr plain f hist Hs Hh Hid Ho Hd Hi Hq Ht) as (x' & -> & _ & _ & Hwg).
  assert (Hflag : ∀ g, HasFlag f g = negb (Z.land FlagPassSeq g =? 0)) by (intros; unfold HasFlag; by rewrite Hfl).
  rewrite !Hflag. change (negb (Z.land FlagPassSeq FlagPong =? 0)) with false.
  change (negb (Z.land FlagPassSeq FlagControl =? 0)) with false.
  change (negb (Z.land FlagPassSeq FlagKeepalive =? 0)) with false. cbn [orb].
  destruct (f_payload f) as [|b0 pl]; [done|]. change (length (b0 :: pl) =? 0)%nat with false. cbn iota.
  unfold call_dec, dec_at in *. change (slot_dec i (on_link i (with_rx (unixNano now)) (set_sess x' c))) with (slot_dec i c).
  destruct (slot_dec i c) as [pd|]; [|done]. cbn [mbind option_bind] in Hdec.
  change (k_heap (cl_codecs (on_link i (with_rx (unixNano now)) (set_sess x' c)))) with (k_heap (cl_codecs c)).
  rewrite Hdec. unfold Decoder_Push. rewrite !Hflag. change (negb (Z.land FlagPassSeq FlagPassSeq =? 0)) with true.
  change (negb (Z.land FlagPassSeq FlagFECParity =? 0)) with false. cbn [negb andb res_bind fst snd].
  by eexists.
Qed.

(** A PONG ends at the probe state. *)
Lemma client_pong now i c a b hdr plain f hist :
  cl_session c = Some a → DecodeHeader b = Ok hdr → f_session hdr = c_ID (cl_sess c) →
  Open a DirServerToClient b = Ok plain → Decode plain = Ok f →
  win_inv (c_replay (cl_sess c)) hist → is_u32 (f_seq f) → top hist < f_seq f →
  HasFlag hdr FlagKex = false → HasFlag f FlagPong = true →
  ∃ c', recv_frame unmarshal cc now i b c = Ok (c', []) ∧
    cl_delivery c' = cl_delivery c ∧ cl_codecs c' = cl_codecs c ∧ cl_session c' = Some a ∧
    c_ID (cl_sess c') = c_ID (cl_sess c) ∧ c_wgAddr (cl_sess c') = c_wgAddr (cl_sess c) ∧
    win_inv (c_replay (cl_sess c')) (f_seq f :: hist).
Proof.
  intros Hs Hh Hid Ho Hd Hi Hq Ht Hkex Hpong. unfold recv_frame. rewrite Hh, Hkex, andb_false_r.
  destruct (client_opens c a b hdr plain f hist Hs Hh Hid Ho Hd Hi Hq Ht) as (x' & -> & Hi' & Hid' & Hwg).
  rewrite Hpong. eexists. split; [reflexivity|]. unfold handlePong. by destruct (negb _).
Qed.

(** What an empty delivery buffer makes of a pass-through frame: late, next or
    early. An early frame waits for the gap timer. *)
Lemma client_delivers now i c a b hdr plain f hist d peer :
  cl_session c = Some a → DecodeHeader b = Ok hdr → f_session hdr = c_ID (cl_sess c) →
  Open a DirServerToClient b = Ok plain → Decode plain = Ok f →
  win_inv (c_replay (cl_sess c)) hist → 0 ≤ f_seq f < 2 ^ 31 → top hist < f_seq f →
  HasFlag hdr FlagKex = false → f_flags f = FlagPassSeq → f_payload f ≠ [] →
  dec_at (slot_dec i c) (cl_codecs c) = Some d → c_wgAddr (cl_sess c) = Some peer →
  let n := d_next (cl_delivery c) in
  1 ≤ n < 2 ^ 31 → d_pending (cl_delivery c) = ∅ →
  ∃ c' out, recv_frame unmarshal cc now i b c = Ok (c', out) ∧
    (f_seq f < n → out = []) ∧ (f_seq f = n → out = [ToInner peer (f_payload f)]) ∧
    (n < f_seq f → out = [] ∧
     (d_gapSince (cl_delivery c) = 0 → 0 < d_maxPending (cl_delivery c) → 0 < now →
      ∀ t, (tick_delivery t c').2 =
        if time_sub t now <? d_gapTimeout (cl_delivery c) then [] else [ToInner peer (f_payload f)])).
Proof.
  intros Hs Hh Hid Ho Hd Hi Hq Ht Hkex Hfl Hne Hdec Hwg n Hn Hp.
  destruct (client_receives now i c a b hdr plain f hist d) as (c1 & -> & D1 & W1); try done.
  { unfold_int. lia. }
  assert (Hdel : ∀ fs, deliverToWG fs c1 = map (λ g, ToInner peer (f_payload g)) fs)
    by (intros; unfold deliverToWG; by rewrite W1, Hwg).
  unfold push_delivery. rewrite D1. destruct (Z.lt_trichotomy (f_seq f) n) as [Hlt|[Heq|Hgt]].
  - assert (E : Delivery_Push now (cl_delivery c) [f] = ([], cl_delivery c))
      by (cbn [Delivery_Push]; unfold push_one; fold n; by rewrite behind_spec, (proj2 (Z.ltb_lt _ _)) by lia).
    rewrite E, Hdel. eexists _, _. split; [reflexivity|]. split_and!; (done || lia).
  - destruct (Delivery_next now (cl_delivery c) f Hp Heq Hn) as (d' & E).
    rewrite E, Hdel. eexists _, _. split; [reflexivity|]. split_and!; (done || lia).
  - assert (E : ∃ d', Delivery_Push now (cl_delivery c) [f] = ([], d')).
    { cbn [Delivery_Push]. unfold push_one. fold n.
      rewrite behind_spec, (proj2 (Z.ltb_ge _ _)), (proj2 (Z.eqb_neq _ _)) by lia. by eexists. }
    destruct E as (d' & E). rewrite E, Hdel. eexists _, _. split; [reflexivity|]. split_and!; try lia. intros _.
    split; [done|]. intros Hg Hm Hnow t.
    destruct (Delivery_future now (cl_delivery c) f Hp Hg Hm Hnow) as (d2 & E2 & Htick); [fold n; lia|lia|].
    rewrite E in E2. injection E2 as <-. specialize (Htick t).
    unfold tick_delivery. cbn [set_delivery cl_delivery]. destruct (Delivery_Tick t d') as [fs d'']. cbn [fst snd] in *.
    subst fs. unfold deliverToWG. cbn [set_delivery cl_sess]. rewrite W1, Hwg. by destruct (_ <? _).
Qed.

(** C21 — A datagram crosses the tunnel back. Let a session with per-WAN coding
    pass through at the server, with its counter below 2^31 - 1, and let the
    server send a datagram of the WireGuard peer as one frame. A client of the
    session that holds nothing back and has seen no later number takes the frame
    on whichever WAN it arrives: it hands exactly the datagram to the inner peer
    at once when the frame carries the number the client expects next; it drops
    it when the client expects a later one; and when the client still expects an
    earlier one, as after a handshake, whose ACK took a number, it delivers
    nothing at once, and the first tick after the gap timeout delivers exactly
    the datagram. *)
Theorem datagram_back now i e p payload s x en s' a b c hist d peer :
  session_at p s = Some x → s_Enc x = Some en → passes (e_now e) en → CrossPath (v_fecParams v) = false →
  AEADLaws (s_aead x) → is_u64 (s_ID x) → payload ≠ [] → Z.of_nat (length payload) ≤ MaxPayload →
  egress_datagram addr_string v e p payload s = Ok (s', [Sent a b]) →
  cl_session c = Some (s_aead x) → c_ID (cl_sess c) = s_ID x →
  win_inv (c_replay (cl_sess c)) hist → top hist ≤ s_seq x → 0 ≤ s_seq x < 2 ^ 31 - 1 →
  dec_at (slot_dec i c) (cl_codecs c) = Some d → c_wgAddr (cl_sess c) = Some peer →
  let q := s_seq x + 1 in
  let n := d_next (cl_delivery c) in
  1 ≤ n < 2 ^ 31 → d_pending (cl_delivery c) = ∅ →
  ∃ c' out, recv_frame unmarshal cc now i b c = Ok (c', out) ∧
    (q < n → out = []) ∧ (q = n → out = [ToInner peer payload]) ∧
    (n < q → out = [] ∧
     (d_gapSince (cl_delivery c) = 0 → 0 < d_maxPending (cl_delivery c) → 0 < now →
      ∀ t, (tick_delivery t c').2 =
        if time_sub t now <? d_gapTimeout (cl_delivery c) then [] else [ToInner peer payload])).
Proof.
  intros Hx He Hpass Hcross Hlaws Hid Hne Hmax Hout Hs Hcid Hi Ht Hseq Hdec Hwg q n Hn Hp.
  destruct (server_egress _ _ _ _ _ _ _ _ _ Hx He Hpass Hcross Hlaws Hid Hmax Hout) as (k & plain & E1 & E2 & E3).
  rewrite u32_small in * by (unfold_int; lia). set (f := new_frame _ _ _ _ _) in *.
  apply (client_delivers now i c (s_aead x) b (set_payload [] (set_version Version f)) plain (set_version Version f) hist d peer);
    try done; cbn; lia.
Qed.

(** Control frames punch holes into the downlink. A PONG takes its number
    from the counter of the data frames and never reaches the delivery buffer:
    even on a network that loses and reorders nothing, the datagram the server
    sends right after a PONG is withheld by a client that is up to date, until
    the gap timer has expired; only then, and exactly then, a tick delivers it. *)
Theorem pong_stalls_downlink now1 now2 i e p payload ts s x en s1 s2 a1 a2 pong b c hist d peer :
  session_at p s = Some x → s_Enc x = Some en → passes (e_now e) en → CrossPath (v_fecParams v) = false →
  AEADLaws (s_aead x) → is_u64 (s_ID x) → payload ≠ [] → Z.of_nat (length payload) ≤ MaxPayload →
  sendPong p a1 ts s = (s1, [Sent a1 pong]) →
  egress_datagram addr_string v e p payload s1 = Ok (s2, [Sent a2 b]) →
  cl_session c = Some (s_aead x) → c_ID (cl_sess c) = s_ID x →
  win_inv (c_replay (cl_sess c)) hist → top hist ≤ s_seq x → 0 ≤ s_seq x < 2 ^ 31 - 2 →
  d_next (cl_delivery c) = s_seq x + 1 → d_pending (cl_delivery c) = ∅ → d_gapSince (cl_delivery c) = 0 →
  0 < d_maxPending (cl_delivery c) → 0 < now2 →
  dec_at (slot_dec i c) (cl_codecs c) = Some d → c_wgAddr (cl_sess c) = Some peer →
  ∃ c1 c2, recv_frame unmarshal cc now1 i pong c = Ok (c1, []) ∧
    recv_frame unmarshal cc now2 i b c1 = Ok (c2, []) ∧
    ∀ t, (tick_delivery t c2).2 =
      if time_sub t now2 <? d_gapTimeout (cl_delivery c) then [] else [ToInner peer payload].
Proof.
  intros Hx He Hpass Hcross Hlaws Hid Hne Hmax Hpong Hout Hs Hcid Hi Ht Hseq Hn Hp Hg Hmp Hnow Hdec Hwg.
  unfold sendPong, next_seq in Hpong. rewrite Hx in Hpong. cbn [NextSeq] in Hpong.
  set (q := u32 (s_seq x + 1)) in *. assert (Hq : q = s_seq x + 1) by (apply u32_small; unfold_int; lia).
  set (pf := new_frame FlagPong (s_ID x) q 0 ts) in *.
  destruct (Z.le_gt_cases (Z.of_nat (length ts)) MaxPayload) as [Hts|Hts].
  2:{ unfold sendToAddr, sendToAddrKey in Hpong. rewrite (Encode_too_large pf) in Hpong by (cbn; lia). done. }
  assert (Hwf : wf_frame pf) by (split; try done; apply u32_range).
  destruct (seal_frame (s_aead x) DirServerToClient pf Hwf Hts) as (pp & pb & A1 & A2 & A3 & A4 & A5).
  unfold sendToAddr, sendToAddrKey in Hpong. rewrite A1, A2 in Hpong.
  assert (pb = pong) as -> by congruence.
  assert (Hs1 : s1 = on_session p (λ _, (NextSeq x).2) s) by (symmetry; exact (f_equal fst Hpong)). clear Hpong.
  assert (Hx1 : session_at p s1 = Some (NextSeq x).2)
    by (rewrite Hs1, session_on_session; case_decide; [by rewrite Hx|done]).
  destruct (client_pong now1 i c (s_aead x) pong (set_payload [] (set_version Version pf)) pp (set_version Version pf) hist)
    as (c1 & R1 & D1 & K1 & S1 & I1 & W1 & Hi1); try done.
  { apply u32_range. } { cbn. lia. }
  destruct (server_egress e p payload s1 (NextSeq x).2 en s2 a2 b) as (k & plain & E1 & E2 & E3); try done.
  set (f := new_frame FlagPassSeq _ _ _ _) in *.
  assert (Hfs : f_seq f = s_seq x + 2)
    by (change (f_seq f) with (u32 (q + 1)); rewrite Hq, u32_small by (unfold_int; lia); lia).
  destruct (client_delivers now2 i c1 (s_aead x) b (set_payload [] (set_version Version f)) plain (set_version Version f)
    (q :: hist) d peer) as (c2 & out & R2 & _ & _ & Hearly); rewrite ?D1, ?K1, ?W1; try done.
  { cbn. by rewrite I1. } { change (0 ≤ f_seq f < 2 ^ 31). lia. }
  { change (top (q :: hist) < f_seq f). rewrite top_cons. lia. }
  { unfold slot_dec. by rewrite K1. } { lia. }
  rewrite D1 in Hearly. change (f_seq (set_version Version f)) with (f_seq f) in Hearly.
  destruct Hearly as [-> Htick]; [lia|]. exists c1, c2. split; [exact R1|]. split; [exact R2|]. by apply Htick.
Qed.
End both_ends.

(** ** Witnesses: the sample server and the sample client *)

Section demo_ends.
#[local] Existing Instances key_order sum_ciphers dh_exchange.

Abbreviation id_string := (λ a : string, a).

(** The client announces nothing of its own, so any parser that knows this
    server's announce will do. *)
Definition demo_unmarshal (_ : list byte) : option ServerAnnounce := Some (server_announce sample_server).

Definition demo_wan : wanCodec := default (mkWanCodec (mkWAN "" "" "" "" 0 0 f0 None) None None)
  (k_wans (cl_codecs demo_c0) !! 0%nat).
Definition demo_priv : list byte := be_put 32 4711.
Definition null_enc : Encoder := mkEncoder (mkParams 0 0 0 None false 0) None 0 [] 0 f0 false 0 0 0.
Definition demo_enc : Encoder := ok_or null_enc (NewEncoder (v_fecParams demo_cfg)).
Definition demo_shared : list byte := default [] (x_ecdh (be_put 32 9) (x_public demo_priv)).

Definition is_some {A} (o : option A) : bool := match o with Some _ => true | None => false end.
Lemma is_some_default {A} (d : A) (o : option A) : is_some o = true → o = Some (default d o).
Proof. by destruct o. Qed.

(** The sample client with send queues as the configuration defaults them. *)
Definition queued_document : Config :=
  mkConfig ModeClient "127.0.0.1:51821" "192.0.2.1:4500" "" "" (mkSched "" "" "" f0)
    (mkFEC false "" 0 f0 0 f0 f0 f0 f0 f0) 0
    [mkWAN "" "" "" "" 0 50 f0 None; mkWAN "lte" "" "" "" 0 20 f0 None] (mkDelivery 0 0)
    (mkHealth f0 f0 f0 f0 f0 f0 0 f0) (mkCrypto "secret" "") (mkLog "" "") (mkTelemetry "" "" f0)
    (mkQueue None 0 "" false) "".
Abbreviation live_new := (NewClient (Addr := string) (λ _, true) (λ _, true) (unix_nano 0)
  (Some (be_put 8 77)) (Some (be_put 32 4711)) tt queued_document).
Definition live_ccfg : client_cfg := (new_of live_new).1.
Definition live_c0 : client string unit := (new_of live_new).2.
Definition live_wan : wanCodec := default demo_wan (k_wans (cl_codecs live_c0) !! 0%nat).

Definition sample_client : Config := ok_or queued_document (Validate (λ _, true) (λ _, true) queued_document).

Lemma demo_both_facts :
  is_Ok demo_server = true ∧ is_Ok live_new = true ∧
  is_Ok (Validate (λ _, true) (λ _, true) queued_document) = true ∧
  cfg_Crypto sample_client = cfg_Crypto sample_server ∧
  cl_session live_c0 = None ∧ c_ID (cl_sess live_c0) = 77 ∧
  k_wans (cl_codecs live_c0) !! 0%nat = Some live_wan ∧ room_check 0 (hello_len live_ccfg) live_c0 = true ∧
  forallb (λ l, is_some (l_q l)) (cl_links live_c0) = true ∧
  (w_FECMaxLossPct ∘ wc_cfg) <$> k_wans (cl_codecs live_c0) = [None; None] ∧
  is_Ok (NewEncoder (v_fecParams demo_cfg)) = true ∧ length (v_ann demo_cfg) = 2%nat ∧
  x_ecdh (be_put 32 9) (x_public demo_priv) = Some demo_shared.
Proof. vm_compute. done. Qed.

Lemma demo_server_built : ∃ s0, demo_server = Ok (demo_cfg, s0).
Proof.
  destruct demo_both_facts as (B & _). unfold demo_cfg. destruct demo_server as [[v s0]| |]; [by exists s0|done..].
Qed.

Lemma demo_paired : paired demo_cfg live_ccfg.
Proof.
  destruct demo_both_facts as (_ & B & Bv & Hcr & _). destruct demo_server_built as (s0 & Hs).
  assert (Hc := new_of_Ok _ B). fold live_ccfg live_c0 in Hc.
  exact (paired_documents demo_marshal demo_cfg live_ccfg (λ _, true) (λ _, true) (λ _, true) (λ _, true)
    _ _ _ _ _ _ sample_server sample_client _ _ Hs Hc sample_server_validated (ok_or_Ok _ _ Bv) Hcr eq_refl).
Qed.

(** A hello through the send queue of the first WAN. *)
Lemma handshake_establishes_witness :
  ∃ c1 hello s1 ack c2 aead,
    handshake_send live_ccfg 0 live_c0 = (c1, []) ∧ (drain 1 0 c1).2 = [hello] ∧
    handleClientFrame id_string demo_cfg (demo_env 9) hello (Some "10.0.0.1:4000") (NewServer_state demo_cfg) =
      Ok (s1, [Sent "10.0.0.1:4000" ack]) ∧
    recv_frame demo_unmarshal live_ccfg (unix_nano (10 * second)) 0 ack (drain 1 0 c1).1 = Ok (c2, []) ∧
    cl_session (c2 : client string unit) = Some aead ∧ k_mtu (cl_codecs c2) = v_mtu demo_cfg ∧
    ∃ st ps, sv_states s1 !! 77 = Some st ∧ st_paths st = {["10.0.0.1:4000" := ps]}.
Proof.
  destruct demo_both_facts as (_ & _ & _ & _ & F1 & F2 & F3 & F4 & Fq & F5 & F6 & F7 & F8).
  destruct demo_server_built as (s0 & Hs). pose proof demo_paired as Hp.
  destruct (handshake_establishes id_string demo_marshal demo_unmarshal demo_cfg live_ccfg
    (λ _, true) (λ _, true) server_document s0 sample_server (NewServer_state demo_cfg) (demo_env 9) 0 live_c0 live_wan
    "10.0.0.1:4000" (unix_nano (10 * second)) (be_put 32 9) 109 demo_enc demo_shared)
    as (c1 & out & hello & s1 & ack & p & x & aead & H1 & [Ho Hw] & H2 & _ & _ & _ & _ & _ & _ & _ & H4 & H5).
  - exact Hs.
  - exact sample_server_validated.
  - exact (ex_intro _ [] (ex_intro _ [] (conj (Forall_nil_2 _) eq_refl))).
  - exact Hp.
  - exact F1.
  - rewrite F2. unfold_int. lia.
  - exact F3.
  - exact (room_check_sound _ _ _ F4).
  - intros _. assert (H : Forall (λ o, o = None) ((w_FECMaxLossPct ∘ wc_cfg) <$> k_wans (cl_codecs live_c0)))
      by (rewrite F5; repeat constructor).
    eapply Forall_impl; [exact (proj1 (Forall_fmap _ _ _) H)|]. intros w Hn Hw. by destruct (Hw Hn).
  - apply Nat.ltb_lt. reflexivity.
  - reflexivity.
  - reflexivity.
  - reflexivity.
  - reflexivity.
  - reflexivity.
  - reflexivity.
  - exact F8.
  - exact (ok_or_Ok null_enc _ F6).
  - rewrite F7. vm_compute. discriminate.
  - discriminate.
  - reflexivity.
  - assert (out = []) as -> by (transitivity (handshake_send live_ccfg 0 live_c0).2; [by rewrite H1|vm_compute; reflexivity]).
    assert (Ew : waiting 0 live_c0 = []) by (vm_compute; reflexivity). rewrite Ew in Hw. cbn [app length sent_up flat_map fst snd] in Hw.
    destruct (H5 1%nat) as (c2 & E2 & E3 & E4). rewrite F2 in H4. destruct (H4 eq_refl) as (st & ps & S1 & _ & S2 & _).
    exists c1, hello, s1, ack, c2, aead. do 5 (split; [assumption|]). split; [exact (al_mtu _ _ _ _ E4)|].
    exists st, ps. by split.
Defined.

(** An established tunnel without FEC, everything delivered so far. *)
Definition plain_params : Params := mkParams 10 0 0 None false 0.
Definition plain_enc : Encoder := ok_or null_enc (NewEncoder plain_params).
Definition plain_session : ServerSession string Encoder :=
  SetEgress 109 (set_codec plain_enc [] (NewServerSession 77 (sum_aead sample_key) 0)).
Definition plain_server : server string unit :=
  mkServer (mkWorld (mkMgr {[77 := 0%nat]} ∅) {[0%nat := plain_session]} ∅)
    {[77 := mkSessState (newScheduler (mkSchedOptions "lb" AffPacket "capacity") tt) ∅ (Some "10.0.0.1:4000")]}
    (NewDecoder plain_params).
Definition plain_client : client string unit :=
  setSessionAEAD (sum_aead sample_key) (set_sess (SetWGAddr (cl_sess demo_c0) "127.0.0.1:51820") demo_c0).

Definition demo_payload : list byte := [x45; x01; x02; x03].
Abbreviation plain_pick := (Pick (new_frame 0 77 (u32 (c_seq (cl_sess plain_client) + 1)) 0 demo_payload)
  (cl_sched plain_client)).
Definition plain_link : wanLink := default (mkLink (New (healthOptions (cfg_Health sample_server) f0)) 0 0 0 0 0 false 0 0 None)
  (cl_links plain_client !! 0%nat).
Definition client_enc : Encoder := default plain_enc (enc_at (slot_enc 0 plain_client) (cl_codecs plain_client)).
Definition client_dec : Decoder := default (NewDecoder plain_params) (dec_at (slot_dec 0 plain_client) (cl_codecs plain_client)).

Abbreviation plain_egress := (egress_datagram id_string demo_cfg (demo_env 5) 0%nat demo_payload).
Abbreviation plain_pong := (sendPong 0%nat "10.0.0.1:4000" (be_put 8 5) plain_server).
Definition wire_of (outs : list (output string)) : list byte := match outs with [Sent _ b] => b | _ => [] end.

Lemma plain_client_facts :
  plain_pick.1 = Ok (Some "wan1") ∧ byWAN "wan1" plain_client = Some 0%nat ∧
  is_some (cl_links plain_client !! 0%nat) = true ∧ l_q plain_link = None ∧ l_pathSeq plain_link = 0 ∧
  is_some (enc_at (slot_enc 0 plain_client) (cl_codecs plain_client)) = true ∧
  is_some (dec_at (slot_dec 0 plain_client) (cl_codecs plain_client)) = true ∧
  Enabled (e_params client_enc) = false ∧ k_mtu (cl_codecs plain_client) = 1420 ∧
  k_crossPath (cl_codecs plain_client) = false ∧
  (CheckReplay plain_session 1).1 = true.
Proof. split_and!; vm_compute; reflexivity. Qed.

Lemma plain_server_facts :
  is_Ok (plain_egress plain_server) = true ∧ CrossPath (v_fecParams demo_cfg) = false ∧
  outputs_of (plain_egress plain_server) = [Sent "10.0.0.1:4000" (wire_of (outputs_of (plain_egress plain_server)))] ∧
  plain_pong.2 = [Sent "10.0.0.1:4000" (wire_of plain_pong.2)] ∧ is_Ok (plain_egress plain_pong.1) = true ∧
  outputs_of (plain_egress plain_pong.1) = [Sent "10.0.0.1:4000" (wire_of (outputs_of (plain_egress plain_pong.1)))].
Proof. split_and!; vm_compute; reflexivity. Qed.

Lemma plain_window : win_inv (c_replay (cl_sess plain_client)) [].
Proof. exact default_window_inv. Qed.

(** A handshake between a server without FEC and the client with send queues,
    and what it leaves of the two ends. *)
Definition off_document : Config :=
  mkConfig ModeServer "0.0.0.0:4500" "" "127.0.0.1:51820" "" (mkSched "" "" "" f0)
    (mkFEC false "" 0 f0 0 f0 f0 f0 f0 f0) 0 [] (mkDelivery 0 0)
    (mkHealth f0 f0 f0 f0 f0 f0 0 f0) (mkCrypto "secret" "") (mkLog "" "") (mkTelemetry "" "" f0)
    (mkQueue None 0 "" false) "".
Definition off_server : res string (server_cfg * server string unit) :=
  NewServer (λ _, true) (λ _, true) demo_marshal off_document.
Definition off_cfg : server_cfg := cfg_of off_server.
Definition off_announce : option ServerAnnounce :=
  match Validate (λ _, true) (λ _, true) off_document with Ok c => Some (server_announce c) | _ => None end.

Abbreviation path1 := "10.0.0.1:4000".
Abbreviation live_handle := (handleClientFrame id_string off_cfg).
Abbreviation live_recv := (recv_frame (λ _, off_announce) live_ccfg).

Definition greeted : client string unit := (handshake_send live_ccfg 0 live_c0).1.
Definition live_hello : list byte := default [] (head (drain 1 0 greeted).2).
Abbreviation live_answer := (live_handle (demo_env 9) live_hello (Some path1) (NewServer_state off_cfg)).
Definition live_server : server string unit := state_of live_answer.
Definition live_session : ServerSession string Encoder := default plain_session (session_at 0%nat live_server).
Definition live_client : client string unit :=
  (cresult (live_recv (unix_nano (10 * second)) 0 (wire_of (outputs_of live_answer)) (drain 1 0 greeted).1)).1.

Definition live_link : wanLink := default plain_link (cl_links live_client !! 0%nat).
Definition live_encoder : Encoder := default null_enc (enc_at (slot_enc 0 live_client) (cl_codecs live_client)).
Abbreviation live_pick := (Pick (new_frame 0 77 (u32 (c_seq (cl_sess live_client) + 1)) 0 demo_payload)
  (cl_sched live_client)).

(** The client after a first datagram of its WireGuard, and a datagram back. *)
Definition talking : client string unit :=
  (cresult (ingress id_string (unix_nano (11 * second)) "127.0.0.1:51820" demo_payload live_client)).1.
Abbreviation live_back := (egress_datagram id_string off_cfg (demo_env 12) 0%nat demo_payload live_server).
Definition live_decoder : Decoder := default (NewDecoder plain_params) (dec_at (slot_dec 1 talking) (cl_codecs talking)).

Lemma live_facts :
  is_Ok live_answer = true ∧ is_some (session_at 0%nat live_server) = true ∧
  Get (mgr (sv_world live_server)) 77 = Some 0%nat ∧ c_ID (cl_sess live_client) = 77 ∧
  live_pick.1 = Ok (Some "wan1") ∧ byWAN "wan1" live_client = Some 0%nat ∧
  is_some (cl_links live_client !! 0%nat) = true ∧ is_some (l_q live_link) = true ∧
  room_check 0 (sealed_len (s_aead live_session) 4) live_client = true ∧ l_pathSeq live_link = 0 ∧
  is_some (enc_at (slot_enc 0 live_client) (cl_codecs live_client)) = true ∧
  Enabled (e_params live_encoder) = false ∧ k_mtu (cl_codecs live_client) = 1420 ∧
  k_crossPath (cl_codecs live_client) = false ∧
  (CheckReplay live_session (u32 (c_seq (cl_sess live_client) + 1))).1 = true.
Proof. split_and!; vm_compute; reflexivity. Qed.

Lemma talking_facts :
  s_seq live_session = 1 ∧ s_ID live_session = 77 ∧ c_ID (cl_sess talking) = 77 ∧
  d_next (cl_delivery talking) = 1 ∧ c_wgAddr (cl_sess talking) = Some "127.0.0.1:51820" ∧
  (Enabled ∘ e_params <$> s_Enc live_session) = Some false ∧ CrossPath (v_fecParams off_cfg) = false ∧
  is_Ok live_back = true ∧ outputs_of live_back = [Sent path1 (wire_of (outputs_of live_back))] ∧
  is_some (dec_at (slot_dec 1 talking) (cl_codecs talking)) = true ∧
  c_replay (cl_sess talking) = NewReplayWindow DefaultReplayWindow ∧
  d_pending (cl_delivery talking) = ∅ ∧ d_gapSince (cl_delivery talking) = 0 ∧
  (0 <? d_maxPending (cl_delivery talking)) = true ∧ d_gapTimeout (cl_delivery talking) = 100 * millisecond.
Proof. split_and!; vm_compute; reflexivity. Qed.

Lemma off_facts :
  is_Ok (Validate (λ _, true) (λ _, true) off_document) = true ∧ is_Ok off_server = true ∧
  is_Ok (live_recv (unix_nano (10 * second)) 0 (wire_of (outputs_of live_answer)) (drain 1 0 greeted).1) = true ∧
  is_Ok (ingress id_string (unix_nano (11 * second)) "127.0.0.1:51820" demo_payload live_client) = true ∧
  is_Ok (NewEncoder (v_fecParams off_cfg)) = true ∧
  (drain 1 0 greeted).2 = [live_hello].
Proof. split_and!; vm_compute; reflexivity. Qed.

Lemma singleton_inj {A} (x y : A) : [x] = [y] → x = y.
Proof. by intros [= ->]. Qed.

(** The two ends of the handshake above hold one key. *)
Lemma live_keys : cl_session live_client = Some (s_aead live_session) ∧ s_egress live_session = Some 109 ∧
  cl_session talking = Some (s_aead live_session).
Proof.
  destruct demo_both_facts as (_ & B & Bv & Hcr & F1 & F2 & F3 & F4 & _ & F5 & _ & _ & F8).
  destruct off_facts as (Vo & So & Ro & Io & Eo & Wo).
  destruct (Validate (λ _, true) (λ _, true) off_document) as [cf| |] eqn:Hv; [|discriminate Vo..].
  assert (Hs : ∃ s0, off_server = Ok (off_cfg, s0))
    by (unfold off_cfg; destruct off_server as [[v s]| |]; [by exists s|discriminate So..]).
  destruct Hs as (s0 & Hs). assert (Hc := new_of_Ok _ B). fold live_ccfg live_c0 in Hc.
  assert (Han : off_announce = Some (server_announce cf)) by (unfold off_announce; by rewrite Hv).
  assert (Hcry : cfg_Crypto sample_client = cfg_Crypto cf).
  { transitivity (cfg_Crypto (ok_or off_document (Validate (λ _, true) (λ _, true) off_document)));
      [vm_compute; reflexivity|by rewrite Hv]. }
  assert (Hp : paired off_cfg live_ccfg)
    by exact (paired_documents demo_marshal off_cfg live_ccfg (λ _, true) (λ _, true) (λ _, true) (λ _, true)
      _ _ _ _ _ _ cf sample_client _ _ Hs Hc Hv (ok_or_Ok _ _ Bv) Hcry eq_refl).
  destruct (key_exchange id_string demo_marshal (λ _, off_announce) off_cfg live_ccfg
    (λ _, true) (λ _, true) off_document s0 cf (NewServer_state off_cfg) (demo_env 9) 0 live_c0 live_wan
    path1 (unix_nano (10 * second)) (be_put 32 9) 109 (ok_or null_enc (NewEncoder (v_fecParams off_cfg))) demo_shared)
    as (c1 & out & hello & s1 & ack & p & x & aead & H1 & [_ Hw] & H2 & Hg & Hx & _ & Hk & Hsock & _ & _ & _ & H5).
  - exact Hs.
  - exact Hv.
  - exact (ex_intro _ [] (ex_intro _ [] (conj (Forall_nil_2 _) eq_refl))).
  - exact Hp.
  - exact F1.
  - rewrite F2. unfold_int. lia.
  - exact F3.
  - exact (room_check_sound _ _ _ F4).
  - intros _. assert (H : Forall (λ o, o = None) ((w_FECMaxLossPct ∘ wc_cfg) <$> k_wans (cl_codecs live_c0)))
      by (rewrite F5; repeat constructor).
    eapply Forall_impl; [exact (proj1 (Forall_fmap _ _ _) H)|]. intros w Hn Hw'. by destruct (Hw' Hn).
  - apply Nat.ltb_lt. reflexivity.
  - reflexivity.
  - reflexivity.
  - reflexivity.
  - reflexivity.
  - reflexivity.
  - reflexivity.
  - exact F8.
  - exact (ok_or_Ok null_enc _ Eo).
  - vm_compute. discriminate.
  - discriminate.
  - exact Han.
  - assert (E1 : greeted = c1) by (unfold greeted; by rewrite H1).
    assert (out = []) as -> by (transitivity (handshake_send live_ccfg 0 live_c0).2; [by rewrite H1|vm_compute; reflexivity]).
    assert (Ew : waiting 0 live_c0 = []) by (vm_compute; reflexivity).
    rewrite Ew in Hw. cbn [app length sent_up flat_map fst snd] in Hw. rewrite <-E1, Wo in Hw.
    apply singleton_inj in Hw. rewrite <-Hw in H2.
    assert (Els : live_server = s1) by exact (f_equal state_of H2).
    assert (Ex : live_session = x).
    { destruct live_facts as (_ & _ & Hg0 & _). rewrite Els in Hg0. rewrite F2 in Hg.
      assert (p = 0%nat) as -> by congruence. unfold live_session. by rewrite Els, Hx. }
    destruct (H5 1%nat) as (c2 & E2 & E3 & _). rewrite <-E1 in E2.
    assert (Ec : live_client = c2) by (unfold live_client; rewrite (f_equal outputs_of H2); exact (f_equal (λ r, (cresult r).1) E2)).
    assert (Et : cl_session talking = cl_session live_client).
    { pose proof (cresult_Ok _ Io) as Ei. apply ingress_ckeeps in Ei as [K _]. exact (ck_session _ _ K). }
    rewrite Et, Ex, Ec, E3, Hk. by split_and!.
Qed.

Lemma live_session_at : session_at 0%nat live_server = Some live_session.
Proof. destruct live_facts as (_ & Hx & _). exact (is_some_default _ _ Hx). Qed.

Lemma server_run_one (v : server_cfg) e ev (s : server string unit) s' o :
  server_step id_string v e ev s = Ok (s', o) → server_run id_string v [(e, ev)] s = Ok (s', o ++ []).
Proof. intros H. cbn [server_run]. by rewrite H. Qed.

Lemma demo_env_positive (ev : event string) : env_ok (demo_env 9, ev).
Proof. by vm_compute. Qed.

Lemma live_laws : AEADLaws (s_aead live_session).
Proof.
  destruct live_facts as (B & _). pose proof demo_laws as L. destruct off_facts as (_ & So & _).
  assert (Hr : reachable id_string off_cfg live_server).
  { exists [(demo_env 9, EvFrame live_hello (Some path1))], (outputs_of live_answer ++ []).
    split; [exact (Forall_cons_2 _ _ _ (demo_env_positive _) (Forall_nil_2 _))|].
    pose proof (result_of _ B) as E. fold live_server in E.
    exact (server_run_one off_cfg (demo_env 9) (EvFrame live_hello (Some path1)) (NewServer_state off_cfg) live_server
      (outputs_of live_answer) E). }
  exact (so_aeads _ (server_reachable_ok _ _ _ Hr) _ _ live_session_at).
Qed.

Lemma datagram_through_witness :
  ∃ c' out b s', ingress id_string (unix_nano (11 * second)) "127.0.0.1:51820" demo_payload live_client = Ok (c', out) ∧
    carries 0 live_client (c', out) [b] ∧
    live_handle (demo_env 11) b (Some path1) live_server = Ok (s', [ToWG 109 demo_payload]).
Proof.
  destruct live_facts as (_ & F1 & F2 & F3 & F4 & F5 & F6 & _ & F7 & F8 & F9 & F10 & F11 & F12 & F13).
  destruct live_keys as (K1 & K2 & _).
  apply (datagram_through id_string id_string off_cfg (unix_nano (11 * second)) "127.0.0.1:51820" demo_payload
    live_client live_server (demo_env 11) 0%nat live_session 109 path1 0%nat live_link live_encoder "wan1" live_pick.2);
    rewrite ?F3.
  - exact F2.
  - exact live_session_at.
  - exact live_laws.
  - exact K1.
  - exact K2.
  - unfold_int. lia.
  - exact F13.
  - discriminate.
  - rewrite F11. vm_compute. discriminate.
  - vm_compute. discriminate.
  - exact F12.
  - rewrite <-F4. apply surjective_pairing.
  - exact F5.
  - exact (is_some_default _ _ F6).
  - exact (room_check_sound _ _ _ F7).
  - rewrite F8. unfold_int. lia.
  - exact (is_some_default _ _ F9).
  - left. exact F10.
Defined.

(** The first datagram back after the handshake: the ACK took the number 1 the
    client waits for, so it stays in the buffer for the gap timeout. *)
Lemma datagram_back_witness :
  ∃ c', live_recv (unix_nano (13 * second)) 1 (wire_of (outputs_of live_back)) talking = Ok (c', []) ∧
    (tick_delivery (unix_nano (14 * second)) (c' : client string unit)).2 = [ToInner "127.0.0.1:51820" demo_payload].
Proof.
  destruct live_facts as (_ & F1 & _). destruct live_keys as (_ & _ & K3).
  destruct talking_facts as (T1 & T2 & T3 & T4 & T5 & T6 & T7 & T8 & T9 & T10 & T11 & T12 & T13 & T14 & T15).
  pose proof (result_of _ T8) as E. rewrite T9 in E.
  destruct (s_Enc live_session) as [en|] eqn:He; [|discriminate T6].
  destruct (datagram_back id_string (λ _, off_announce) off_cfg live_ccfg (unix_nano (13 * second)) 1%nat (demo_env 12)
    0%nat demo_payload live_server live_session en (state_of live_back) path1 (wire_of (outputs_of live_back))
    talking [] live_decoder "127.0.0.1:51820") as (c' & out & H1 & _ & _ & H2); rewrite ?T1, ?T2, ?T3, ?T4.
  - exact live_session_at.
  - exact He.
  - left. exact (inj Some _ _ T6).
  - exact T7.
  - exact live_laws.
  - unfold_int. lia.
  - discriminate.
  - vm_compute. discriminate.
  - exact E.
  - exact K3.
  - reflexivity.
  - rewrite T11. exact default_window_inv.
  - cbn. lia.
  - lia.
  - exact (is_some_default _ _ T10).
  - exact T5.
  - lia.
  - exact T12.
  - rewrite T1, T4 in H2. destruct H2 as [-> Ht]; [lia|]. exists c'. split; [exact H1|].
    rewrite Ht, T15; [vm_compute; reflexivity|exact T13|apply Z.ltb_lt; exact T14|vm_compute; reflexivity].
Defined.

Lemma pong_stalls_downlink_witness :
  ∃ c1 c2, recv_frame demo_unmarshal demo_ccfg (unix_nano second) 0 (wire_of plain_pong.2) plain_client = Ok (c1, []) ∧
    recv_frame demo_unmarshal demo_ccfg (unix_nano (2 * second)) 0
      (wire_of (outputs_of (plain_egress plain_pong.1))) c1 = Ok (c2, []) ∧
    (tick_delivery (unix_nano (3 * second)) (c2 : client string unit)).2 = [ToInner "127.0.0.1:51820" demo_payload].
Proof.
  destruct plain_client_facts as (_ & _ & _ & _ & _ & _ & F7 & _).
  destruct plain_server_facts as (_ & G2 & _ & G4 & G5 & G6).
  pose proof (result_of _ G5) as E. rewrite G6 in E.
  destruct (pong_stalls_downlink id_string demo_unmarshal demo_cfg demo_ccfg (unix_nano second) (unix_nano (2 * second))
    0%nat (demo_env 5) 0%nat demo_payload (be_put 8 5) plain_server plain_session plain_enc plain_pong.1
    (state_of (plain_egress plain_pong.1)) "10.0.0.1:4000" "10.0.0.1:4000" (wire_of plain_pong.2)
    (wire_of (outputs_of (plain_egress plain_pong.1))) plain_client [] client_dec "127.0.0.1:51820"
    eq_refl eq_refl (or_introl eq_refl) G2 (sum_aead_laws _)) as (c1 & c2 & H1 & H2 & H3).
  - change (is_u64 77). unfold_int. lia.
  - discriminate.
  - vm_compute. discriminate.
  - rewrite <-G4. apply surjective_pairing.
  - exact E.
  - reflexivity.
  - reflexivity.
  - exact plain_window.
  - cbn. lia.
  - cbn. lia.
  - reflexivity.
  - reflexivity.
  - reflexivity.
  - vm_compute. reflexivity.
  - vm_compute. reflexivity.
  - exact (is_some_default _ _ F7).
  - reflexivity.
  - exists c1, c2. split; [exact H1|]. split; [exact H2|]. rewrite H3. vm_compute. reflexivity.
Defined.
End demo_ends.
