(* ===== verification/CodedLink.v ===== *)
(** * A coded block over the tunnel

    The purpose of the program in one theorem: the datagram that completes a
    block makes the client send the k + p frames of the block, and whichever of
    them reach the server, in whatever order and however often, any k of them
    (a parity frame among them) make it write the k datagrams to the socket of
    the session, once and in order. *)

From S2P Require Import Prelude Float64 Frame Replay Delivery Health SendQueue Scheduler FecCodec FecEncoder FecDecoder FecRecovery FecStreams Sha256 Crypto Session Config TunnelParams Server Client ClientProps Wire Handshake.

#[local] Open Scope string_scope.
#[local] Open Scope Z_scope.
#[local] Open Scope list_scope.

(** ** The frames of a block under their numbers *)

(** Parity frames take the next numbers of the sender's counter, data frames
    have theirs. *)
Fixpoint numbered (q : Z) (fs : list frame) : list frame :=
  match fs with
  | [] => []
  | f :: fs =>
      if HasFlag f FlagFECParity then set_seq (u32 (q + 1)) f :: numbered (u32 (q + 1)) fs
      else f :: numbered q fs
  end.

(** A frame of a block as the encoder returns it. *)
Record sendable_coded (f : frame) : Prop := {
  sc_wf : wf_frame f;
  sc_len : Z.of_nat (length (f_payload f)) ≤ MaxPayload;
  sc_pass : HasFlag f FlagPassSeq = false;
}.

Section link.
  Context {Addr Inner R : Type} (addr_string : Addr → string) (inner_string : Inner → string).
  Context `{!Rand R} {rsl : ReedSolomon} {cph : Ciphers} {dhx : X25519}.
  Context `{!RangeOrder Z firstWindow, !RangeOrder Z ptr, !RangeOrder Z (list byte),
            !RangeOrder blockKey blockState, !RangeOrder Z (sessState Addr R), !RangeOrder string (pathState Addr),
            !RangeOrder Z frame}.
  Context (v : server_cfg).

  Implicit Types (c : client Inner R) (s : server Addr R).

(** ** The client's side *)

Lemma wf_set_seq q f : is_u32 q → wf_frame f → wf_frame (set_seq q f).
Proof. intros Hq []. by split. Qed.

(** A WAN with room for them takes every frame, in order. *)
Lemma send_block i a fs m `{!AEADLaws a} : ∀ c,
  Forall sendable_coded fs → Forall (λ f, plen f ≤ m) fs → room i (Z.of_nat (length fs) * sealed_len a m) c →
  ∃ c' out bs, send_encoded i (Some a) fs c = (c', out) ∧ Forall (λ o, ∃ b, o = ToWAN i b) out ∧
    sent_up out ++ waiting i c' = waiting i c ++ bs ∧
    Forall2 (reads a DirClientToServer) (numbered (c_seq (cl_sess c)) fs) bs.
Proof.
  induction fs as [|f fs IH]; intros c Hfs Hm Hroom; cbn [send_encoded numbered].
  { exists c, [], []. rewrite app_nil_r. split_and!; constructor. }
  apply Forall_cons_1 in Hfs as [[Hwf Hlen Hpass] Hfs]. apply Forall_cons_1 in Hm as [Hf Hm].
  set (r := if HasFlag f FlagFECParity then _ else (f, c)).
  assert (Hr : sendable_coded r.1 ∧ plen r.1 = plen f ∧ cl_links r.2 = cl_links c ∧
    numbered (c_seq (cl_sess c)) (f :: fs) = r.1 :: numbered (c_seq (cl_sess r.2)) fs).
  { unfold r. cbn [numbered]. destruct (HasFlag f FlagFECParity); [|by split_and!].
    cbn [sess_seq Client_NextSeq fst snd cl_links set_sess cl_sess c_seq].
    split; [|done]. split; [|done|done]. apply wf_set_seq; [apply u32_range|done]. }
  cbn [numbered] in Hr. destruct r as [f' c1]. cbn [fst snd] in Hr.
  destruct Hr as ([Hwf' Hlen' Hpass'] & Hpl & Hl1 & ->). set (g := λ l : wanLink, with_counts _ _ _ l).
  set (c2 := on_link i g c1). destruct Hroom as (l & Hl & Hr).
  assert (Hl2 : cl_links c2 !! i = Some (g l)) by (unfold c2, on_link; cbn; by rewrite Hl1, list_lookup_alter_eq, Hl).
  assert (Hst : stamped (g l) f' = f') by (unfold stamped; by rewrite Hpass'). cbn [length] in Hr.
  assert (Hsz : sealed_len a (Z.of_nat (length (f_payload f'))) ≤ sealed_len a m)
    by (unfold sealed_len, plen in *; lia).
  assert (Hm0 : 0 ≤ sealed_len a m) by (unfold sealed_len, plen in *; lia).
  destruct (sendLocked_room i f' a c2 (g l) _ Hl2 Hr)
    as (b & c3 & out & E & Hb & Ho & Hw & Hr3 & Hs3 & _); rewrite ?Hst; try done; [nia|].
  rewrite E. rewrite Hst in Hb.
  destruct (IH c3 Hfs Hm) as (c4 & outs & bs & E4 & Ho4 & Hw4 & Hbs).
  { eapply room_le; [|exact Hr3]. nia. }
  rewrite E4. exists c4, (out ++ outs), (b :: bs). split; [done|]. split; [by apply Forall_app|]. split.
  - unfold sent_up. rewrite flat_map_app. fold (sent_up out). fold (sent_up outs). rewrite <-app_assoc, Hw4, app_assoc, Hw.
    unfold waiting. rewrite Hl2, Hl. cbn. by rewrite <-app_assoc.
  - constructor; [exact Hb|]. by rewrite Hs3 in Hbs.
Qed.

(** The encoder codes, and one frame completes its block. *)
Record completes (now : time) (en : Encoder) (rs : RS) (f : frame) : Prop := {
  co_ok : enc_ok en;
  co_on : Enabled (e_params en) = true;
  co_coding : e_codingOn (refreshLocked now en) = true;
  co_full : Z.of_nat (length (e_pending en)) + 1 = DataShards (e_params en);
  co_codec : e_rs (refreshLocked now en) = Some rs;
  co_k : DataShards (e_params en) < 2 ^ 16;
  co_p : e_rsParity (refreshLocked now en) < 2 ^ 16;
  co_data : data_ok (f_session f) (e_pending en ++ [f]);
}.

Lemma completes_push now en rs f :
  completes now en rs f →
  ∃ parity en',
    block_ok (f_session f) (DataShards (e_params en)) (e_rsParity (refreshLocked now en)) rs (e_pending en ++ [f]) parity ∧
    Encoder_Push now f en =
      Ok (block_frames (f_session f) (u32 (e_block en + 1)) (DataShards (e_params en))
            (e_rsParity (refreshLocked now en)) (e_pending en ++ [f]) parity, en').
Proof.
  intros [Ho Hon Hc Hfull Hrs Hk Hp Hd]. unfold Encoder_Push. rewrite Hon. cbn [negb].
  pose proof (enc_ok_refresh now en Ho) as Ho'. destruct (refresh_fields now en) as (E1 & E2 & E3 & _).
  set (e1 := refreshLocked now en) in *. rewrite Hc. cbn [negb].
  set (e2 := match e_pending e1 with [] => with_blockStart now e1 | _ => e1 end).
  assert (F : e_pending e2 = e_pending e1 ∧ e_params e2 = e_params e1 ∧ e_rs e2 = e_rs e1 ∧
    e_rsParity e2 = e_rsParity e1 ∧ e_block e2 = e_block e1) by (unfold e2; destruct (e_pending e1) eqn:?; done).
  destruct F as (F1 & F2 & F3 & F4 & F5). clearbody e2. cbn [e_pending with_pending e_params].
  rewrite F1, F2, E1, E2, length_app. cbn [length]. rewrite (proj2 (Z.ltb_ge _ _)) by lia.
  destruct (eo_rs _ Ho') as (rs' & Hrs' & Hnew); [by rewrite E1|]. assert (rs' = rs) as -> by congruence.
  rewrite E1 in Hnew. pose proof (eo_k _ Ho) as Hk1.
  destruct (emitBlock_frames (with_pending (e_pending en ++ [f]) e2) (f_session f) rs) as (parity & e' & Hblk & E);
    cbn [e_pending e_params e_rsParity e_rs e_block with_pending]; rewrite ?F2, ?F3, ?F4, ?E1, ?length_app;
    cbn [length]; try done; try lia.
  cbn [e_pending e_params e_rsParity e_rs e_block with_pending] in Hblk, E. rewrite F2, F4, E1 in Hblk, E.
  rewrite F5, E3 in E. by exists parity, e'.
Qed.

Lemma length_parity_payload k p i m data (x : shard) :
  Z.of_nat (length data) = k → Z.of_nat (length (parity_payload k p i m data x)) = 8 + 6 * k + Z.of_nat (length x).
Proof.
  intros Hk. unfold parity_payload. rewrite !length_app, !length_be_put.
  rewrite (length_flat_map_const (λ f, be_put 4 (f_seq f)) 4), (length_flat_map_const _ 2) by (intros; apply length_be_put).
  lia.
Qed.

(** Every frame of the block can be sealed. *)
Lemma block_sendable sid bs k p rs data parity :
  block_ok sid k p rs data parity → is_u64 sid → is_u32 bs → Forall wf_frame data →
  8 + 6 * k + max_len data ≤ MaxPayload → Forall sendable_coded (block_frames sid bs k p data parity).
Proof.
  intros [Hd Hl Hk Hp _ _ _ Hs] Hsid Hbs Hv Hm. unfold block_frames. apply Forall_app. split.
  - apply Forall_map. rewrite Forall_forall in *. intros f Hf. pose proof (do_frames _ _ Hd) as Hfr.
    rewrite Forall_forall in Hfr. destruct (Hfr f Hf) as (_ & _ & H3 & _). destruct (Hv f Hf).
    destruct (max_len_spec data) as (_ & Hmax & _). rewrite Forall_forall in Hmax. specialize (Hmax f Hf).
    split; [by split| |done]. cbn. unfold plen in Hmax. lia.
  - rewrite Forall_lookup in Hs. rewrite Forall_lookup. intros i g Hg. rewrite list_lookup_imap in Hg.
    destruct (parity !! i) as [x|] eqn:Es; [|done]. injection Hg as <-.
    split; [by split| |done]. cbn [f_payload new_frame]. rewrite length_parity_payload by done.
    rewrite (Hs i x Es). lia.
Qed.

(** No frame of the block is longer than its longest data frame with the parity
    sub-header. *)
Lemma block_lengths sid bs k p rs data parity :
  block_ok sid k p rs data parity →
  Forall (λ f, plen f ≤ 8 + 6 * k + max_len data) (block_frames sid bs k p data parity).
Proof.
  intros [Hd Hl Hk Hp _ _ _ Hs]. unfold block_frames. destruct (max_len_spec data) as (_ & Hmax & _). apply Forall_app. split.
  - apply Forall_map. eapply Forall_impl; [exact Hmax|]. intros f Hf. unfold plen in *. cbn. lia.
  - rewrite Forall_lookup in Hs. rewrite Forall_lookup. intros i g Hg. rewrite list_lookup_imap in Hg.
    destruct (parity !! i) as [x|] eqn:Es; [|done]. injection Hg as <-. unfold plen. cbn [f_payload new_frame].
    rewrite length_parity_payload by done. rewrite (Hs i x Es). lia.
Qed.

Lemma length_block sid bs k p rs data parity :
  block_ok sid k p rs data parity → Z.of_nat (length (block_frames sid bs k p data parity)) = k + p.
Proof.
  intros Hblk. unfold block_frames. rewrite length_app, length_map, length_imap.
  pose proof (bk_len _ _ _ _ _ _ Hblk). pose proof (bk_plen _ _ _ _ _ _ Hblk). lia.
Qed.

(** What the client sends for the datagram that completes a block. *)
Lemma client_codes now addr payload c a i en wid sched' rs `{!AEADLaws a} :
  cl_session c = Some a → k_crossPath (cl_codecs c) = false →
  Z.of_nat (length payload) ≤ k_mtu (cl_codecs c) → is_u64 (c_ID (cl_sess c)) →
  let sid := c_ID (cl_sess c) in
  let q := u32 (c_seq (cl_sess c) + 1) in
  let f := new_frame 0 sid q 0 payload in
  let data := e_pending en ++ [f] in
  let k := DataShards (e_params en) in
  let p := e_rsParity (refreshLocked now en) in
  Pick f (cl_sched c) = (Ok (Some wid), sched') → byWAN wid c = Some i →
  room i ((k + p) * sealed_len a (8 + 6 * k + max_len data)) c → enc_at (slot_enc i c) (cl_codecs c) = Some en →
  completes now en rs f → Forall wf_frame (e_pending en) → 8 + 6 * k + max_len data ≤ MaxPayload →
  ∃ c' out bs parity, block_ok sid k p rs data parity ∧
    ingress inner_string now addr payload c = Ok (c', out) ∧ carries i c (c', out) bs ∧
    Forall2 (reads a DirClientToServer) (numbered q (block_frames sid (u32 (e_block en + 1)) k p data parity)) bs.
Proof.
  intros Hs Hx Hmtu Hid sid q f data k p Hpick Hby Hroom Hen Hco Hwf Hmax.
  destruct (completes_push now en rs f Hco) as (parity & en' & Hblk & Hpush).
  destruct (ingress_encodes inner_string now addr payload c a i en wid sched' _ en' Hs Hx Hmtu Hpick Hby Hen Hpush)
    as (c3 & -> & Hl3 & Hq3).
  assert (Hsend : Forall sendable_coded (block_frames sid (u32 (e_block en + 1)) k p data parity)).
  { eapply block_sendable; [exact Hblk|done|apply u32_range| |done].
    apply Forall_app. split; [done|]. constructor; [|done]. split; try done. apply u32_range. }
  assert (Hroom3 : room i ((k + p) * sealed_len a (8 + 6 * k + max_len data)) c3) by (unfold room in *; by rewrite Hl3).
  destruct (send_block i a _ _ c3 Hsend (block_lengths _ _ _ _ _ _ _ Hblk)) as (c4 & out & bs & Es & Ho & Hw & Hbs).
  { by rewrite (length_block _ _ _ _ _ _ _ Hblk). }
  fold q in Hq3. exists c4, out, bs, parity. split; [exact Hblk|]. rewrite <-Hq3. split; [rewrite <-Es; done|].
  split; [|exact Hbs]. apply carries_intro; [done|]. rewrite Hw. unfold waiting. by rewrite Hl3.
Qed.

(** ** The server's side *)

(** The session [sid] is at [p] under the key [a] with the socket [sock]; its
    window of size [W] has seen [hist]; the decoder is [d]. *)
Definition link_at (p : ptr) (sid sock : Z) (a : AEAD) (W : Z) (hist : list Z) (d : Decoder) s : Prop :=
  Get (mgr (sv_world s)) sid = Some p ∧ sv_dec s = d ∧
  ∃ x, session_at p s = Some x ∧ s_aead x = a ∧ s_egress x = Some sock ∧
    win_inv (s_replay x) hist ∧ w_window (s_replay x) = W.

(** A data or parity frame of the session: what its number and the decoder say. *)
Lemma server_handles e ua b f p sid sock a W hist d s :
  link_at p sid sock a W hist d s → reads a DirClientToServer f b → f_session f = sid →
  HasFlag f FlagFirst = false → HasFlag f FlagKeepalive = false → f_payload f ≠ [] → is_u32 (f_seq f) →
  (spec_accept W hist (f_seq f) = false →
   ∃ s', handleClientFrame addr_string v e b (Some ua) s = Ok (s', []) ∧ link_at p sid sock a W hist d s') ∧
  (spec_accept W hist (f_seq f) = true → ∀ out d',
   Decoder_Push (e_now e) (addr_string ua) (set_version Version f) d = Ok (out, d') →
   Forall (λ g, f_session g = sid) out →
   ∃ s', handleClientFrame addr_string v e b (Some ua) s = Ok (s', map (λ g, ToWG sock (f_payload g)) out) ∧
     link_at p sid sock a W (f_seq f :: hist) d' s').
Proof.
  intros (Hg & Hd & x & Hx & Ha & Hsock & Hw & HW) (plain & Ho & Hdec & Hh) Hsid Hff Hfk Hne Hq.
  unfold handleClientFrame. rewrite Hh. change (HasFlag (set_payload _ _) FlagFirst) with (HasFlag f FlagFirst).
  rewrite Hff. unfold handle_data. cbn [f_session set_payload set_version f_seq]. rewrite Hsid, Hg.
  cbn [mbind option_bind]. rewrite Hx. cbn [mbind option_bind]. rewrite Ha, Ho. unfold check_replay. rewrite Hx.
  destruct (CheckAndMark_step _ _ _ Hw Hq) as (C1 & C2 & C3). cbn zeta in *. rewrite HW in C1, C2, C3.
  assert (Hcr : CheckReplay x (f_seq f) = (spec_accept W hist (f_seq f),
    mkSess (s_ID x) (s_aead x) (s_Enc x) (s_seq x) (CheckAndMark (s_replay x) (f_seq f)).2 (s_ServerPub x) (s_egress x)
      (s_endpoints x) (s_lastSeen x))).
  { unfold CheckReplay. rewrite <-C1. by destruct (CheckAndMark _ _). }
  rewrite Hcr. set (x1 := mkSess _ _ _ _ _ _ _ _ _). set (s1 := on_session p (λ _, x1) s).
  assert (Hx1 : session_at p s1 = Some x1).
  { unfold s1. rewrite session_on_session. case_decide; [|done]. by rewrite Hx. }
  destruct (spec_accept W hist (f_seq f)); cbn [negb]; (split; [|]); try done; intros _.
  - intros out d' Hpush Hout. rewrite Hdec. set (s2 := on_session p (Touch (e_now e)) s1).
    assert (Hx2 : session_at p s2 = Some (Touch (e_now e) x1)).
    { unfold s2. rewrite session_on_session. case_decide; [|done]. by rewrite Hx1. }
    destruct (registerPath_session addr_string v e p sid ua [] s2 _ Hx2) as (M & D & x3 & Hx3 & T).
    set (s3 := registerPath _ _ _ _ _ _ _ _) in *. cbn zeta.
    change (HasFlag (set_version Version f) FlagKeepalive) with (HasFlag f FlagKeepalive). rewrite Hfk.
    change (f_payload (set_version Version f)) with (f_payload f).
    destruct (Nat.eqb_spec (length (f_payload f)) 0) as [E0|_]; [by apply length_zero_iff_nil in E0|].
    assert (Hd3 : sv_dec s3 = d) by (rewrite D; exact Hd). rewrite Hd3, Hpush. cbn [res_bind fst snd].
    assert (Hg3 : Get (mgr (sv_world s3)) sid = Some p) by (rewrite M; exact Hg).
    destruct T as (T1 & _ & T2 & _ & _ & _ & T3). exists (set_dec d' s3). split.
    + assert (Hout' : forwardDecoded out (set_dec d' s3) = map (λ g, ToWG sock (f_payload g)) out); [|by rewrite Hout'].
      unfold forwardDecoded. clear Hpush. induction Hout as [|g out Hg' _ IH]; [done|]. cbn [flat_map map].
      rewrite IH, Hg'. change (mgr (sv_world (set_dec d' s3))) with (mgr (sv_world s3)). rewrite Hg3.
      cbn [mbind option_bind]. change (session_at p (set_dec d' s3)) with (session_at p s3). rewrite Hx3.
      cbn [mbind option_bind]. rewrite T3. cbn [Touch s_egress x1]. by rewrite Hsock.
    + split; [exact Hg3|]. split; [done|]. exists x3. split; [exact Hx3|].
      rewrite T1, T2, T3. cbn [Touch s_aead s_egress s_replay x1]. by split_and!.
  - exists s1. split; [done|]. split; [exact Hg|]. split; [exact Hd|]. by exists x1.
Qed.

(** ** The arrival of a block *)

Lemma top_in hist : top hist = 0 ∨ top hist ∈ hist.
Proof.
  induction hist as [|n hist IH]; [by left|]. rewrite top_cons.
  destruct (Z.max_spec n (top hist)) as [[_ ->]|[_ ->]]; [|right; by left].
  destruct IH as [?|?]; [by left|right; by right].
Qed.

Lemma numbered_lookup q l j f' :
  numbered q l !! j = Some f' → ∃ f, l !! j = Some f ∧ (f' = f ∨ HasFlag f FlagFECParity = true ∧ ∃ n, f' = set_seq n f).
Proof.
  revert q j. induction l as [|f l IH]; intros q j; cbn [numbered]; [done|].
  destruct (HasFlag f FlagFECParity) eqn:Hp; (destruct j as [|j]; [intros [= <-]; exists f; cbn; eauto|by apply IH]).
Qed.

Lemma length_numbered q l : length (numbered q l) = length l.
Proof. revert q. induction l as [|f l IH]; intros q; cbn [numbered]; [done|]. destruct (HasFlag _ _); cbn; by rewrite IH. Qed.

(** The decoder reads neither the version nor the number of a parity frame. *)
Lemma push_wired now path f f' d :
  Enabled (dec_params d) = true → coded f → (f' = f ∨ HasFlag f FlagFECParity = true ∧ ∃ n, f' = set_seq n f) →
  Decoder_Push now path (set_version Version f') d = Decoder_Push now path f d.
Proof.
  intros He Hc Hf. assert (H : ∀ g, coded g → Decoder_Push now path (set_version Version g) d = Decoder_Push now path g d).
  { intros g Hg. unfold Decoder_Push. rewrite He. change (key_of path (set_version Version g) d) with (key_of path g d).
    change (HasFlag (set_version Version g)) with (HasFlag g). cbn [negb f_block set_version].
    destruct Hg as [->|[-> Hg]]; [cbn [negb andb]; rewrite ?andb_false_r; done|].
    rewrite (proj2 (Z.eqb_neq _ _) Hg), ?andb_false_r. done. }
  destruct Hf as [->|[Hp [n ->]]]; [by apply H|].
  rewrite H by (by left). unfold Decoder_Push, push_block. change (key_of path (set_seq n f) d) with (key_of path f d).
  change (HasFlag (set_seq n f)) with (HasFlag f). rewrite Hp, He. cbn [negb andb]. rewrite andb_false_r. done.
Qed.

Section arrivals.
  Context (sid k p bs : Z) (rs : RS) (data : list frame) (parity : list shard) (sp : string).
  Context (Hblk : block_ok sid k p rs data parity) (Hbs : 1 ≤ bs < 2 ^ 32).
  Context (Hfull : Forall (λ f, f_payload f ≠ [] ∧ HasFlag f FlagFirst = false ∧ HasFlag f FlagKeepalive = false) data).
  (** The frames of the block under their numbers, which lie above what the
      window has seen and within one window. *)
  Context (q W : Z) (ptr : ptr) (sock : Z) (a : AEAD) (hist0 : list Z) (wire : list (list byte)).
  Abbreviation fs := (numbered q (block_frames sid bs k p data parity)).
  Abbreviation nums := (map f_seq fs).
  Context (Hwire : Forall2 (reads a DirClientToServer) fs wire).
  Context (Hnodup : NoDup nums) (Hnums : ∀ n, n ∈ nums → is_u32 n ∧ top hist0 < n).
  Context (Hspan : ∀ n m, n ∈ nums → m ∈ nums → n - m < W).

(** The window has seen [hist0] and the frames at the positions [seen]. *)
Definition hist_at (seen : gset nat) (hist : list Z) : Prop :=
  ∀ n, n ∈ hist ↔ n ∈ hist0 ∨ ∃ j, j ∈ seen ∧ nums !! j = Some n.

Lemma accept_unseen seen hist j n :
  0 < W → hist_at seen hist → nums !! j = Some n → spec_accept W hist n = bool_decide (j ∉ seen).
Proof.
  unfold hist_at. intros HW Hh Hj. unfold spec_accept. destruct (Hnums n) as [_ Hn]; [by eapply list_elem_of_lookup_2|].
  assert (Htop : top hist - W < n).
  { destruct (top_in hist) as [->|Hin]; [pose proof (top_nonneg hist0); lia|].
    apply Hh in Hin as [Hin%top_ge|(i & _ & Hi)]; [lia|].
    pose proof (Hspan _ n (list_elem_of_lookup_2 _ _ _ Hi) (list_elem_of_lookup_2 _ _ _ Hj)). lia. }
  rewrite (proj2 (Z.ltb_lt _ _) Htop), andb_true_r. apply bool_decide_ext. rewrite Hh. split.
  - intros Hno Hs. apply Hno. right. by exists j.
  - intros Hs [Hin%top_ge|(i & Hi & Hni)]; [lia|]. by rewrite (NoDup_lookup _ _ _ _ Hnodup Hni Hj) in Hi.
Qed.

Lemma hist_add seen hist j n : hist_at seen hist → nums !! j = Some n → hist_at ({[j]} ∪ seen) (n :: hist).
Proof.
  unfold hist_at. intros Hh Hj m. rewrite elem_of_cons, Hh. split.
  - intros [->|[?|(i & Hi & Hm)]]; [right; exists j; set_solver|by left|right; exists i; set_solver].
  - intros [?|(i & [->%elem_of_singleton|Hi]%elem_of_union & Hm)]; [auto|left; congruence|right; right; by exists i].
Qed.

(** The frame at a position, as it is on the wire. *)
Lemma wire_frame j b :
  wire !! j = Some b →
  ∃ f f', fs !! j = Some f' ∧ block_frames sid bs k p data parity !! j = Some f ∧ reads a DirClientToServer f' b ∧
    (f' = f ∨ HasFlag f FlagFECParity = true ∧ ∃ n, f' = set_seq n f) ∧ coded f ∧ f_session f' = sid ∧ f_block f = bs ∧
    f_session f = sid ∧ HasFlag f' FlagFirst = false ∧ HasFlag f' FlagKeepalive = false ∧ f_payload f' ≠ [].
Proof.
  intros Hb. destruct (Forall2_lookup_r _ _ _ _ _ Hwire Hb) as (f' & Hf' & Hr).
  destruct (numbered_lookup _ _ _ _ Hf') as (f & Hf & Hrel). exists f, f'.
  assert (Hcf : coded f ∧ f_session f = sid ∧ f_block f = bs ∧ HasFlag f FlagFirst = false ∧ HasFlag f FlagKeepalive = false ∧
    f_payload f ≠ []).
  { unfold block_frames in Hf. apply lookup_app_Some in Hf as [Hf|[_ Hf]].
    - apply list_lookup_fmap_Some in Hf as (g & -> & Hg). apply list_elem_of_lookup_2 in Hg.
      destruct (data_flags _ _ _ bs _ _ _ Hblk g Hg) as (_ & F2 & F3). rewrite Forall_forall in Hfull.
      destruct (Hfull g Hg) as (F4 & F5 & F6). split; [right; split; [done|cbn; lia]|]. by split_and!.
    - rewrite list_lookup_imap in Hf. destruct (parity !! _); [|done]. injection Hf as <-.
      split; [by left|]. split_and!; done. }
  destruct Hcf as (C1 & C2 & C3 & C4 & C5 & C6). destruct Hrel as [->|[Hp [n ->]]]; split_and!; eauto.
Qed.

(** A buffer of the block received from some address. *)
Definition arrives (x : env R * Addr * nat) : env R * event Addr :=
  (x.1.1, EvFrame (nth x.2 wire []) (Some x.1.2)).

(** An arrival under an address of the stream. *)
Definition on_stream (d : Decoder) (x : env R * Addr * nat) : Prop :=
  (x.2 < length wire)%nat ∧ path_ok sp d (addr_string x.1.2).

(** The state of the block at the decoder: under assembly, or delivered. *)
Definition block_at (seen : gset nat) (d : Decoder) (out : list (output Addr)) : Prop :=
  (out = [] ∧ assembling sid k p bs rs data parity sp seen d) ∨
  (out = map (λ f, ToWG sock (f_payload f)) data ∧ closed_block (sid, sp, bs) d ∧ k ≤ Z.of_nat (size seen)).

(** One arrival: a number seen before is refused, a new one goes to the decoder. *)
Lemma one_arrival seen hist d s x out :
  0 < W → Enabled (dec_params d) = true → on_stream d x → link_at ptr sid sock a W hist d s → hist_at seen hist →
  block_at seen d out →
  ∃ s' hist' d' out', server_step addr_string v (arrives x).1 (arrives x).2 s = Ok (s', out') ∧
    link_at ptr sid sock a W hist' d' s' ∧ hist_at ({[x.2]} ∪ seen) hist' ∧
    dec_params d' = dec_params d ∧ block_at ({[x.2]} ∪ seen) d' (out ++ out').
Proof.
  intros HW He [Hj Hpath] Hl Hh Hst. destruct x as [[e ua] j]. cbn [fst snd arrives server_step] in *.
  destruct (lookup_lt_is_Some_2 _ _ Hj) as [b Hb]. rewrite (nth_lookup_Some _ _ _ _ Hb).
  destruct (wire_frame j b Hb) as (f & f' & Hf' & Hf & Hr & Hrel & Hc & Hsid & Hblkf & Hsidf & Hff & Hfk & Hne).
  assert (Hn : nums !! j = Some (f_seq f')) by (by apply list_lookup_fmap_Some_2).
  destruct (Hnums _ (list_elem_of_lookup_2 _ _ _ Hn)) as [Hu _].
  destruct (server_handles e ua b f' ptr sid sock a W hist d s Hl Hr Hsid Hff Hfk Hne Hu) as [Hno Hyes].
  pose proof (accept_unseen seen hist j _ HW Hh Hn) as Hacc. destruct (bool_decide_reflect (j ∉ seen)) as [Hnew|Hold].
  - specialize (Hyes Hacc). rewrite (push_wired _ _ f f' d He Hc Hrel) in Hyes.
    assert (Hpush : ∃ o d', Decoder_Push (e_now e) (addr_string ua) f d = Ok (o, d') ∧ dec_params d' = dec_params d ∧
      Forall (λ g, f_session g = sid) o ∧ block_at ({[j]} ∪ seen) d' (out ++ map (λ g, ToWG sock (f_payload g)) o)).
    { destruct Hst as [[-> Has]|(-> & Hcl & Hsz)].
      - destruct (push_frame sid k p bs rs data parity sp Hblk Hbs seen d (e_now e) (addr_string ua) j f Has He Hpath Hf)
          as (o & d' & Ep & Pp & Hor). exists o, d'. split; [done|]. split; [done|].
        destruct Hor as [[-> Ha]|(-> & Hcl & Hsz)]; (split; [|]).
        + constructor.
        + by left.
        + apply Forall_map, Forall_forall. done.
        + right. split; [|done]. unfold delivered. by rewrite map_map.
      - exists [], d. rewrite app_nil_r. split; [|split; [done|split; [constructor|]]].
        + apply closed_push; [done|done|]. unfold key_of. by rewrite Hpath, Hsidf, Hblkf.
        + right. split_and!; [done|done|]. etrans; [exact Hsz|]. apply inj_le, subseteq_size. set_solver. }
    destruct Hpush as (o & d' & Ep & Pp & Hall & Hb'). destruct (Hyes o d' Ep Hall) as (s' & Es & Hl').
    exists s', (f_seq f' :: hist), d', (map (λ g, ToWG sock (f_payload g)) o). split_and!; try done. by apply hist_add.
  - specialize (Hno Hacc). destruct Hno as (s' & Es & Hl').
    assert (j ∈ seen) by (destruct (decide (j ∈ seen)); [done|by exfalso]).
    exists s', hist, d, []. rewrite app_nil_r. replace ({[j]} ∪ seen) with seen by set_solver. by split_and!.
Qed.

Lemma many_arrivals xs : ∀ seen hist d s out,
  0 < W → Enabled (dec_params d) = true → Forall (on_stream d) xs → link_at ptr sid sock a W hist d s → hist_at seen hist →
  block_at seen d out →
  ∃ s' d' out', server_run addr_string v (map arrives xs) s = Ok (s', out') ∧
    block_at (list_to_set (map snd xs) ∪ seen) d' (out ++ out').
Proof.
  induction xs as [|x xs IH]; intros seen hist d s out HW He Hall Hl Hh Hst; cbn [map server_run list_to_set].
  { exists s, d, []. rewrite app_nil_r. split; [done|]. by rewrite union_empty_l_L. }
  apply Forall_cons_1 in Hall as [Hx Hall].
  destruct (one_arrival seen hist d s x out HW He Hx Hl Hh Hst) as (s1 & h1 & d1 & o1 & Es & Hl1 & Hh1 & P1 & Hst1).
  destruct (arrives x) as [e ev]. cbn [fst snd] in Es. rewrite Es. cbn [res_bind fst snd].
  destruct (IH ({[x.2]} ∪ seen) h1 d1 s1 (out ++ o1) HW) as (s2 & d2 & o2 & Er & Hst2); try done.
  { by rewrite P1. }
  { eapply Forall_impl; [exact Hall|]. intros y [Hy Hp]. split; [done|]. unfold path_ok. by rewrite P1. }
  rewrite Er. cbn [res_bind fst snd]. exists s2, d2, (o1 ++ o2). split; [done|].
  rewrite <-(app_assoc out) in Hst2. rewrite (union_comm_L {[x.2]}), <-union_assoc_L. by rewrite (union_comm_L _ seen), union_assoc_L in Hst2 |- *.
Qed.

End arrivals.

(** ** The whole way *)

Lemma numbered_app q l1 l2 :
  Forall (λ f, HasFlag f FlagFECParity = false) l1 → numbered q (l1 ++ l2) = l1 ++ numbered q l2.
Proof. induction 1 as [|f l1 Hf _ IH]; [done|]. cbn [app numbered]. by rewrite Hf, IH. Qed.

Lemma numbered_seqs q l :
  0 ≤ q → q + Z.of_nat (length l) < 2 ^ 32 → Forall (λ f, HasFlag f FlagFECParity = true) l →
  map f_seq (numbered q l) = seqZ (q + 1) (Z.of_nat (length l)).
Proof.
  intros Hq Hl Hall. revert q Hq Hl. induction Hall as [|f l Hf _ IH]; intros q Hq Hl; [done|]. cbn [length] in *.
  cbn [numbered]. rewrite Hf. cbn [map]. rewrite u32_small by (unfold is_u32; lia).
  rewrite seqZ_cons by lia. cbn [f_seq set_seq]. f_equal. rewrite IH by lia. f_equal; lia.
Qed.

(** The numbers of the frames of a block. *)
Lemma block_numbers sid bs k p rs data parity q :
  block_ok sid k p rs data parity → 0 ≤ q → q + p < 2 ^ 32 →
  map f_seq (numbered q (block_frames sid bs k p data parity)) = seqs_of data ++ seqZ (q + 1) p.
Proof.
  intros Hblk Hq Hmax. pose proof (bk_plen _ _ _ _ _ _ Hblk) as Hp. unfold block_frames. rewrite numbered_app.
  - rewrite map_app. f_equal; [unfold seqs_of; by rewrite map_map|].
    rewrite numbered_seqs; rewrite ?length_imap, ?Hp; try done.
    rewrite Forall_lookup. intros i f Hf. rewrite list_lookup_imap in Hf. destruct (parity !! i); [|done].
    by injection Hf as <-.
  - apply Forall_map, Forall_forall. intros f Hf. by destruct (data_flags _ _ _ bs _ _ _ Hblk f Hf).
Qed.

(** A data frame as the ingress pushes it. *)
Definition plain_frame (f : frame) : Prop := wf_frame f ∧ f_flags f = 0 ∧ f_payload f ≠ [].

(** C3 — A block of datagrams crosses the tunnel when any k of its frames do.
    The setting is an established session with per-WAN coding: the encoder of the
    picked WAN codes and holds all but one datagram of its next block, and the
    WAN has no send queue or one with room for the block; the pending numbers and
    those the parity frames take fit the session's replay window and lie above
    all it has seen; the server's decoder is enabled, has nothing of the block,
    has not flushed it, and its codec cache holds no other code under the block's
    key. Then the datagram that completes the block makes that WAN carry k + p
    sealed frames. Let the network deliver any of them to the server, in any
    order, repeated, late, under any address that names the block's path (any
    address at all when the server decodes across paths): when at least k
    different ones arrive, one of them a parity frame, the server writes the k
    datagrams of the block to the socket of the session, in order and once; when
    fewer arrive it writes nothing. *)
Theorem coded_block_through now addr payload c s i en wid sched' rs ptr sock a W hist d sp :
  let sid := c_ID (cl_sess c) in
  let q := u32 (c_seq (cl_sess c) + 1) in
  let f := new_frame 0 sid q 0 payload in
  let k := DataShards (e_params en) in
  let p := e_rsParity (refreshLocked now en) in
  let bs := u32 (e_block en + 1) in
  AEADLaws a → cl_session c = Some a → k_crossPath (cl_codecs c) = false →
  payload ≠ [] → Z.of_nat (length payload) ≤ k_mtu (cl_codecs c) → is_u64 sid →
  Pick f (cl_sched c) = (Ok (Some wid), sched') → byWAN wid c = Some i →
  room i ((k + p) * sealed_len a (8 + 6 * k + max_len (e_pending en ++ [f]))) c →
  enc_at (slot_enc i c) (cl_codecs c) = Some en →
  completes now en rs f → Forall plain_frame (e_pending en) → 8 + 6 * k + max_len (e_pending en ++ [f]) ≤ MaxPayload →
  top hist < q → q + p < 2 ^ 32 → p < W →
  Forall (λ g, top hist < f_seq g ∧ f_seq g < q ∧ q + p - f_seq g < W) (e_pending en) →
  link_at ptr sid sock a W hist d s → Enabled (dec_params d) = true →
  bs ≠ 0 → blocks d !! (sid, sp, bs) = None → flushed_at (sid, sp) d < bs → cache_ok p rs d →
  ∃ c' out wire, ingress inner_string now addr payload c = Ok (c', out) ∧ carries i c (c', out) wire ∧
    Z.of_nat (length wire) = k + p ∧
    ∀ xs, Forall (on_stream sp wire d) xs →
      let got : gset nat := list_to_set (map snd xs) in
      ∃ s' out, server_run addr_string v (map (arrives wire) xs) s = Ok (s', out) ∧
        (k ≤ Z.of_nat (size got) → (∃ j, j ∈ got ∧ k ≤ Z.of_nat j) →
         out = map (λ g, ToWG sock (f_payload g)) (e_pending en) ++ [ToWG sock payload]) ∧
        (Z.of_nat (size got) < k → out = []).
Proof.
  intros sid q f k p bs Ha Hs Hx Hne Hmtu Hid Hpick Hby Hroom Hen Hco Hpl Hmax Hq Hov HpW Hseqs Hlink He Hb Hbl Hfl Hc.
  destruct (client_codes now addr payload c a i en wid sched' rs Hs Hx Hmtu Hid Hpick Hby Hroom Hen Hco)
    as (c' & out0 & wire & parity & Hblk & Hin & Hcar & Hwire); [by eapply Forall_impl; [exact Hpl|intros ? []]|exact Hmax|].
  fold sid q f k p bs in Hblk, Hin, Hwire. exists c', out0, wire. split; [exact Hin|]. split; [exact Hcar|].
  assert (Hq0 : 0 ≤ q) by (pose proof (u32_range (c_seq (cl_sess c) + 1)) as Hr; unfold is_u32 in Hr; fold q in Hr; lia).
  assert (Hp0 : 0 ≤ p) by (pose proof (bk_p _ _ _ _ _ _ Hblk); lia).
  pose proof (block_numbers _ bs _ _ _ _ _ q Hblk Hq0 Hov) as Hnums.
  split.
  { rewrite <-(Forall2_length _ _ _ Hwire), length_numbered. exact (length_block _ _ _ _ _ _ _ Hblk). }
  assert (Hbs : 1 ≤ bs < 2 ^ 32) by (pose proof (u32_range (e_block en + 1)) as Hr; unfold is_u32 in Hr; fold bs in Hr; lia).
  assert (Hbound : ∀ n, n ∈ seqs_of (e_pending en ++ [f]) ++ seqZ (q + 1) p → top hist < n ∧ q + p - n < W ∧ n ≤ q + p).
  { intros n. rewrite elem_of_app, elem_of_seqZ. unfold seqs_of. rewrite map_app, elem_of_app. rewrite Forall_forall in Hseqs.
    intros [[(g & -> & Hg)%list_elem_of_fmap| ->%list_elem_of_singleton]|?]; [|cbn; lia|lia]. specialize (Hseqs g Hg). lia. }
  intros xs Hxs got.
  destruct (many_arrivals sid k p bs rs (e_pending en ++ [f]) parity sp Hblk Hbs) with (q := q) (W := W) (ptr := ptr)
    (sock := sock) (a := a) (hist0 := hist) (wire := wire) (xs := xs) (seen := ∅ : gset nat) (hist := hist) (d := d) (s := s)
    (out := [] : list (output Addr)) as (s' & d' & out & Hrun & Hat).
  - apply Forall_app. split; [|by repeat constructor]. eapply Forall_impl; [exact Hpl|]. intros g (_ & Hg & ?).
    unfold HasFlag. by rewrite Hg.
  - exact Hwire.
  - rewrite Hnums. apply NoDup_app. split_and!; [apply Hblk| |apply NoDup_seqZ].
    unfold seqs_of. rewrite map_app. intros n Hn. rewrite elem_of_seqZ. rewrite Forall_forall in Hseqs.
    apply elem_of_app in Hn as [(g & -> & Hg)%list_elem_of_fmap| ->%list_elem_of_singleton]; [|cbn; lia].
    specialize (Hseqs g Hg). lia.
  - rewrite Hnums. intros n Hn%Hbound. unfold is_u32. pose proof (top_nonneg hist). lia.
  - rewrite Hnums. intros n m Hn%Hbound Hm%Hbound. lia.
  - lia.
  - done.
  - exact Hxs.
  - exact Hlink.
  - intros n. split; [by left|]. intros [?|(j & Hj & _)]; [done|]. by apply elem_of_empty in Hj.
  - left. split; [done|]. split; [by left|exact Hfl|exact Hc].
  - exists s', out. split; [exact Hrun|]. rewrite union_empty_r_L in Hat. fold got in Hat. cbn [app] in Hat.
    assert (Hout : map (λ g, ToWG (Addr := Addr) sock (f_payload g)) (e_pending en ++ [f]) =
      map (λ g, ToWG sock (f_payload g)) (e_pending en) ++ [ToWG sock payload]) by (by rewrite map_app).
    rewrite <-Hout. split.
    + intros Hn (j & Hj & Hkj). destruct Hat as [[_ [[[_ E0]|(st & _ & Ho & Hinc)] _ _]]|[-> _]]; [| |done].
      * rewrite E0 in Hj. by apply elem_of_empty in Hj.
      * exfalso. destruct Ho as [_ _ _ _ _ _ PS SZ]. pose proof (bk_len _ _ _ _ _ _ Hblk).
        specialize (PS j Hj ltac:(lia)). destruct Hinc as [?|?]; [done|lia].
    + intros Hlt. destruct Hat as [[-> _]|(_ & _ & ?)]; [done|lia].
Qed.
End link.

(** ** A block on the sample tunnel *)

Section demo_block.
#[local] Existing Instances key_order sum_ciphers dh_exchange.

Abbreviation id_string := (λ a : string, a).

(** The client with send queues and the codecs of the announce, after nine datagrams; the server
    with its decoder. *)
Definition queued_client : client string unit :=
  setSessionAEAD (sum_aead sample_key) (set_sess (SetWGAddr (cl_sess live_c0) "127.0.0.1:51820") live_c0).
Definition announced : codecs := (applyAnnounce demo_unmarshal [x7b; x7d] (cl_codecs queued_client)).2.
Definition datagram (n : Z) : list byte := [x45; z2b n; x01].
Definition nine_more (c : client string unit) : client string unit :=
  foldl (λ c n, (ok_or (c, []) (ingress id_string (unix_nano second) "127.0.0.1:51820" (datagram n) c)).1) c (seqZ 1 9).
Definition coded_client : client string unit := nine_more (set_codecs announced queued_client).
Definition coded_server : server string unit := set_dec (NewDecoder (v_fecParams demo_cfg)) plain_server.

Definition coded_enc : Encoder := default plain_enc (enc_at (slot_enc 0 coded_client) (cl_codecs coded_client)).
Definition coded_frame : frame :=
  new_frame 0 (c_ID (cl_sess coded_client)) (u32 (c_seq (cl_sess coded_client) + 1)) 0 (datagram 10).
Abbreviation coded_data := (map (λ n, new_frame 0 77 n 0 (datagram n)) (seqZ 1 9)).
Abbreviation coded_pick := (Pick coded_frame (cl_sched coded_client)).
Abbreviation refreshed := (refreshLocked (unix_nano second) coded_enc).

(** The single-parity code for ten data shards. *)
Definition coded_rs : @RS xor_code := 10.

Lemma coded_client_facts :
  e_params coded_enc = mkParams 10 1 (8 * millisecond) None false 0 ∧
  e_rs coded_enc = Some coded_rs ∧ e_rs refreshed = Some coded_rs ∧ e_rsParity coded_enc = 1 ∧ e_rsParity refreshed = 1 ∧
  e_codingOn refreshed = true ∧ e_block coded_enc = 0 ∧
  e_pending coded_enc = map (λ n, new_frame 0 77 n 0 (datagram n)) (seqZ 1 9) ∧
  coded_pick.1 = Ok (Some "wan1") ∧ byWAN "wan1" coded_client = Some 0%nat ∧
  room_check 0 (11 * sealed_len (sum_aead sample_key) 71) coded_client = true ∧ waiting 0 coded_client = [] ∧
  is_some (enc_at (slot_enc 0 coded_client) (cl_codecs coded_client)) = true ∧
  k_crossPath (cl_codecs coded_client) = false ∧ k_mtu (cl_codecs coded_client) = 1380 ∧
  c_ID (cl_sess coded_client) = 77 ∧ c_seq (cl_sess coded_client) = 9.
Proof. split_and!; vm_compute; reflexivity. Qed.

Lemma coded_frame_is : coded_frame = new_frame 0 77 10 0 (datagram 10).
Proof. vm_compute. reflexivity. Qed.

Lemma coded_completes : completes (unix_nano second) coded_enc coded_rs coded_frame.
Proof.
  destruct coded_client_facts as (F1 & F2 & F3 & F4 & F5 & F6 & _ & F8 & _).
  split; [|rewrite F1; reflexivity|exact F6|rewrite F1, F8; reflexivity|exact F3|rewrite F1; reflexivity|rewrite F5; reflexivity|].
  - split; [rewrite F1; cbn; lia|intros _; rewrite F1, F2, F4; eexists; split; reflexivity|rewrite F1, F8; reflexivity| |].
    + rewrite F8. repeat constructor.
    + rewrite F1. intros E. discriminate E.
  - rewrite coded_frame_is, F8. apply (pushes_data 77 _ _ (check_pushes 77 (coded_data ++ [new_frame 0 77 10 0 (datagram 10)]) eq_refl)); done.
Qed.

(** Nine of the ten data frames and the parity frame, out of order and repeated. *)
Definition block_arrivals : list (env unit * string * nat) :=
  map (λ j, (demo_env 5, "10.0.0.1:4000", j)) [10; 0; 1; 1; 3; 2; 10; 4; 5; 6; 8; 7]%nat.

Lemma coded_block_through_witness :
  ∃ c' out wire, ingress id_string (unix_nano second) "127.0.0.1:51820" (datagram 10) coded_client = Ok (c', out) ∧
    sent_up out ++ (drain 11 0 c').2 = wire ∧ length wire = 11%nat ∧
    ∃ s' out, server_run id_string demo_cfg (map (arrives wire) block_arrivals) coded_server = Ok (s', out) ∧
      out = map (λ n, ToWG 109 (datagram n)) (seqZ 1 10).
Proof.
  destruct coded_client_facts as (F1 & F2 & F3 & F4 & F5 & F6 & F7 & F8 & F9 & F10 & F11 & F12 & F13 & F14 & F15 & F16 & F17).
  pose proof coded_frame_is as Hfr. pose proof coded_completes as Hco.
  assert (Hmax : max_len (e_pending coded_enc ++ [coded_frame]) = 3) by (rewrite F8, Hfr; reflexivity).
  assert (Hq : u32 (c_seq (cl_sess coded_client) + 1) = 10) by (rewrite F17; reflexivity).
  assert (Hlink : link_at 0%nat (c_ID (cl_sess coded_client)) 109 (sum_aead sample_key) DefaultReplayWindow []
    (NewDecoder (v_fecParams demo_cfg)) coded_server).
  { rewrite F16. split; [reflexivity|]. split; [reflexivity|]. exists plain_session. split_and!; try reflexivity.
    exact default_window_inv. }
  destruct (coded_block_through id_string id_string demo_cfg (unix_nano second) "127.0.0.1:51820" (datagram 10) coded_client
    coded_server 0%nat coded_enc "wan1" coded_pick.2 coded_rs 0%nat 109 (sum_aead sample_key)
    DefaultReplayWindow [] (NewDecoder (v_fecParams demo_cfg)) "10.0.0.1:4000" (sum_aead_laws _)) as (c' & out & wire & Hin & [_ Hcar] & Hlen & Hall).
  - reflexivity.
  - exact F14.
  - discriminate.
  - rewrite F15. vm_compute. discriminate.
  - rewrite F16. unfold_int. lia.
  - change (coded_pick = (Ok (Some "wan1"), coded_pick.2)). rewrite <-F9. apply surjective_pairing.
  - exact F10.
  - fold coded_frame. rewrite Hmax, F1, F5. exact (room_check_sound _ _ _ F11).
  - exact (is_some_default _ _ F13).
  - exact Hco.
  - rewrite F8. repeat constructor; try (unfold_int; cbn; lia); discriminate.
  - fold coded_frame. rewrite Hmax, F1. vm_compute. discriminate.
  - rewrite Hq. reflexivity.
  - rewrite Hq, F5. reflexivity.
  - rewrite F5. reflexivity.
  - rewrite Hq, F5, F8. repeat constructor; cbn; lia.
  - exact Hlink.
  - reflexivity.
  - rewrite F7. discriminate.
  - reflexivity.
  - rewrite F7. reflexivity.
  - intros rs' E. rewrite F5 in E. discriminate E.
  - rewrite F1, F5 in Hlen. assert (Hl : length wire = 11%nat) by (cbn in Hlen; lia).
    rewrite F12 in Hcar. cbn [app fst snd] in Hcar. rewrite Hl in Hcar.
    exists c', out, wire. split; [exact Hin|]. split; [exact Hcar|]. split; [exact Hl|].
    destruct (Hall block_arrivals) as (s' & served & Hrun & Hk & _).
    { assert (Hpath : path_ok "10.0.0.1:4000" (NewDecoder (v_fecParams demo_cfg)) "10.0.0.1:4000") by reflexivity.
      apply Forall_map, Forall_forall. intros j Hj. split; [|exact Hpath]. cbn [snd].
      assert (Hlt : Forall (λ j, j < 11)%nat [10; 0; 1; 1; 3; 2; 10; 4; 5; 6; 8; 7]%nat) by (repeat constructor; lia).
      rewrite Forall_forall in Hlt. specialize (Hlt j Hj). clear - Hlen Hlt. cbn in Hlen. lia. }
    exists s', served. split; [exact Hrun|]. rewrite Hk; [rewrite F8; reflexivity|rewrite F1; vm_compute; discriminate|].
    exists 10%nat. split; [vm_compute; tauto|rewrite F1; cbn; lia].
Defined.
End demo_block.
