(* ===== verification/Tunnel.v ===== *)
(** * The tunnel: client, network and server as one system

    One client and one server with an adversary between them. The network keeps
    every sealed frame either end has sent; the adversary may lose, repeat,
    reorder and redirect them at will and may inject any buffer, except that it
    cannot seal under a session key it does not hold. A step is a step of one
    of the ends or of a WAN's queue consumer. *)

From S2P Require Import Prelude Float64 Frame Replay Delivery Health SendQueue Scheduler FecCodec FecEncoder FecDecoder Crypto Session Config TunnelParams Server Client ClientProps Wire.

#[local] Open Scope string_scope.
#[local] Open Scope Z_scope.
#[local] Open Scope list_scope.

Section tunnel.
  (** Endpoints of the server, endpoints of the client's inner side. *)
  Context {Addr Inner R : Type} (addr_string : Addr → string) (inner_string : Inner → string).
  Context `{!Rand R} {rsl : ReedSolomon} {cph : Ciphers} {dhx : X25519}.
  Context `{!RangeOrder Z firstWindow, !RangeOrder Z ptr, !RangeOrder Z (list byte),
            !RangeOrder blockKey blockState, !RangeOrder Z (sessState Addr R), !RangeOrder string (pathState Addr),
            !RangeOrder Z frame}.
  Context (unmarshal : list byte → option ServerAnnounce).
  Context (v : server_cfg) (cc : client_cfg).

(** The client's session at the server and its socket towards WireGuard. *)
Context (p : ptr) (sock : Z).

(** Both ends, the frames under the session key that were handed to the network
    in either direction, and what crossed the two WireGuard sides: the datagrams
    taken in and given out at the client and at the server. *)
Record ends := mkEnds {
  en_client : Client.client Inner R;
  en_server : Server.server Addr R;
  en_up : list (list byte);
  en_down : list (list byte);
  en_ingested : list (list byte);      (* from the client's WireGuard *)
  en_served : list (list byte);        (* to the server's WireGuard *)
  en_egressed : list (list byte);      (* from the server's WireGuard *)
  en_delivered : list (list byte);     (* to the client's WireGuard *)
}.

Inductive tunnel_event :=
| TClient (now : time) (ev : client_event Inner)
| TConsume (i : nat)                       (* the consumer of WAN i sends a frame *)
| TServer (e : env R) (ev : Server.event Addr).

Definition delivered_by (out : list (client_output Inner)) : list (list byte) :=
  flat_map (λ o, match o with ToInner _ b => [b] | ToWAN _ _ => [] end) out.
Definition ingested_by (ev : client_event Inner) : list (list byte) :=
  match ev with CIngress _ b => [b] | _ => [] end.

Definition served_by (out : list (Server.output Addr)) : list (list byte) :=
  flat_map (λ o, match o with ToWG c b => if decide (c = sock) then [b] else [] | Sent _ _ => [] end) out.
Definition egressed_by (ev : Server.event Addr) : list (list byte) :=
  match ev with EvEgress q b => if decide (q = p) then [b] else [] | _ => [] end.

(** What the FEC tick sends for the session [p] as it passes over the sessions. *)
Fixpoint tick_sent (e : env R) (qs : list ptr) (s : Server.server Addr R) : list (Server.output Addr) :=
  match qs with
  | [] => []
  | q :: qs =>
      match tick_sessions addr_string v e [q] s with
      | Ok (s1, out) => (if decide (q = p) then out else []) ++ tick_sent e qs s1
      | _ => []
      end
  end.

(** The frames a server step seals under the key of the session [p]. *)
Definition sent_down (e : env R) (s : Server.server Addr R) (ev : Server.event Addr)
    (out : list (Server.output Addr)) : list (list byte) :=
  let wire := flat_map (λ o : Server.output Addr, match o with Sent _ b => [b] | ToWG _ _ => [] end) in
  match ev with
  | EvEgress q _ => if decide (q = p) then wire out else []
  | EvFrame sealed _ =>
      match DecodeHeader sealed with
      | Ok hdr =>
          if negb (HasFlag hdr FlagFirst) && bool_decide (Get (mgr (sv_world s)) (f_session hdr) = Some p)
          then wire out else []
      | _ => []
      end
  | EvFecTick => wire (tick_sent e (All (mgr (sv_world s))) s)
  | _ => []
  end.

Definition tunnel_step (ev : tunnel_event) (t : ends) : res unit ends :=
  match ev with
  | TClient now ev =>
      let? r := client_step inner_string unmarshal cc now ev (en_client t) in
      Ok (mkEnds r.1 (en_server t) (en_up t ++ sent_up r.2) (en_down t) (en_ingested t ++ ingested_by ev)
            (en_served t) (en_egressed t) (en_delivered t ++ delivered_by r.2))
  | TConsume i =>
      let '(c, b) := consume i (en_client t) in
      Ok (mkEnds c (en_server t) (en_up t ++ b) (en_down t) (en_ingested t)
            (en_served t) (en_egressed t) (en_delivered t))
  | TServer e ev =>
      let? r := server_step addr_string v e ev (en_server t) in
      Ok (mkEnds (en_client t) r.1 (en_up t) (en_down t ++ sent_down e (en_server t) ev r.2) (en_ingested t)
            (en_served t ++ served_by r.2) (en_egressed t ++ egressed_by ev) (en_delivered t))
  end.

Fixpoint tunnel_run (evs : list tunnel_event) (t : ends) : res unit ends :=
  match evs with
  | [] => Ok t
  | ev :: evs => let? t := tunnel_step ev t in tunnel_run evs t
  end.

(** What the adversary cannot do, and what the system guarantees of a server
    step: a frame that opens under the session key (a FIRST frame is opened
    under the base key and is not meant) was sent by the other end, the clock is
    past its zero and a newly dialled socket is not one that is in use. *)
Definition opens (a : AEAD) (dir : NonceDirection) (b : list byte) : Prop := is_Ok (Open a dir b) = true.

Definition first_frame (b : list byte) : Prop :=
  ∃ hdr, DecodeHeader b = Ok hdr ∧ HasFlag hdr FlagFirst = true.

Definition admissible (a : AEAD) (t : ends) (ev : tunnel_event) : Prop :=
  match ev with
  | TClient now ev =>
      0 < now ∧ match ev with CRecv _ b => opens a DirServerToClient b → b ∈ en_down t | _ => True end
  | TServer e ev =>
      0 < e_now e ∧
      (∀ c q x, e_dial e = Some c → session_at q (en_server t) = Some x → s_egress x ≠ Some c) ∧
      match ev with
      | EvFrame b _ => opens a DirClientToServer b → b ∈ en_up t ∨ first_frame b
      | _ => True
      end
  | _ => True
  end.

Fixpoint admissible_run (a : AEAD) (evs : list tunnel_event) (t : ends) : Prop :=
  match evs with
  | [] => True
  | ev :: evs =>
      admissible a t ev ∧ match tunnel_step ev t with Ok t => admissible_run a evs t | _ => True end
  end.

(** A sufficient test. *)
Definition check_event (a : AEAD) (t : ends) (ev : tunnel_event) : bool :=
  match ev with
  | TClient now ev =>
      (0 <? now) && match ev with
                    | CRecv _ b => negb (is_Ok (Open a DirServerToClient b)) || bool_decide (b ∈ en_down t)
                    | _ => true
                    end
  | TConsume _ => true
  | TServer e ev =>
      (0 <? e_now e) && match e_dial e with None => true | Some _ => false end &&
      match ev with
      | EvFrame b _ => negb (is_Ok (Open a DirClientToServer b)) || bool_decide (b ∈ en_up t)
      | _ => true
      end
  end.

Fixpoint check_run (a : AEAD) (evs : list tunnel_event) (t : ends) : bool :=
  match evs with
  | [] => true
  | ev :: evs => check_event a t ev && match tunnel_step ev t with Ok t => check_run a evs t | _ => true end
  end.

Lemma check_event_sound a t ev : check_event a t ev = true → admissible a t ev.
Proof.
  assert (Hb : ∀ dir b (l : list (list byte)), negb (is_Ok (Open a dir b)) || bool_decide (b ∈ l) = true → opens a dir b → b ∈ l).
  { intros dir b l H Ho. unfold opens in Ho. rewrite Ho in H. cbn in H. by apply bool_decide_eq_true in H. }
  destruct ev as [now ev|i|e ev]; cbn [check_event admissible]; [|done|rewrite ?andb_assoc].
  - intros [H1%Z.ltb_lt H2]%andb_true_iff. split; [done|]. destruct ev; try done. by apply Hb.
  - intros [[H1%Z.ltb_lt H2]%andb_true_iff H3]%andb_true_iff. split; [done|].
    split; [intros c q x Hd; by rewrite Hd in H2|]. destruct ev; try done. intros Ho. left. by eapply Hb.
Qed.

Lemma check_run_sound a evs t : check_run a evs t = true → admissible_run a evs t.
Proof.
  revert t. induction evs as [|ev evs IH]; intros t; [done|]. cbn [check_run admissible_run].
  intros [H1 H2]%andb_true_iff. split; [by apply check_event_sound|]. destruct (tunnel_step ev t); [by apply IH|done..].
Qed.

(** Coding is off: at the server in the decoder and the encoder of every session,
    at the client in every codec. *)
Definition server_off (s : Server.server Addr R) : Prop :=
  Enabled (dec_params (sv_dec s)) = false ∧
  ∀ q x en, session_at q s = Some x → s_Enc x = Some en → Enabled (e_params en) = false.
Definition client_off (c : Client.client Inner R) : Prop :=
  (∀ k en, h_encs (k_heap (cl_codecs c)) !! k = Some en → Enabled (e_params en) = false) ∧
  (∀ k d, h_decs (k_heap (cl_codecs c)) !! k = Some d → Enabled (dec_params d) = false).

(** The moment after the key exchange: both ends hold the key [a], nothing was
    sealed under it yet, and the socket of the session is its own. *)
Record established (a : AEAD) (t : ends) : Prop := {
  es_key : cl_session (en_client t) = Some a;
  es_id : is_u64 (c_ID (cl_sess (en_client t)));
  es_session : ∃ x, session_at p (en_server t) = Some x ∧ s_aead x = a ∧ s_egress x = Some sock ∧
    s_ID x = c_ID (cl_sess (en_client t));
  es_socket : ∀ q x, session_at q (en_server t) = Some x → s_egress x = Some sock → q = p;
  es_server : server_ok (en_server t);
  es_queues : ∀ b, queued (en_client t) b → first_frame b;
  es_quiet : en_up t = [] ∧ en_down t = [] ∧ en_ingested t = [] ∧ en_served t = [] ∧
    en_egressed t = [] ∧ en_delivered t = [];
}.
End tunnel.

Arguments ends : clear implicits.
Arguments ends _ _ _ {_}.
Arguments tunnel_event : clear implicits.
