(* ===== verification/Uplink.v ===== *)
(** * The way up: from the client's WireGuard to the server's

    What an established client without coding seals, what the server makes of
    it, and their composition over an adversarial network: the server's
    WireGuard receives only datagrams of the client's WireGuard, each at most as
    often as it was sent. *)

From S2P Require Import Prelude Float64 Frame Replay Delivery Health SendQueue Scheduler FecCodec FecEncoder FecDecoder Crypto Session Config TunnelParams Server Client ClientProps Wire Tunnel.

#[local] Open Scope string_scope.
#[local] Open Scope Z_scope.
#[local] Open Scope list_scope.

(** ** Sealed frames *)

(** [b] is [f] sealed under [a], with the path counter of some WAN in place of
    the block number where the sender stamps one. *)
Definition sealing (dir : NonceDirection) (a : AEAD) (f : frame) (b : list byte) : Prop :=
  ∃ k plain, Encode (if HasFlag f FlagPassSeq then set_block k f else f) = Ok plain ∧ Seal a dir plain = Ok b.

Lemma Encode_block f k : Encode (set_block (u32 k) f) = Encode (set_block k f).
Proof.
  destruct (Z.le_gt_cases (Z.of_nat (length (f_payload f))) MaxPayload) as [Hl|Hl].
  - rewrite !Encode_layout by done. unfold header_bytes. cbn [f_block set_block f_flags f_session f_seq f_payload].
    by rewrite be_put_u32.
  - by rewrite !Encode_too_large by (cbn; lia).
Qed.

Lemma new_frame_wf fl id q payload :
  is_u8 fl → is_u64 id → is_u32 q → wf_frame (new_frame fl id q 0 payload).
Proof. by split. Qed.

(** The receiver gets the frame back, up to that number. *)
Lemma sealing_reads dir a f b `{!AEADLaws a} :
  wf_frame f → sealing dir a f b →
  ∃ k plain, Open a dir b = Ok plain ∧ Decode plain = Ok (set_version Version (set_block k f)) ∧
    DecodeHeader b = Ok (set_payload [] (set_version Version (set_block k f))).
Proof.
  intros Hwf (k & plain & He & Hs).
  assert (∃ k, wf_frame (set_block k f) ∧ Encode (set_block k f) = Ok plain) as (k' & Hwf' & He').
  { destruct (HasFlag f FlagPassSeq).
    - exists (u32 k). rewrite Encode_block. split; [|done]. destruct Hwf. split; try done. apply u32_range.
    - exists (f_block f). destruct Hwf. split; [by split|]. by destruct f. }
  exists k'. destruct (Encode_Ok _ _ He') as [Hl _].
  destruct (seal_frame a dir _ Hwf' Hl) as (plain' & b' & E1 & E2 & E3 & E4 & E5).
  assert (plain' = plain) as -> by congruence. assert (b' = b) as -> by congruence. by exists plain.
Qed.

(** ** What a client step hands to the network *)

Section client.
  Context {Addr Inner R : Type} (inner_string : Inner → string).
  Context `{!Rand R} {rsl : ReedSolomon} {cph : Ciphers} {dhx : X25519}.
  Context (unmarshal : list byte → option ServerAnnounce).
  Context `{!RangeOrder Z frame, !RangeOrder Z (list byte), !RangeOrder blockKey blockState}.
  Context (cc : client_cfg) `{!AEADLaws (cc_baseAEAD cc)}.

  Implicit Types (c : Client.client Inner R) (out : list (client_output Inner)).

(** Whatever is new on a WAN or in a queue satisfies [P]. *)
Definition emits (P : list byte → Prop) c c' out : Prop :=
  ∀ b, b ∈ sent_up out ∨ queued c' b → queued c b ∨ P b.

Lemma emits_trans P c1 c2 c3 o1 o2 : emits P c1 c2 o1 → emits P c2 c3 o2 → emits P c1 c3 (o1 ++ o2).
Proof.
  intros H1 H2 b Hb. unfold sent_up in Hb. rewrite flat_map_app, elem_of_app in Hb.
  destruct Hb as [[Hb|Hb]|Hb]; [by apply H1; left| |]; (destruct (H2 b) as [?|?]; [by auto|apply H1; by right|by right]).
Qed.

Lemma emits_silent P c c' out : silent c c' out → emits P c c' out.
Proof.
  intros (_ & Hq & Ho) b [Hb|Hb].
  - exfalso. unfold sent_up in Hb. induction Ho as [|o out (x & y & ->) _ IH]; [by apply elem_of_nil in Hb|by apply IH].
  - left. unfold queued in *. by rewrite <-Hq.
Qed.

(** A queue replaced by one whose frames are old or satisfy [P]. *)
Lemma emits_queue P i f c l s s' :
  cl_links c !! i = Some l → l_q l = Some s → l_q (f l) = Some s' →
  (∀ b, b ∈ SendQueue.q s' → b ∈ SendQueue.q s ∨ P b) → emits P c (on_link i f c) [].
Proof.
  intros Hl Hq Hq' Hs b [Hb|(s'' & Hin & Hb)]; [by apply elem_of_nil in Hb|].
  apply list_elem_of_lookup in Hin as [j Hj]. unfold queues in Hj. rewrite list_lookup_fmap in Hj.
  assert (Hold : ∀ j l' s0, cl_links c !! j = Some l' → l_q l' = Some s0 → b ∈ SendQueue.q s0 → queued c b).
  { intros j' l' s0 H1 H2 H3. exists s0. split; [|done]. apply list_elem_of_lookup. exists j'. unfold queues.
    by rewrite list_lookup_fmap, H1; cbn; rewrite H2. }
  cbn in Hj. destruct (decide (j = i)) as [->|Hne].
  - rewrite list_lookup_alter_eq, Hl in Hj. cbn in Hj. rewrite Hq' in Hj. injection Hj as <-.
    destruct (Hs b Hb) as [?|?]; [left; by eapply Hold|by right].
  - rewrite list_lookup_alter_ne in Hj by done. destruct (cl_links c !! j) as [l'|] eqn:Hl'; [|done].
    cbn in Hj. injection Hj as Hj. left. by eapply Hold.
Qed.

Lemma sendLocked_emits P i f a c :
  (∀ b, sealing DirClientToServer a f b → P b) →
  emits P c (sendLocked i f (Some a) c).1.2 (sendLocked i f (Some a) c).2.
Proof.
  intros HP. unfold sendLocked. destruct (cl_links c !! i) as [wan|] eqn:Hl; [|apply emits_silent, silent_refl].
  set (r := if HasFlag f FlagPassSeq then _ else _).
  assert (Hr : silent c r.2 [] ∧ (∃ l', cl_links r.2 !! i = Some l' ∧ l_q l' = l_q wan) ∧
    ∃ k, r.1 = if HasFlag f FlagPassSeq then set_block k f else f).
  { unfold r. destruct (HasFlag f FlagPassSeq); cbn [fst snd].
    - split; [by apply silent_on_link|]. split; [|by eexists]. cbn. rewrite list_lookup_alter_eq, Hl. by eexists.
    - split; [apply silent_refl|]. split; [by eexists|by exists 0]. }
  destruct r as [f' c1]. cbn [fst snd] in Hr. destruct Hr as (Hs & (l' & Hl' & Hq') & k & Hf').
  destruct (Encode f') as [plain| |] eqn:Ep; [|by apply emits_silent..].
  destruct (Seal _ _ plain) as [b| |] eqn:Eb; [|by apply emits_silent..].
  assert (Hb : P b) by (apply HP; exists k, plain; by rewrite <-Hf').
  destruct (l_q wan) as [s|] eqn:Hq.
  - pose proof (enqueue_elem b s) as He. destruct (enqueue b s) as [ok s'] eqn:Ee. cbn [fst snd] in *.
    apply (emits_trans P c c1 _ [] []); [by apply emits_silent|].
    eapply (emits_queue P i _ c1 l' s s'); [done|done|done|]. intros b' [?| ->]%He; [by left|by right].
  - cbn [fst snd]. apply (emits_trans P c c1 c1 [] [_]); [by apply emits_silent|].
    intros b' [->%list_elem_of_singleton|?]; [by right|by left].
Qed.

(** A frame whose sealings satisfy [P], a parity frame those under any number. *)
Definition sendable (P : list byte → Prop) (a : AEAD) (f : frame) : Prop :=
  ∀ q b, is_u32 q → sealing DirClientToServer a (if HasFlag f FlagFECParity then set_seq q f else f) b → P b.

(** A frame goes out as it is; a parity frame under a number of its own. *)
Definition sent_as (g f : frame) : Prop := f = g ∨ HasFlag g FlagFECParity = true ∧ ∃ q, is_u32 q ∧ f = set_seq q g.

(** The number a parity frame takes when it is sent. *)
Lemma parity_seq_sends P a f c :
  sendable P a f →
  let r := if HasFlag f FlagFECParity then let '(q, c) := sess_seq c in (set_seq q f, c) else (f, c) in
  silent c r.2 [] ∧ ∀ b, sealing DirClientToServer a r.1 b → P b.
Proof.
  unfold sendable. intros Hf. destruct (HasFlag f FlagFECParity); cbn zeta.
  - cbn [sess_seq Client_NextSeq fst snd]. split; [by apply silent_sess|]. intros b. apply Hf, u32_range.
  - split; [apply silent_refl|]. intros b. by apply (Hf 0).
Qed.

Lemma send_encoded_emits P i a fs c :
  Forall (sendable P a) fs → emits P c (send_encoded i (Some a) fs c).1 (send_encoded i (Some a) fs c).2.
Proof.
  intros Hfs. revert c. induction Hfs as [|f fs Hp _ IH]; intros c; cbn [send_encoded];
    [apply emits_silent, silent_refl|].
  pose proof (parity_seq_sends P a f c Hp) as Hr. cbn zeta in Hr.
  destruct (if HasFlag f FlagFECParity then _ else _) as [f' c0]. cbn [fst snd] in Hr. destruct Hr as [S0 HP].
  set (c1 := on_link i _ c0). pose proof (sendLocked_emits P i f' a c1 HP) as H2.
  destruct (sendLocked i f' (Some a) c1) as [[e c2] o2]. specialize (IH c2).
  destruct (send_encoded i (Some a) fs c2) as [c3 o3]. cbn [fst snd] in *.
  apply (emits_trans P c c0 _ [] _); [by apply emits_silent|].
  apply (emits_trans P c0 c1 _ [] _); [by apply emits_silent, silent_on_link|].
  by apply (emits_trans P c1 c2 c3).
Qed.

Lemma sendEncoded_emits P i a fs c :
  cl_session c = Some a → Forall (sendable P a) fs → emits P c (sendEncoded i fs c).1 (sendEncoded i fs c).2.
Proof. intros Hs Hfs. unfold sendEncoded. rewrite Hs. by apply send_encoded_emits. Qed.

Lemma send_cross_emits P a fs c c' out :
  Forall (sendable P a) fs → send_cross (Some a) fs c = Ok (c', out) → emits P c c' out.
Proof.
  intros Hfs. revert c c' out. induction Hfs as [|f fs Hp _ IH]; intros c c' out; cbn [send_cross].
  { intros [= <- <-]. apply emits_silent, silent_refl. }
  pose proof (parity_seq_sends P a f c Hp) as Hr. cbn zeta in Hr.
  destruct (if HasFlag f FlagFECParity then _ else _) as [f' c0]. cbn [fst snd] in Hr. destruct Hr as [S0 HP].
  destruct (PickWRR (cl_sched c0)) as [o sched]. set (c1 := set_csched sched c0). intros H.
  apply bind_Ok in H as ([c2 o2] & H2 & H). apply bind_Ok in H as ([c3 o3] & H3 & H). cbn [fst snd] in *.
  injection H as <- <-. apply IH in H3.
  apply (emits_trans P c c0 _ [] _); [by apply emits_silent|].
  apply (emits_trans P c0 c1 _ [] _); [by apply emits_silent, (silent_sched sched)|].
  apply (emits_trans P c1 c2); [|done]. clear H3.
  destruct o as [id|]; [|injection H2 as <- <-; apply emits_silent, silent_refl].
  destruct (byWAN id c1) as [i|]; [|done]. pose proof (sendLocked_emits P i f' a c1 HP) as H3.
  destruct (sendLocked i f' (Some a) c1) as [[e c4] o4]. by injection H2 as <- <-.
Qed.

Lemma sendCrossEncoded_emits P a fs c c' out :
  cl_session c = Some a → Forall (sendable P a) fs → sendCrossEncoded fs c = Ok (c', out) → emits P c c' out.
Proof. intros Hs Hfs. unfold sendCrossEncoded. rewrite Hs. by apply send_cross_emits. Qed.

(** Encoders that are off pass a frame on and have nothing to flush. *)
Lemma push_off o now f c fs c' :
  client_off c → call_enc o (Encoder_Push now f) c = Ok (fs, c') → fs = markPassSeq [f].
Proof.
  intros Hoff. unfold call_enc. destruct o as [k|]; [|done]. destruct (_ !! k) as [en|] eqn:Ek; [|done].
  unfold Encoder_Push. rewrite (proj1 Hoff _ _ Ek). by intros [= <- _].
Qed.

Lemma tick_off o now c fs c' :
  client_off c → call_enc o (λ en, Ok (Encoder_Tick now en)) c = Ok (fs, c') → fs = [].
Proof.
  intros Hoff. unfold call_enc. destruct o as [k|]; [|done]. destruct (_ !! k) as [en|] eqn:Ek; [|done].
  unfold Encoder_Tick. rewrite (proj1 Hoff _ _ Ek). by intros [= <- _].
Qed.

Lemma off_keeps c c' : client_off c → ckeeps c c' → client_off c'.
Proof.
  assert (H : ∀ A (g : A → Params) (m m' : gmap nat A), g <$> m' = g <$> m →
    (∀ k y, m !! k = Some y → Enabled (g y) = false) → ∀ k y, m' !! k = Some y → Enabled (g y) = false).
  { intros A g m m' Em Hm k y Hk. apply (f_equal (λ m, m !! k)) in Em. rewrite !lookup_fmap, Hk in Em.
    destruct (m !! k) as [y0|] eqn:E0; [|done]. apply (inj Some) in Em. rewrite Em. by eapply Hm. }
  intros [He Hd] [_ _ _ Hp]. unfold heap_params in Hp. injection Hp as Hpe Hpd. split; by eapply H.
Qed.

(** The FEC ticks of a client that does not code are silent. *)
Lemma tick_wans_off now ids c c' out : client_off c → tick_wans now ids c = Ok (c', out) → silent c c' out.
Proof.
  revert c c' out. induction ids as [|i ids IH]; intros c c' out Hoff; cbn [tick_wans].
  { intros [= <- <-]. apply silent_refl. }
  intros H. apply bind_Ok in H as ([fs c1] & H1 & H). cbn [fst snd] in H.
  rewrite (tick_off _ _ _ _ _ Hoff H1) in H. apply silent_call_enc in H1; [|apply tick_call_params].
  assert (E : sendEncoded i [] c1 = (c1, [])) by (unfold sendEncoded; by destruct (cl_session c1)). rewrite E in H.
  apply bind_Ok in H as ([ds c3] & H3 & H). cbn [fst snd] in H. apply silent_call_dec in H3; [|apply dec_tick_params].
  pose proof (push_delivery_silent now ds c3) as H4. destruct (push_delivery now ds c3) as [c4 o4]. cbn [fst snd] in H4.
  apply bind_Ok in H as ([c5 o5] & H5 & H). cbn [fst snd] in H. injection H as <- <-.
  assert (S4 : silent c c4 o4) by exact (silent_trans c c1 c4 [] o4 H1 (silent_trans c1 c3 c4 [] o4 H3 H4)).
  apply (silent_trans c c4 _ o4 o5 S4). apply IH; [|done]. eapply off_keeps; [done|by eapply silent_ckeeps].
Qed.

Lemma fecTick_off now c c' out : client_off c → client_fecTick now c = Ok (c', out) → silent c c' out.
Proof.
  intros Hoff. unfold client_fecTick. intros H. apply bind_Ok in H as ([c1 o1] & H1 & H). cbn [fst snd] in H.
  pose proof (tick_delivery_silent now c1) as H2. destruct (tick_delivery now c1) as [c2 o2]. cbn [fst snd] in H2.
  injection H as <- <-. eapply silent_trans; [|exact H2]. clear H2.
  destruct (k_crossPath _); [|by eapply tick_wans_off].
  apply bind_Ok in H1 as ([fs c3] & H3 & H). cbn [fst snd] in H.
  rewrite (tick_off _ _ _ _ _ Hoff H3) in H. apply silent_call_enc in H3; [|apply tick_call_params].
  assert (E : sendCrossEncoded [] c3 = Ok (c3, [])) by (unfold sendCrossEncoded; by destruct (cl_session c3)).
  rewrite E in H. cbn [res_bind fst snd] in H.
  apply bind_Ok in H as ([ds c5] & H5 & H). cbn [fst snd] in H. apply silent_call_dec in H5; [|apply dec_tick_params].
  pose proof (push_delivery_silent now ds c5) as H6. destruct (push_delivery now ds c5) as [c6 o6]. cbn [fst snd] in H6.
  injection H as <- <-. exact (silent_trans c c3 c6 [] o6 H3 (silent_trans c3 c5 c6 [] o6 H5 H6)).
Qed.

(** ** What an established client seals *)

(** A probe, or a pass-through frame that carries one of the datagrams [L]
    under its number. *)
Definition uplink_frame (id : Z) (L : list (Z * list byte)) (f : frame) : Prop :=
  wf_frame f ∧ f_session f = id ∧
  (f_flags f = FlagKeepalive ∨ f_flags f = FlagPassSeq ∧ (f_seq f, f_payload f) ∈ L).

Definition up_ok (a : AEAD) (id : Z) (L : list (Z * list byte)) (b : list byte) : Prop :=
  first_frame b ∨ ∃ f, sealing DirClientToServer a f b ∧ uplink_frame id L f.

Lemma up_ok_mono a id L L' b : (∀ x, x ∈ L → x ∈ L') → up_ok a id L b → up_ok a id L' b.
Proof.
  intros HL [Hf|(f & Hs & Hw & Hi & Hd)]; [by left|right]. exists f. split; [done|]. split; [done|]. split; [done|].
  destruct Hd as [?|[? ?]]; auto.
Qed.

Lemma handshake_emits P i c :
  is_u64 (c_ID (cl_sess c)) → (∀ b, first_frame b → P b) →
  emits P c (handshake_send cc i c).1 (handshake_send cc i c).2.
Proof.
  intros Hid HP. unfold handshake_send. destruct (_ !! i) as [w|]; [|apply emits_silent, silent_refl].
  cbn [sess_seq Client_NextSeq]. set (q := u32 (c_seq (cl_sess c) + 1)). set (c1 := set_sess _ c).
  change (c_ID (cl_sess c1)) with (c_ID (cl_sess c)). set (f := new_frame _ _ _ _ _).
  assert (Hf : ∀ b, sealing DirClientToServer (cc_baseAEAD cc) f b → P b).
  { intros b Hb. apply HP. destruct (sealing_reads DirClientToServer (cc_baseAEAD cc) f b) as (k & plain & _ & _ & Hh); [|done|].
    - by apply new_frame_wf; [|done|apply u32_range].
    - by eexists. }
  pose proof (sendLocked_emits P i f (cc_baseAEAD cc) c1 Hf) as H.
  destruct (sendLocked i f (Some (cc_baseAEAD cc)) c1) as [[e c2] out].
  apply (emits_trans P c c1 _ [] _); [by apply emits_silent, silent_sess|done].
Qed.

(** Sealings of the probes of the session [id] satisfy [P]. *)
Definition probes (P : list byte → Prop) (a : AEAD) (id : Z) : Prop :=
  ∀ f b, wf_frame f → f_session f = id → f_flags f = FlagKeepalive → sealing DirClientToServer a f b → P b.

Lemma probes_up_ok a id L : probes (up_ok a id L) a id.
Proof. intros f b Hw Hi Hk Hs. right. exists f. split; [done|]. split; [done|]. split; [done|]. by left. Qed.

Lemma keepalive_emits P now i a c :
  cl_session c = Some a → is_u64 (c_ID (cl_sess c)) → probes P a (c_ID (cl_sess c)) →
  emits P c (keepalive_send now i c).1 (keepalive_send now i c).2.
Proof.
  intros Hs Hid HP. unfold keepalive_send. rewrite Hs.
  cbn [sess_seq Client_NextSeq]. set (q := u32 (c_seq (cl_sess c) + 1)). set (c1 := set_sess _ c).
  change (c_ID (cl_sess c1)) with (c_ID (cl_sess c)). set (f := new_frame _ _ _ _ _).
  assert (Hf : ∀ b, sealing DirClientToServer a f b → P b).
  { intros b Hb. apply (HP f b); [|done..]. by apply new_frame_wf; [|done|apply u32_range]. }
  pose proof (sendLocked_emits _ i f a c1 Hf) as H.
  destruct (sendLocked i f (Some a) c1) as [[e c2] out]. cbn [fst snd] in *.
  apply (emits_trans _ c c1 _ [] _); [by apply emits_silent, silent_sess|].
  rewrite <-(app_nil_r out). apply (emits_trans _ c1 c2); [done|]. by apply emits_silent, silent_on_link.
Qed.

Lemma ingress_emits now ad payload c c' out a :
  cl_session c = Some a → client_off c → is_u64 (c_ID (cl_sess c)) →
  ingress inner_string now ad payload c = Ok (c', out) →
  ∃ q, emits (up_ok a (c_ID (cl_sess c)) [(q, payload)]) c c' out.
Proof.
  intros Hs Hoff Hid. unfold ingress.
  match goal with |- context [if ?b then c else set_sess ?x c] =>
    set (c1 := if b then c else set_sess x c);
    assert (H1 : silent c c1 []) by (unfold c1; destruct b; [apply silent_refl|by apply silent_sess]) end.
  clearbody c1. destruct (_ <? _). { intros [= <- <-]. exists 0. by apply emits_silent. }
  pose proof (silent_ckeeps _ _ _ H1) as K1. rewrite (ck_session _ _ K1), Hs.
  cbn [sess_seq Client_NextSeq]. set (q := u32 (c_seq (cl_sess c1) + 1)). set (c2 := set_sess _ c1).
  change (c_ID (cl_sess c2)) with (c_ID (cl_sess c1)). rewrite (ck_id _ _ K1). set (f := new_frame _ _ _ _ _). intros H. exists q.
  assert (H2 : silent c c2 []) by (apply (silent_trans c c1 c2 [] []); [done|by apply silent_sess]).
  assert (Hsend : Forall (sendable (up_ok a (c_ID (cl_sess c)) [(q, payload)]) a) (markPassSeq [f])).
  { apply Forall_singleton. intros n b _ Hb. right. eexists. split; [exact Hb|]. split; [|split; [done|right]].
    - by apply (new_frame_wf FlagPassSeq); [|done|apply u32_range].
    - split; [done|]. by apply list_elem_of_singleton. }
  assert (Hchain : ∀ c3 fs o, silent c2 c3 [] → call_enc o (Encoder_Push now f) c3 = Ok fs →
    fs.1 = markPassSeq [f] ∧ silent c fs.2 []).
  { intros c3 [fs c4] o S3 H4. cbn [fst snd].
    assert (S : silent c c3 []) by exact (silent_trans c c2 c3 [] [] H2 S3). split.
    - eapply push_off; [|exact H4]. eapply off_keeps; [exact Hoff|by eapply silent_ckeeps].
    - apply silent_call_enc in H4; [|apply push_call_params]. exact (silent_trans c c3 c4 [] [] S H4). }
  assert (Hkey : ∀ c3, silent c c3 [] → cl_session c3 = Some a)
    by (intros c3 S; by rewrite (ck_session _ _ (silent_ckeeps _ _ _ S))).
  destruct (k_crossPath _).
  - apply bind_Ok in H as ([fs c3] & H3 & H). destruct (Hchain _ _ _ (silent_refl c2) H3) as [E S3].
    cbn [fst snd] in *. subst fs.
    apply (emits_trans _ c c3 _ [] _); [by apply emits_silent|]. eapply sendCrossEncoded_emits; [by apply Hkey|done|done].
  - destruct (Pick _ _) as [r sched]. apply bind_Ok in H as (o & _ & H). set (c3 := set_csched sched c2) in H.
    pose proof (silent_sched sched c2 : silent c2 c3 []) as S3.
    destruct o as [id|]; [|injection H as <- <-; apply emits_silent; exact (silent_trans c c2 c3 [] [] H2 S3)].
    destruct (byWAN id c3) as [i|]; [|done]. apply bind_Ok in H as ([fs c4] & H4 & H).
    destruct (Hchain _ _ _ S3 H4) as [E S4]. cbn [fst snd] in *. subst fs.
    pose proof (sendEncoded_emits _ i a _ c4 (Hkey _ S4) Hsend) as H5.
    assert (E : sendEncoded i (markPassSeq [f]) c4 = (c', out)) by congruence. rewrite E in H5.
    apply (emits_trans _ c c4 _ [] _); [by apply emits_silent|done].
Qed.

(** One step: what is new in the network or a queue is a FIRST frame, a probe or
    the datagram the step took in. *)
Lemma client_step_emits now ev c c' out a :
  cl_session c = Some a → client_off c → is_u64 (c_ID (cl_sess c)) →
  client_step inner_string unmarshal cc now ev c = Ok (c', out) →
  ∃ L, L.*2 = ingested_by ev ∧ emits (up_ok a (c_ID (cl_sess c)) L) c c' out.
Proof.
  intros Hs Hoff Hid. destruct ev as [i|i|i|i sealed|ad payload| |]; cbn [client_step ingested_by]; intros H.
  - exists []. split; [done|]. pose proof (handshake_emits (up_ok a (c_ID (cl_sess c)) []) i c Hid) as He.
    assert (E : handshake_send cc i c = (c', out)) by congruence. rewrite E in He. apply He. by left.
  - exists []. split; [done|]. pose proof (keepalive_emits _ now i a c Hs Hid (probes_up_ok a _ [])) as He.
    assert (E : keepalive_send now i c = (c', out)) by congruence. by rewrite E in He.
  - exists []. split; [done|]. unfold keepalive_tick in H. set (c1 := on_link i (probe_outcome cc now) c) in *.
    pose proof (keepalive_emits _ now i a c1 Hs Hid (probes_up_ok a _ [])) as He.
    assert (E : keepalive_send now i c1 = (c', out)) by congruence. rewrite E in He.
    apply (emits_trans _ c c1 _ [] _); [apply emits_silent, probe_outcome_silent|exact He].
  - exists []. split; [done|]. apply recv_frame_silent in H as [H|[H _]]; [by apply emits_silent|congruence].
  - destruct (ingress_emits now ad payload c c' out a Hs Hoff Hid H) as [q He]. by exists [(q, payload)].
  - exists []. split; [done|]. by eapply emits_silent, fecTick_off.
  - exists []. split; [done|]. apply bind_Ok in H as (c1 & H1 & H). injection H as <- <-.
    by eapply emits_silent, healthTick_silent.
Qed.
End client.

(** ** What a server step does to its sessions *)

(** [Open] leaves the header alone. *)
Lemma slice_take {A} i j n (l : list A) : (j ≤ n)%nat → slice i j (take n l) = slice i j l.
Proof. intros H. unfold slice. rewrite skipn_firstn_comm, take_take. f_equal. lia. Qed.

Lemma opened_header a dir b plain hdr f :
  AEADLaws a → DecodeHeader b = Ok hdr → Open a dir b = Ok plain → Decode plain = Ok f →
  f_session f = f_session hdr ∧ f_seq f = f_seq hdr ∧ f_flags f = f_flags hdr.
Proof.
  intros La Hh Ho Hd. apply Seal_Open in Ho; [|done]. pose proof (Seal_header _ _ _ _ Ho) as Ht.
  apply Decode_Ok in Hd as (h & Hh' & _ & ->). cbn [set_payload f_session f_seq f_flags].
  apply DecodeHeader_Ok in Hh as (_ & _ & _ & ->). apply DecodeHeader_Ok in Hh' as (_ & _ & _ & ->).
  assert (E : ∀ i j, (j ≤ 28)%nat → slice i j plain = slice i j b)
    by (intros i j Hj; rewrite <-(slice_take i j 28 plain), <-(slice_take i j 28 b), Ht by done; done).
  cbn [f_session f_seq f_flags]. rewrite !E by lia. done.
Qed.

Section server.
  Context {Addr R : Type} (addr_string : Addr → string).
  Context `{!Rand R} {rsl : ReedSolomon} {cph : Ciphers} {dhx : X25519}.
  Context `{!RangeOrder Z firstWindow, !RangeOrder Z ptr, !RangeOrder Z (list byte),
            !RangeOrder blockKey blockState, !RangeOrder Z (sessState Addr R), !RangeOrder string (pathState Addr)}.
  Context (v : server_cfg).

  Implicit Types (s : Server.server Addr R) (out : list (Server.output Addr)).

(** Sessions persist, and a new one has the dialled socket and an encoder with
    the configured parameters. *)
Record grows (e : env R) s s' : Prop := {
  gr_dec : dec_params (sv_dec s') = dec_params (sv_dec s);
  gr_kept : persists s s';
  gr_new : ∀ q x', session_at q s' = Some x' →
    (∃ x, session_at q s = Some x ∧ keeps x x' ∧ enc_params x' = enc_params x) ∨
    (is_Some (e_dial e) ∧ s_egress x' = e_dial e ∧ enc_params x' = Some (fill_params (v_fecParams v)));
}.

Lemma evolves_grows e s s' : evolves s s' → grows e s s'.
Proof.
  intros Hev. split; [apply Hev|by apply evolves_persists|]. intros q x' Hx'. left.
  pose proof (evo_heap _ _ Hev q) as Hk. pose proof (evo_encs _ _ Hev q) as He. rewrite Hx' in Hk, He.
  unfold keeps_opt in Hk. destruct (session_at q s) as [x|]; [|done]. cbn in He. injection He as He. by exists x.
Qed.

(** The session objects and the decoder are untouched. *)
Lemma same_heap_grows e s w st :
  heap w = heap (sv_world s) → grows e s (mkServer w st (sv_dec s)).
Proof.
  intros Hh. assert (E : ∀ q, session_at q (mkServer w st (sv_dec s)) = session_at q s)
    by (intros q; unfold session_at; cbn; by rewrite Hh).
  split; [done|intros q x Hx; exists x; rewrite E; split; [done|apply keeps_refl]|].
  intros q x'. rewrite E. intros Hx. left. exists x'. split; [done|split; [apply keeps_refl|done]].
Qed.

Lemma grows_evolves e s1 s2 s3 : grows e s1 s2 → evolves s2 s3 → grows e s1 s3.
Proof.
  intros [D1 K1 N1] Hev. destruct (evolves_grows e _ _ Hev) as [D2 K2 N2].
  split; [congruence|by eapply persists_trans|]. intros q x3 H3.
  destruct (N2 q x3 H3) as [(x2 & H2 & Hk & He)|?]; [|by right].
  destruct (N1 q x2 H2) as [(x1 & H1 & Hk1 & He1)|(Hd & Hg & He1)].
  - left. exists x1. split; [done|split; [by eapply keeps_trans|congruence]].
  - right. destruct Hk as (_ & _ & -> & _). split_and!; [done|done|congruence].
Qed.

Lemma NewEncoder_params pr en : NewEncoder pr = Ok en → e_params en = fill_params pr.
Proof. unfold NewEncoder. destruct (Enabled _); [destruct (rs_New _ _); [|done]|]; by intros [= <-]. Qed.

Lemma create_session_grows e id seq f s : grows e s (create_session v e id seq f s).2.
Proof.
  unfold create_session.
  assert (Hsame : ∀ w, heap w = heap (sv_world s) → grows e s (set_world w s)).
  { intros w Hw. by apply same_heap_grows. }
  destruct (maxSessions <=? _)%nat; [by apply evolves_grows, evolves_refl|].
  destruct (CheckFirstReplay (mgr (sv_world s)) id seq (e_now e)) as [ok m]. cbn zeta.
  destruct (negb ok); [by apply Hsame|]. destruct (_ <? _)%nat; [by apply Hsame|].
  destruct (e_priv e); [|by apply Hsame]. destruct (ECDHShared _ _); [|by apply Hsame..].
  destruct (e_dial e) as [c|] eqn:Ed; [|by apply Hsame].
  destruct (NewAEAD _ _); [|by apply Hsame..]. destruct (NewEncoder _) as [en| |] eqn:Een; [|by apply Hsame..].
  unfold alloc, Put. cbn [heap mgr closed set_world sv_world snd fst]. rewrite lookup_insert_eq.
  set (p := fresh _). assert (Hp : heap (sv_world s) !! p = None) by (apply not_elem_of_dom, is_fresh).
  split; [done| |].
  - intros q x Hx. exists x. split; [|apply keeps_refl]. unfold session_at in *. cbn.
    rewrite lookup_insert_ne; [done|congruence].
  - intros q x'. unfold session_at. cbn [set_world sv_world heap]. rewrite lookup_insert_Some.
    intros [[_ <-]|[_ Hq]].
    + right. split; [by eexists|]. split; [by rewrite Ed|]. unfold enc_params. cbn. by rewrite (NewEncoder_params _ _ Een).
    + left. exists x'. split; [done|split; [apply keeps_refl|done]].
Qed.

Lemma handle_first_grows e hdr sealed ua s :
  is_u32 (f_seq hdr) → grows e s (handle_first addr_string v e hdr sealed ua s).1.
Proof.
  intros Hq. assert (Hr0 : grows e s s) by apply evolves_grows, evolves_refl.
  unfold handle_first. destruct ua as [ua|]; [|done].
  destruct (Open _ _ _) as [plain| |]; [|done..]. destruct (Decode plain) as [f| |]; [|done..].
  cbn zeta. set (r := match Get _ _ with Some p => _ | None => _ end).
  assert (Hr : grows e s r.2) by (unfold r; destruct (Get _ _); [done|apply create_session_grows]).
  destruct r as [[p|] s1]; cbn [snd] in Hr; [|done].
  pose proof (check_replay_evolves p (f_seq hdr) s1 Hq) as H2.
  destruct (check_replay p (f_seq hdr) s1) as [ok s2]. cbn [snd] in H2.
  destruct ok; cbn [negb]; [|by eapply grows_evolves].
  eapply grows_evolves; [exact Hr|]. eapply evolves_trans; [exact H2|].
  eapply evolves_trans; [apply touch_evolves|]. eapply evolves_trans; [apply registerPath_evolves|apply sendAck_evolves].
Qed.

Lemma server_step_grows e ev s s' out :
  server_step addr_string v e ev s = Ok (s', out) → grows e s s'.
Proof.
  assert (Hev : evolves s s' → grows e s s') by apply evolves_grows.
  destruct ev as [sealed ua|p payload| | |]; cbn [server_step].
  - unfold handleClientFrame. destruct (DecodeHeader sealed) as [hdr| |] eqn:Eh;
      [|by intros [= <- _]; apply evolves_grows, evolves_refl..].
    assert (Hseq : is_u32 (f_seq hdr)) by (by eapply wf_seq, DecodeHeader_wf).
    destruct (HasFlag hdr FlagFirst).
    + intros H. assert (handle_first addr_string v e hdr sealed ua s = (s', out)) as E by congruence.
      pose proof (handle_first_grows e hdr sealed ua s Hseq) as Hf. by rewrite E in Hf.
    + intros H. apply Hev. by eapply handle_data_evolves.
  - intros H. apply Hev. by eapply egress_evolves.
  - intros H. apply Hev. by eapply fecTick_evolves.
  - intros [= <- <-]. apply Hev, healthTick_evolves.
  - intros [= <- <-]. unfold sweep. pose proof (expire_table (sv_world s) sessionTTL (e_now e)) as Hx.
    destruct (Expire (sv_world s) sessionTTL (e_now e)) as [n w]. destruct Hx as (_ & Hh & _).
    destruct (ExpireFirsts _ _ _) as [n' m]. destruct (foldl _ _ _) as [u states]. by apply same_heap_grows.
Qed.

Lemma grows_off e s s' : Enabled (v_fecParams v) = false → server_off s → grows e s s' → server_off s'.
Proof.
  intros Hv [Hd He] [D _ N]. split; [by rewrite D|]. intros q x' en' Hx' Hen'.
  assert (E : enc_params x' = Some (e_params en')) by (unfold enc_params; by rewrite Hen').
  destruct (N q x' Hx') as [(x & Hx & _ & Ep)|(_ & _ & Ep)]; rewrite Ep in E.
  - unfold enc_params in E. destruct (s_Enc x) as [en|] eqn:Een; [|done]. cbn in E. injection E as E.
    rewrite <-E. by eapply He.
  - injection E as <-. exact Hv.
Qed.

(** ** What a server step writes to WireGuard *)

Context (p : ptr) (sock : Z).

(** Nothing but frames to clients. *)
Definition sent_only out : Prop := Forall (λ o, ∃ a b, o = Sent a b) out.

Lemma sent_only_served out : sent_only out → served_by sock out = [].
Proof. induction 1 as [|o out (a & b & ->) _ IH]; [done|exact IH]. Qed.

Lemma sendToAddrKey_sent a f k : sent_only (sendToAddrKey (Addr := Addr) a f k).
Proof.
  unfold sendToAddrKey. destruct (Encode f); [|constructor..]. destruct (Seal _ _ _); [|constructor..].
  apply Forall_singleton. eauto.
Qed.

Lemma sendAck_sent q a s : sent_only (sendAck v q a s).2.
Proof. unfold sendAck. destruct (session_at q s); [|constructor]. destruct (next_seq q s). apply sendToAddrKey_sent. Qed.

Lemma sendPong_sent q a ts s : sent_only (sendPong q a ts s).2.
Proof. unfold sendPong. destruct (session_at q s); [|constructor]. destruct (next_seq q s). apply sendToAddrKey_sent. Qed.

Lemma send_frame_sent e q x one f s : sent_only (send_frame addr_string v e q x one f s).2.
Proof.
  unfold send_frame. destruct (if HasFlag f FlagFECParity then _ else _) as [f1 s1].
  destruct (match one with Some a => _ | None => _ end) as [[a|] s2]; [|constructor].
  destruct (stamp _ _ _ _ _ _ _) as [f3 s3]. apply sendToAddrKey_sent.
Qed.

Lemma send_frames_sent e q x one fs s : sent_only (send_frames addr_string v e q x one fs s).2.
Proof.
  revert s. induction fs as [|f fs IH]; intros s; cbn [send_frames]; [constructor|].
  pose proof (send_frame_sent e q x one f s) as H1. destruct (send_frame _ _ _ _ _ _ _ _) as [s1 o1].
  specialize (IH s1). destruct (send_frames _ _ _ _ _ _ _ _) as [s2 o2]. by apply Forall_app.
Qed.

Lemma sendToSession_sent e q fs s s' out : sendToSession addr_string v e q fs s = Ok (s', out) → sent_only out.
Proof.
  unfold sendToSession. destruct fs as [|f fs]; [intros [= _ <-]; constructor|].
  destruct (session_at q s) as [x|]; [|intros [= _ <-]; constructor].
  assert (Hone : ∀ one s, Ok (send_frames addr_string v e q x one (f :: fs) s) = @Ok unit _ (s', out) → sent_only out).
  { intros one s0 H. pose proof (send_frames_sent e q x one (f :: fs) s0) as Hs.
    assert (E : send_frames addr_string v e q x one (f :: fs) s0 = (s', out)) by congruence. by rewrite E in Hs. }
  destruct (CrossPath _); [apply Hone|]. intros H. apply bind_Ok in H as ([o s1] & _ & H). cbn [fst snd] in H.
  destruct o; [by eapply Hone|]. injection H as _ <-. constructor.
Qed.

Lemma egress_sent e q payload s s' out :
  egress_datagram addr_string v e q payload s = Ok (s', out) → sent_only out.
Proof.
  unfold egress_datagram. destruct (session_at q s) as [x|]; [|intros [= _ <-]; constructor].
  destruct (_ <? _); [intros [= _ <-]; constructor|]. destruct (next_seq q s) as [n s1].
  destruct (s_Enc x); [|apply sendToSession_sent]. intros H. apply bind_Ok in H as (r & _ & H).
  by eapply sendToSession_sent.
Qed.

Lemma tick_sessions_sent e qs s s' out : tick_sessions addr_string v e qs s = Ok (s', out) → sent_only out.
Proof.
  revert s s' out. induction qs as [|q qs IH]; intros s s' out; cbn [tick_sessions].
  { intros [= _ <-]. constructor. }
  intros H. apply bind_Ok in H as ([s1 o1] & H1 & H). apply bind_Ok in H as ([s2 o2] & H2 & H).
  injection H as _ <-. cbn [fst snd]. apply Forall_app. split; [|by eapply IH].
  destruct (x ← session_at q s; s_Enc x) as [en|]; [|injection H1 as _ <-; constructor].
  destruct (Encoder_Tick _ _). by eapply sendToSession_sent.
Qed.

(** A decoder that is off returns at most the frame it is given. *)
Lemma dec_push_off now path f d fs d' :
  Enabled (dec_params d) = false → Decoder_Push now path f d = Ok (fs, d') → fs = [] ∨ fs = [f].
Proof.
  intros Hd. unfold Decoder_Push. destruct (_ && _); [intros [= <- _]; by right|]. rewrite Hd.
  intros [= <- _]. destruct (HasFlag _ _); auto.
Qed.

(** The datagrams a data frame [b] brings to the socket: at most its own, and
    that only if it is authentic, no probe, and its number is new. *)
Definition serves e b s s' out : Prop :=
  served_by sock out = [] ∨
  ∃ hdr plain f x, DecodeHeader b = Ok hdr ∧ HasFlag hdr FlagFirst = false ∧ session_at p s = Some x ∧
    Open (s_aead x) DirClientToServer b = Ok plain ∧ Decode plain = Ok f ∧ HasFlag f FlagKeepalive = false ∧
    (spent p (f_seq f) s → False) ∧ spent p (f_seq f) s' ∧ 0 < e_now (R := R) e ∧
    served_by sock out = [f_payload f].

Lemma handle_data_serves e hdr b ua s s' out :
  server_ok s → Enabled (dec_params (sv_dec s)) = false → 0 < e_now e →
  (∀ q x, session_at q s = Some x → s_egress x = Some sock → q = p) →
  DecodeHeader b = Ok hdr → HasFlag hdr FlagFirst = false →
  handle_data addr_string v e hdr b ua s = Ok (s', out) → serves e b s s' out.
Proof.
  intros Hok Hdec Hn Hsock Hh Hf H. assert (Hq : is_u32 (f_seq hdr)) by (by eapply wf_seq, DecodeHeader_wf).
  pose proof (handle_data_evolves addr_string v e hdr b ua s s' out Hq H) as Hev.
  unfold handle_data in H. destruct (Get (mgr (sv_world s)) (f_session hdr)) as [q|] eqn:Hg; cbn in H;
    [|left; by injection H as _ <-].
  destruct (session_at q s) as [x|] eqn:Hx; cbn in H; [|left; by injection H as _ <-].
  destruct (Open (s_aead x) DirClientToServer b) as [plain| |] eqn:Ho; [|left; by injection H as _ <-..].
  pose proof (check_replay_evolves q (f_seq hdr) s Hq) as Hev1.
  pose proof (check_replay_spends q (f_seq hdr) x s Hq Hx (so_windows _ Hok _ _ Hx)) as Hsp.
  pose proof (λ H, spent_refused q (f_seq hdr) s Hq H) as Href.
  destruct (check_replay q (f_seq hdr) s) as [ok s1]. cbn [snd] in Hev1, Hsp. destruct ok; cbn [negb] in H;
    [|left; by injection H as _ <-].
  destruct (Decode plain) as [f| |] eqn:Hd; [|left; by injection H as _ <-..].
  destruct (opened_header _ _ _ _ _ _ (so_aeads _ Hok _ _ Hx) Hh Ho Hd) as (Hid & Hseq & _).
  set (s2 := on_session q (Touch (e_now e)) s1) in H.
  set (s3 := match ua with Some a => registerPath addr_string v e q (f_session hdr) a [] s2 | None => s2 end) in H.
  assert (Hev3 : evolves s1 s3).
  { eapply evolves_trans; [apply touch_evolves|].
    unfold s3. destruct ua; [apply registerPath_evolves|apply evolves_refl]. }
  destruct (HasFlag f FlagKeepalive) eqn:Hka.
  { left. destruct ua as [a|]; [|by injection H as _ <-].
    match type of H with Ok (sendPong ?q ?a ?ts ?s) = _ => pose proof (sendPong_sent q a ts s) as Hs end.
    apply sent_only_served. assert (E : sendPong q a (f_payload f) (observeKeepalive v e (f_session hdr) (addr_string a) s3) = (s', out))
      by congruence. by rewrite E in Hs. }
  destruct (length (f_payload f) =? 0)%nat; [left; by injection H as _ <-|].
  apply bind_Ok in H as ([fs d] & Hp & H). cbn [fst snd] in H. injection H as <- <-.
  apply dec_push_off in Hp.
  2:{ rewrite (evo_dec _ _ Hev3), (evo_dec _ _ Hev1). exact Hdec. }
  destruct Hp as [->| ->]; [by left|]. unfold forwardDecoded. cbn [flat_map].
  assert (Hev2 : evolves s s3) by (eapply evolves_trans; [exact Hev1|exact Hev3]).
  assert (Hg3 : Get (mgr (sv_world (set_dec d s3))) (f_session f) = Some q)
    by (change (Get (mgr (sv_world s3)) (f_session f) = Some q); unfold Get in *; by rewrite (evo_mgr _ _ Hev2), Hid).
  rewrite Hg3. cbn [mbind option_bind]. change (session_at q (set_dec d s3)) with (session_at q s3).
  pose proof (evo_heap _ _ Hev2 q) as Hk. rewrite Hx in Hk. unfold keeps_opt in Hk.
  destruct (session_at q s3) as [x3|] eqn:Hx3; [|done]. cbn [mbind option_bind].
  destruct Hk as (_ & _ & -> & _). destruct (s_egress x) as [c|] eqn:Hc; [|by left].
  unfold serves, served_by. cbn [flat_map app]. destruct (decide (c = sock)) as [->|]; [|by left].
  assert (q = p) as -> by (by eapply Hsock).
  right. exists hdr, plain, f, x. split_and!; try done.
  - rewrite Hseq. intros Hs. discriminate (f_equal fst (Href Hs)).
  - rewrite Hseq. apply (spent_persists _ _ s1); [|exact Hsp]. apply evolves_persists.
    eapply evolves_trans; [exact Hev3|]. apply evolves_set_dec.
    pose proof (evo_dec _ _ Hev) as E. cbn in E. by rewrite E, (evo_dec _ _ Hev2).
Qed.

(** The same for every step of the server. *)
Lemma server_step_serves e ev s s' out :
  server_ok s → server_off s → 0 < e_now e →
  (∀ q x, session_at q s = Some x → s_egress x = Some sock → q = p) →
  server_step addr_string v e ev s = Ok (s', out) →
  match ev with EvFrame b _ => serves e b s s' out | _ => served_by sock out = [] end.
Proof.
  intros Hok [Hdec Henc] Hn Hsock. destruct ev as [b ua|q payload| | |]; cbn [server_step].
  - unfold handleClientFrame. destruct (DecodeHeader b) as [hdr| |] eqn:Eh; [|by intros [= _ <-]; left..].
    destruct (HasFlag hdr FlagFirst) eqn:Hf; [|by apply handle_data_serves]. intros H. left.
    assert (E : handle_first addr_string v e hdr b ua s = (s', out)) by congruence. clear H.
    unfold handle_first in E. destruct ua as [ua|]; [|by injection E as _ <-].
    destruct (Open _ _ _) as [plain| |]; [|by injection E as _ <-..].
    destruct (Decode plain); [|by injection E as _ <-..]. cbn zeta in E.
    destruct (match Get _ _ with Some p => _ | None => _ end) as [[q|] s1]; [|by injection E as _ <-].
    destruct (check_replay q _ s1) as [[] s2]; cbn [negb] in E; [|by injection E as _ <-].
    apply sent_only_served. match type of E with sendAck ?v ?q ?a ?s = _ => pose proof (sendAck_sent q a s) as Hs end.
    by rewrite E in Hs.
  - intros H. apply sent_only_served. by eapply egress_sent.
  - unfold fecTick. intros H. apply bind_Ok in H as ([s1 o1] & H1 & H). cbn [fst snd] in H.
    assert (Ed : Enabled (dec_params (sv_dec s1)) = false) by (by rewrite (evo_dec _ _ (tick_sessions_evolves _ _ _ _ _ _ _ H1))).
    unfold Decoder_Tick in H. change (dec_params (flushPathGaps _ _)) with (dec_params (sv_dec s1)) in H.
    rewrite Ed in H. injection H as _ <-. cbn [forwardDecoded flat_map]. rewrite app_nil_r.
    apply sent_only_served. by eapply tick_sessions_sent.
  - by intros [= _ <-].
  - by intros [= _ <-].
Qed.
End server.

(** ** The way up through the network *)

Section uplink.
  Context {Addr Inner R : Type} (addr_string : Addr → string) (inner_string : Inner → string).
  Context `{!Rand R} {rsl : ReedSolomon} {cph : Ciphers} {dhx : X25519}.
  Context `{!RangeOrder Z firstWindow, !RangeOrder Z ptr, !RangeOrder Z (list byte),
            !RangeOrder blockKey blockState, !RangeOrder Z (sessState Addr R), !RangeOrder string (pathState Addr),
            !RangeOrder Z frame}.
  Context (unmarshal : list byte → option ServerAnnounce).
  Context (v : server_cfg) (cc : client_cfg) `{!AEADLaws (cc_baseAEAD cc)} (p : ptr) (sock : Z).

  Implicit Types (t : ends Addr Inner R).

Notation step := (tunnel_step addr_string inner_string unmarshal v cc p sock).
Notation run := (tunnel_run addr_string inner_string unmarshal v cc p sock).

(** The part of the state both directions rely on. *)
Record tunnel_ok (a : AEAD) (id : Z) t : Prop := {
  to_key : cl_session (en_client t) = Some a;
  to_id : c_ID (cl_sess (en_client t)) = id;
  to_client : client_off (en_client t);
  to_server : server_ok (en_server t);
  to_off : server_off (en_server t);
  to_session : ∃ x, session_at p (en_server t) = Some x ∧ s_aead x = a ∧ s_egress x = Some sock ∧ s_ID x = id;
  to_socket : ∀ q x, session_at q (en_server t) = Some x → s_egress x = Some sock → q = p;
}.

Lemma consume_queued i (c : Client.client Inner R) b :
  b ∈ (consume i c).2 ∨ queued (consume i c).1 b → queued c b.
Proof.
  unfold consume. destruct (cl_links c !! i) as [l|] eqn:Hl; cbn [mbind option_bind];
    [|intros [H%elem_of_nil|H]; done].
  destruct (l_q l) as [s|] eqn:Hq; [|intros [H%elem_of_nil|H]; done].
  assert (Hs : ∀ b, b ∈ SendQueue.q s → queued c b).
  { intros b' Hb'. exists s. split; [|done]. apply list_elem_of_lookup. exists i. unfold queues.
    by rewrite list_lookup_fmap, Hl; cbn; rewrite Hq. }
  assert (Hp : (∀ b, (popNext s).1 = Popped b → b ∈ SendQueue.q s) ∧ (∀ b, b ∈ SendQueue.q (popNext s).2 → b ∈ SendQueue.q s)).
  { unfold popNext. destruct (SendQueue.q s) as [|h tl] eqn:E; cbn [fst snd].
    - rewrite E. split; [|done]. by destruct (SendQueue.closed s).
    - cbn. split; [intros b' [= ->]; by left|]. intros b' Hb'. by right. }
  destruct (popNext s) as [r s']. cbn [fst snd] in *. destruct Hp as [Hp1 Hp2]. intros [Hb|Hb].
  - destruct r; [apply list_elem_of_singleton in Hb as ->; by apply Hs, Hp1|by apply elem_of_nil in Hb..].
  - destruct (emits_queue (λ _, False) i (with_q (Some s')) c l s s' Hl Hq eq_refl (λ b H, or_introl (Hp2 b H)) b) as [?|[]]; [by right|done].
Qed.

(** The part of the state that does not depend on the coding. *)
Record link_ok (a : AEAD) (id : Z) t : Prop := {
  lk_key : cl_session (en_client t) = Some a;
  lk_id : c_ID (cl_sess (en_client t)) = id;
  lk_server : server_ok (en_server t);
  lk_session : ∃ x, session_at p (en_server t) = Some x ∧ s_aead x = a ∧ s_egress x = Some sock ∧ s_ID x = id;
  lk_socket : ∀ q x, session_at q (en_server t) = Some x → s_egress x = Some sock → q = p;
}.

Lemma consume_keeps i (c : Client.client Inner R) : ckeeps c (consume i c).1.
Proof. unfold consume. destruct (_ ≫= _) as [s|]; [|apply ckeeps_refl]. destruct (popNext s). apply ckeeps_on_link. Qed.

Lemma link_step a id ev t t' : admissible a t ev → step ev t = Ok t' → link_ok a id t → link_ok a id t'.
Proof.
  intros Had Hst [H1 H2 H4 H6 H7]. destruct ev as [now ev|i|e ev]; cbn [tunnel_step] in Hst.
  - apply bind_Ok in Hst as ([c' out] & Hc & Hst). injection Hst as <-. cbn [fst snd].
    pose proof (step_established _ _ _ _ _ _ _ _ _ H1 Hc) as [K1 K2 _ _]. split; cbn; try done; congruence.
  - pose proof (consume_keeps i (en_client t)) as K. destruct (consume i (en_client t)) as [c' b]. injection Hst as <-. destruct K as [K1 K2 _ _]. split; cbn; try done; cbn in *; congruence.
  - apply bind_Ok in Hst as ([s' out] & Hs & Hst). injection Hst as <-. destruct Had as (Hn & Hdial & _).
    pose proof (server_step_grows _ _ _ _ _ _ _ Hs) as [_ Gk Gn]. split; cbn [en_client en_server fst]; try done.
    + by eapply step_ok.
    + destruct H6 as (x & Hx & Ha & Hc & Hi). destruct (Gk p x Hx) as (x' & Hx' & Ki & Ka & Kc & _).
      exists x'. split_and!; [done|congruence..].
    + intros q x' Hx' Hc. destruct (Gn q x' Hx') as [(x & Hx & (_ & _ & Kc & _) & _)|([c Hd] & Kc & _)].
      * apply (H7 q x Hx). congruence.
      * destruct H6 as (x & Hx & _ & Hcx & _). exfalso. apply (Hdial c p x Hd Hx). congruence.
Qed.

Lemma tunnel_step_ok a id ev t t' :
  Enabled (v_fecParams v) = false → admissible a t ev → step ev t = Ok t' → tunnel_ok a id t → tunnel_ok a id t'.
Proof.
  intros Hv Had Hst [H1 H2 H3 H4 H5 H6 H7].
  destruct (link_step a id ev t t' Had Hst) as [K1 K2 K3 K4 K5]; [by split|]. split; try done; clear K1 K2 K3 K4 K5.
  - destruct ev as [now ev|i|e ev]; cbn [tunnel_step] in Hst.
    + apply bind_Ok in Hst as ([c' out] & Hc & Hst). injection Hst as <-. eapply off_keeps; [exact H3|].
      exact (step_established _ _ _ _ _ _ _ _ _ H1 Hc).
    + pose proof (consume_keeps i (en_client t)) as K. destruct (consume i (en_client t)) as [c' b]. injection Hst as <-.
      by eapply off_keeps.
    + apply bind_Ok in Hst as ([s' out] & Hs & Hst). by injection Hst as <-.
  - destruct ev as [now ev|i|e ev]; cbn [tunnel_step] in Hst.
    + apply bind_Ok in Hst as ([c' out] & _ & Hst). by injection Hst as <-.
    + destruct (consume i (en_client t)) as [c' b]. by injection Hst as <-.
    + apply bind_Ok in Hst as ([s' out] & Hs & Hst). injection Hst as <-.
      eapply grows_off; [exact Hv|exact H5|by eapply server_step_grows].
Qed.

Lemma established_ok a t :
  established p sock a t → client_off (en_client t) → server_off (en_server t) →
  tunnel_ok a (c_ID (cl_sess (en_client t))) t.
Proof. intros [] ? ?. by split. Qed.

(** What went up so far: every frame in the network or a queue carries one of the
    datagrams taken in, under its number, and the numbers of the frames that
    were served are distinct and spent. *)
Record up_inv (a : AEAD) (id : Z) t : Prop := {
  ui_ok : tunnel_ok a id t;
  ui_log : ∃ L D : list (Z * list byte),
    L.*2 = en_ingested t ∧ D.*2 = en_served t ∧
    (∀ b, b ∈ en_up t ∨ queued (en_client t) b → up_ok a id L b) ∧
    NoDup D.*1 ∧ (∀ d, d ∈ D → d ∈ L) ∧ (∀ q, q ∈ D.*1 → spent p q (en_server t));
}.

Lemma up_step a id ev t t' :
  AEADLaws a → is_u64 id → Enabled (v_fecParams v) = false →
  admissible a t ev → step ev t = Ok t' → up_inv a id t → up_inv a id t'.
Proof.
  intros La Hu Hv Had Hst [Hok (L & D & HL & HD & Hw & Hnd & Hsub & Hsp)].
  split; [by eapply tunnel_step_ok|]. destruct Hok as [H1 H2 H3 H4 H5 (x & Hx & Ha & _) H7].
  destruct ev as [now ev|i|e ev]; cbn [tunnel_step] in Hst.
  - apply bind_Ok in Hst as ([c' out] & Hc & Hst). injection Hst as <-. cbn [fst snd].
    destruct (client_step_emits inner_string unmarshal cc now ev _ _ _ a H1 H3 ltac:(by rewrite H2) Hc) as (L' & E & He).
    rewrite H2 in He. exists (L ++ L'), D. cbn [en_ingested en_served en_up en_client en_server].
    split_and!; [by rewrite fmap_app, HL, E|done| |done| |done].
    + intros b Hb. rewrite elem_of_app in Hb.
      assert (Hold : b ∈ en_up t ∨ queued (en_client t) b → up_ok a id (L ++ L') b)
        by (intros H; eapply up_ok_mono; [|by apply Hw]; intros ?; rewrite elem_of_app; by left).
      destruct Hb as [[Hb|Hb]|Hb]; [by apply Hold; left| |];
        (destruct (He b) as [?|Hb']; [tauto|by apply Hold; right|]); (eapply up_ok_mono; [|exact Hb']);
        intros ?; rewrite elem_of_app; by right.
    + intros d Hd. rewrite elem_of_app. left. by apply Hsub.
  - pose proof (consume_queued i (en_client t)) as Hq. destruct (consume i (en_client t)) as [c' bs]. injection Hst as <-.
    exists L, D. cbn [en_ingested en_served en_up en_client en_server fst snd] in *. split_and!; try done.
    intros b Hb. rewrite elem_of_app in Hb. apply Hw. destruct Hb as [[?|?]|?]; auto.
  - apply bind_Ok in Hst as ([s' out] & Hs & Hst). injection Hst as <-. destruct Had as (Hn & _ & Hfrg).
    pose proof (gr_kept _ _ _ _ (server_step_grows _ _ _ _ _ _ _ Hs)) as Hp.
    pose proof (server_step_serves addr_string v p sock e ev _ _ _ H4 H5 Hn H7 Hs) as Hsv.
    assert (Hnone : served_by sock out = [] → ∃ L D : list (Z * list byte), L.*2 = en_ingested t ∧
      D.*2 = en_served t ++ served_by sock out ∧ (∀ b, b ∈ en_up t ∨ queued (en_client t) b → up_ok a id L b) ∧
      NoDup D.*1 ∧ (∀ d, d ∈ D → d ∈ L) ∧ (∀ q, q ∈ D.*1 → spent p q s')).
    { intros ->. exists L, D. rewrite app_nil_r. split_and!; try done. intros q Hq. by apply (spent_persists _ _ _ _ Hp), Hsp. }
    destruct ev as [b ua|q payload| | |]; try (by apply Hnone). destruct Hsv as [Hsv|Hsv]; [by apply Hnone|]. clear Hnone.
    destruct Hsv as (hdr & plain & f & x' & Hh & Hf & Hx' & Ho & Hd & Hka & Hns & Hsp' & _ & Hout).
    assert (x' = x) as -> by congruence. rewrite Ha in Ho.
    destruct Hfrg as [Hb|(hdr' & Hh' & Hf')]; [by unfold opens; rewrite Ho| |congruence].
    destruct (Hw b (or_introl Hb)) as [(hdr' & Hh' & Hf')|(f0 & Hs0 & Hwf & Hid & Hdata)]; [congruence|].
    destruct (sealing_reads _ _ _ _ Hwf Hs0) as (k & plain0 & Ho0 & Hd0 & _).
    assert (plain0 = plain) as -> by congruence. assert (f = set_version Version (set_block k f0)) as -> by congruence.
    destruct Hdata as [Hkf|[_ Hin]].
    { unfold HasFlag in Hka. cbn [f_flags set_version set_block] in Hka. rewrite Hkf in Hka. discriminate Hka. }
    exists L, (D ++ [(f_seq f0, f_payload f0)]). cbn [en_ingested en_served en_up en_client en_server fst snd].
    split_and!; [done|by rewrite fmap_app, HD, Hout|done| | |].
    + rewrite fmap_app. apply NoDup_app. split_and!; [done| |apply NoDup_singleton].
      intros q Hq ->%list_elem_of_singleton. by apply Hns, Hsp.
    + intros d. rewrite elem_of_app, list_elem_of_singleton. intros [?| ->]; [by apply Hsub|done].
    + intros q. rewrite fmap_app, elem_of_app. cbn [fmap list_fmap fst]. rewrite list_elem_of_singleton. intros [Hq| ->]; [|done].
      by apply (spent_persists _ _ _ _ Hp), Hsp.
Qed.

Lemma up_run a id evs t t' :
  AEADLaws a → is_u64 id → Enabled (v_fecParams v) = false →
  admissible_run addr_string inner_string unmarshal v cc p sock a evs t → run evs t = Ok t' → up_inv a id t → up_inv a id t'.
Proof.
  intros La Hu Hv. revert t. induction evs as [|ev evs IH]; intros t Had Hr Hi; cbn [tunnel_run] in Hr.
  { by injection Hr as <-. }
  apply bind_Ok in Hr as (t1 & H1 & Hr). cbn [admissible_run] in Had. rewrite H1 in Had. destruct Had as [Ha1 Ha2].
  apply (IH t1); [done|done|]. by eapply up_step.
Qed.

(** C7 — Without coding, nothing is forged, repeated or diverted on the way up.
    Coding is off on both ends. From the moment the key exchange is complete, whatever the two ends do and whatever an adversary
    does to the network between them (losing, repeating, reordering and
    redirecting frames, injecting any buffer not sealed under the session key,
    replaying and inventing FIRST frames), the datagrams the server writes to the
    session's socket are datagrams the client took from its WireGuard, each
    written at most as often as it was taken. *)
Theorem uplink_integrity a t0 evs t :
  established p sock a t0 → client_off (en_client t0) → server_off (en_server t0) →
  Enabled (v_fecParams v) = false → AEADLaws a →
  admissible_run addr_string inner_string unmarshal v cc p sock a evs t0 → run evs t0 = Ok t →
  en_served t ⊆+ en_ingested t.
Proof.
  intros Hes Hc Hs Hv La Had Hr. pose proof (established_ok _ _ Hes Hc Hs) as Hok. pose proof Hes as [_ Hid _ _ _ Hq Hz].
  destruct Hz as (U & _ & I & S & _ & _).
  assert (Hi : up_inv a (c_ID (cl_sess (en_client t0))) t0).
  { split; [done|]. exists [], []. rewrite U, I, S. split_and!; [done|done| |constructor|by intros ? ?%elem_of_nil..].
    intros b [?%elem_of_nil|Hb]; [done|]. left. by apply Hq. }
  destruct (up_run _ _ _ _ _ La Hid Hv Had Hr Hi) as [_ (L & D & <- & <- & _ & Hnd & Hsub & _)].
  apply fmap_submseteq, NoDup_submseteq; [by eapply NoDup_fmap_1|exact Hsub].
Qed.
End uplink.
