(* ===== verification/CodedUplink.v ===== *)
(** * The way up with shared coding

    In cross-path mode one encoder of the client serves all its WANs and the
    server files the frames of a session in one stream, whatever address they
    come from. Over the adversarial network of [Tunnel] the server's WireGuard
    then gets only datagrams of the client's, each at most as often as it was
    sent: the theorem of [Uplink] with the erasure code at work between the two
    ends, and with other sessions, whatever they send, on the same decoder. *)

From S2P Require Import Prelude Float64 Frame Replay Delivery Health SendQueue Scheduler FecCodec FecEncoder FecDecoder FecRecovery FecStreams FecIsolation Crypto Session Config TunnelParams Server Client ClientProps Wire Handshake CodedLink Tunnel Uplink.

#[local] Open Scope string_scope.
#[local] Open Scope Z_scope.
#[local] Open Scope list_scope.

(** ** The client's encoder *)

Section client.
  Context {Addr Inner R : Type} (inner_string : Inner → string).
  Context `{!Rand R} {rsl : ReedSolomon} {cph : Ciphers} {dhx : X25519}.
  Context (unmarshal : list byte → option ServerAnnounce).
  Context `{!RangeOrder Z frame, !RangeOrder Z (list byte), !RangeOrder blockKey blockState}.
  Context (cc : client_cfg) `{!AEADLaws (cc_baseAEAD cc)}.

  Implicit Types (c : Client.client Inner R) (out : list (client_output Inner)).

Definition encoders c : gmap nat Encoder := h_encs (k_heap (cl_codecs c)).
Definition decoders c : gmap nat Decoder := h_decs (k_heap (cl_codecs c)).

Lemma sendLocked_codecs i f a c : cl_codecs (sendLocked i f a c).1.2 = cl_codecs c.
Proof.
  unfold sendLocked. destruct a; [|done]. destruct (cl_links c !! i); [|done].
  destruct (HasFlag f FlagPassSeq); (destruct (Encode _); [|done..]); (destruct (Seal _ _ _); [|done..]);
    (destruct (l_q _); [destruct (enqueue _ _)|]); done.
Qed.

Lemma send_cross_codecs a fs c c' out : send_cross a fs c = Ok (c', out) → cl_codecs c' = cl_codecs c.
Proof.
  revert c c' out. induction fs as [|f fs IH]; intros c c' out; cbn [send_cross]; [by intros [= <- _]|].
  set (r := if HasFlag f FlagFECParity then _ else _).
  assert (Hr : cl_codecs r.2 = cl_codecs c) by (unfold r; by destruct (HasFlag f FlagFECParity)).
  destruct r as [f1 c1]. cbn [snd] in Hr. destruct (PickWRR (cl_sched c1)) as [o sched].
  intros H. apply bind_Ok in H as ([c3 o3] & H3 & H). apply bind_Ok in H as ([c4 o4] & H4 & H). cbn [fst snd] in *.
  injection H as <- _. rewrite (IH _ _ _ H4), <-Hr. destruct o as [id|]; [|by injection H3 as <- _].
  destruct (byWAN id _) as [i|]; [|done]. pose proof (sendLocked_codecs i f1 a (set_csched sched c1)) as H5.
  destruct (sendLocked i f1 a (set_csched sched c1)) as [[e c5] o5]. by injection H3 as <- _.
Qed.

Lemma sendCrossEncoded_codecs fs c c' out : sendCrossEncoded fs c = Ok (c', out) → cl_codecs c' = cl_codecs c.
Proof. unfold sendCrossEncoded. destruct (cl_session c); [apply send_cross_codecs|by intros [= <- _]]. Qed.

Lemma handshake_codecs i c : cl_codecs (handshake_send cc i c).1 = cl_codecs c.
Proof.
  unfold handshake_send. destruct (_ !! i); [|done]. cbn [sess_seq Client_NextSeq].
  match goal with |- context [sendLocked i ?f ?a ?c1] => pose proof (sendLocked_codecs i f a c1) as H; destruct (sendLocked i f a c1) as [[e c2] o] end.
  exact H.
Qed.

Lemma keepalive_codecs now i c : cl_codecs (keepalive_send now i c).1 = cl_codecs c.
Proof.
  unfold keepalive_send. destruct (cl_session c); [|done]. cbn [sess_seq Client_NextSeq].
  match goal with |- context [sendLocked i ?f ?a ?c1] => pose proof (sendLocked_codecs i f a c1) as H; destruct (sendLocked i f a c1) as [[e c2] o] end.
  exact H.
Qed.

Lemma call_dec_at {A} o (f : Decoder → res unit (A * Decoder)) c r :
  call_dec o f c = Ok r →
  encoders r.2 = encoders c ∧
  ∃ p d d', o = Some p ∧ decoders c !! p = Some d ∧ f d = Ok (r.1, d') ∧ decoders r.2 = <[p := d']> (decoders c).
Proof.
  unfold call_dec. destruct o as [p|]; [|done]. destruct (_ !! p) as [d|] eqn:E; [|done].
  intros ([y d'] & Ef & H)%bind_Ok. injection H as <-. split; [done|]. by exists p, d, d'.
Qed.

Lemma call_enc_at {A} o (f : Encoder → res unit (A * Encoder)) c r :
  call_enc o f c = Ok r →
  decoders r.2 = decoders c ∧
  ∃ p en en', o = Some p ∧ encoders c !! p = Some en ∧ f en = Ok (r.1, en') ∧ encoders r.2 = <[p := en']> (encoders c).
Proof.
  unfold call_enc. destruct o as [p|]; [|done]. destruct (_ !! p) as [en|] eqn:E; [|done].
  intros ([y en'] & Ef & H)%bind_Ok. injection H as <-. split; [done|]. by exists p, en, en'.
Qed.

Lemma recv_frame_encoders now i sealed c c' out a :
  cl_session c = Some a → recv_frame unmarshal cc now i sealed c = Ok (c', out) → encoders c' = encoders c.
Proof.
  intros Hs. unfold recv_frame. destruct (DecodeHeader sealed); [|by intros [= <- _]..]. destruct (_ && _).
  - pose proof (handleKexAck_established unmarshal cc sealed c a Hs) as H.
    destruct (handleKexAck _ _ _ _) as [ok c1]. cbn [snd] in H. subst c1. intros [= <- _]. by destruct ok.
  - pose proof (openAndVerify_fields sealed c) as [H1 _]. destruct (openAndVerify sealed c) as [[f|] c1]; cbn [snd] in H1;
      [|intros [= <- _]; exact (f_equal (h_encs ∘ k_heap) H1)]. destruct (HasFlag f FlagPong).
    { intros [= <- _]. apply (f_equal (h_encs ∘ k_heap)) in H1. unfold handlePong. by destruct (negb _). }
    apply (f_equal (h_encs ∘ k_heap)) in H1. destruct (_ || _); [by intros [= <- _]|]. intros (r & [Hr _]%call_dec_at & H)%bind_Ok.
    unfold push_delivery in H. destruct (Delivery_Push _ _ _). injection H as <- _. etrans; [exact Hr|exact H1].
Qed.

(** Reporting loss to the encoders of the WANs. *)
Lemma health_wans_loss x now ids c c' en :
  health_wans now ids c = Ok c' → encoders c !! x = Some en →
  ∃ ops en', enc_run ops en = Ok ([], en') ∧ enc_pushed ops = [] ∧ encoders c' !! x = Some en'.
Proof.
  revert c en. induction ids as [|i ids IH]; intros c en; cbn [health_wans].
  { intros [= <-] Hen. by exists [], en. }
  intros (c1 & H1 & H)%bind_Ok Hen.
  assert (H2 : encoders c1 !! x = Some en ∨ ∃ r, encoders c1 !! x = Some (SetLossRate now r en)).
  { unfold health_wan in H1. destruct (cl_links c !! i) as [l|]; [|injection H1 as <-; by left].
    apply bind_Ok in H1 as (r1 & [E1 _]%call_dec_at & H1). apply bind_Ok in H1 as (r2 & [E2 _]%call_dec_at & H1).
    apply bind_Ok in H1 as (r3 & (_ & p & e0 & e1 & _ & E3 & E4 & E5)%call_enc_at & H1). injection H1 as <-.
    rewrite E2, E1 in E3, E5. match goal with |- context [encoders (set_csched ?s (on_link ?i ?f ?c))] => change (encoders (set_csched s (on_link i f c))) with (encoders c) end.
    rewrite E5. destruct (decide (x = p)) as [->|Hne]; [|left; by rewrite lookup_insert_ne].
    rewrite lookup_insert_eq. injection E4 as _ <-. rewrite Hen in E3. injection E3 as <-. right. by eexists. }
  destruct H2 as [H2|[r H2]].
  - by apply (IH c1).
  - destruct (IH c1 _ H H2) as (ops & en' & Er & Ep & E). exists (OpLoss now r :: ops), en'. cbn [enc_run enc_step res_bind fst snd].
    by rewrite Er.
Qed.

(** The client codes for all its WANs with the encoder [en] at [x]. *)
Record codes (x : nat) (en : Encoder) c : Prop := {
  cd_cross : k_crossPath (cl_codecs c) = true;
  cd_slot : k_xenc (cl_codecs c) = Some x;
  cd_enc : encoders c !! x = Some en;
}.

Lemma codes_keeps x en en' c c' : codes x en c → ckeeps c c' → encoders c' !! x = Some en' → codes x en' c'.
Proof.
  intros [C1 C2 _] [_ _ Hw _] He. unfold wiring in Hw. injection Hw as E1 E2 _ _ _ _. split; [congruence..|done].
Qed.

(** The frame the client makes of a datagram, unless it is too long. *)
Definition pushed_by (ev : client_event Inner) c : list frame :=
  match ev with
  | CIngress _ b =>
      if k_mtu (cl_codecs c) <? Z.of_nat (length b) then []
      else [new_frame 0 (c_ID (cl_sess c)) (u32 (c_seq (cl_sess c) + 1)) 0 b]
  | _ => []
  end.

(** What a step does to the encoder, and what is new on the network or in a queue:
    FIRST frames, probes and frames of the encoder. *)
Definition steps_encoder (a : AEAD) (x : nat) (en : Encoder) (pushed : list frame) c c' out : Prop :=
  ∃ ops fs en', enc_run ops en = Ok (fs, en') ∧ enc_pushed ops = pushed ∧ codes x en' c' ∧
    ∀ P, (∀ b, first_frame b → P b) → probes P a (c_ID (cl_sess c)) → Forall (sendable P a) fs → emits P c c' out.

Lemma steps_idle a x en c c' out :
  codes x en c → ckeeps c c' → encoders c' = encoders c →
  (∀ P, (∀ b, first_frame b → P b) → probes P a (c_ID (cl_sess c)) → emits P c c' out) →
  steps_encoder a x en [] c c' out.
Proof.
  intros Hc Hk He HP. exists [], [], en. split_and!; [done|done| |by intros P ? ? _; apply HP].
  eapply codes_keeps; [exact Hc|exact Hk|]. rewrite He. apply Hc.
Qed.

(** A call of the encoder whose frames are sent. *)
Lemma steps_call a x en o pushed c c0 r c2 out :
  cl_session c = Some a → codes x en c → silent c c0 [] → encoders c0 = encoders c → enc_pushed [o] = pushed →
  call_enc (k_xenc (cl_codecs c0)) (enc_step o) c0 = Ok r → sendCrossEncoded r.1 r.2 = Ok (c2, out) →
  steps_encoder a x en pushed c c2 out.
Proof.
  intros Hs Hc S0 E0 Hp Hr H2. pose proof (silent_ckeeps _ _ _ S0) as K0.
  destruct (codes_keeps _ _ en _ _ Hc K0) as [_ C2 C3]; [rewrite E0; apply Hc|].
  assert (S1 : silent c0 r.2 []).
  { destruct r as [fs c1]. eapply silent_call_enc; [|exact Hr]. intros e b e' He. by eapply (enc_step_params o). }
  destruct (call_enc_at _ _ _ _ Hr) as (_ & p & e & en' & Ep & E1 & Ef & E2). rewrite C2 in Ep. injection Ep as <-.
  rewrite C3 in E1. injection E1 as <-.
  pose proof (silent_trans _ _ _ _ _ S0 S1) as S. pose proof (silent_ckeeps _ _ _ S) as K.
  exists [o], (r.1 ++ []), en'. split_and!; [cbn [enc_run]; by rewrite Ef|done| |].
  - eapply codes_keeps; [exact Hc|eapply ckeeps_trans; [exact K|by eapply sendCrossEncoded_ckeeps]|].
    unfold encoders. rewrite (sendCrossEncoded_codecs _ _ _ _ H2). fold (encoders r.2). rewrite E2. apply lookup_insert_eq.
  - intros P _ _ HP. rewrite app_nil_r in HP. apply (emits_trans P c r.2 c2 [] out); [by apply emits_silent|].
    eapply sendCrossEncoded_emits; [|exact HP|exact H2]. rewrite (ck_session _ _ K). exact Hs.
Qed.

Lemma ingress_codes now ad payload c c' out a x en :
  cl_session c = Some a → codes x en c → ingress inner_string now ad payload c = Ok (c', out) →
  steps_encoder a x en (pushed_by (CIngress ad payload) c) c c' out.
Proof.
  intros Hs Hc. unfold ingress.
  match goal with |- context [if ?b then c else set_sess ?y c] =>
    set (c1 := if b then c else set_sess y c);
    assert (H1 : silent c c1 [] ∧ encoders c1 = encoders c ∧ c_seq (cl_sess c1) = c_seq (cl_sess c))
      by (unfold c1; destruct b; split_and!; [apply silent_refl|done|done|by apply silent_sess|done|done]) end.
  clearbody c1. destruct H1 as (S1 & E1 & Q1). pose proof (silent_ckeeps _ _ _ S1) as K1.
  pose proof (ck_wiring _ _ K1) as Hw. unfold wiring in Hw. injection Hw as W1 W2 _ _ W3 _.
  unfold pushed_by. rewrite W3. destruct (_ <? _).
  { intros [= <- <-]. apply steps_idle; [done|done|done|]. intros. by apply emits_silent. }
  rewrite (ck_session _ _ K1), Hs. cbn [sess_seq Client_NextSeq]. rewrite Q1. set (c2 := set_sess _ c1).
  change (cl_codecs c2) with (cl_codecs c1). rewrite W1, (cd_cross _ _ _ Hc).
  change (c_ID (cl_sess c2)) with (c_ID (cl_sess c1)). rewrite (ck_id _ _ K1). set (f := new_frame _ _ _ _ _).
  assert (S2 : silent c c2 []) by (apply (silent_trans c c1 c2 [] []); [done|by apply silent_sess]).
  intros H. apply bind_Ok in H as (r & Hr & H). by eapply (steps_call a x en (OpPush now f) [f] c c2 r).
Qed.

Lemma fecTick_codes now c c' out a x en :
  cl_session c = Some a → codes x en c → client_fecTick now c = Ok (c', out) → steps_encoder a x en [] c c' out.
Proof.
  intros Hs Hc. unfold client_fecTick. rewrite (cd_cross _ _ _ Hc). intros H. apply bind_Ok in H as ([c1 o1] & H1 & H).
  apply bind_Ok in H1 as (r & Hr & H1). apply bind_Ok in H1 as ([c3 o3] & H3 & H1).
  apply bind_Ok in H1 as ([ds c4] & H4 & H1). cbn [fst snd] in *.
  destruct (steps_call a x en (OpTick now) [] c c r c3 o3 Hs Hc (silent_refl c) eq_refl eq_refl Hr H3)
    as (ops & fs & en' & Er & Ep & Hc3 & HP).
  destruct (call_dec_at _ _ _ _ H4) as [E4 _]. cbn [snd] in E4. apply silent_call_dec in H4; [|apply dec_tick_params].
  pose proof (push_delivery_silent now ds c4) as S5. unfold push_delivery in *.
  destruct (Delivery_Push now (cl_delivery c4) ds) as [fs5 d5]. cbn [fst snd] in S5. injection H1 as <- <-.
  set (c5 := set_delivery d5 c4) in *. pose proof (tick_delivery_silent now c5) as S6. unfold tick_delivery in *.
  destruct (Delivery_Tick now (cl_delivery c5)) as [fs6 d6]. cbn [fst snd] in S6. injection H as <- <-.
  pose proof (silent_trans _ _ _ _ _ H4 (silent_trans _ _ _ _ _ S5 S6)) as S.
  exists ops, fs, en'. split_and!; [done|done| |].
  - eapply codes_keeps; [exact Hc3|by eapply silent_ckeeps|].
    change (encoders c4 !! x = Some en'). rewrite E4. apply Hc3.
  - intros P H1 H2 H5. rewrite <-app_assoc. eapply emits_trans; [by apply HP|by apply emits_silent].
Qed.

Lemma client_step_codes now ev c c' out a x en :
  cl_session c = Some a → codes x en c → is_u64 (c_ID (cl_sess c)) →
  client_step inner_string unmarshal cc now ev c = Ok (c', out) → steps_encoder a x en (pushed_by ev c) c c' out.
Proof.
  intros Hs Hc Hid H. pose proof (step_established _ _ _ _ _ _ _ _ _ Hs H) as K.
  destruct ev as [i|i|i|i sealed|ad payload| |]; cbn [client_step pushed_by] in *.
  - assert (E : handshake_send cc i c = (c', out)) by congruence. pose proof (handshake_codecs i c) as He. rewrite E in He.
    apply steps_idle; [done|done|by unfold encoders; cbn [fst] in He; rewrite He|]. intros P HP _. pose proof (handshake_emits cc P i c Hid HP) as Hm. by rewrite E in Hm.
  - assert (E : keepalive_send now i c = (c', out)) by congruence. pose proof (keepalive_codecs now i c) as He. rewrite E in He.
    apply steps_idle; [done|done|by unfold encoders; cbn [fst] in He; rewrite He|]. intros P _ HP. pose proof (keepalive_emits P now i a c Hs Hid HP) as Hm. by rewrite E in Hm.
  - assert (E : keepalive_tick cc now i c = (c', out)) by congruence. unfold keepalive_tick in E.
    set (c1 := on_link i (probe_outcome cc now) c) in E. pose proof (keepalive_codecs now i c1) as He. rewrite E in He.
    apply steps_idle; [done|done|by unfold encoders; cbn [fst] in He; rewrite He|]. intros P _ HP. pose proof (keepalive_emits P now i a c1 Hs Hid HP) as Hm. rewrite E in Hm.
    apply (emits_trans P c c1 _ [] _); [apply emits_silent, probe_outcome_silent|exact Hm].
  - pose proof (recv_frame_encoders now i sealed c c' out a Hs H) as He. apply recv_frame_silent in H as [H|[H _]]; [|congruence].
    apply steps_idle; [done|done|done|]. intros. by apply emits_silent.
  - by eapply ingress_codes.
  - by eapply fecTick_codes.
  - apply bind_Ok in H as (c1 & H1 & H). injection H as <- <-. pose proof (healthTick_silent _ _ _ H1) as S.
    destruct (health_wans_loss x now _ c c1 en H1 (cd_enc _ _ _ Hc)) as (ops & en' & Er & Ep & E).
    exists ops, [], en'. split_and!; [done|done|by eapply codes_keeps|]. intros. by apply emits_silent.
Qed.
End client.

(** ** The server's decoder *)

Section server.
  Context {Addr R : Type} (addr_string : Addr → string).
  Context `{!Rand R} {rsl : ReedSolomon} {cph : Ciphers} {dhx : X25519}.
  Context `{!RangeOrder Z firstWindow, !RangeOrder Z ptr, !RangeOrder Z (list byte),
            !RangeOrder blockKey blockState, !RangeOrder Z (sessState Addr R), !RangeOrder string (pathState Addr)}.
  Context (v : server_cfg).

  Implicit Types (s : Server.server Addr R) (out : list (Server.output Addr)).

(** The decoders agree on everything but their statistics. *)
Definition same_blocks (d d' : Decoder) : Prop :=
  dec_params d' = dec_params d ∧ blocks d' = blocks d ∧ rsByParity d' = rsByParity d ∧ lastFlushed d' = lastFlushed d.

Lemma same_blocks_refl d : same_blocks d d.
Proof. by split_and!. Qed.
Lemma same_blocks_trans d1 d2 d3 : same_blocks d1 d2 → same_blocks d2 d3 → same_blocks d1 d3.
Proof. intros (A1 & A2 & A3 & A4) (B1 & B2 & B3 & B4). split_and!; congruence. Qed.
Lemma same_blocks_eq d d' : d' = d → same_blocks d d'.
Proof. intros ->. apply same_blocks_refl. Qed.

Lemma registerPath_dec e q id ua payload s : sv_dec (registerPath addr_string v e q id ua payload s) = sv_dec s.
Proof.
  unfold registerPath. pose proof (stateFor_world v (e_rng e) id s) as [_ H1].
  destruct (stateFor v (e_rng e) id s) as [st s1]. by destruct (admit_path _ _ _ _ _) as [[ps st2]|].
Qed.

Lemma observeKeepalive_dec e id k s : sv_dec (observeKeepalive v e id k s) = sv_dec s.
Proof.
  unfold observeKeepalive. pose proof (stateFor_world v (e_rng e) id s) as [_ H1].
  destruct (stateFor v (e_rng e) id s) as [st s1]. by destruct (st_paths st !! k).
Qed.

Lemma next_seq_dec q s : sv_dec (next_seq q s).2 = sv_dec s.
Proof. unfold next_seq. destruct (session_at q s) as [x|]; [|done]. by destruct (NextSeq x). Qed.

Lemma sendPong_dec q a ts s : sv_dec (sendPong q a ts s).1 = sv_dec s.
Proof.
  unfold sendPong. destruct (session_at q s); [|done]. pose proof (next_seq_dec q s) as H. by destruct (next_seq q s).
Qed.

Lemma sendAck_dec q a s : sv_dec (sendAck v q a s).1 = sv_dec s.
Proof.
  unfold sendAck. destruct (session_at q s); [|done]. pose proof (next_seq_dec q s) as H. by destruct (next_seq q s).
Qed.

Lemma check_replay_dec q n s : sv_dec (check_replay q n s).2 = sv_dec s.
Proof. unfold check_replay. destruct (session_at q s) as [x|]; [|done]. by destruct (CheckReplay x n). Qed.

Lemma pickPath_dec e id s o s' : pickPath v e id s = Ok (o, s') → sv_dec s' = sv_dec s.
Proof.
  unfold pickPath. pose proof (stateFor_world v (e_rng e) id s) as [_ H1].
  destruct (stateFor v (e_rng e) id s) as [st s1]. destruct (Pick nil_frame (st_sched st)) as [[r| |] sched]; [|done..].
  by intros [= _ <-].
Qed.

Lemma pickCrossPath_dec e id s : sv_dec (pickCrossPath v e id s).2 = sv_dec s.
Proof.
  unfold pickCrossPath. pose proof (stateFor_world v (e_rng e) id s) as [_ H1].
  destruct (stateFor v (e_rng e) id s) as [st s1]. by destruct (PickWRR (st_sched st)).
Qed.

Lemma stamp_dec e id a f s : sv_dec (stamp addr_string v e id a f s).2 = sv_dec s.
Proof.
  unfold stamp. destruct (HasFlag f FlagPassSeq); [|done]. pose proof (stateFor_world v (e_rng e) id s) as [_ H1].
  destruct (stateFor v (e_rng e) id s) as [st s1]. by destruct (st_paths st !! addr_string a).
Qed.

Lemma send_frame_dec e q x one f s : sv_dec (send_frame addr_string v e q x one f s).1 = sv_dec s.
Proof.
  unfold send_frame. set (r := if HasFlag f FlagFECParity then _ else _).
  assert (H1 : sv_dec r.2 = sv_dec s).
  { unfold r. destruct (HasFlag f FlagFECParity); [|done]. pose proof (next_seq_dec q s) as H. by destruct (next_seq q s). }
  destruct r as [f1 s1]. cbn [snd] in H1. set (r := match one with Some a => _ | None => _ end).
  assert (H2 : sv_dec r.2 = sv_dec s) by (unfold r; destruct one; [done|by rewrite pickCrossPath_dec]).
  destruct r as [[a|] s2]; cbn [snd] in H2; [|done].
  pose proof (stamp_dec e (s_ID x) a f1 s2) as H3. destruct (stamp _ _ _ _ _ _ _) as [f3 s3]. cbn [fst snd] in *. congruence.
Qed.

Lemma send_frames_dec e q x one fs s : sv_dec (send_frames addr_string v e q x one fs s).1 = sv_dec s.
Proof.
  revert s. induction fs as [|f fs IH]; intros s; cbn [send_frames]; [done|].
  pose proof (send_frame_dec e q x one f s) as H1. destruct (send_frame _ _ _ _ _ _ _ _) as [s1 o1].
  specialize (IH s1). destruct (send_frames _ _ _ _ _ _ _ _) as [s2 o2]. cbn [fst] in *. congruence.
Qed.

Lemma sendToSession_dec e q fs s s' out : sendToSession addr_string v e q fs s = Ok (s', out) → sv_dec s' = sv_dec s.
Proof.
  unfold sendToSession. destruct fs as [|f fs]; [by intros [= <- _]|]. destruct (session_at q s) as [x|]; [|by intros [= <- _]].
  assert (Hone : ∀ one s, Ok (send_frames addr_string v e q x one (f :: fs) s) = @Ok unit _ (s', out) → sv_dec s' = sv_dec s).
  { intros one s0 H. rewrite <-(send_frames_dec e q x one (f :: fs) s0).
    assert (E : send_frames addr_string v e q x one (f :: fs) s0 = (s', out)) by congruence. by rewrite E. }
  destruct (CrossPath _); [apply Hone|]. intros H. apply bind_Ok in H as ([o s1] & H1%pickPath_dec & H). cbn [fst snd] in H.
  rewrite <-H1. destruct o; [by eapply Hone|]. by injection H as <- _.
Qed.

Lemma egress_dec e q payload s s' out : egress_datagram addr_string v e q payload s = Ok (s', out) → sv_dec s' = sv_dec s.
Proof.
  unfold egress_datagram. destruct (session_at q s) as [x|]; [|by intros [= <- _]].
  destruct (_ <? _); [by intros [= <- _]|]. pose proof (next_seq_dec q s) as H1. destruct (next_seq q s) as [n s1]. cbn [snd] in H1.
  rewrite <-H1. destruct (s_Enc x); [|by intros ?%sendToSession_dec]. intros H. apply bind_Ok in H as (r & _ & H).
  apply sendToSession_dec in H. exact H.
Qed.

Lemma tick_sessions_dec e qs s s' out : tick_sessions addr_string v e qs s = Ok (s', out) → sv_dec s' = sv_dec s.
Proof.
  revert s s' out. induction qs as [|q qs IH]; intros s s' out; cbn [tick_sessions]; [by intros [= <- _]|].
  intros H. apply bind_Ok in H as ([s1 o1] & H1 & H). apply bind_Ok in H as ([s2 o2] & H2 & H).
  injection H as <- _. cbn [fst snd] in *. rewrite (IH _ _ _ H2).
  destruct (x ← session_at q s; s_Enc x) as [en|]; [|by injection H1 as <- _].
  destruct (Encoder_Tick _ _). by apply sendToSession_dec in H1.
Qed.

Lemma create_session_dec e id seq f s : sv_dec (create_session v e id seq f s).2 = sv_dec s.
Proof.
  unfold create_session. destruct (_ <=? _)%nat; [done|]. destruct (CheckFirstReplay _ _ _ _) as [ok m].
  repeat (case_match; try done).
Qed.

Lemma handle_first_dec e hdr sealed ua s : sv_dec (handle_first addr_string v e hdr sealed ua s).1 = sv_dec s.
Proof.
  unfold handle_first. destruct ua as [ua|]; [|done]. destruct (Open _ _ _) as [plain| |]; [|done..].
  destruct (Decode plain) as [f| |]; [|done..]. set (r := match Get _ _ with Some p => _ | None => _ end).
  assert (Hr : sv_dec r.2 = sv_dec s) by (unfold r; destruct (Get _ _); [done|apply create_session_dec]).
  destruct r as [[q|] s1]; cbn [snd] in Hr; [|done].
  pose proof (check_replay_dec q (f_seq hdr) s1) as H2. destruct (check_replay q _ s1) as [ok s2]. cbn [snd] in H2.
  destruct ok; cbn [negb fst]; [|congruence]. rewrite sendAck_dec, registerPath_dec. etrans; [exact H2|exact Hr].
Qed.

Lemma healthTick_blocks e s : same_blocks (sv_dec s) (sv_dec (healthTick v e s)).
Proof.
  unfold healthTick. generalize (range (sv_states s)). intros kvs.
  assert (H : ∀ kvs s0, same_blocks (sv_dec s) (sv_dec s0) → same_blocks (sv_dec s) (sv_dec (foldl (λ s kv,
      match Get (mgr (sv_world s)) kv.1 with
      | None => s
      | Some p =>
          let '(st, d, worst) := health_paths v (e_now e) kv.1 (range (st_paths kv.2)) kv.2 (sv_dec s) in
          on_session p (λ x, match s_Enc x with
                             | Some enc => set_codec (SetLossRate (e_now e) worst enc) (s_ServerPub x) x
                             | None => x
                             end) (set_dec d (set_state kv.1 st s))
      end) s0 kvs))); [|by apply H, same_blocks_refl].
  clear kvs. induction kvs as [|[id st] kvs IH]; intros s0 H0; [done|]. cbn [foldl fst snd]. apply IH.
  destruct (Get (mgr (sv_world s0)) id) as [q|]; [|done]. eapply same_blocks_trans; [exact H0|]. clear H0 IH kvs.
  assert (Hp : ∀ kvs (st : sessState Addr R) d w, same_blocks d (foldl (λ (acc : sessState Addr R * Decoder * f64) (kv : string * pathState Addr),
      let '(st, d, worst) := acc in
      let '(ps, d) := health_path v (e_now e) id kv.1 kv.2 d in
      let st := set_sched (OnState kv.1 (state (ps_health ps)) (loss (ps_health ps)) (st_sched st))
                  (set_path kv.1 ps st) in
      (st, d, if worst <.? loss (ps_health ps) then loss (ps_health ps) else worst)) (st, d, w) kvs).1.2).
  { induction kvs as [|kv kvs IH]; intros st1 d w; [apply same_blocks_refl|]. cbn [foldl].
    assert (Hd : same_blocks d (health_path v (e_now e) id kv.1 kv.2 d).2) by (by split_and!).
    destruct (health_path v (e_now e) id kv.1 kv.2 d) as [ps d1]. eapply same_blocks_trans; [exact Hd|apply IH]. }
  unfold health_paths. specialize (Hp (range (st_paths st)) st (sv_dec s0) f0).
  destruct (foldl _ _ _) as [[st' d] worst]. exact Hp.
Qed.

(** ** The table *)

(** A session object that is not in the table stays out of it. *)
Definition no_return (p : ptr) s s' : Prop :=
  ∀ id, Get (mgr (sv_world s')) id = Some p → Get (mgr (sv_world s)) id = Some p.

Lemma no_return_refl p s : no_return p s s.
Proof. by intros id. Qed.

Lemma create_session_table' e id seq f p x s :
  session_at p s = Some x → no_return p s (create_session v e id seq f s).2.
Proof.
  intros Hx. unfold create_session. destruct (_ <=? _)%nat; [by intros ?|].
  pose proof (CheckFirst_entry (mgr (sv_world s)) id seq (e_now e)) as (_ & _ & Hm). cbn zeta in Hm.
  destruct (CheckFirstReplay _ _ _ _) as [ok m]. cbn [snd] in Hm.
  assert (Hsame : ∀ w, sessions (mgr w) = sessions (mgr (sv_world s)) → no_return p s (set_world w s))
    by (intros w Hw i; unfold Get; cbn; by rewrite Hw).
  destruct (negb ok); [by apply Hsame|]. destruct (_ <? _)%nat; [by apply Hsame|].
  destruct (e_priv e); [|by apply Hsame]. destruct (ECDHShared _ _); [|by apply Hsame..].
  destruct (e_dial e) as [c|]; [|by apply Hsame].
  destruct (NewAEAD _ _); [|by apply Hsame..]. destruct (NewEncoder _) as [en| |]; [|by apply Hsame..].
  unfold alloc, Put. cbn [heap mgr closed set_world sv_world snd fst]. rewrite lookup_insert_eq.
  intros i. unfold Get. cbn. rewrite lookup_insert_Some. intros [[_ Hf]|[_ Hi]]; [|by rewrite <-Hm].
  exfalso. pose proof (is_fresh (dom (heap (sv_world s)))) as Hn. rewrite Hf in Hn. apply Hn, elem_of_dom. by exists x.
Qed.

Lemma server_step_table e ev p x s s' out :
  session_at p s = Some x → server_step addr_string v e ev s = Ok (s', out) → no_return p s s'.
Proof.
  intros Hx. assert (Hev : evolves s s' → no_return p s s') by (intros [Hm _ _ _ _ _] i; by rewrite Hm).
  destruct ev as [sealed ua|q payload| | |]; cbn [server_step].
  - unfold handleClientFrame. destruct (DecodeHeader sealed) as [hdr| |] eqn:Eh;
      [|by intros [= <- _]; apply Hev, evolves_refl..].
    assert (Hseq : is_u32 (f_seq hdr)) by (by eapply wf_seq, DecodeHeader_wf).
    destruct (HasFlag hdr FlagFirst); [|by intros H; eapply Hev, handle_data_evolves].
    intros H. assert (E : handle_first addr_string v e hdr sealed ua s = (s', out)) by congruence. clear H Hev.
    unfold handle_first in E. destruct ua as [ua|]; [|injection E as <- _; apply no_return_refl].
    destruct (Open _ _ _) as [plain| |]; [|injection E as <- _; apply no_return_refl..].
    destruct (Decode plain) as [f| |]; [|injection E as <- _; apply no_return_refl..]. cbn zeta in E.
    set (r := match Get _ _ with Some p => _ | None => _ end) in E.
    assert (Hr : no_return p s r.2) by (unfold r; destruct (Get _ _); [apply no_return_refl|by eapply create_session_table']).
    destruct r as [[q|] s1]; cbn [snd] in Hr; [|by injection E as <- _].
    pose proof (check_replay_evolves q (f_seq hdr) s1 Hseq) as H2.
    destruct (check_replay q (f_seq hdr) s1) as [ok s2]. cbn [snd] in H2.
    assert (H3 : evolves s1 s').
    { destruct ok; cbn [negb] in E; [|by injection E as <- _]. eapply evolves_trans; [exact H2|].
      eapply evolves_trans; [apply touch_evolves|]. eapply evolves_trans; [apply registerPath_evolves|].
      match type of E with sendAck _ ?q ?a ?s0 = _ => pose proof (sendAck_evolves v q a s0) as H3 end. by rewrite E in H3. }
    intros i Hi. apply Hr. by rewrite <-(evo_mgr _ _ H3).
  - intros H. by eapply Hev, egress_evolves.
  - intros H. by eapply Hev, fecTick_evolves.
  - intros [= <- _]. apply Hev, healthTick_evolves.
  - intros [= <- _]. unfold sweep. pose proof (expire_table (sv_world s) sessionTTL (e_now e)) as Ht.
    destruct (Expire (sv_world s) sessionTTL (e_now e)) as [n w]. destruct Ht as (Ht & _).
    pose proof (ExpireFirsts_sessions (mgr w) sessionTTL (e_now e)) as Hm.
    destruct (ExpireFirsts _ _ _) as [n' m]. cbn [snd] in Hm. destruct (foldl _ _ _) as [u states].
    intros i. unfold Get. cbn. rewrite Hm. intros Hi. by eapply lookup_weaken.
Qed.

(** ** What reaches the socket *)

Context (p : ptr) (sock : Z).

(** While [p] is the session [id], its socket gets that session's frames; when it
    is not, nothing. *)
Lemma served_own id fs s :
  server_ok s → (∀ q x, session_at q s = Some x → s_egress x = Some sock → q = p) →
  (∃ x, session_at p s = Some x ∧ s_egress x = Some sock ∧ s_ID x = id) →
  served_by sock (forwardDecoded fs s) =
    if decide (Get (mgr (sv_world s)) id = Some p) then map f_payload (own id fs) else [].
Proof.
  intros Hok Hsock (x & Hx & Hc & Hid).
  assert (H1 : ∀ f, served_by sock (forwardDecoded [f] s) =
    if decide (Get (mgr (sv_world s)) id = Some p) then map f_payload (own id [f]) else []).
  { intros f. unfold forwardDecoded, own. cbn [flat_map List.filter]. rewrite app_nil_r.
    destruct (Get (mgr (sv_world s)) (f_session f)) as [q|] eqn:Hg; cbn [mbind option_bind]; cycle 1.
    { destruct (decide _) as [Hp|]; [|done]. destruct (Z.eqb_spec (f_session f) id); [|done]. congruence. }
    destruct (so_ptrs _ Hok _ _ Hg) as (y & Hy & Hyid). rewrite Hy. cbn [mbind option_bind].
    destruct (decide (q = p)) as [->|Hne].
    - assert (y = x) as -> by congruence. rewrite Hc. unfold served_by. cbn [flat_map]. rewrite (decide_True _ _ eq_refl).
      assert (Hf : f_session f = id) by congruence. rewrite Hf, Z.eqb_refl. rewrite <-Hf, (decide_True _ _ Hg). done.
    - assert (E : match s_egress y with Some c => served_by sock [ToWG (Addr := Addr) c (f_payload f)] | None => [] end = []).
      { destruct (s_egress y) as [c|] eqn:Ec; [|done]. unfold served_by. cbn [flat_map].
        destruct (decide (c = sock)) as [->|]; [|done]. exfalso. by eapply Hne, Hsock. }
      destruct (decide _) as [Hp|].
      + destruct (Z.eqb_spec (f_session f) id) as [Hf|]; [congruence|]. by destruct (s_egress y).
      + by destruct (s_egress y). }
  induction fs as [|f fs IH]; [by destruct (decide _)|]. change (f :: fs) with ([f] ++ fs).
  unfold forwardDecoded. rewrite flat_map_app. unfold served_by at 1. rewrite flat_map_app.
  fold (forwardDecoded [f] s) (forwardDecoded fs s). fold (served_by sock (forwardDecoded [f] s)) (served_by sock (forwardDecoded fs s)).
  rewrite H1, IH, own_app, map_app. by destruct (decide _).
Qed.

(** A data frame that is not a probe goes to the decoder once it is found
    authentic and new. *)
Definition decodes (e : env R) (b : list byte) s s' out : Prop :=
  ∃ hdr plain f q x path fs, DecodeHeader b = Ok hdr ∧ HasFlag hdr FlagFirst = false ∧
    Get (mgr (sv_world s)) (f_session f) = Some q ∧ session_at q s = Some x ∧
    Open (s_aead x) DirClientToServer b = Ok plain ∧ Decode plain = Ok f ∧ HasFlag f FlagKeepalive = false ∧
    f_payload f ≠ [] ∧ (spent q (f_seq f) s → False) ∧ spent q (f_seq f) s' ∧
    Decoder_Push (e_now e) path f (sv_dec s) = Ok (fs, sv_dec s') ∧ out = forwardDecoded fs s'.

(** A step leaves the blocks alone and writes nothing to WireGuard, or it is the
    arrival of a data frame, or a tick of the decoder. *)
Definition decoder_step (e : env R) (ev : event Addr) s s' out : Prop :=
  (same_blocks (sv_dec s) (sv_dec s') ∧ served_by sock out = []) ∨
  (∃ b ua, ev = EvFrame b ua ∧ decodes e b s s' out) ∨
  (Decoder_Tick (e_now e) (sv_dec s)).2 = sv_dec s' ∧
    served_by sock out = served_by sock (forwardDecoded (Decoder_Tick (e_now e) (sv_dec s)).1 s').

Lemma decoder_idle e ev s s' out :
  sv_dec s' = sv_dec s → sent_only out → decoder_step e ev s s' out.
Proof. intros Hd Ho. left. split; [by apply same_blocks_eq|by apply sent_only_served]. Qed.

Lemma handle_data_decodes e hdr b ua s s' out :
  server_ok s → DecodeHeader b = Ok hdr → HasFlag hdr FlagFirst = false →
  handle_data addr_string v e hdr b ua s = Ok (s', out) → decoder_step e (EvFrame b ua) s s' out.
Proof.
  intros Hok Hh Hf H. assert (Hq : is_u32 (f_seq hdr)) by (by eapply wf_seq, DecodeHeader_wf).
  pose proof (handle_data_evolves addr_string v e hdr b ua s s' out Hq H) as Hev.
  assert (Hno : ∀ s1, sv_dec s1 = sv_dec s → Ok (E := unit) (s1, []) = Ok (s', out) → decoder_step e (EvFrame b ua) s s' out)
    by (intros s1 E [= <- <-]; by apply decoder_idle; [|constructor]).
  unfold handle_data in H. destruct (Get (mgr (sv_world s)) (f_session hdr)) as [q|] eqn:Hg; cbn in H; [|by eapply Hno].
  destruct (session_at q s) as [x|] eqn:Hx; cbn in H; [|by eapply Hno].
  destruct (Open (s_aead x) DirClientToServer b) as [plain| |] eqn:Ho; [|by eapply Hno..].
  pose proof (check_replay_dec q (f_seq hdr) s) as Hd1.
  pose proof (check_replay_spends q (f_seq hdr) x s Hq Hx (so_windows _ Hok _ _ Hx)) as Hsp.
  pose proof (λ H, spent_refused q (f_seq hdr) s Hq H) as Href.
  destruct (check_replay q (f_seq hdr) s) as [ok s1]. cbn [snd] in Hd1, Hsp. destruct ok; cbn [negb] in H;
    [|by eapply Hno].
  destruct (Decode plain) as [f| |] eqn:Hd; [|by eapply Hno..].
  destruct (opened_header _ _ _ _ _ _ (so_aeads _ Hok _ _ Hx) Hh Ho Hd) as (Hid & Hseq & _).
  set (s2 := on_session q (Touch (e_now e)) s1) in H.
  set (s3 := match ua with Some a => registerPath addr_string v e q (f_session hdr) a [] s2 | None => s2 end) in H.
  assert (Hd3 : sv_dec s3 = sv_dec s) by (unfold s3; destruct ua; [rewrite registerPath_dec|]; exact Hd1).
  assert (Hev3 : evolves s1 s3).
  { eapply evolves_trans; [apply touch_evolves|].
    unfold s3. destruct ua; [apply registerPath_evolves|apply evolves_refl]. }
  destruct (HasFlag f FlagKeepalive) eqn:Hka.
  { destruct ua as [a|]; [|by eapply Hno].
    assert (E : sendPong q a (f_payload f) (observeKeepalive v e (f_session hdr) (addr_string a) s3) = (s', out)) by congruence.
    pose proof (sendPong_sent q a (f_payload f) (observeKeepalive v e (f_session hdr) (addr_string a) s3)) as Hs.
    pose proof (sendPong_dec q a (f_payload f) (observeKeepalive v e (f_session hdr) (addr_string a) s3)) as Hsd.
    rewrite E in Hs, Hsd. rewrite observeKeepalive_dec in Hsd. apply decoder_idle; [|exact Hs]. etrans; [exact Hsd|exact Hd3]. }
  destruct (Nat.eqb_spec (length (f_payload f)) 0) as [|Hne]; [by eapply Hno|].
  apply bind_Ok in H as ([fs d] & Hp & H). cbn [fst snd] in H. injection H as <- <-. rewrite Hd3 in Hp.
  right. left. exists b, ua. split; [done|]. exists hdr, plain, f, q, x. eexists _, fs. rewrite Hid, Hseq.
  split_and!; try done.
  - intros E. by rewrite E in Hne.
  - intros Hs. discriminate (f_equal fst (Href Hs)).
  - apply (spent_persists _ _ s1); [|exact Hsp]. apply evolves_persists. eapply evolves_trans; [exact Hev3|].
    apply evolves_set_dec. rewrite Hd3. by eapply push_params.
Qed.

Lemma server_step_decodes e ev s s' out :
  server_ok s → server_step addr_string v e ev s = Ok (s', out) → decoder_step e ev s s' out.
Proof.
  intros Hok. destruct ev as [b ua|q payload| | |]; cbn [server_step].
  - unfold handleClientFrame. destruct (DecodeHeader b) as [hdr| |] eqn:Eh;
      [|by intros [= <- <-]; apply decoder_idle; [|constructor]..].
    destruct (HasFlag hdr FlagFirst) eqn:Hf; [|by apply handle_data_decodes]. intros H.
    assert (E : handle_first addr_string v e hdr b ua s = (s', out)) by congruence. clear H.
    pose proof (handle_first_dec e hdr b ua s) as Hd. rewrite E in Hd. apply decoder_idle; [exact Hd|].
    unfold handle_first in E. destruct ua as [ua|]; [|injection E as _ <-; constructor].
    destruct (Open _ _ _) as [plain| |]; [|injection E as _ <-; constructor..].
    destruct (Decode plain); [|injection E as _ <-; constructor..]. cbn zeta in E.
    destruct (match Get _ _ with Some p => _ | None => _ end) as [[q|] s1]; [|injection E as _ <-; constructor].
    destruct (check_replay q _ s1) as [[] s2]; cbn [negb] in E; [|injection E as _ <-; constructor].
    match type of E with sendAck ?v ?q ?a ?s = _ => pose proof (sendAck_sent v q a s) as Hs end. by rewrite E in Hs.
  - intros H. apply decoder_idle; [by eapply egress_dec|by eapply egress_sent].
  - unfold fecTick. intros H. apply bind_Ok in H as ([s1 o1] & H1 & H). cbn [fst snd] in H.
    pose proof (tick_sessions_dec _ _ _ _ _ H1) as Hd. pose proof (tick_sessions_sent _ _ _ _ _ _ _ H1) as Hs. rewrite Hd in H.
    destruct (Decoder_Tick (e_now e) (sv_dec s)) as [fs d] eqn:Et. injection H as <- <-. right. right. rewrite Et. split; [done|].
    unfold served_by. rewrite flat_map_app. fold (served_by sock o1). by rewrite sent_only_served.
  - intros [= <- <-]. left. split; [apply healthTick_blocks|done].
  - intros [= <- <-]. left. split; [|done]. unfold sweep. destruct (Expire _ _ _) as [n w]. destruct (ExpireFirsts _ _ _) as [n' m].
    destruct (foldl _ _ _). apply same_blocks_refl.
Qed.
End server.

(** ** Frames of the encoder on the wire *)

(** The blocks [bl] of the session [id] by their keys; one stream for all paths. *)
Definition own_book (id : Z) (bl : list block) (key : blockKey) : option block :=
  if decide (key.1 = (id, "")) then if 1 <=? key.2 then bl !! Z.to_nat (key.2 - 1) else None else None.

Section wire.
  Context {rsl : ReedSolomon} `{!RangeOrder Z (list byte)} (id k : Z) (pd : Params) (Hcross : CrossPath pd = true).

Lemma own_book_inv bl key b :
  own_book id bl key = Some b → key.1 = (id, "") ∧ 1 ≤ key.2 ∧ bl !! Z.to_nat (key.2 - 1) = Some b.
Proof.
  unfold own_book. destruct (decide _); [|done]. destruct (Z.leb_spec 1 key.2); [|done]. done.
Qed.

Lemma own_book_mono bl x key b : own_book id bl key = Some b → own_book id (bl ++ x) key = Some b.
Proof. unfold own_book. destruct (decide _); [|done]. destruct (_ <=? _); [|done]. intros. by apply lookup_app_l_Some. Qed.

Lemma own_book_sound U bl P en key b :
  pushes_ok id P → sealed_so_far k id U bl P en → own_book id bl key = Some b →
  key.1.1 = id ∧ block_sound k id b ∧ 1 ≤ key.2 < 2 ^ 32.
Proof.
  intros HP Hs (Hk & H1 & Hb)%own_book_inv. rewrite Hk. split; [done|].
  split; [by eapply Forall_lookup_1; [apply Hs|]|]. split; [done|].
  pose proof (blocks_fewer k id bl (ss_sound _ _ _ _ _ _ Hs)) as Hl. apply lookup_lt_Some in Hb.
  pose proof (submseteq_length _ _ (ss_data _ _ _ _ _ _ Hs)) as Hd. rewrite !length_app in Hd.
  pose proof (ps_count _ _ HP). lia.
Qed.

Definition coded_up (a : AEAD) (U : list frame) (bl : list block) (b : list byte) : Prop :=
  first_frame b ∨ ∃ f, sealing DirClientToServer a f b ∧ wf_frame f ∧
    (f_flags f = FlagKeepalive ∨ ∃ g, on_wire k id U bl g ∧ sent_as g f).

Lemma coded_up_mono a U bl u x b : coded_up a U bl b → coded_up a (U ++ u) (bl ++ x) b.
Proof.
  intros [Hf|(f & Hs & Hw & Hor)]; [by left|right]. exists f. split; [done|]. split; [done|].
  destruct Hor as [?|(g & Hg & Hsent)]; [by left|right]. exists g. split; [by apply on_wire_mono|done].
Qed.

Lemma on_wire_wf U bl P en g :
  is_u64 id → pushes_ok id P → Forall plain_frame P → sealed_so_far k id U bl P en → on_wire k id U bl g → wf_frame g.
Proof.
  intros Hid HP Hpl Hs. rewrite Forall_forall in Hpl.
  assert (Hin : ∀ f, f ∈ U ∨ f ∈ concat bl.*1 → plain_frame f).
  { intros f Hf. apply Hpl. eapply elem_of_submseteq; [|apply (ss_data _ _ _ _ _ _ Hs)]. rewrite !elem_of_app. tauto. }
  intros [(u & Hu & Hor)|(i & b & Hi & Hf)].
  - destruct (Hin u (or_introl Hu)) as (Hw & Hfl & _). destruct Hor as [-> | ->]; [done|].
    destruct Hw. unfold marked. rewrite Hfl. by split.
  - apply elem_of_app in Hf as [Hf|Hf].
    + apply list_elem_of_fmap in Hf as (h & -> & Hh). destruct (Hin h) as ([] & _ & _).
      { right. apply list_elem_of_In, in_concat. exists b.1. split; [|by apply list_elem_of_In].
        apply list_elem_of_In, list_elem_of_fmap. exists b. split; [done|by eapply list_elem_of_lookup_2]. }
      split; try done. cbn. destruct (own_book_sound U bl P en (id, "", Z.of_nat (S i)) b HP Hs) as (_ & _ & Hr); [|cbn in Hr; unfold is_u32; lia].
      unfold own_book. rewrite decide_True by done. cbn [snd]. rewrite (proj2 (Z.leb_le _ _)) by lia.
      by replace (Z.to_nat (Z.of_nat (S i) - 1)) with i by lia.
    + apply list_elem_of_lookup in Hf as [j Hj]. rewrite list_lookup_imap in Hj. destruct (b.2 !! j); [|done]. injection Hj as <-.
      destruct (own_book_sound U bl P en (id, "", Z.of_nat (S i)) b HP Hs) as (_ & _ & Hr); [|by split; try done; cbn in *; unfold is_u32; lia].
      unfold own_book. rewrite decide_True by done. cbn [snd]. rewrite (proj2 (Z.leb_le _ _)) by lia.
      by replace (Z.to_nat (Z.of_nat (S i) - 1)) with i by lia.
Qed.

(** The frames of the encoder may be sent. *)
Lemma encoder_sendable a U bl P en fs :
  is_u64 id → pushes_ok id P → Forall plain_frame P → sealed_so_far k id U bl P en → Forall (on_wire k id U bl) fs →
  Forall (sendable (coded_up a U bl) a) fs.
Proof.
  intros Hid HP Hpl Hs Hw. eapply Forall_impl; [exact Hw|]. clear Hw. intros g Hg q b Hq Hb. right.
  pose proof (on_wire_wf _ _ _ _ _ Hid HP Hpl Hs Hg) as Hw. eexists. split; [exact Hb|].
  destruct (HasFlag g FlagFECParity) eqn:Ep.
  - split; [by apply wf_set_seq|]. right. exists g. split; [done|]. right. split; [done|]. by exists q.
  - split; [done|]. right. exists g. split; [done|by left].
Qed.

Lemma coded_up_probes a U bl i : probes (coded_up a U bl) a i.
Proof. intros f b Hw _ Hk Hs. right. exists f. split; [done|]. split; [done|by left]. Qed.

(** The frame the receiver reads: a block number changes only where a path
    counter was stamped. *)
Lemma sealing_opens dir a f b `{!AEADLaws a} :
  wf_frame f → sealing dir a f b →
  ∃ n plain, Open a dir b = Ok plain ∧ Decode plain = Ok (set_version Version (set_block n f)) ∧
    (HasFlag f FlagPassSeq = false → n = f_block f).
Proof.
  intros Hw Hs. destruct (HasFlag f FlagPassSeq) eqn:Ep.
  - destruct (sealing_reads dir a f b Hw Hs) as (n & plain & H1 & H2 & _). by exists n, plain.
  - destruct Hs as (n & plain & He & Hseal). rewrite Ep in He. destruct (Encode_Ok _ _ He) as [Hl _].
    destruct (seal_frame a dir _ Hw Hl) as (plain' & b' & E1 & E2 & E3 & E4 & _).
    assert (plain' = plain) as -> by congruence. assert (b' = b) as -> by congruence. exists (f_block f), plain.
    split; [done|]. split; [|done]. rewrite E4. by destruct f.
Qed.
(** What the decoder gets: a datagram passed on, or a frame of a block. *)
Lemma own_frame U bl P en g f0 n path :
  pushes_ok id P → sealed_so_far k id U bl P en → on_wire k id U bl g → sent_as g f0 →
  (HasFlag f0 FlagPassSeq = false → n = f_block f0) →
  let f := set_version Version (set_block n f0) in
  f_session f = id ∧
  ((∃ u, u ∈ U ∧ uncoded f = true ∧ f_seq f = f_seq u ∧ f_payload f = f_payload u) ∨
   (uncoded g = false ∧ f_session g = id ∧ genuine k pd (own_book id bl) path g ∧
    ∀ now d, Enabled (dec_params d) = true → Decoder_Push now path f d = Decoder_Push now path g d)).
Proof.
  intros HP Hs Hg Hsent Hn f. assert (Hsf : f_session f = f_session g) by (by destruct Hsent as [->|(_ & q & _ & ->)]).
  destruct Hg as [(u & Hu & Hor)|(i & b & Hi & Hin)].
  - destruct (pushes_sub id P U HP (sealed_passes _ _ _ _ _ _ Hs)) as [Hf _]. rewrite Forall_forall in Hf.
    destruct (Hf u Hu) as [Hsid Hpar Hpass Hb _ _].
    assert (Hgp : HasFlag g FlagFECParity = false).
    { destruct Hor as [-> | ->]; [done|]. pose proof (is_data_pass u) as Hd. unfold is_data in Hd. fold (marked u) in Hd.
      apply negb_true_iff. by rewrite Hd, Hpar. }
    assert (Hfg : f0 = g) by (destruct Hsent as [?|(Hp & _)]; [done|congruence]). subst f0.
    split; [rewrite Hsf; by destruct Hor as [-> | ->]|]. left. exists u. split; [done|].
    split; [|by destruct Hor as [-> | ->]].
    unfold uncoded. change (HasFlag f FlagFECParity) with (HasFlag g FlagFECParity). rewrite Hgp, andb_true_r.
    change (HasFlag f FlagPassSeq) with (HasFlag g FlagPassSeq). destruct Hor as [-> | ->].
    + rewrite Hpass. change (f_block f) with n. by rewrite Hn, Hb.
    + by rewrite marked_flag.
  - assert (Hb : own_book id bl (id, "", Z.of_nat (S i)) = Some b).
    { unfold own_book. rewrite decide_True by done. cbn [snd]. rewrite (proj2 (Z.leb_le _ _)) by lia.
      by replace (Z.to_nat (Z.of_nat (S i) - 1)) with i by lia. }
    destruct (own_book_sound U bl P en _ b HP Hs Hb) as (_ & Hbs & Hbn).
    destruct (block_frames_key _ _ _ _ _ _ _ (proj1 Hbs) Hin) as [Hsg Hbg].
    assert (Hc : coded g ∧ HasFlag g FlagPassSeq = false).
    { unfold block_frames in Hin. apply elem_of_app in Hin as [Hf|Hf].
      - apply list_elem_of_fmap in Hf as (h & -> & Hh). pose proof (do_frames _ _ (proj1 Hbs)) as Hfl. rewrite Forall_forall in Hfl.
        destruct (Hfl h Hh) as (_ & _ & Hpass & _). split; [right; split; [exact Hpass|cbn; lia]|exact Hpass].
      - apply list_elem_of_lookup in Hf as [j Hj]. rewrite list_lookup_imap in Hj. destruct (b.2 !! j); [|done]. injection Hj as <-.
        split; [by left|done]. }
    destruct Hc as [Hc Hpass].
    assert (Hu : uncoded g = false).
    { unfold uncoded. destruct Hc as [->|[-> Hne]]; [by rewrite andb_false_r|]. by rewrite (proj2 (Z.eqb_neq _ _) Hne). }
    split; [congruence|]. right. split_and!; [done|done| |].
    + right. exists b. unfold filed. rewrite Hcross, Hsg, Hbg. split; [exact Hb|exact Hin].
    + intros now d He. assert (Ef : f = set_version Version f0).
      { unfold f. rewrite Hn; [by destruct f0|]. by destruct Hsent as [->|(_ & q & _ & ->)]. }
      rewrite Ef. apply push_wired; [done|done|]. destruct Hsent as [->|(Hp & q & _ & ->)]; [by left|right; eauto].
Qed.
End wire.

(** ** The way up through the network *)

Section uplink.
  Context {Addr Inner R : Type} (addr_string : Addr → string) (inner_string : Inner → string).
  Context `{!Rand R} {rsl : ReedSolomon} {cph : Ciphers} {dhx : X25519}.
  Context `{!RangeOrder Z firstWindow, !RangeOrder Z ptr, !RangeOrder Z (list byte),
            !RangeOrder blockKey blockState, !RangeOrder Z (sessState Addr R), !RangeOrder string (pathState Addr),
            !RangeOrder Z frame}.
  Context (unmarshal : list byte → option ServerAnnounce).
  Context (v : server_cfg) (cc : client_cfg) `{!AEADLaws (cc_baseAEAD cc)} (p : ptr) (sock : Z).

  Implicit Types (t : ends Addr Inner R).

Notation step := (tunnel_step addr_string inner_string unmarshal v cc p sock).
Notation run := (tunnel_run addr_string inner_string unmarshal v cc p sock).

(** The numbers the datagrams of a run take from the counter of the session. *)
Definition number_of t (ev : tunnel_event Addr Inner R) : list Z :=
  match ev with TClient _ cev => map f_seq (pushed_by cev (en_client t)) | _ => [] end.

Fixpoint numbers (evs : list (tunnel_event Addr Inner R)) t : list Z :=
  match evs with
  | [] => []
  | ev :: evs => number_of t ev ++ match step ev t with Ok t => numbers evs t | _ => [] end
  end.

(** A datagram of WireGuard is not empty and fits a UDP datagram. *)
Definition datagram_event (ev : tunnel_event Addr Inner R) : Prop :=
  match ev with TClient _ (CIngress _ b) => 0 < Z.of_nat (length b) < 2 ^ 16 | _ => True end.


(** The client's side: its encoder [en] has passed on [U] and sealed the blocks
    [bl] out of the datagrams [P], and all that was sent comes from these. *)
Record sender_log (a : AEAD) (id : Z) (x : nat) (k : Z) (nums : list Z) t
    (en : Encoder) (U : list frame) (bl : list block) (P : list frame) : Prop := {
  sl_codes : codes x en (en_client t);
  sl_enc : enc_ok en;
  sl_sealed : sealed_so_far k id U bl P en;
  sl_pushes : pushes_ok id P;
  sl_plain : Forall plain_frame P;
  sl_nums : map f_seq P = nums;
  sl_taken : map f_payload P `sublist_of` en_ingested t;
  sl_wire : ∀ b, b ∈ en_up t ∨ queued (en_client t) b → coded_up id k a U bl b;
}.

(** The server's side: served were [S] of the frames passed on and the frames of
    [D] out of their blocks. *)
Record receiver_log (id k : Z) (pd : Params) t
    (U : list frame) (bl : list block) (S : list frame) (D : list (blockKey * frame)) : Prop := {
  rl_served : en_served t ≡ₚ map f_payload S ++ map (λ x, f_payload x.2) D;
  rl_passed : NoDup (map f_seq S);
  rl_spent : ∀ f, f ∈ S → f ∈ U ∧ spent p (f_seq f) (en_server t);
  rl_once : NoDup D;
  rl_blocks : ∀ key f, (key, f) ∈ D → ∃ b, own_book id bl key = Some b ∧ f ∈ b.1;
  rl_follows : Get (mgr (sv_world (en_server t))) id = Some p →
    follows id k pd (own_book id bl) D (sv_dec (en_server t));
}.

Lemma receiver_mono id k pd t t' U bl u x S D :
  en_server t' = en_server t → en_served t' = en_served t →
  receiver_log id k pd t U bl S D → receiver_log id k pd t' (U ++ u) (bl ++ x) S D.
Proof.
  intros E1 E2 [H1 H2 H3 H4 H5 H6]. split; rewrite ?E1, ?E2; try done.
  - intros f Hf. rewrite elem_of_app. destruct (H3 f Hf). auto.
  - intros key f Hin. destruct (H5 key f Hin) as (b & Hb & Hf). exists b. split; [by apply own_book_mono|done].
  - intros Hg. eapply follows_mono; [|by apply H6]. intros key b. apply own_book_mono.
Qed.

(** The frame of a datagram is one the encoder may be given. *)
Lemma pushed_fit ev now (c : Client.client Inner R) :
  is_u64 (c_ID (cl_sess c)) → datagram_event (TClient now ev) →
  Forall (push_ok (c_ID (cl_sess c))) (pushed_by ev c) ∧ Forall plain_frame (pushed_by ev c) ∧
  map f_payload (pushed_by ev c) `sublist_of` ingested_by ev.
Proof.
  intros Hid Hd. destruct ev as [i|i|i|i sealed|ad b| |]; cbn [pushed_by ingested_by]; try by split_and!.
  destruct (_ <? _); [split; [constructor|split; [constructor|apply sublist_nil_l]]|]. cbn in Hd. split_and!; [| |done].
  - apply Forall_singleton. by split; try apply u32_range.
  - apply Forall_singleton. split; [|split; [done|]].
    + by apply new_frame_wf; [|done|apply u32_range].
    + cbn. intros ->. cbn in Hd. lia.
Qed.

Lemma coded_client a id x k pd nums now ev t t' en U bl P S D :
  is_u64 id → 1 ≤ k ≤ 255 → datagram_event (TClient now ev) →
  NoDup (nums ++ number_of t (TClient now ev)) → Z.of_nat (length (nums ++ number_of t (TClient now ev))) < 2 ^ 32 →
  link_ok p sock a id t → sender_log a id x k nums t en U bl P → receiver_log id k pd t U bl S D →
  step (TClient now ev) t = Ok t' →
  ∃ en U bl P, sender_log a id x k (nums ++ number_of t (TClient now ev)) t' en U bl P ∧ receiver_log id k pd t' U bl S D.
Proof.
  intros Hid Hk Hdg Hnd Hlen [L1 L2 _ _ _] [C1 C2 C3 C4 C5 C6 C7 C8] Hr Hst. cbn [tunnel_step number_of] in *.
  apply bind_Ok in Hst as ([c' out] & Hc & Hst). injection Hst as <-. cbn [fst snd].
  rewrite <-L2 in Hid. destruct (pushed_fit ev now (en_client t) Hid Hdg) as (F1 & F2 & F3).
  destruct (client_step_codes inner_string unmarshal cc now ev _ _ _ a x en L1 C1 Hid Hc) as (ops & fs & en' & Er & Ep & Hc' & He).
  rewrite L2 in *. set (pu := pushed_by ev (en_client t)) in *.
  assert (HP : pushes_ok id (P ++ pu)).
  { split; [apply Forall_app; split; [apply C4|done]|by rewrite map_app, C6|].
    rewrite <-C6, <-map_app, length_map in Hlen. exact Hlen. }
  assert (Hpl : Forall plain_frame (P ++ pu)) by (by apply Forall_app).
  rewrite <-Ep in HP. destruct (run_sealed k id Hk ops U bl P en fs en' HP C2 C3 Er) as (u & y & Hs & Ho & Hw). rewrite Ep in Hs, HP.
  exists en', (U ++ u), (bl ++ y), (P ++ pu). split; [|by eapply receiver_mono; [| |exact Hr]].
  split; cbn [en_client en_up en_ingested]; try done.
  - by rewrite map_app, C6.
  - rewrite map_app. by apply sublist_app.
  - intros b Hb. rewrite elem_of_app in Hb.
    assert (Hold : b ∈ en_up t ∨ queued (en_client t) b → coded_up id k a (U ++ u) (bl ++ y) b)
      by (intros H; by apply coded_up_mono, C8).
    assert (Hem : emits (coded_up id k a (U ++ u) (bl ++ y)) (en_client t) c' out).
    { apply He; [intros b' ?; by left|apply coded_up_probes|]. by eapply encoder_sendable. }
    destruct Hb as [[Hb|Hb]|Hb]; [by apply Hold; left| |]; (destruct (Hem b) as [?|?]; [tauto|by apply Hold; right|done]).
Qed.

(** More is served: passed frames under new numbers, and frames out of blocks. *)
Lemma receiver_step id k pd t t' U bl S D S' E :
  receiver_log id k pd t U bl S D → en_served t' = en_served t ++ map f_payload S' ++ map f_payload (map hand E) →
  persists (en_server t) (en_server t') → NoDup (map f_seq S') →
  (∀ f, f ∈ S' → f ∈ U ∧ spent p (f_seq f) (en_server t') ∧ (spent p (f_seq f) (en_server t) → False)) →
  follows id k pd (own_book id bl) (D ++ E) (sv_dec (en_server t')) →
  receiver_log id k pd t' U bl (S ++ S') (D ++ E).
Proof.
  intros [H1 H2 H3 H4 H5 H6] Es Hp Hn HS Hf. split.
  - rewrite Es, H1, !map_app, map_map. change (λ x, f_payload (hand x)) with (λ x : blockKey * frame, f_payload x.2).
    rewrite <-!app_assoc. f_equiv. rewrite !app_assoc. f_equiv. apply Permutation_app_comm.
  - rewrite map_app. apply NoDup_app. split_and!; [done| |done].
    intros q (f & -> & Hin)%list_elem_of_fmap (g & Eg & Hg)%list_elem_of_fmap.
    destruct (H3 f Hin) as [_ Hsp]. destruct (HS g Hg) as (_ & _ & Hno). apply Hno. by rewrite <-Eg.
  - intros f [Hin|Hin]%elem_of_app.
    + destruct (H3 f Hin) as [HU Hsp]. split; [done|]. by eapply spent_persists.
    + destruct (HS f Hin) as (HU & Hsp & _). done.
  - apply Hf.
  - intros key f Hin. apply (fo_done _ _ _ _ _ _ Hf key f Hin).
  - done.
Qed.

(** A frame of the session that arrives: a datagram passed on, or a frame of a
    block. *)
Lemma own_arrival a id k pd en U bl P D d d' b hdr plain f path now fs :
  AEADLaws a → CrossPath pd = true → Enabled pd = true → pushes_ok id P → sealed_so_far k id U bl P en →
  coded_up id k a U bl b → DecodeHeader b = Ok hdr → HasFlag hdr FlagFirst = false →
  Open a DirClientToServer b = Ok plain → Decode plain = Ok f → HasFlag f FlagKeepalive = false →
  follows id k pd (own_book id bl) D d → Decoder_Push now path f d = Ok (fs, d') →
  ∃ E S', map f_payload (own id fs) = map f_payload S' ++ map f_payload (map hand E) ∧ NoDup (map f_seq S') ∧
    (∀ w, w ∈ S' → w ∈ U ∧ f_seq w = f_seq f) ∧ follows id k pd (own_book id bl) (D ++ E) d'.
Proof.
  intros La Hcr Hon HP Hs [(hdr' & Hh' & Hf')|(f0 & Hs0 & Hwf & Hor)] Hh Hfi Ho Hd Hka Hf Hpush; [congruence|].
  pose proof (λ key b, own_book_sound id k U bl P en key b HP Hs) as Hbook.
  destruct (sealing_opens _ _ _ _ Hwf Hs0) as (n & plain0 & Ho0 & Hd0 & Hn).
  assert (plain0 = plain) as -> by congruence. rewrite Hd in Hd0. injection Hd0 as ->.
  destruct Hor as [Hkf|(g & Hgw & Hsent)].
  { unfold HasFlag in Hka. cbn [f_flags set_version set_block] in Hka. rewrite Hkf in Hka. discriminate Hka. }
  destruct (own_frame id k pd Hcr U bl P en g f0 n path HP Hs Hgw Hsent Hn)
    as (Hid & [(u & Hu & Hun & Hseq & Hpay)|(Hun & Hgid & Hgen & Heq)]).
  - destruct (push_follows id k pd _ Hbook Hon _ path _ D _ fs _ Hf (λ _, or_introl Hun) Hpush) as (E & Eo & Hf').
    rewrite Hun in Eo. exists E, [u]. split_and!; [|by apply NoDup_singleton|by intros w ->%list_elem_of_singleton|done].
    rewrite Eo, map_app. f_equal. rewrite own_all by (by apply Forall_singleton). cbn [map]. by rewrite Hpay.
  - rewrite Heq in Hpush by (by rewrite (fo_params _ _ _ _ _ _ Hf)).
    destruct (push_follows id k pd _ Hbook Hon _ path _ D _ fs _ Hf (λ _, Hgen) Hpush) as (E & Eo & Hf').
    rewrite Hun in Eo. exists E, []. split_and!; [by rewrite Eo|constructor|by intros w ?%elem_of_nil|done].
Qed.

Lemma coded_server a id x k pd nums e ev t t' en U bl P S D :
  AEADLaws a → CrossPath pd = true → Enabled pd = true → admissible a t (TServer e ev) →
  link_ok p sock a id t → link_ok p sock a id t' → sender_log a id x k nums t en U bl P →
  receiver_log id k pd t U bl S D → step (TServer e ev) t = Ok t' →
  ∃ S D, receiver_log id k pd t' U bl S D.
Proof.
  intros La Hcr Hon Had [_ _ Hok (y & Hy & Ha & Hc & Hi) Hso] [_ _ Hok' Hses' Hso'] Hsl Hr Hst. cbn [tunnel_step] in Hst.
  apply bind_Ok in Hst as ([s' out] & Hs & Hst). injection Hst as <-. cbn [fst snd en_server] in *.
  destruct Had as (_ & _ & Hfrg). set (t' := mkEnds _ s' _ _ _ _ _ _).
  pose proof (gr_kept _ _ _ _ (server_step_grows _ _ _ _ _ _ _ Hs)) as Hp.
  pose proof (server_step_table _ _ _ _ _ _ _ _ _ Hy Hs) as Hnr.
  pose proof (server_step_decodes _ _ sock _ _ _ _ _ Hok Hs) as Hds.
  pose proof (λ fs, served_own p sock id fs s' Hok' Hso' ltac:(destruct Hses' as (z & ? & _ & ? & ?); by exists z)) as Hown.
  assert (Hsame : served_by sock out = [] →
    (Get (mgr (sv_world s')) id = Some p → follows id k pd (own_book id bl) D (sv_dec s')) → receiver_log id k pd t' U bl S D).
  { intros E Hf. destruct Hr as [H1 H2 H3 H4 H5 H6]. split; try done; cbn; [by rewrite E, app_nil_r|].
    intros f Hin. destruct (H3 f Hin). split; [done|]. by eapply spent_persists. }
  destruct (decide (Get (mgr (sv_world s')) id = Some p)) as [Hg'|Hg']; cycle 1.
  { exists S, D. apply Hsame; [|done]. destruct Hds as [[_ ?]|[(b & ua & _ & Hd)|[_ Et]]]; [done| |by rewrite Et, Hown].
    destruct Hd as (hdr & plain & f & q & z & path & fs & _ & _ & _ & _ & _ & _ & _ & _ & _ & _ & _ & ->). by rewrite Hown. }
  pose proof (Hnr _ Hg') as Hg. pose proof (rl_follows _ _ _ _ _ _ _ _ Hr Hg) as Hf.
  pose proof (own_book_sound id k U bl P en) as Hbook. specialize (λ key b, Hbook key b (sl_pushes _ _ _ _ _ _ _ _ _ _ Hsl) (sl_sealed _ _ _ _ _ _ _ _ _ _ Hsl)) as Hbook.
  assert (Hstep : ∀ fs E S', served_by sock out = map f_payload (own id fs) →
    map f_payload (own id fs) = map f_payload S' ++ map f_payload (map hand E) → NoDup (map f_seq S') →
    (∀ f, f ∈ S' → f ∈ U ∧ spent p (f_seq f) s' ∧ (spent p (f_seq f) (en_server t) → False)) →
    follows id k pd (own_book id bl) (D ++ E) (sv_dec s') → ∃ S D, receiver_log id k pd t' U bl S D).
  { intros fs E S' E1 E2 H1 H2 H3. exists (S ++ S'), (D ++ E). eapply receiver_step; try done. cbn. by rewrite E1, E2. }
  destruct Hds as [[Hsb E]|[(b & ua & -> & Hd)|[Ed Et]]].
  - exists S, D. apply Hsame; [done|]. intros _. destruct Hsb as (B1 & B2 & B3 & B4). by eapply follows_same.
  - destruct Hd as (hdr & plain & f & q & z & path & fs & Hh & Hfi & Hgq & Hz & Ho & Hd & Hka & Hne & Hns & Hsp & Hpush & ->).
    destruct (decide (f_session f = id)) as [Hid|Hid].
    + rewrite Hid in Hgq. assert (q = p) as -> by congruence. assert (z = y) as -> by congruence. rewrite Ha in Ho.
      destruct Hfrg as [Hb|(hdr' & Hh' & Hf')]; [by unfold opens; rewrite Ho| |congruence].
      destruct (own_arrival a id k pd en U bl P D _ _ b hdr plain f path (e_now e) fs La Hcr Hon (sl_pushes _ _ _ _ _ _ _ _ _ _ Hsl)
        (sl_sealed _ _ _ _ _ _ _ _ _ _ Hsl) (sl_wire _ _ _ _ _ _ _ _ _ _ Hsl b (or_introl Hb)) Hh Hfi Ho Hd Hka Hf Hpush)
        as (E & S' & Eo & Hn & HS & Hf').
      apply (Hstep fs E S'); [by rewrite Hown|done|done| |done]. intros w Hw. destruct (HS w Hw) as [HU ->]. done.
    + destruct (push_follows id k pd _ Hbook Hon _ path f D _ fs _ Hf (λ H, False_ind _ (Hid H)) Hpush) as (E & Eo & Hf').
      apply (Hstep fs E []); [by rewrite Hown| |constructor|by intros w ?%elem_of_nil|done].
      rewrite Eo. rewrite (own_none id (f_session f)); [done|done|]. destruct (uncoded f); by repeat constructor.
  - destruct (tick_follows id k pd _ Hbook Hon (e_now e) D _ Hf) as (E & Eo & Hf'). rewrite Ed in Hf'.
    apply (Hstep (Decoder_Tick (e_now e) (sv_dec (en_server t))).1 E []); [by rewrite Et, Hown|by rewrite Eo|constructor|by intros w ?%elem_of_nil|done].
Qed.

Lemma coded_consume a id x k pd nums i t t' en U bl P S D :
  link_ok p sock a id t → sender_log a id x k nums t en U bl P → receiver_log id k pd t U bl S D →
  step (TConsume i) t = Ok t' → sender_log a id x k nums t' en U bl P ∧ receiver_log id k pd t' U bl S D.
Proof.
  intros _ [C1 C2 C3 C4 C5 C6 C7 C8] Hr Hst. cbn [tunnel_step] in Hst.
  pose proof (consume_queued i (en_client t)) as Hq. pose proof (consume_keeps i (en_client t)) as K.
  assert (He : encoders (consume i (en_client t)).1 = encoders (en_client t)).
  { unfold consume. destruct (_ ≫= _) as [s|]; [|done]. by destruct (popNext s). }
  destruct (consume i (en_client t)) as [c' bs]. injection Hst as <-. cbn [fst snd] in *. split.
  - split; cbn [en_client en_up en_ingested]; try done.
    + eapply codes_keeps; [exact C1|exact K|]. rewrite He. apply C1.
    + intros b Hb. rewrite elem_of_app in Hb. apply C8. destruct Hb as [[?|?]|?]; auto.
  - destruct Hr as [H1 H2 H3 H4 H5 H6]. by split.
Qed.

(** The whole invariant, over a run. *)
Definition coded_inv (a : AEAD) (id : Z) (x : nat) (k : Z) (pd : Params) (nums : list Z) t : Prop :=
  link_ok p sock a id t ∧
  ∃ en U bl P S D, sender_log a id x k nums t en U bl P ∧ receiver_log id k pd t U bl S D.

Lemma coded_run a id x k pd evs nums t t' :
  AEADLaws a → is_u64 id → 1 ≤ k ≤ 255 → CrossPath pd = true → Enabled pd = true →
  Forall datagram_event evs → NoDup (nums ++ numbers evs t) → Z.of_nat (length (nums ++ numbers evs t)) < 2 ^ 32 →
  admissible_run addr_string inner_string unmarshal v cc p sock a evs t → run evs t = Ok t' →
  coded_inv a id x k pd nums t → ∃ nums', coded_inv a id x k pd nums' t'.
Proof.
  intros La Hid Hk Hcr Hon. revert nums t. induction evs as [|ev evs IH]; intros nums t Hdg Hnd Hlen Had Hr Hi;
    cbn [tunnel_run] in Hr; [injection Hr as <-; by exists nums|].
  apply bind_Ok in Hr as (t1 & H1 & Hr). cbn [admissible_run numbers] in Had, Hnd, Hlen. rewrite H1 in Had, Hnd, Hlen.
  destruct Had as [Ha1 Ha2]. apply Forall_cons_1 in Hdg as [Hd1 Hdg]. rewrite app_assoc in Hnd, Hlen.
  apply (IH (nums ++ number_of t ev) t1); try done. clear IH Ha2 Hr Hdg.
  assert (Hnd1 : NoDup (nums ++ number_of t ev)) by (by apply NoDup_app in Hnd as [? _]).
  assert (Hlen1 : Z.of_nat (length (nums ++ number_of t ev)) < 2 ^ 32) by (rewrite length_app in Hlen; lia).
  destruct Hi as [Hl (en & U & bl & P & S & D & Hs & Hrl)].
  assert (Hl1 : link_ok p sock a id t1) by (by eapply link_step). split; [exact Hl1|].
  destruct ev as [now ev|i|e ev].
  - destruct (coded_client _ _ _ _ pd _ _ _ _ _ _ _ _ _ S D Hid Hk Hd1 Hnd1 Hlen1 Hl Hs Hrl H1) as (en' & U' & bl' & P' & ? & ?).
    by exists en', U', bl', P', S, D.
  - cbn [number_of]. rewrite app_nil_r.
    destruct (coded_consume _ _ _ _ pd _ _ _ _ _ _ _ _ S D Hl Hs Hrl H1). by exists en, U, bl, P, S, D.
  - cbn [number_of]. rewrite app_nil_r.
    destruct (coded_server _ _ _ _ pd _ _ _ _ _ _ _ _ _ S D La Hcr Hon Ha1 Hl Hl1 Hs Hrl H1) as (S' & D' & ?).
    exists en, U, bl, P, S', D'. split; [|done]. cbn [tunnel_step] in H1.
    apply bind_Ok in H1 as ([s' out] & _ & H1). injection H1 as <-. by destruct Hs.
Qed.

(** What the logs say about the two WireGuard sides. *)
Lemma coded_served a id x k pd nums t : coded_inv a id x k pd nums t → en_served t ⊆+ en_ingested t.
Proof.
  intros [_ (en & U & bl & P & S & D & [_ _ Hs HP _ _ Htk _] & [Hsv Hn Hsp Hd Hbk _])].
  pose proof (ss_data _ _ _ _ _ _ Hs) as Hsub.
  assert (HnP : NoDup P) by (eapply NoDup_fmap_1, (ps_nodup _ _ HP)).
  assert (HS : S ⊆+ U) by (apply NoDup_submseteq; [by eapply NoDup_fmap_1|intros f Hf; by apply Hsp]).
  assert (Hin : ∀ b f, b ∈ bl → f ∈ b.1 → f ∈ concat bl.*1).
  { intros b f Hb Hf. apply list_elem_of_In, in_concat. exists b.1. split; [|by apply list_elem_of_In].
    apply list_elem_of_In, list_elem_of_fmap. by exists b. }
  assert (HD : D.*2 ⊆+ concat bl.*1).
  { apply NoDup_submseteq.
    - apply NoDup_fmap_2_strong; [|done]. intros [key f] [key' f'] Hx Hy. cbn [snd]. intros ->. f_equal.
      destruct (Hbk _ _ Hx) as (b & Hb & Hf), (Hbk _ _ Hy) as (b' & Hb' & Hf').
      apply own_book_inv in Hb as (E1 & L1 & Hb), Hb' as (E2 & L2 & Hb').
      assert (Hc : NoDup (concat bl.*1)).
      { eapply submseteq_NoDup; [exact HnP|]. etrans; [|exact Hsub]. by apply submseteq_inserts_l, submseteq_inserts_r. }
      pose proof (one_block bl _ _ _ _ _ Hc Hb Hb' Hf Hf') as E. destruct key as [sk n], key' as [sk' n']. cbn in *.
      f_equal; [congruence|lia].
    - intros f ([key g] & -> & Hg)%list_elem_of_fmap. destruct (Hbk _ _ Hg) as (b & (_ & _ & Hb)%own_book_inv & Hf).
      eapply Hin; [by eapply list_elem_of_lookup_2|done]. }
  assert (E : map f_payload S ++ map (λ x : blockKey * frame, f_payload x.2) D = f_payload <$> (S ++ D.*2))
    by (rewrite fmap_app; f_equal; by rewrite <-list_fmap_compose).
  rewrite Hsv, E. etrans; [|apply sublist_submseteq, Htk]. apply (fmap_submseteq f_payload).
  etrans; [|exact Hsub]. rewrite app_assoc. by apply submseteq_inserts_r, submseteq_app.
Qed.

(** The two ends at the start of the coding: the client codes for all its WANs
    with the encoder [en] just built from [pr], the server's decoder files by session
    and holds nothing of this session. *)
Record coding_starts (pr : Params) (x : nat) (en : Encoder) t : Prop := {
  cs_codes : codes x en (en_client t);
  cs_new : NewEncoder pr = Ok en;
  cs_data : 1 ≤ DataShards (e_params en) ≤ 255;
  cs_parity : 1 ≤ ParityShards pr < 2 ^ 16;
  cs_on : Enabled (dec_params (sv_dec (en_server t))) = true;
  cs_cross : CrossPath (dec_params (sv_dec (en_server t))) = true;
  cs_known : known (sv_dec (en_server t));
  cs_fresh : ∀ (key : blockKey) st, blocks (sv_dec (en_server t)) !! key = Some st → key.1.1 ≠ c_ID (cl_sess (en_client t));
}.

(** C4 — Coding does not weaken the tunnel. In cross-path mode, with the erasure
    code of the client's shared encoder on (adaptive or not, blocks full or cut
    short), whatever the two ends do and whatever an adversary does to the
    network between them (losing, repeating, reordering and redirecting frames
    across blocks, injecting any buffer not sealed under the session key), and
    whatever other sessions feed the server's decoder, the datagrams the server
    writes to the session's socket are datagrams the client took from its
    WireGuard, each written at most as often as it was taken. The run is shorter
    than the 32-bit counter: no two of its datagrams take the same number. *)
Theorem coded_uplink_integrity a pr x en t0 evs t :
  established p sock a t0 → AEADLaws a → coding_starts pr x en t0 →
  Forall datagram_event evs → NoDup (numbers evs t0) → Z.of_nat (length (numbers evs t0)) < 2 ^ 32 →
  admissible_run addr_string inner_string unmarshal v cc p sock a evs t0 → run evs t0 = Ok t →
  en_served t ⊆+ en_ingested t.
Proof.
  intros [Hkey Hid Hses Hso Hok Hq (Eu & _ & Ei & Es & _ & _)] La [Hc Hn Hk Hp He Hcr Hkn Hbl] Hdg Hnd Hlen Had Hr.
  destruct (sealed_new (DataShards (e_params en)) (c_ID (cl_sess (en_client t0))) pr en Hn eq_refl Hp) as [Hs Ho].
  destruct (coded_run a (c_ID (cl_sess (en_client t0))) x (DataShards (e_params en)) (dec_params (sv_dec (en_server t0))) evs [] t0 t) as (nums & Hi);
    try done; [|by eapply coded_served].
  split; [by split|]. exists en, [], [], [], [], []. split; split; try done.
  - split; [done|constructor|done].
  - by rewrite Ei.
  - intros b [Hb|Hb]; [by rewrite Eu in Hb; apply elem_of_nil in Hb|left; by apply Hq].
  - by rewrite Es.
  - constructor.
  - by intros f ?%elem_of_nil.
  - constructor.
  - by intros key f ?%elem_of_nil.
  - intros _. split; [done| |done|constructor|by intros key f ?%elem_of_nil].
    intros key st Hk' Hst. by destruct (Hbl key st Hst).
Qed.
End uplink.
