(* ===== verification/Downlink.v ===== *)
(** * The way down: from the server's WireGuard to the client's

    What the server seals for a session without coding, what the client makes
    of it, and their composition over an adversarial network: the client's
    WireGuard receives a subsequence of what the server's WireGuard sent. *)

From S2P Require Import Prelude Float64 Frame Replay Delivery Health SendQueue Scheduler FecCodec FecEncoder FecDecoder Crypto Session Config TunnelParams Server Client ClientProps Wire Handshake Tunnel Uplink.

#[local] Open Scope string_scope.
#[local] Open Scope Z_scope.
#[local] Open Scope list_scope.

(** ** The fields of the server's sessions *)

(** A field of a session that its replay window, its clock and its endpoints do
    not touch. *)
Class Inert {rsl : ReedSolomon} {Addr A} (π : ServerSession Addr Encoder → A) : Prop := {
  in_touch : ∀ n x, π (Touch n x) = π x;
  in_replay : ∀ n x, π (CheckReplay x n).2 = π x;
  in_endpoint : ∀ k ua x, π (SetEndpoint k ua x) = π x;
}.

Section server.
  Context {Addr R : Type} (addr_string : Addr → string).
  Context `{!Rand R} {rsl : ReedSolomon} {cph : Ciphers} {dhx : X25519}.
  Context `{!RangeOrder Z firstWindow, !RangeOrder Z ptr, !RangeOrder Z (list byte),
            !RangeOrder blockKey blockState, !RangeOrder Z (sessState Addr R), !RangeOrder string (pathState Addr)}.
  Context (v : server_cfg).

  Implicit Types (s : Server.server Addr R) (out : list (Server.output Addr)).

#[export] Instance seq_inert : Inert (Addr := Addr) s_seq.
Proof. split; [done| |done]. intros n x. unfold CheckReplay. by destruct (CheckAndMark _ _). Qed.
#[export] Instance Enc_inert : Inert (Addr := Addr) s_Enc.
Proof. split; [done| |done]. intros n x. unfold CheckReplay. by destruct (CheckAndMark _ _). Qed.

Section fields.
  Context {A : Type} (π : ServerSession Addr Encoder → A).

Definition field (q : ptr) s : option A := π <$> session_at q s.

(** The field of no session changes. *)
Definition same s s' : Prop := ∀ q, field q s' = field q s.

Lemma same_refl s : same s s.
Proof. done. Qed.
Lemma same_trans s1 s2 s3 : same s1 s2 → same s2 s3 → same s1 s3.
Proof. intros H1 H2 q. by rewrite H2. Qed.

Lemma field_at q s x : session_at q s = Some x → field q s = Some (π x).
Proof. unfold field. by intros ->. Qed.

Lemma same_on_session p f s : (∀ x, π (f x) = π x) → same s (on_session p f s).
Proof.
  intros Hf q. unfold field. rewrite session_on_session. case_decide; [|done].
  destruct (session_at q s); cbn; [by rewrite Hf|done].
Qed.

Lemma stateFor_same r id s : same s (stateFor v r id s).2.
Proof. unfold stateFor. by destruct (sv_states s !! id). Qed.

Lemma observeKeepalive_same e id k s : same s (observeKeepalive v e id k s).
Proof.
  unfold observeKeepalive. pose proof (stateFor_same (e_rng e) id s) as H1.
  destruct (stateFor v (e_rng e) id s) as [st s1]. by destruct (st_paths st !! k).
Qed.

Lemma pickPath_same e id s o s' : pickPath v e id s = Ok (o, s') → same s s'.
Proof.
  unfold pickPath. pose proof (stateFor_same (e_rng e) id s) as H1.
  destruct (stateFor v (e_rng e) id s) as [st s1]. destruct (Pick nil_frame (st_sched st)) as [[r| |] sched]; [|done..].
  by intros [= _ <-].
Qed.

Lemma pickCrossPath_same e id s : same s (pickCrossPath v e id s).2.
Proof.
  unfold pickCrossPath. pose proof (stateFor_same (e_rng e) id s) as H1.
  destruct (stateFor v (e_rng e) id s) as [st s1]. by destruct (PickWRR (st_sched st)).
Qed.

Lemma stamp_same e id a f s : same s (stamp addr_string v e id a f s).2.
Proof.
  unfold stamp. destruct (HasFlag f FlagPassSeq); [|done]. pose proof (stateFor_same (e_rng e) id s) as H1.
  destruct (stateFor v (e_rng e) id s) as [st s1]. by destruct (st_paths st !! addr_string a).
Qed.

Lemma sweep_same e s : same s (sweep e s).
Proof.
  unfold sweep. pose proof (expire_table (sv_world s) sessionTTL (e_now e)) as Hx.
  destruct (Expire (sv_world s) sessionTTL (e_now e)) as [n w]. destruct Hx as (_ & Hh & _).
  destruct (ExpireFirsts _ _ _) as [n' m]. destruct (foldl _ _ _) as [u states].
  intros q. unfold field, session_at. cbn. by rewrite Hh.
Qed.

Context `{!Inert π}.

Lemma check_replay_same p n s : same s (check_replay p n s).2.
Proof.
  unfold check_replay. destruct (session_at p s) as [x|] eqn:Hx; [|done]. pose proof (in_replay n x) as Hr.
  destruct (CheckReplay x n) as [ok y]. cbn [snd] in *. intros q. unfold field. rewrite session_on_session.
  case_decide as Hd; [|done]. subst q. rewrite Hx. cbn. by rewrite Hr.
Qed.

Lemma registerPath_same e p id ua payload s : same s (registerPath addr_string v e p id ua payload s).
Proof.
  unfold registerPath. pose proof (stateFor_same (e_rng e) id s) as H1.
  destruct (stateFor v (e_rng e) id s) as [st s1]. cbn [snd] in H1.
  destruct (admit_path _ _ _ _ _) as [[ps st2]|]; [|exact H1].
  eapply same_trans; [exact H1|]. apply (same_on_session p _ (set_state id _ s1)), in_endpoint.
Qed.
End fields.

Abbreviation seq_at := (field s_seq).
Abbreviation seqs := (same s_seq).

Lemma next_seq_at p s q :
  seq_at q (next_seq p s).2 = if decide (q = p) then (λ n, u32 (n + 1)) <$> seq_at q s else seq_at q s.
Proof.
  unfold next_seq, field. destruct (session_at p s) as [x|] eqn:Hx; cbn [snd NextSeq].
  - rewrite session_on_session. case_decide as Hd; [|done]. subst q. by rewrite Hx.
  - case_decide as Hd; [|done]. subst q. by rewrite Hx.
Qed.

(** ** What the server seals *)

(** Every frame sent is a sealing of one of [fs] under [a]. *)
Definition seals_of (a : AEAD) (fs : list frame) out : Prop :=
  ∀ d b, Sent d b ∈ out → ∃ f, f ∈ fs ∧ sealing DirServerToClient a f b.

Lemma seals_nil a fs : seals_of a fs [].
Proof. by intros d b ?%elem_of_nil. Qed.

Lemma sendToAddrKey_seals d f k a :
  seals_of a [f] (sendToAddrKey (Addr := Addr) d (if HasFlag f FlagPassSeq then set_block k f else f) a).
Proof.
  intros d' b. unfold sendToAddrKey. destruct (Encode _) as [plain| |] eqn:Ee; [|by intros ?%elem_of_nil..].
  destruct (Seal _ _ plain) as [b'| |] eqn:Es; [|by intros ?%elem_of_nil..].
  intros [= -> ->]%list_elem_of_singleton. exists f. split; [by left|]. by exists k, plain.
Qed.

(** Every frame sent is a sealing of one of [fs], parity under some number. *)
Definition sends_of (a : AEAD) (fs : list frame) out : Prop :=
  ∀ d b, Sent d b ∈ out → ∃ g f, g ∈ fs ∧ sent_as g f ∧ sealing DirServerToClient a f b.

Lemma sends_nil a fs : sends_of a fs [].
Proof. by intros d b ?%elem_of_nil. Qed.

Lemma sends_mono a fs fs' out : (∀ g, g ∈ fs → g ∈ fs') → sends_of a fs out → sends_of a fs' out.
Proof. intros Hin H d b Hb. destruct (H d b Hb) as (g & f & ? & ?). exists g, f. auto. Qed.

Lemma sends_app a fs out out' : sends_of a fs out → sends_of a fs out' → sends_of a fs (out ++ out').
Proof. intros H1 H2 d b [?|?]%elem_of_app; eauto. Qed.

Lemma sends_plain a fs out : Forall (λ f, HasFlag f FlagFECParity = false) fs → sends_of a fs out → seals_of a fs out.
Proof.
  rewrite Forall_forall. intros Hfs H d b Hb. destruct (H d b Hb) as (g & f & Hg & [->|(Hp & _)] & ?); [eauto|].
  specialize (Hfs g Hg). congruence.
Qed.

Section sending.
  Context {A : Type} (π : ServerSession Addr Encoder → A).

(** The numbers parity frames take are no matter to [π]. *)
Definition steady (p : ptr) (fs : list frame) : Prop :=
  Forall (λ f, HasFlag f FlagFECParity = false) fs ∨ ∀ s, same π s (next_seq p s).2.

Lemma parity_number p f s :
  steady p [f] →
  let r := if HasFlag f FlagFECParity then let '(q, s) := next_seq p s in (set_seq q f, s) else (f, s) in
  same π s r.2 ∧ sent_as f r.1.
Proof.
  intros Hst. destruct (HasFlag f FlagFECParity) eqn:Ep; [|split; [done|by left]].
  destruct Hst as [H|H]; [rewrite Forall_singleton in H; congruence|]. specialize (H s).
  assert (Hq : is_u32 (next_seq p s).1) by (unfold next_seq; destruct (session_at p s); [apply u32_range|done]).
  destruct (next_seq p s) as [q s1]. split; [done|]. right. split; [done|]. by exists q.
Qed.

Lemma send_frame_seals e p x one f s :
  steady p [f] →
  same π s (send_frame addr_string v e p x one f s).1 ∧
  sends_of (s_aead x) [f] (send_frame addr_string v e p x one f s).2.
Proof.
  intros Hst. unfold send_frame. pose proof (parity_number p f s Hst) as Hpn. cbv zeta in Hpn.
  set (r := if HasFlag f FlagFECParity then _ else _) in *. destruct r as [g s1]. cbn [fst snd] in Hpn. destruct Hpn as [H1 Hg].
  set (r := match one with Some a => _ | None => _ end).
  assert (H2 : same π s1 r.2) by (unfold r; destruct one; [done|apply pickCrossPath_same]).
  destruct r as [[a|] s2]; cbn [snd] in H2; [|split; [by eapply same_trans|apply sends_nil]].
  pose proof (stamp_same π e (s_ID x) a g s2) as H3.
  assert (Hf : ∃ k, (stamp addr_string v e (s_ID x) a g s2).1 = if HasFlag g FlagPassSeq then set_block k g else g).
  { unfold stamp. destruct (HasFlag g FlagPassSeq); [|by exists 0]. destruct (stateFor _ _ _ _) as [st s3].
    destruct (st_paths st !! addr_string a) as [ps|]; [by eexists|]. exists (f_block g). by destruct g. }
  destruct (stamp addr_string v e (s_ID x) a g s2) as [f3 s3]. cbn [fst snd] in *. destruct Hf as [k ->].
  split; [eapply same_trans; [exact H1|by eapply same_trans]|]. intros d b Hb.
  destruct (sendToAddrKey_seals a g k (s_aead x) d b Hb) as (h & ->%list_elem_of_singleton & Hs).
  exists f, g. split; [by left|done].
Qed.

Lemma steady_cons p f fs : steady p (f :: fs) → steady p [f] ∧ steady p fs.
Proof. intros [[H1 H2]%Forall_cons|H]; [split; left; [by apply Forall_singleton|done]|split; by right]. Qed.

Lemma send_frames_seals e p x one fs s :
  steady p fs →
  same π s (send_frames addr_string v e p x one fs s).1 ∧
  sends_of (s_aead x) fs (send_frames addr_string v e p x one fs s).2.
Proof.
  revert s. induction fs as [|f fs IH]; intros s Hst; cbn [send_frames]; [split; [done|apply sends_nil]|].
  destruct (steady_cons p f fs Hst) as [Hf Hfs].
  destruct (send_frame_seals e p x one f s Hf) as [H1 O1]. destruct (send_frame _ _ _ _ _ _ _ _) as [s1 o1].
  destruct (IH s1 Hfs) as [H2 O2]. destruct (send_frames _ _ _ _ _ _ _ _) as [s2 o2]. cbn [fst snd] in *.
  split; [by eapply same_trans|]. apply sends_app; [eapply sends_mono; [|exact O1]|eapply sends_mono; [|exact O2]].
  - intros g ->%list_elem_of_singleton. by left.
  - intros g Hg. by right.
Qed.

Lemma sendToSession_seals e p fs x s s' out :
  session_at p s = Some x → steady p fs →
  sendToSession addr_string v e p fs s = Ok (s', out) → same π s s' ∧ sends_of (s_aead x) fs out.
Proof.
  intros Hx Hfs. unfold sendToSession. destruct fs as [|f fs]; [intros [= <- <-]; split; [done|apply sends_nil]|].
  rewrite Hx.
  assert (Hone : ∀ one s0, same π s s0 → Ok (send_frames addr_string v e p x one (f :: fs) s0) = @Ok unit _ (s', out) →
    same π s s' ∧ sends_of (s_aead x) (f :: fs) out).
  { intros one s0 H0 H. destruct (send_frames_seals e p x one (f :: fs) s0 Hfs) as [H1 O1].
    assert (E : send_frames addr_string v e p x one (f :: fs) s0 = (s', out)) by congruence. rewrite E in H1, O1.
    split; [by eapply same_trans|done]. }
  destruct (CrossPath _); [by apply Hone|]. intros H. apply bind_Ok in H as ([o s1] & Hp & H). cbn [fst snd] in H.
  apply (pickPath_same π) in Hp. destruct o; [by eapply Hone|]. injection H as <- <-. split; [done|apply sends_nil].
Qed.
End sending.

(** ** One step of the server *)

(** The counter of [q] alone moves, by one. *)
Definition counted (q : ptr) s s' : Prop :=
  ∀ r, seq_at r s' = if decide (r = q) then (λ n, u32 (n + 1)) <$> seq_at r s else seq_at r s.

Lemma counted_next q s s1 s2 : seqs s s1 → seqs (next_seq q s1).2 s2 → counted q s s2.
Proof. intros H1 H2 r. by rewrite (H2 r), next_seq_at, (H1 r). Qed.

Lemma create_session_at e id n f s q x :
  session_at q s = Some x → session_at q (create_session v e id n f s).2 = Some x.
Proof.
  intros Hx. unfold create_session. destruct (maxSessions <=? _)%nat; [done|].
  destruct (CheckFirstReplay (mgr (sv_world s)) id n (e_now e)) as [ok m]. cbn zeta.
  destruct (negb ok); [done|]. destruct (_ <? _)%nat; [done|].
  destruct (e_priv e); [|done]. destruct (ECDHShared _ _); [|done..].
  destruct (e_dial e) as [c|]; [|done]. destruct (NewAEAD _ _); [|done..]. destruct (NewEncoder _); [|done..].
  unfold alloc, Put. cbn [heap mgr closed set_world sv_world snd fst]. rewrite lookup_insert_eq.
  unfold session_at in *. cbn [set_world sv_world heap]. rewrite lookup_insert_ne; [done|]. intros E.
  assert (Hn : heap (sv_world s) !! fresh (dom (heap (sv_world s))) = None) by (apply not_elem_of_dom, is_fresh).
  congruence.
Qed.

Lemma sendAck_seqs q a s :
  counted q s (sendAck v q a s).1 ∨ seqs s (sendAck v q a s).1.
Proof.
  unfold sendAck. destruct (session_at q s); [|by right]. left.
  assert (H : counted q s (next_seq q s).2) by by eapply counted_next. by destruct (next_seq q s).
Qed.

Lemma sendPong_sends q a ts s x :
  session_at q s = Some x →
  counted q s (sendPong q a ts s).1 ∧
  seals_of (s_aead x) [new_frame FlagPong (s_ID x) (u32 (s_seq x + 1)) 0 ts] (sendPong q a ts s).2.
Proof.
  intros Hx. unfold sendPong. rewrite Hx.
  assert (H : counted q s (next_seq q s).2) by by eapply counted_next.
  assert (Hn : (next_seq q s).1 = u32 (s_seq x + 1)) by (unfold next_seq; by rewrite Hx).
  destruct (next_seq q s) as [n s1]. cbn [fst snd] in *. subst n. split; [done|].
  exact (sendToAddrKey_seals a (new_frame FlagPong _ _ _ _) 0 (s_aead x)).
Qed.

Lemma handle_first_counts e hdr b ua s p x :
  session_at p s = Some x →
  let s' := (handle_first addr_string v e hdr b ua s).1 in
  seq_at p s' = Some (s_seq x) ∨ seq_at p s' = Some (u32 (s_seq x + 1)).
Proof.
  intros Hx. assert (H0 : seq_at p s = Some (s_seq x)) by (unfold field; by rewrite Hx).
  unfold handle_first. destruct ua as [ua|]; [|by left].
  destruct (Open _ _ _) as [plain| |]; [|by left..]. destruct (Decode plain) as [f| |]; [|by left..].
  cbn zeta. set (r := match Get _ _ with Some p => _ | None => _ end).
  assert (Hr : seq_at p r.2 = Some (s_seq x)).
  { unfold r. destruct (Get _ _); [done|]. unfold field. by rewrite (create_session_at _ _ _ _ _ _ _ Hx). }
  destruct r as [[q|] s1]; cbn [snd] in Hr; [|by left].
  pose proof (check_replay_same s_seq q (f_seq hdr) s1) as H2.
  destruct (check_replay q (f_seq hdr) s1) as [ok s2]. cbn [snd] in H2.
  destruct ok; cbn [negb]; [|left; by rewrite H2].
  set (s3 := registerPath _ _ _ _ _ _ _ _).
  assert (H3 : seqs s1 s3).
  { eapply same_trans; [exact H2|]. eapply same_trans; [|apply registerPath_same, seq_inert]. by apply same_on_session. }
  destruct (sendAck_seqs q ua s3) as [H|H]; rewrite (H p); [|left; by rewrite (H3 p)].
  rewrite (H3 p), Hr. destruct (decide (p = q)); [by right|by left].
Qed.

Lemma handle_data_sends e hdr b ua s s' out q x :
  is_u32 (f_seq hdr) → Get (mgr (sv_world s)) (f_session hdr) = Some q → session_at q s = Some x →
  handle_data addr_string v e hdr b ua s = Ok (s', out) →
  (seqs s s' ∨ counted q s s') ∧
  ∀ d c, Sent d c ∈ out → ∃ n ts, sealing DirServerToClient (s_aead x) (new_frame FlagPong (s_ID x) (u32 n) 0 ts) c.
Proof.
  intros Hq Hg Hx. unfold handle_data. rewrite Hg. cbn. rewrite Hx. cbn.
  assert (Hnil : ∀ s1, seqs s s1 → @Ok unit _ (s1, []) = Ok (s', out) → (seqs s s' ∨ counted q s s') ∧
    ∀ d c, Sent d c ∈ out → ∃ n ts, sealing DirServerToClient (s_aead x) (new_frame FlagPong (s_ID x) (u32 n) 0 ts) c)
    by (intros s1 H1 [= <- <-]; split; [by left|by intros d c ?%elem_of_nil]).
  destruct (Open _ _ _) as [plain| |]; [|by apply Hnil..].
  pose proof (check_replay_same s_seq q (f_seq hdr) s) as H1. pose proof (check_replay_evolves q (f_seq hdr) s Hq) as E1.
  destruct (check_replay q (f_seq hdr) s) as [ok s1]. cbn [snd] in H1, E1.
  destruct ok; cbn [negb]; [|by apply Hnil]. destruct (Decode plain) as [f| |]; [|by apply Hnil..].
  set (s2 := on_session q (Touch (e_now e)) s1).
  set (s3 := match ua with Some a => registerPath addr_string v e q (f_session hdr) a [] s2 | None => s2 end).
  assert (H2 : seqs s s2) by (eapply same_trans; [exact H1|by apply same_on_session]).
  assert (H3 : seqs s s3) by (unfold s3; destruct ua; [eapply same_trans; [exact H2|apply registerPath_same, seq_inert]|done]).
  assert (E3 : evolves s s3).
  { eapply evolves_trans; [exact E1|]. eapply evolves_trans; [apply (touch_evolves (e_now e) q)|].
    unfold s3. destruct ua; [apply registerPath_evolves|apply evolves_refl]. }
  destruct (HasFlag f FlagKeepalive).
  - destruct ua as [a|]; [|by apply Hnil]. intros H.
    set (s4 := observeKeepalive v e (f_session hdr) (addr_string a) s3) in H.
    assert (E4 : evolves s s4) by (eapply evolves_trans; [exact E3|apply observeKeepalive_evolves]).
    assert (H4 : seqs s s4) by (eapply same_trans; [exact H3|apply observeKeepalive_same]).
    destruct (evolves_persists _ _ E4 q x Hx) as (x4 & Hx4 & Ki & Ka & _).
    destruct (sendPong_sends q a (f_payload f) s4 x4 Hx4) as [C O].
    assert (E : sendPong q a (f_payload f) s4 = (s', out)) by congruence. rewrite E in C, O. cbn [fst snd] in *.
    split; [right; intros r; by rewrite (C r), (H4 r)|]. intros d c Hc. destruct (O d c Hc) as (g & Hin & Hs).
    apply list_elem_of_singleton in Hin as ->. rewrite <-Ka, <-Ki. by eexists _, _.
  - destruct (_ =? _)%nat; [by apply Hnil|]. intros H. apply bind_Ok in H as ([fs d] & _ & H).
    injection H as <- <-. split; [by left|]. intros d' c Hc. unfold forwardDecoded in Hc.
    apply list_elem_of_In, in_flat_map in Hc as (g & _ & Hc).
    destruct (p ← Get _ _; _); [|done]. by destruct Hc as [?|[]].
Qed.

Lemma egress_off e q payload s s' out x :
  session_at q s = Some x → (∀ en, s_Enc x = Some en → Enabled (e_params en) = false) →
  egress_datagram addr_string v e q payload s = Ok (s', out) →
  (s' = s ∧ out = []) ∨
  counted q s s' ∧ ∃ fl, (fl = 0 ∨ fl = FlagPassSeq) ∧
    seals_of (s_aead x) [new_frame fl (s_ID x) (u32 (s_seq x + 1)) 0 payload] out.
Proof.
  intros Hx Hoff. unfold egress_datagram. rewrite Hx.
  destruct (_ <? _); [intros [= <- <-]; by left|]. unfold next_seq. rewrite Hx. cbn [NextSeq].
  set (n := u32 (s_seq x + 1)). set (s1 := on_session q _ s). intros H. right.
  assert (E1 : (next_seq q s).2 = s1) by (unfold next_seq; rewrite Hx; done).
  assert (Hx1 : ∃ x1, session_at q s1 = Some x1 ∧ s_aead x1 = s_aead x)
    by (unfold s1; rewrite session_on_session; case_decide; [rewrite Hx; by eexists|done]).
  destruct Hx1 as (x1 & Hx1 & <-).
  destruct (s_Enc x) as [en|] eqn:Een.
  - unfold Encoder_Push in H. rewrite (Hoff _ eq_refl) in H. cbn [negb res_bind fst snd markPassSeq map] in H.
    set (s2 := on_session q _ s1) in H.
    assert (Hx2 : ∃ x2, session_at q s2 = Some x2 ∧ s_aead x2 = s_aead x1)
      by (unfold s2; rewrite session_on_session; case_decide; [rewrite Hx1; by eexists|done]).
    destruct Hx2 as (x2 & Hx2 & <-). eapply (sendToSession_seals s_seq) in H as [H1 H2%sends_plain];
      [|by apply Forall_singleton|exact Hx2|left; by apply Forall_singleton].
    split; [|exists FlagPassSeq; split; [by right|exact H2]]. apply (counted_next q s s); [done|].
    rewrite E1. eapply same_trans; [|exact H1]. by apply same_on_session.
  - eapply (sendToSession_seals s_seq) in H as [H1 H2%sends_plain];
      [|by apply Forall_singleton|exact Hx1|left; by apply Forall_singleton].
    split; [|exists 0; split; [by left|exact H2]]. apply (counted_next q s s); [done|]. by rewrite E1.
Qed.

Lemma tick_one e q qs s s' out :
  tick_sessions addr_string v e (q :: qs) s = Ok (s', out) →
  ∃ s1 o1 o2, tick_sessions addr_string v e [q] s = Ok (s1, o1) ∧
    tick_sessions addr_string v e qs s1 = Ok (s', o2) ∧ out = o1 ++ o2.
Proof.
  cbn [tick_sessions]. intros ([s1 o1] & H1 & H)%bind_Ok. apply bind_Ok in H as ([s2 o2] & H2 & H).
  cbn [fst snd] in *. injection H as <- <-. exists s1, o1, o2. rewrite H1. cbn [res_bind fst snd].
  by rewrite app_nil_r.
Qed.

Lemma tick_sessions_off p e qs s s' out :
  Enabled (v_fecParams v) = false → server_off s → tick_sessions addr_string v e qs s = Ok (s', out) →
  seqs s s' ∧ tick_sent addr_string v p e qs s = [].
Proof.
  intros Hv. revert s s' out. induction qs as [|q qs IH]; intros s s' out Hoff; [by intros [= <- _]|].
  intros (s1 & o1 & o2 & H1 & H2 & ->)%tick_one. cbn [tick_sent]. rewrite H1.
  destruct (IH s1 s' o2) as [S E]; [|exact H2|].
  { eapply (grows_off v e); [done|exact Hoff|]. apply evolves_grows. by eapply tick_sessions_evolves. }
  assert (H : seqs s s1 ∧ o1 = []); [|destruct H as [S1 ->]; split; [by eapply same_trans|by case_decide]].
  clear IH H2 S E. cbn [tick_sessions] in H1. apply bind_Ok in H1 as ([s2 o] & H1 & H). cbn [res_bind fst snd] in H.
  injection H as <- <-. rewrite app_nil_r.
  destruct (session_at q s) as [x|] eqn:Hx; cbn in H1; [|by injection H1 as <- <-].
  destruct (s_Enc x) as [en|] eqn:He; [|by injection H1 as <- <-].
  unfold Encoder_Tick in H1. rewrite (proj2 Hoff _ _ _ Hx He) in H1. cbn [negb] in H1.
  injection H1 as <- <-. split; [by apply same_on_session|done].
Qed.

Lemma healthTick_seqs e s : seqs s (healthTick v e s).
Proof.
  unfold healthTick. generalize (range (sv_states s)). intros kvs.
  assert (H : ∀ s0, seqs s s0 → seqs s (foldl (λ s kv,
      match Get (mgr (sv_world s)) kv.1 with
      | None => s
      | Some p =>
          let '(st, d, worst) := health_paths v (e_now e) kv.1 (range (st_paths kv.2)) kv.2 (sv_dec s) in
          on_session p (λ x, match s_Enc x with
                             | Some enc => set_codec (SetLossRate (e_now e) worst enc) (s_ServerPub x) x
                             | None => x
                             end) (set_dec d (set_state kv.1 st s))
      end) s0 kvs)); [|by apply H].
  induction kvs as [|[id st] kvs IH]; intros s0 H0; [done|]. cbn [foldl fst snd]. apply IH.
  destruct (Get _ id) as [p|]; [|done]. destruct (health_paths _ _ _ _ _ _) as [[st' d] worst].
  eapply same_trans; [exact H0|].
  match goal with |- seqs _ (on_session p ?f ?s2) => apply (same_on_session s_seq p f s2) end.
  intros x. by destruct (s_Enc x).
Qed.

(** One step advances the counter of a session by one at most, and what it seals
    under the session's key is a PONG or the datagram it took in, under the
    number it advanced to. *)
Lemma server_step_sends p e ev s s' out x :
  Enabled (v_fecParams v) = false → server_ok s → server_off s →
  session_at p s = Some x → is_u64 (s_ID x) → 0 ≤ s_seq x < 2 ^ 32 - 1 →
  server_step addr_string v e ev s = Ok (s', out) →
  (seq_at p s' = Some (s_seq x) ∨ seq_at p s' = Some (s_seq x + 1)) ∧
  ∀ b, b ∈ sent_down addr_string v p e s ev out → ∃ f, sealing DirServerToClient (s_aead x) f b ∧ wf_frame f ∧
    (f_flags f = FlagPong ∨
     (f_flags f = 0 ∨ f_flags f = FlagPassSeq) ∧ f_block f = 0 ∧ egressed_by p ev = [f_payload f] ∧
     f_seq f = s_seq x + 1 ∧ seq_at p s' = Some (s_seq x + 1)).
Proof.
  intros Hv Hok Hoff Hx Hid Hr Hst. assert (H0 : seq_at p s = Some (s_seq x)) by (unfold field; by rewrite Hx).
  assert (Hu : u32 (s_seq x + 1) = s_seq x + 1) by (apply u32_small; unfold_int; lia).
  assert (Hsame : seqs s s' → seq_at p s' = Some (s_seq x)) by (intros H; by rewrite (H p)).
  assert (Hcnt : ∀ q, counted q s s' → seq_at p s' = Some (s_seq x) ∨ seq_at p s' = Some (s_seq x + 1)).
  { intros q H. rewrite (H p), H0. cbn. rewrite Hu. destruct (decide (p = q)); auto. }
  assert (Hsent : ∀ b, b ∈ flat_map (λ o : Server.output Addr, match o with Sent _ b => [b] | ToWG _ _ => [] end) out →
    ∃ d, Sent d b ∈ out).
  { intros b Hb. apply list_elem_of_In, in_flat_map in Hb as ([d b'|] & Ho & Hb); [|done]. destruct Hb as [->|[]].
    exists d. by apply list_elem_of_In. }
  destruct ev as [b ua|q payload| | |]; cbn [server_step] in Hst; unfold sent_down.
  - unfold handleClientFrame in Hst. destruct (DecodeHeader b) as [hdr| |] eqn:Eh;
      [|by injection Hst as <- <-; split; [left|intros ? ?%elem_of_nil]..].
    assert (Hq : is_u32 (f_seq hdr)) by (by eapply wf_seq, DecodeHeader_wf).
    destruct (HasFlag hdr FlagFirst); cbn [negb andb].
    + assert (E : handle_first addr_string v e hdr b ua s = (s', out)) by congruence.
      pose proof (handle_first_counts e hdr b ua s p x Hx) as H. rewrite E, Hu in H. split; [exact H|by intros ? ?%elem_of_nil].
    + destruct (Get (mgr (sv_world s)) (f_session hdr)) as [q|] eqn:Hg.
      2:{ rewrite bool_decide_eq_false_2 by done. split; [|by intros ? ?%elem_of_nil]. unfold handle_data in Hst.
          rewrite Hg in Hst. injection Hst as <- _. by left. }
      destruct (so_ptrs _ Hok _ _ Hg) as (y & Hy & _).
      destruct (handle_data_sends e hdr b ua s s' out q y Hq Hg Hy Hst) as [Hc Hs].
      split; [destruct Hc as [Hc|Hc]; [left; by apply Hsame|by eapply Hcnt]|].
      case_bool_decide as Hqp; [|by intros ? ?%elem_of_nil]. injection Hqp as ->. assert (y = x) as -> by congruence.
      intros c (d & Hd)%Hsent. destruct (Hs d c Hd) as (n & ts & Hseal). eexists. split; [exact Hseal|].
      split; [by apply new_frame_wf; [|done|apply u32_range]|by left].
  - destruct (session_at q s) as [y|] eqn:Hy.
    2:{ unfold egress_datagram in Hst. rewrite Hy in Hst. injection Hst as <- <-. split; [by left|].
        case_decide; by intros ? ?%elem_of_nil. }
    destruct (egress_off e q payload s s' out y Hy (λ en He, proj2 Hoff _ _ _ Hy He) Hst) as [[-> ->]|(Hc & fl & Hfl & Hs)].
    { split; [by left|]. case_decide; by intros ? ?%elem_of_nil. }
    split; [by eapply Hcnt|]. case_decide as Hqp; [|by intros ? ?%elem_of_nil]. subst q.
    assert (y = x) as -> by congruence. rewrite Hu in Hs.
    intros b (d & Hd)%Hsent. destruct (Hs d b Hd) as (f & Hin & Hseal). apply list_elem_of_singleton in Hin as ->.
    eexists. split; [exact Hseal|]. split.
    + apply new_frame_wf; [by destruct Hfl as [-> | ->]|done|]. unfold_int. lia.
    + right. split; [done|]. split; [done|]. cbn [egressed_by]. rewrite decide_True by done. split; [done|].
      split; [done|]. rewrite (Hc p), decide_True, H0 by done. cbn. by rewrite Hu.
  - unfold fecTick in Hst. apply bind_Ok in Hst as ([s1 o1] & H1 & H). cbn [fst snd] in H.
    destruct (Decoder_Tick _ _) as [fs d]. injection H as <- _.
    destruct (tick_sessions_off p _ _ _ _ _ Hv Hoff H1) as [S ->]. split; [left; by apply Hsame|by intros ? ?%elem_of_nil].
  - injection Hst as <- <-. split; [|by intros ? ?%elem_of_nil]. left. apply Hsame, healthTick_seqs.
  - injection Hst as <- <-. split; [|by intros ? ?%elem_of_nil]. left. apply Hsame, sweep_same.
Qed.
End server.

(** ** What the client hands to WireGuard *)

Section client.
  Context {Inner R : Type} (inner_string : Inner → string).
  Context `{!Rand R} {rsl : ReedSolomon} {cph : Ciphers} {dhx : X25519}.
  Context (unmarshal : list byte → option ServerAnnounce).
  Context `{!RangeOrder Z frame, !RangeOrder Z (list byte), !RangeOrder blockKey blockState}.
  Context (cc : client_cfg).

  Implicit Types (c : Client.client Inner R) (out : list (client_output Inner)).

(** The delivery buffer is not touched and nothing is handed over. *)
Definition still c c' out : Prop := cl_delivery c' = cl_delivery c ∧ delivered_by out = [].

Lemma still_refl c : still c c [].
Proof. done. Qed.
Lemma still_trans c1 c2 c3 o1 o2 : still c1 c2 o1 → still c2 c3 o2 → still c1 c3 (o1 ++ o2).
Proof. intros [A1 A2] [B1 B2]. split; [congruence|]. unfold delivered_by in *. by rewrite flat_map_app, A2, B2. Qed.

Lemma sendLocked_still i f a c : still c (sendLocked i f a c).1.2 (sendLocked i f a c).2.
Proof.
  unfold sendLocked. destruct a as [a|]; [|done]. destruct (cl_links c !! i) as [wan|]; [|done].
  set (r := if HasFlag f FlagPassSeq then _ else _).
  assert (Hr : cl_delivery r.2 = cl_delivery c) by (unfold r; by destruct (HasFlag f FlagPassSeq)).
  destruct r as [f' c']. cbn [snd] in Hr. destruct (Encode f') as [plain| |]; [|by split..].
  destruct (Seal _ _ plain) as [b| |]; [|by split..]. destruct (l_q wan) as [s|]; [|by split].
  destruct (enqueue b s). by split.
Qed.

Lemma send_encoded_still i a fs c : still c (send_encoded i a fs c).1 (send_encoded i a fs c).2.
Proof.
  revert c. induction fs as [|f fs IH]; intros c; cbn [send_encoded]; [done|].
  set (r := if HasFlag f FlagFECParity then _ else _).
  assert (Hr : still c r.2 []) by (unfold r; by destruct (HasFlag f FlagFECParity)).
  destruct r as [f1 c1]. cbn [snd] in Hr. set (c2 := on_link i _ c1).
  pose proof (sendLocked_still i f1 a c2) as H2. destruct (sendLocked i f1 a c2) as [[e c3] out]. cbn [fst snd] in H2.
  specialize (IH c3). destruct (send_encoded i a fs c3) as [c4 outs]. cbn [fst snd] in *.
  apply (still_trans c c1 c4 [] _ Hr), (still_trans c1 c2 c4 [] _); [done|]. by apply (still_trans c2 c3 c4).
Qed.

Lemma send_cross_still a fs c c' out : send_cross a fs c = Ok (c', out) → still c c' out.
Proof.
  revert c c' out. induction fs as [|f fs IH]; intros c c' out; cbn [send_cross]; [by intros [= <- <-]|].
  set (r := if HasFlag f FlagFECParity then _ else _).
  assert (Hr : still c r.2 []) by (unfold r; by destruct (HasFlag f FlagFECParity)).
  destruct r as [f1 c1]. cbn [snd] in Hr. destruct (PickWRR (cl_sched c1)) as [o sched]. intros H.
  apply bind_Ok in H as ([c3 out3] & H3 & H). apply bind_Ok in H as ([c4 out4] & H4 & H). cbn [fst snd] in *.
  injection H as <- <-. apply (still_trans c c1 c4 [] _ Hr), (still_trans c1 c3 c4 _ _); [|by eapply IH].
  destruct o as [id|]; [|by injection H3 as <- <-].
  destruct (byWAN id _) as [i|]; [|done].
  pose proof (sendLocked_still i f1 a (set_csched sched c1)) as H5.
  destruct (sendLocked i f1 a (set_csched sched c1)) as [[e c5] o5]. by injection H3 as <- <-.
Qed.

Lemma sendEncoded_still i fs c : still c (sendEncoded i fs c).1 (sendEncoded i fs c).2.
Proof. unfold sendEncoded. destruct (cl_session c); [apply send_encoded_still|done]. Qed.
Lemma sendCrossEncoded_still fs c c' out : sendCrossEncoded fs c = Ok (c', out) → still c c' out.
Proof. unfold sendCrossEncoded. destruct (cl_session c); [apply send_cross_still|by intros [= <- <-]]. Qed.

Lemma call_enc_still {A} o (f : Encoder → res unit (A * Encoder)) c r : call_enc o f c = Ok r → still c r.2 [].
Proof.
  unfold call_enc. destruct o as [k|]; [|done]. destruct (_ !! k); [|done].
  intros H. apply bind_Ok in H as (y & _ & H). by injection H as <-.
Qed.
Lemma call_dec_still {A} o (f : Decoder → res unit (A * Decoder)) c r : call_dec o f c = Ok r → still c r.2 [].
Proof.
  unfold call_dec. destruct o as [k|]; [|done]. destruct (_ !! k); [|done].
  intros H. apply bind_Ok in H as (y & _ & H). by injection H as <-.
Qed.

Lemma handshake_still i c : still c (handshake_send cc i c).1 (handshake_send cc i c).2.
Proof.
  unfold handshake_send. destruct (_ !! i) as [w|]; [|done]. cbn [sess_seq Client_NextSeq].
  match goal with |- context [sendLocked i ?f ?a ?c1] => pose proof (sendLocked_still i f a c1) as H; destruct (sendLocked i f a c1) as [[e c2] o] end.
  exact H.
Qed.

Lemma keepalive_still now i c : still c (keepalive_send now i c).1 (keepalive_send now i c).2.
Proof.
  unfold keepalive_send. destruct (cl_session c) as [a|]; [|done]. cbn [sess_seq Client_NextSeq].
  match goal with |- context [sendLocked i ?f ?a ?c1] => pose proof (sendLocked_still i f a c1) as H; destruct (sendLocked i f a c1) as [[e c2] o] end.
  exact H.
Qed.

Lemma ingress_still now a payload c c' out : ingress inner_string now a payload c = Ok (c', out) → still c c' out.
Proof.
  unfold ingress.
  match goal with |- context [if ?b then c else set_sess ?x c] =>
    set (c1 := if b then c else set_sess x c); assert (H1 : still c c1 []) by (unfold c1; by destruct b) end.
  clearbody c1. destruct (_ <? _); [by intros [= <- <-]|]. destruct (cl_session c1) as [k|]; [|by intros [= <- <-]].
  cbn [sess_seq Client_NextSeq]. set (c2 := set_sess _ c1). intros H.
  assert (H2 : still c c2 []) by exact H1. clearbody c2. clear H1.
  destruct (k_crossPath _).
  - apply bind_Ok in H as (r & H3 & H). apply call_enc_still in H3. apply sendCrossEncoded_still in H.
    exact (still_trans c c2 c' [] out H2 (still_trans c2 r.2 c' [] out H3 H)).
  - destruct (Pick _ _) as [r sched]. apply bind_Ok in H as (o & _ & H). destruct o as [id|]; [|by injection H as <- <-].
    destruct (byWAN id _) as [i|]; [|done]. apply bind_Ok in H as (r' & H3 & H). apply call_enc_still in H3.
    pose proof (sendEncoded_still i r'.1 r'.2) as H4.
    assert (E : sendEncoded i r'.1 r'.2 = (c', out)) by congruence. rewrite E in H4.
    exact (still_trans c c2 c' [] out H2 (still_trans c2 r'.2 c' [] out H3 H4)).
Qed.

Lemma health_still now c c' : client_healthTick now c = Ok c' → still c c' [].
Proof.
  unfold client_healthTick. generalize (seq 0 (length (cl_links c))). intros ids. revert c.
  induction ids as [|i ids IH]; intros c; cbn [health_wans]; [by intros [= <-]|].
  intros H. apply bind_Ok in H as (c1 & H1 & H). apply (still_trans c c1 c' [] []); [|by apply IH]. clear IH H.
  unfold health_wan in H1. destruct (cl_links c !! i) as [l|]; [|by injection H1 as <-].
  apply bind_Ok in H1 as (r1 & E1 & H). apply call_dec_still in E1.
  apply bind_Ok in H as (r2 & E2 & H). apply call_dec_still in E2.
  apply bind_Ok in H as (r3 & E3 & H). apply call_enc_still in E3. injection H as <-.
  exact (still_trans c r1.2 r3.2 [] [] E1 (still_trans r1.2 r2.2 r3.2 [] [] E2 E3)).
Qed.

(** The frames [gs] are handed over, or dropped while there is no inner peer. *)
Definition hands (gs : list frame) out : Prop :=
  delivered_by out = [] ∨ delivered_by out = f_payload <$> gs.

Lemma deliverToWG_hands gs c : hands gs (deliverToWG gs c).
Proof.
  unfold deliverToWG. destruct (c_wgAddr (cl_sess c)); [|by left]. right.
  induction gs as [|g gs IH]; [done|]. cbn. f_equal. exact IH.
Qed.

(** What a step does with the delivery buffer: nothing, a push of one authentic
    frame that is no PONG, or a tick. *)
Definition delivers (a : AEAD) (now : time) (ev : client_event Inner) c c' out : Prop :=
  still c c' out ∨
  (∃ i b plain f gs, ev = CRecv i b ∧ Open a DirServerToClient b = Ok plain ∧ Decode plain = Ok f ∧
     HasFlag f FlagPong = false ∧ Delivery_Push now (cl_delivery c) [f] = (gs, cl_delivery c') ∧ hands gs out) ∨
  (∃ gs, Delivery_Tick now (cl_delivery c) = (gs, cl_delivery c') ∧ hands gs out).

Lemma openAndVerify_opens sealed c a f c' :
  cl_session c = Some a → openAndVerify sealed c = (Some f, c') →
  ∃ plain, Open a DirServerToClient sealed = Ok plain ∧ Decode plain = Ok f.
Proof.
  intros Hs. unfold openAndVerify. destruct (DecodeHeader sealed) as [hdr| |]; [|done..].
  destruct (negb _); [done|]. rewrite Hs. destruct (Open _ _ _) as [plain| |] eqn:Ho; [|done..].
  destruct (Decode plain) as [g| |] eqn:Hd; [|done..]. destruct (Client_CheckReplay _ _) as [[] x]; [|done].
  intros [= <- _]. by exists plain.
Qed.

(** A buffer that arrives: dropped before the decoder, or decoded and pushed. *)
Lemma recv_pushes a now i sealed c c' out :
  cl_session c = Some a → recv_frame unmarshal cc now i sealed c = Ok (c', out) →
  (still c c' out ∧ cl_codecs c' = cl_codecs c) ∨
  ∃ plain f fs gs c2 c3, Open a DirServerToClient sealed = Ok plain ∧ Decode plain = Ok f ∧ HasFlag f FlagPong = false ∧
    cl_codecs c2 = cl_codecs c ∧ call_dec (slot_dec i c2) (Decoder_Push now (wan_id i c2) f) c2 = Ok (fs, c3) ∧
    cl_codecs c' = cl_codecs c3 ∧ Delivery_Push now (cl_delivery c) fs = (gs, cl_delivery c') ∧ hands gs out.
Proof.
  intros Hs. unfold recv_frame. destruct (DecodeHeader sealed) as [hdr| |]; [|by intros [= <- <-]; left..].
  destruct (_ && _).
  - pose proof (handleKexAck_established unmarshal cc sealed c a Hs) as H. destruct (handleKexAck _ _ sealed c) as [ok c1].
    cbn [snd] in H. subst c1. intros [= <- <-]. left. by destruct ok.
  - pose proof (openAndVerify_opens sealed c a) as Hop. pose proof (openAndVerify_fields sealed c) as [Hcod Hdel].
    destruct (openAndVerify sealed c) as [[f|] c1]; cbn [snd] in Hdel, Hcod; [|intros [= <- <-]; by left].
    destruct (Hop f c1 Hs eq_refl) as (plain & Ho & Hd). set (c2 := on_link i (with_rx (unixNano now)) c1).
    destruct (HasFlag f FlagPong) eqn:Hpong.
    { intros [= <- <-]. left. unfold handlePong. by destruct (negb _). }
    destruct (_ || _); [intros [= <- <-]; by left|]. intros H. apply bind_Ok in H as ([fs c3] & H3 & H). cbn [fst snd] in H.
    pose proof (call_dec_still _ _ _ _ H3) as [D3 _]. cbn [snd] in D3.
    assert (Hd3 : cl_delivery c3 = cl_delivery c) by (rewrite D3; exact Hdel).
    unfold push_delivery in H. rewrite Hd3 in H. right.
    destruct (Delivery_Push now (cl_delivery c) fs) as [gs d] eqn:Ep. injection H as <- <-.
    exists plain, f, fs, gs, c2, c3. split_and!; try done. apply deliverToWG_hands.
Qed.

Lemma recv_delivers a now i sealed c c' out :
  cl_session c = Some a → client_off c → recv_frame unmarshal cc now i sealed c = Ok (c', out) →
  delivers a now (CRecv i sealed) c c' out.
Proof.
  intros Hs Hoff H. destruct (recv_pushes a now i sealed c c' out Hs H)
    as [[St _]|(plain & f & fs & gs & c2 & c3 & Ho & Hd & Hpong & Hcod & H3 & _ & Hp & Hh)]; [by left|].
  assert (Hfs : fs = [] ∨ fs = [f]).
  { unfold call_dec in H3. rewrite Hcod in H3. destruct (slot_dec i c2) as [k|]; [|done].
    destruct (_ !! k) as [d|] eqn:Ek; [|done]. apply bind_Ok in H3 as ([l d'] & Hpush & H3). injection H3 as <- _.
    eapply dec_push_off; [|exact Hpush]. exact (proj2 Hoff _ _ Ek). }
  destruct Hfs as [->| ->].
  - cbn [Delivery_Push] in Hp. injection Hp as <- Hp. left. split; [done|]. by destruct Hh.
  - right. left. by exists i, sealed, plain, f, gs.
Qed.

(** A decoder that is off flushes nothing. *)
Lemma dec_tick_off o now c fs c' :
  client_off c → call_dec o (λ d, Ok (Decoder_Tick now d)) c = Ok (fs, c') → fs = [].
Proof.
  intros Hoff. unfold call_dec. destruct o as [k|]; [|done]. destruct (_ !! k) as [d|] eqn:Ek; [|done].
  unfold Decoder_Tick. change (dec_params (flushPathGaps now d)) with (dec_params d).
  rewrite (proj2 Hoff _ _ Ek). by intros [= <- _].
Qed.

Lemma push_nothing now c : push_delivery now [] c = (set_delivery (cl_delivery c) c, []).
Proof. unfold push_delivery. cbn [Delivery_Push]. f_equal. unfold deliverToWG. by destruct (c_wgAddr _). Qed.

Lemma tick_wans_still now ids c c' out :
  client_off c → tick_wans now ids c = Ok (c', out) → still c c' out.
Proof.
  revert c c' out. induction ids as [|i ids IH]; intros c c' out Hoff; cbn [tick_wans].
  { by intros [= <- <-]. }
  intros H. apply bind_Ok in H as ([fs c1] & H1 & H). cbn [fst snd] in H.
  rewrite (tick_off _ _ _ _ _ Hoff H1) in H. pose proof (call_enc_still _ _ _ _ H1) as S1. cbn [snd] in S1.
  apply silent_call_enc in H1; [|apply tick_call_params].
  assert (Hoff1 : client_off c1) by (eapply off_keeps; [exact Hoff|by eapply silent_ckeeps]).
  assert (E : sendEncoded i [] c1 = (c1, [])) by (unfold sendEncoded; by destruct (cl_session c1)). rewrite E in H.
  apply bind_Ok in H as ([ds c3] & H3 & H). cbn [fst snd] in H. rewrite (dec_tick_off _ _ _ _ _ Hoff1 H3) in H.
  pose proof (call_dec_still _ _ _ _ H3) as S3. cbn [snd] in S3.
  apply silent_call_dec in H3; [|apply dec_tick_params].
  rewrite push_nothing in H. set (c4 := set_delivery _ c3) in H.
  apply bind_Ok in H as ([c5 o5] & H5 & H). cbn [fst snd] in H. injection H as <- <-.
  assert (S4 : still c c4 []) by exact (still_trans c c1 c4 [] [] S1 S3).
  apply (still_trans c c4 c5 [] o5 S4). apply IH; [|done].
  eapply off_keeps; [exact Hoff1|]. destruct H3 as ([K1 K2 K3 K4] & _). by split.
Qed.

Lemma fecTick_delivers a now c c' out :
  client_off c → client_fecTick now c = Ok (c', out) → delivers a now CFecTick c c' out.
Proof.
  intros Hoff. unfold client_fecTick. intros H. apply bind_Ok in H as ([c1 o1] & H1 & H). cbn [fst snd] in H.
  assert (S1 : still c c1 o1).
  { destruct (k_crossPath _); [|by eapply tick_wans_still].
    apply bind_Ok in H1 as ([fs c3] & H3 & H1). cbn [fst snd] in H1.
    rewrite (tick_off _ _ _ _ _ Hoff H3) in H1. pose proof (call_enc_still _ _ _ _ H3) as S3. cbn [snd] in S3.
    apply silent_call_enc in H3; [|apply tick_call_params].
    assert (Hoff3 : client_off c3) by (eapply off_keeps; [exact Hoff|by eapply silent_ckeeps]).
    assert (E : sendCrossEncoded [] c3 = Ok (c3, [])) by (unfold sendCrossEncoded; by destruct (cl_session c3)).
    rewrite E in H1. cbn [res_bind fst snd] in H1.
    apply bind_Ok in H1 as ([ds c5] & H5 & H1). cbn [fst snd] in H1. rewrite (dec_tick_off _ _ _ _ _ Hoff3 H5) in H1.
    pose proof (call_dec_still _ _ _ _ H5) as S5. cbn [snd] in S5. rewrite push_nothing in H1. injection H1 as <- <-.
    exact (still_trans c c3 c5 [] [] S3 S5). }
  right. right. unfold tick_delivery in H. destruct S1 as [D1 O1]. rewrite D1 in H.
  destruct (Delivery_Tick now (cl_delivery c)) as [gs d] eqn:Et. injection H as <- <-. exists gs. split; [done|].
  unfold hands, delivered_by in *. rewrite flat_map_app, O1. apply deliverToWG_hands.
Qed.

Lemma client_step_delivers a now ev c c' out :
  cl_session c = Some a → client_off c → client_step inner_string unmarshal cc now ev c = Ok (c', out) →
  delivers a now ev c c' out.
Proof.
  intros Hs Hoff. destruct ev as [i|i|i|i sealed|ad payload| |]; cbn [client_step]; intros H.
  - left. pose proof (handshake_still i c) as K. assert (E : handshake_send cc i c = (c', out)) by congruence. by rewrite E in K.
  - left. pose proof (keepalive_still now i c) as K. assert (E : keepalive_send now i c = (c', out)) by congruence. by rewrite E in K.
  - left. unfold keepalive_tick in H. set (c1 := on_link i (probe_outcome cc now) c) in *.
    pose proof (keepalive_still now i c1) as K. assert (E : keepalive_send now i c1 = (c', out)) by congruence. by rewrite E in K.
  - by eapply recv_delivers.
  - left. by eapply ingress_still.
  - by eapply fecTick_delivers.
  - left. apply bind_Ok in H as (c1 & H1 & H). injection H as <- <-. by eapply health_still.
Qed.
End client.

(** ** The way down through the network *)

Lemma sublist_fmap {A B} (f : A → B) (l k : list A) : l `sublist_of` k → (f <$> l) `sublist_of` (f <$> k).
Proof. induction 1; cbn; by constructor. Qed.

(** Of two lists numbered in increasing order the smaller is a sublist. *)
Lemma numbered_sublist {B} (l k : list (Z * B)) :
  StronglySorted Z.lt l.*1 → StronglySorted Z.lt k.*1 → (∀ x, x ∈ l → x ∈ k) → l `sublist_of` k.
Proof.
  intros Hl Hk. revert l Hl. induction k as [|y k IH]; intros l Hl Hin.
  { destruct l as [|x l]; [done|]. assert (H : x ∈ @nil (Z * B)) by (apply Hin; by left). by apply elem_of_nil in H. }
  rewrite fmap_cons in Hk. apply StronglySorted_inv in Hk as [Hk Hy]. rewrite Forall_fmap, Forall_forall in Hy.
  destruct l as [|x l]; [apply sublist_nil_l|].
  rewrite fmap_cons in Hl. apply StronglySorted_inv in Hl as [Hl Hx].
  rewrite Forall_fmap, Forall_forall in Hx. cbn in Hx, Hy.
  assert (Htail : ∀ z, z ∈ l → y.1 < z.1 → z ∈ k).
  { intros z Hz Hlt. assert (H : z ∈ y :: k) by (apply Hin; by right). apply elem_of_cons in H as [->|?]; [lia|done]. }
  assert (Hxin : x ∈ y :: k) by (apply Hin; by left). apply elem_of_cons in Hxin as [->|Hxk].
  - apply sublist_skip, IH; [done|done|]. intros z Hz. apply Htail; [done|]. by apply Hx.
  - apply sublist_cons, IH; [done|by constructor; [|by apply Forall_fmap, Forall_forall]|].
    intros z [->|Hz]%elem_of_cons; [done|]. apply Htail; [done|]. specialize (Hx z Hz). specialize (Hy x Hxk). cbn in *. lia.
Qed.

Section downlink.
  Context {Addr Inner R : Type} (addr_string : Addr → string) (inner_string : Inner → string).
  Context `{!Rand R} {rsl : ReedSolomon} {cph : Ciphers} {dhx : X25519}.
  Context `{!RangeOrder Z firstWindow, !RangeOrder Z ptr, !RangeOrder Z (list byte),
            !RangeOrder blockKey blockState, !RangeOrder Z (sessState Addr R), !RangeOrder string (pathState Addr),
            !RangeOrder Z frame}.
  Context (unmarshal : list byte → option ServerAnnounce).
  Context (v : server_cfg) (cc : client_cfg) (p : ptr) (sock : Z).

  Implicit Types (t : ends Addr Inner R).

Abbreviation seq_at := (field s_seq).
Notation step := (tunnel_step addr_string inner_string unmarshal v cc p sock).
Notation run := (tunnel_run addr_string inner_string unmarshal v cc p sock).

(** A PONG, or a frame that carries one of the datagrams [L] under its number. *)
Definition down_ok (a : AEAD) (L : list (Z * list byte)) (b : list byte) : Prop :=
  ∃ f, sealing DirServerToClient a f b ∧ wf_frame f ∧
    (f_flags f = FlagPong ∨ (f_seq f, f_payload f) ∈ L).

Definition numbered (f : frame) : Z * list byte := (f_seq f, f_payload f).

(** What went down so far: [L] are the datagrams taken in, numbered in increasing
    order; [O] are the frames the delivery buffer released, of which [D] were
    handed over. *)
Record down_inv (a : AEAD) (id n : Z) t : Prop := {
  di_ok : tunnel_ok p sock a id t;
  di_seq : seq_at p (en_server t) = Some n;
  di_log : ∃ (L : list (Z * list byte)) (O D : list frame),
    L.*2 `sublist_of` en_egressed t ∧ f_payload <$> D = en_delivered t ∧ D `sublist_of` O ∧
    StronglySorted Z.lt L.*1 ∧ Forall (λ q, 1 ≤ q ≤ n) L.*1 ∧
    (∀ b, b ∈ en_down t → down_ok a L b) ∧
    dinv (cl_delivery (en_client t)) O ∧
    (∀ g, g ∈ O ∨ d_pending (cl_delivery (en_client t)) !! f_seq g = Some g → numbered g ∈ L);
}.

Lemma sublist_hands (D O gs : list frame) (out : list (client_output Inner)) :
  D `sublist_of` O → hands gs out →
  ∃ D', D' `sublist_of` O ++ gs ∧ f_payload <$> D' = (f_payload <$> D) ++ delivered_by out.
Proof.
  intros Hs [-> | ->].
  - exists D. rewrite app_nil_r. split; [|done]. by apply sublist_inserts_r.
  - exists (D ++ gs). rewrite fmap_app. split; [by apply sublist_app|done].
Qed.

Lemma sorted_snoc (l : list Z) n : StronglySorted Z.lt l → Forall (λ q, q ≤ n) l → StronglySorted Z.lt (l ++ [n + 1]).
Proof.
  intros Hl Hn. induction Hl as [|q l Hl IH Hq]; cbn [app]; [by repeat constructor|].
  apply Forall_cons_1 in Hn as [Hqn Hn]. constructor; [by apply IH|]. apply Forall_app. split; [done|].
  apply Forall_singleton. lia.
Qed.

Lemma down_server a id n e ev t t' :
  is_u64 id → Enabled (v_fecParams v) = false → 0 ≤ n < 2 ^ 31 - 1 →
  admissible a t (TServer e ev) → step (TServer e ev) t = Ok t' → down_inv a id n t →
  ∃ n', n ≤ n' ≤ n + 1 ∧ down_inv a id n' t'.
Proof.
  intros Hu Hv Hn Had Hst [Hok Hseq (L & O & D & HL & HD & HO & Hsrt & Hbnd & Hdn & Hinv & Hin)].
  pose proof (tunnel_step_ok _ _ _ _ _ _ _ _ _ _ _ _ Hv Had Hst Hok) as Hok'.
  cbn [tunnel_step] in Hst. apply bind_Ok in Hst as ([s' out] & Hs & Hst). injection Hst as <-.
  pose proof Hok as [_ _ _ Hsok Hoff (x & Hx & Ha & _ & Hid) _].
  assert (Hsx : s_seq x = n) by (unfold field in Hseq; rewrite Hx in Hseq; by injection Hseq).
  destruct (server_step_sends addr_string v p e ev _ _ _ x Hv Hsok Hoff Hx ltac:(by rewrite Hid) ltac:(lia) Hs) as [Hn' Hout].
  rewrite Ha, Hsx in Hout. rewrite Hsx in Hn'.
  assert (Hstay : seq_at p s' = Some n → (∀ b, b ∈ sent_down addr_string v p e (en_server t) ev out → down_ok a L b) →
    ∃ n', n ≤ n' ≤ n + 1 ∧ down_inv a id n' (mkEnds (en_client t) s' (en_up t)
      (en_down t ++ sent_down addr_string v p e (en_server t) ev out) (en_ingested t) (en_served t ++ served_by sock out)
      (en_egressed t ++ egressed_by p ev) (en_delivered t))).
  { intros Hq Hb. exists n. split; [lia|]. split; [done|done|]. exists L, O, D. cbn [en_egressed en_delivered en_down en_client].
    split_and!; try done; [by apply sublist_inserts_r|]. intros b [?|?]%elem_of_app; auto. }
  destruct Hn' as [Hn'|Hn'].
  { apply Hstay; [done|]. intros b Hb. destruct (Hout b Hb) as (f & Hf & Hwf & [?|(_ & _ & _ & _ & E)]); [|congruence || (rewrite Hn' in E; injection E; lia)].
    exists f. auto. }
  assert (Hgrow : ∀ L', (L' = [] ∨ L'.*1 = [n + 1]) → L'.*2 `sublist_of` egressed_by p ev →
    (∀ b, b ∈ sent_down addr_string v p e (en_server t) ev out → down_ok a (L ++ L') b) →
    ∃ n', n ≤ n' ≤ n + 1 ∧ down_inv a id n' (mkEnds (en_client t) s' (en_up t)
      (en_down t ++ sent_down addr_string v p e (en_server t) ev out) (en_ingested t) (en_served t ++ served_by sock out)
      (en_egressed t ++ egressed_by p ev) (en_delivered t))).
  { intros L' HL1 HLe Hb. exists (n + 1). split; [lia|]. split; [done|done|].
    exists (L ++ L'), O, D. cbn [en_egressed en_delivered en_down en_client].
    assert (Hle : Forall (λ q, q ≤ n) L.*1) by (eapply Forall_impl; [exact Hbnd|cbn; lia]).
    split_and!; try done.
    - rewrite fmap_app. by apply sublist_app.
    - rewrite fmap_app. destruct HL1 as [->| ->]; [by rewrite app_nil_r|by apply sorted_snoc].
    - rewrite fmap_app. apply Forall_app. split; [eapply Forall_impl; [exact Hbnd|cbn; lia]|].
      destruct HL1 as [->| ->]; [constructor|apply Forall_singleton; lia].
    - intros b [Hb'|?]%elem_of_app; [|auto]. destruct (Hdn b Hb') as (f & Hf & Hwf & Hd). exists f. rewrite elem_of_app. tauto.
    - intros g Hg. rewrite elem_of_app. left. by apply Hin. }
  destruct (egressed_by p ev) as [|payload rest] eqn:Ee.
  - apply (Hgrow []); [by left|done|]. intros b Hb. rewrite app_nil_r.
    destruct (Hout b Hb) as (f & Hf & Hwf & [?|(_ & _ & E & _)]); [|done]. exists f. auto.
  - assert (rest = []) as -> by (destruct ev; cbn in Ee; try done; case_decide; [by injection Ee|done]).
    apply (Hgrow [(n + 1, payload)]); [by right|done|]. intros b Hb.
    destruct (Hout b Hb) as (f & Hf & Hwf & Hd). exists f. split; [done|]. split; [done|].
    destruct Hd as [?|(_ & _ & E & Eq & _)]; [by left|right]. injection E as ->. rewrite Eq, elem_of_app. right. by left.
Qed.

Lemma down_client a id n now ev t t' :
  AEADLaws a → Enabled (v_fecParams v) = false → n < 2 ^ 31 →
  admissible a t (TClient now ev) → step (TClient now ev) t = Ok t' → down_inv a id n t → down_inv a id n t'.
Proof.
  intros La Hv Hn Had Hst [Hok Hseq (L & O & D & HL & HD & HO & Hsrt & Hbnd & Hdn & Hinv & Hin)].
  pose proof (tunnel_step_ok _ _ _ _ _ _ _ _ _ _ _ _ Hv Had Hst Hok) as Hok'. destruct Had as [Hnow Had].
  cbn [tunnel_step] in Hst. apply bind_Ok in Hst as ([c' out] & Hc & Hst). injection Hst as <-. cbn [fst snd] in *.
  assert (Hstep : ∃ gs, hands gs out ∧ dinv (cl_delivery c') (O ++ gs) ∧
    ∀ g, g ∈ O ++ gs ∨ d_pending (cl_delivery c') !! f_seq g = Some g → numbered g ∈ L).
  { destruct (client_step_delivers inner_string unmarshal cc a now ev _ _ _ (to_key _ _ _ _ _ Hok) (to_client _ _ _ _ _ Hok) Hc)
      as [[E Ed]|[(i & b & plain & f & gs & -> & Ho & Hd & Hpong & Hp & Hh)|(gs & Ht & Hh)]].
    - exists []. rewrite app_nil_r, E. split; [by left|]. done.
    - assert (Hfrom : numbered f ∈ L).
      { destruct (Hdn b) as (f0 & Hs0 & Hwf & Hf0); [apply Had; unfold opens; by rewrite Ho|].
        destruct (sealing_reads _ _ _ _ Hwf Hs0) as (k & plain0 & Ho0 & Hd0 & _).
        assert (plain0 = plain) as -> by congruence. assert (f = set_version Version (set_block k f0)) as -> by congruence.
        destruct Hf0 as [Hf0|Hf0]; [|exact Hf0]. unfold HasFlag in Hpong. cbn [f_flags set_version set_block] in Hpong.
        rewrite Hf0 in Hpong. discriminate Hpong. }
      assert (Hq : seq_ok (f_seq f)).
      { rewrite Forall_fmap, Forall_forall in Hbnd. specialize (Hbnd _ Hfrom). cbn in Hbnd. unfold seq_ok. lia. }
      assert (Hqs : Forall (λ f, seq_ok (f_seq f)) [f]) by by apply Forall_singleton.
      pose proof (Delivery_Push_inv now (cl_delivery (en_client t)) O [f] Hinv Hqs ltac:(lia)) as H.
      rewrite Hp in H. destruct H as (H1 & _ & _ & H2). exists gs. split; [done|]. split; [done|].
      intros g. rewrite elem_of_app. intros Hg.
      assert (Hg' : g ∈ O ∨ (g ∈ [f] ∨ d_pending (cl_delivery (en_client t)) !! f_seq g = Some g)).
      { destruct Hg as [[Hg|Hg]|Hg]; [by left| |]; right; apply H2; auto. }
      destruct Hg' as [Hg'|[->%list_elem_of_singleton|Hg']]; [apply Hin; by left|exact Hfrom|apply Hin; by right].
    - pose proof (Delivery_Tick_inv now (cl_delivery (en_client t)) O Hinv) as H.
      rewrite Ht in H. destruct H as (H1 & _ & H2). exists gs. split; [done|]. split; [done|].
      intros g. rewrite elem_of_app. intros [[Hg|Hg]|Hg]; apply Hin; [by left| |]; right; apply H2; auto. }
  destruct Hstep as (gs & Hh & Hdi & Hg). destruct (sublist_hands D O gs out HO Hh) as (D' & HD1 & HD2).
  split; [done|done|]. exists L, (O ++ gs), D'. cbn [en_egressed en_delivered en_down en_client].
  split_and!; try done. by rewrite HD2, HD.
Qed.

Lemma down_step a id n ev t t' :
  AEADLaws a → is_u64 id → Enabled (v_fecParams v) = false → 0 ≤ n < 2 ^ 31 - 1 →
  admissible a t ev → step ev t = Ok t' → down_inv a id n t →
  ∃ n', n ≤ n' ≤ n + 1 ∧ down_inv a id n' t'.
Proof.
  intros La Hu Hv Hn Had Hst Hi. destruct ev as [now ev|i|e ev].
  - exists n. split; [lia|]. eapply down_client; [done|done|lia|done..].
  - exists n. split; [lia|]. pose proof Hi as [Hok Hseq Hlog].
    pose proof (tunnel_step_ok _ _ _ _ _ _ _ _ _ _ _ _ Hv Had Hst Hok) as Hok'. cbn [tunnel_step] in Hst.
    assert (Hd : cl_delivery (consume i (en_client t)).1 = cl_delivery (en_client t)).
    { unfold consume. destruct (_ ≫= _) as [s|]; [|done]. by destruct (popNext s). }
    destruct (consume i (en_client t)) as [c' bs]. cbn [fst] in Hd. injection Hst as <-.
    split; [done|done|]. cbn [en_egressed en_delivered en_down en_client]. by rewrite Hd.
  - by eapply down_server.
Qed.

Lemma down_run a id evs n t t' :
  AEADLaws a → is_u64 id → Enabled (v_fecParams v) = false → 0 ≤ n → n + Z.of_nat (length evs) < 2 ^ 31 →
  admissible_run addr_string inner_string unmarshal v cc p sock a evs t → run evs t = Ok t' →
  down_inv a id n t → ∃ n', down_inv a id n' t'.
Proof.
  intros La Hu Hv. revert n t. induction evs as [|ev evs IH]; intros n t Hn Hlen Had Hr Hi; cbn [tunnel_run] in Hr.
  { injection Hr as <-. by exists n. }
  apply bind_Ok in Hr as (t1 & H1 & Hr). cbn [admissible_run] in Had. rewrite H1 in Had. destruct Had as [Ha1 Ha2].
  cbn [length] in Hlen. destruct (down_step a id n ev t t1 La Hu Hv ltac:(lia) Ha1 H1 Hi) as (n' & Hn' & Hi').
  apply (IH n' t1); [lia|lia|done..].
Qed.

End downlink.
