(* ===== verification/CodedDownlink.v ===== *)
(** * The way down with shared coding

    In cross-path mode the server codes each session's datagrams with one
    encoder and the client decodes what all its WANs receive with one decoder, in
    front of the delivery buffer. Over the adversarial network of [Tunnel] the
    client's WireGuard then gets a subsequence of what the server's WireGuard
    sent: the theorem of [Downlink] with the erasure code at work. *)

From S2P Require Import Prelude Float64 Frame Replay Delivery Health SendQueue Scheduler FecCodec FecEncoder FecDecoder FecRecovery FecStreams FecIsolation Crypto Session Config TunnelParams Server Client ClientProps Wire Handshake CodedLink Tunnel Uplink CodedUplink Downlink.

#[local] Open Scope string_scope.
#[local] Open Scope Z_scope.
#[local] Open Scope list_scope.

(** ** The encoder of a session *)

Lemma enc_run_app {rsl : ReedSolomon} ops1 ops2 e fs1 e1 fs2 e2 :
  enc_run ops1 e = Ok (fs1, e1) → enc_run ops2 e1 = Ok (fs2, e2) → enc_run (ops1 ++ ops2) e = Ok (fs1 ++ fs2, e2).
Proof.
  revert e fs1. induction ops1 as [|o ops1 IH]; intros e fs1; cbn [enc_run app]; [by intros [= <- ->]|].
  intros (r & H1 & H)%bind_Ok H2. apply bind_Ok in H as (r' & H3 & H). injection H as <- <-.
  rewrite H1. cbn [res_bind]. destruct r' as [fs e']. rewrite (IH _ _ H3 H2). cbn. by rewrite app_assoc.
Qed.

Section server.
  Context {Addr R : Type} (addr_string : Addr → string).
  Context `{!Rand R} {rsl : ReedSolomon} {cph : Ciphers} {dhx : X25519}.
  Context `{!RangeOrder Z firstWindow, !RangeOrder Z ptr, !RangeOrder Z (list byte),
            !RangeOrder blockKey blockState, !RangeOrder Z (sessState Addr R), !RangeOrder string (pathState Addr)}.
  Context (v : server_cfg) (p : ptr) (a : AEAD) (id : Z).

  Implicit Types (s : Server.server Addr R) (out : list (Server.output Addr)).

Abbreviation encs := (same s_Enc).

Lemma next_seq_encs q s : encs s (next_seq q s).2.
Proof.
  unfold next_seq. destruct (session_at q s) as [x|] eqn:Hx; [|done]. intros r. unfold field. cbn [snd NextSeq].
  rewrite session_on_session. case_decide as Hd; [|done]. subst r. by rewrite Hx.
Qed.

Lemma any_steady q fs : steady (Addr := Addr) (R := R) s_Enc q fs.
Proof. right. intros s. apply next_seq_encs. Qed.

(** The codec of the session [p], and another one in its place. *)
Definition coding (en : Encoder) s : Prop := field s_Enc p s = Some (Some en).

Lemma coding_same en s s' : encs s s' → coding en s → coding en s'.
Proof. unfold coding. by intros ->. Qed.

Lemma coding_set en en' g s : coding en s → coding en' (on_session p (λ x, set_codec en' (g x) x) s).
Proof.
  unfold coding, field. rewrite session_on_session, decide_True by done. by destruct (session_at p s).
Qed.

Lemma coding_elsewhere en q f s : q ≠ p → coding en s → coding en (on_session q f s).
Proof. intros Hq. unfold coding, field. rewrite session_on_session. by rewrite decide_False. Qed.

(** The frame the server makes of a datagram for the session, unless it is too
    long. *)
Definition down_pushed (ev : event Addr) s : list frame :=
  match ev with
  | EvEgress q b =>
      if decide (q = p) then
        match session_at q s with
        | Some x => if v_mtu v <? Z.of_nat (length b) then [] else [new_frame 0 (s_ID x) (u32 (s_seq x + 1)) 0 b]
        | None => []
        end
      else []
  | _ => []
  end.

(** What a step does to the codec, and what it sends for the session. *)
Definition steps_codec (en : Encoder) (pushed : list frame) (s s' : Server.server Addr R) (P : list frame → Prop) : Prop :=
  ∃ ops fs en', enc_run ops en = Ok (fs, en') ∧ enc_pushed ops = pushed ∧ coding en' s' ∧ P fs.

Lemma steps_same en s s' (P : list frame → Prop) : coding en s → encs s s' → P [] → steps_codec en [] s s' P.
Proof. intros Hc He HP. exists [], [], en. split_and!; [done..|by eapply coding_same|done]. Qed.

Lemma on_session_at q f s x : session_at q s = Some x → session_at q (on_session q f s) = Some (f x).
Proof. intros Hx. by rewrite session_on_session, decide_True, Hx. Qed.

Lemma egress_codec e q payload s s' out x en :
  session_at p s = Some x → s_aead x = a → s_Enc x = Some en →
  egress_datagram addr_string v e q payload s = Ok (s', out) →
  steps_codec en (down_pushed (EvEgress q payload) s) s s' (λ fs, q = p → sends_of a fs out).
Proof.
  intros Hx Ha Hen. assert (Hc : coding en s) by (unfold coding, field; by rewrite Hx, <-Hen).
  unfold egress_datagram. cbn [down_pushed]. destruct (decide (q = p)) as [->|Hq].
  - rewrite Hx. destruct (_ <? _); [intros [= <- <-]; apply steps_same; [done..|intros _; apply sends_nil]|].
    unfold next_seq. rewrite Hx. cbn [NextSeq]. set (x1 := mkSess _ _ _ _ _ _ _ _ _). rewrite Hen.
    set (f := new_frame _ _ _ _ _). intros ([fs en'] & Hp & H)%bind_Ok. cbn [fst snd] in H.
    set (s1 := on_session p (λ _, x1) s) in *.
    assert (Hx1 : session_at p s1 = Some x1) by (exact (on_session_at p (λ _, x1) s x Hx)).
    set (s2 := on_session p _ s1) in H. assert (Hx2 : session_at p s2 = Some (set_codec en' (s_ServerPub x1) x1)) by (exact (on_session_at p (λ x, set_codec en' (s_ServerPub x) x) s1 x1 Hx1)).
    destruct (sendToSession_seals addr_string v s_Enc e p fs _ s2 s' out Hx2 (any_steady p fs) H) as [He Hs].
    exists [OpPush (e_now e) f], fs, en'. split_and!.
    + cbn [enc_run enc_step]. rewrite Hp. cbn. by rewrite app_nil_r.
    + done.
    + eapply coding_same; [exact He|]. apply (coding_set en en' s_ServerPub).
      unfold coding, field. rewrite Hx1. cbn. by rewrite Hen.
    + intros _. by rewrite <-Ha.
  - intros H. assert (He : coding en s'); [|by exists [], [], en; split_and!].
    destruct (session_at q s) as [y|] eqn:Hy; [|by injection H as <- _]. destruct (_ <? _); [by injection H as <- _|].
    pose proof (next_seq_encs q s) as H1. assert (Hy1 : ∃ y1, session_at q (next_seq q s).2 = Some y1).
    { unfold next_seq. rewrite Hy. cbn [NextSeq snd]. eexists. exact (on_session_at q (λ _, _) s y Hy). }
    destruct (next_seq q s) as [n s1]. cbn [snd] in *. destruct Hy1 as [y1 Hy1]. destruct (s_Enc y) as [ey|].
    + apply bind_Ok in H as (r & _ & H). eapply (sendToSession_seals _ _ s_Enc) in H as [H2 _];
        [|by apply on_session_at|apply any_steady]. eapply coding_same; [exact H2|].
      apply coding_elsewhere; [done|]. by eapply coding_same.
    + eapply (sendToSession_seals _ _ s_Enc) in H as [H2 _]; [|exact Hy1|apply any_steady].
      eapply coding_same; [exact H2|]. by eapply coding_same.
Qed.

Lemma steps_trans en en1 pu1 pu2 s s1 s2 (P P1 P2 : list frame → Prop) :
  (∃ ops fs, enc_run ops en = Ok (fs, en1) ∧ enc_pushed ops = pu1 ∧ P1 fs) → steps_codec en1 pu2 s1 s2 P2 →
  (∀ fs1 fs2, P1 fs1 → P2 fs2 → P (fs1 ++ fs2)) → steps_codec en (pu1 ++ pu2) s s2 P.
Proof.
  intros (ops1 & fs1 & R1 & E1 & Q1) (ops2 & fs2 & en2 & R2 & E2 & C2 & Q2) HP.
  exists (ops1 ++ ops2), (fs1 ++ fs2), en2. split_and!; [by eapply enc_run_app| |done|by apply HP].
  unfold enc_pushed in *. by rewrite flat_map_app, E1, E2.
Qed.

(** The FEC tick on one session. *)
Lemma tick_one_codec e q s s' out x en :
  session_at p s = Some x → s_aead x = a → s_Enc x = Some en → tick_sessions addr_string v e [q] s = Ok (s', out) →
  steps_codec en [] s s' (λ fs, q = p → sends_of a fs out).
Proof.
  intros Hx Ha Hen. assert (Hc : coding en s) by (unfold coding, field; by rewrite Hx, <-Hen).
  cbn [tick_sessions]. intros ([s1 o1] & H & H')%bind_Ok. cbn [res_bind fst snd] in H'. injection H' as <- <-. rewrite app_nil_r.
  destruct (decide (q = p)) as [->|Hq].
  - rewrite Hx in H. cbn [mbind option_bind] in H. rewrite Hen in H. destruct (Encoder_Tick (e_now e) en) as [fs en'] eqn:Et.
    set (s2 := on_session p _ s) in H.
    assert (Hx2 : session_at p s2 = Some (set_codec en' (s_ServerPub x) x)) by (exact (on_session_at p (λ x, set_codec en' (s_ServerPub x) x) s x Hx)).
    destruct (sendToSession_seals addr_string v s_Enc e p fs _ s2 s1 o1 Hx2 (any_steady p fs) H) as [He Hs].
    exists [OpTick (e_now e)], fs, en'. split_and!.
    + cbn [enc_run enc_step]. rewrite Et. cbn. by rewrite app_nil_r.
    + done.
    + eapply coding_same; [exact He|]. by apply (coding_set en en' s_ServerPub).
    + intros _. by rewrite <-Ha.
  - exists [], [], en. split_and!; [done..| |by intros].
    destruct (session_at q s) as [y|] eqn:Hy; cbn in H; [|by injection H as <- _].
    destruct (s_Enc y) as [ey|]; [|by injection H as <- _]. destruct (Encoder_Tick (e_now e) ey) as [fs en'].
    eapply (sendToSession_seals _ _ s_Enc) in H as [H2 _];
      [|exact (on_session_at q (λ x, set_codec en' (s_ServerPub x) x) s y Hy)|apply any_steady].
    eapply coding_same; [exact H2|]. by apply coding_elsewhere.
Qed.

Lemma coding_session en s s1 x :
  persists s s1 → session_at p s = Some x → coding en s1 →
  ∃ x1, session_at p s1 = Some x1 ∧ s_aead x1 = s_aead x ∧ s_ID x1 = s_ID x ∧ s_Enc x1 = Some en.
Proof.
  intros Hp Hx Hc. destruct (Hp p x Hx) as (x1 & Hx1 & Ki & Ka & _). exists x1. split_and!; [done..|].
  unfold coding, field in Hc. rewrite Hx1 in Hc. by injection Hc.
Qed.

Lemma tick_codec e qs s s' out x en :
  session_at p s = Some x → s_aead x = a → s_Enc x = Some en → tick_sessions addr_string v e qs s = Ok (s', out) →
  steps_codec en [] s s' (λ fs, sends_of a fs (tick_sent addr_string v p e qs s)).
Proof.
  revert s s' out x en. induction qs as [|q qs IH]; intros s s' out x en Hx Ha Hen.
  { intros [= <- _]. apply steps_same; [unfold coding, field; by rewrite Hx, <-Hen|done|apply sends_nil]. }
  intros (s1 & o1 & o2 & H1 & H2 & _)%tick_one. cbn [tick_sent]. rewrite H1.
  destruct (tick_one_codec e q s s1 o1 x en Hx Ha Hen H1) as (ops1 & fs1 & en1 & R1 & E1 & C1 & S1).
  pose proof (evolves_persists _ _ (tick_sessions_evolves _ _ _ _ _ _ _ H1)) as Hp.
  destruct (coding_session en1 s s1 x Hp Hx C1) as (x1 & Hx1 & Ka & _ & Hen1).
  eapply (steps_trans en en1 [] [] s s1 s' _ (λ fs, q = p → sends_of a fs o1)); [exists ops1, fs1; split_and!; [exact R1|exact E1|exact S1]| |].
  - eapply IH; [exact Hx1|congruence|exact Hen1|exact H2].
  - cbn beta. intros fs2 fs3 HS1 HS2. apply sends_app; [|by eapply sends_mono; [|exact HS2]; intros g Hg; apply elem_of_app; right].
    case_decide; [|apply sends_nil]. eapply sends_mono; [|by apply HS1]. intros g Hg. apply elem_of_app. by left.
Qed.

(** The health tick reports loss to the codecs. *)
Lemma health_codec e s en :
  coding en s → steps_codec en [] s (healthTick v e s) (λ fs, fs = []).
Proof.
  intros Hc. unfold healthTick. generalize (range (sv_states s)). intros kvs.
  set (g := λ s kv, _). change (foldl _ s kvs) with (foldl g s kvs).
  assert (H : ∀ s0 en0, coding en0 s0 → steps_codec en0 [] s0 (foldl g s0 kvs) (λ fs, fs = [])); [|by apply H].
  clear s en Hc. induction kvs as [|[k st] kvs IH]; intros s en Hc; [by apply steps_same|]. cbn [foldl].
  assert (H : ∃ ops en1, enc_run ops en = Ok ([], en1) ∧ enc_pushed ops = [] ∧ coding en1 (g s (k, st))).
  { unfold g. cbn [fst snd]. destruct (Get _ k) as [q|]; [|by exists [], en].
    destruct (health_paths _ _ _ _ _ _) as [[st' d] worst]. destruct (decide (q = p)) as [->|Hq].
    - exists [OpLoss (e_now e) worst], (SetLossRate (e_now e) worst en). split_and!; [done..|].
      unfold coding, field in *. rewrite session_on_session, decide_True by done.
      change (session_at p (set_dec d (set_state k st' s))) with (session_at p s).
      destruct (session_at p s) as [x|]; [|done]. cbn in Hc |- *. injection Hc as Hc. by rewrite Hc.
    - exists [], en. split_and!; [done..|]. by apply coding_elsewhere. }
  destruct H as (ops & en1 & R1 & E1 & C1). destruct (IH _ _ C1) as (ops2 & fs2 & en2 & R2 & E2 & C2 & ->).
  exists (ops ++ ops2), [], en2. split_and!; [by apply (enc_run_app ops ops2 en [] en1 [] en2)| |done|done].
  unfold enc_pushed in *. by rewrite flat_map_app, E1, E2.
Qed.

(** ** One step of the server *)

Lemma sendPong_encs q ua ts s : encs s (sendPong q ua ts s).1.
Proof.
  unfold sendPong. destruct (session_at q s); [|done]. pose proof (next_seq_encs q s) as H. by destruct (next_seq q s).
Qed.

Lemma sendAck_encs q ua s : encs s (sendAck v q ua s).1.
Proof.
  unfold sendAck. destruct (session_at q s); [|done]. pose proof (next_seq_encs q s) as H. by destruct (next_seq q s).
Qed.

Lemma handle_data_encs e hdr b ua s s' out :
  handle_data addr_string v e hdr b ua s = Ok (s', out) → encs s s'.
Proof.
  unfold handle_data. destruct (q ← _; x ← _; _) as [[q x]|]; [|by intros [= <- _]].
  destruct (Open _ _ _) as [plain| |]; [|by intros [= <- _]..].
  pose proof (check_replay_same s_Enc q (f_seq hdr) s) as H1. destruct (check_replay q (f_seq hdr) s) as [ok s1]. cbn [snd] in H1.
  destruct ok; cbn [negb]; [|by intros [= <- _]]. destruct (Decode plain) as [f| |]; [|by intros [= <- _]..].
  set (s2 := on_session q (Touch (e_now e)) s1).
  assert (H2 : encs s s2) by (eapply same_trans; [exact H1|by apply same_on_session]).
  set (s3 := match ua with Some a => registerPath addr_string v e q (f_session hdr) a [] s2 | None => s2 end).
  assert (H3 : encs s s3) by (unfold s3; destruct ua; [eapply same_trans; [exact H2|apply registerPath_same, Enc_inert]|done]).
  destruct (HasFlag f FlagKeepalive).
  - destruct ua as [ua|]; [|by intros [= <- _]]. intros H.
    pose proof (sendPong_encs q ua (f_payload f) (observeKeepalive v e (f_session hdr) (addr_string ua) s3)) as H4.
    assert (E : sendPong q ua (f_payload f) (observeKeepalive v e (f_session hdr) (addr_string ua) s3) = (s', out)) by congruence.
    rewrite E in H4. eapply same_trans; [exact H3|]. eapply same_trans; [apply observeKeepalive_same|exact H4].
  - destruct (_ =? _)%nat; [by intros [= <- _]|]. intros (r & _ & H)%bind_Ok. by injection H as <- _.
Qed.

Lemma handle_first_coding e hdr b ua s x en :
  session_at p s = Some x → s_Enc x = Some en → coding en (handle_first addr_string v e hdr b ua s).1.
Proof.
  intros Hx Hen. assert (Hc : coding en s) by (unfold coding, field; by rewrite Hx, <-Hen).
  unfold handle_first. destruct ua as [ua|]; [|done]. destruct (Open _ _ _) as [plain| |]; [|done..].
  destruct (Decode plain) as [f| |]; [|done..]. cbn zeta. set (r := match Get _ _ with Some p => _ | None => _ end).
  assert (Hr : coding en r.2).
  { unfold r. destruct (Get _ _); [done|]. unfold coding, field. rewrite (create_session_at _ _ _ _ _ _ _ _ Hx). cbn. by rewrite Hen. }
  destruct r as [[q|] s1]; cbn [snd] in Hr; [|done].
  pose proof (check_replay_same s_Enc q (f_seq hdr) s1) as H2. destruct (check_replay q (f_seq hdr) s1) as [ok s2]. cbn [snd] in H2.
  destruct ok; cbn [negb fst]; [|by eapply coding_same]. eapply coding_same; [apply sendAck_encs|].
  eapply coding_same; [apply registerPath_same, Enc_inert|]. eapply coding_same; [by apply same_on_session|]. by eapply coding_same.
Qed.

(** The answer to a probe. *)
Definition pong (b : list byte) : Prop := ∃ f, sealing DirServerToClient a f b ∧ wf_frame f ∧ f_flags f = FlagPong.

Lemma server_step_codec e ev s s' out x en :
  server_ok s → is_u64 (s_ID x) → session_at p s = Some x → s_aead x = a → s_Enc x = Some en →
  server_step addr_string v e ev s = Ok (s', out) →
  steps_codec en (down_pushed ev s) s s' (λ fs, ∀ b, b ∈ sent_down addr_string v p e s ev out →
    pong b ∨ ∃ g f, g ∈ fs ∧ sent_as g f ∧ sealing DirServerToClient a f b).
Proof.
  intros Hok Hid Hx Ha Hen. assert (Hc : coding en s) by (unfold coding, field; by rewrite Hx, <-Hen).
  assert (Hwire : ∀ (os : list (output Addr)) fs b, sends_of a fs os →
    b ∈ flat_map (λ o : Server.output Addr, match o with Sent _ b => [b] | ToWG _ _ => [] end) os →
    pong b ∨ ∃ g f, g ∈ fs ∧ sent_as g f ∧ sealing DirServerToClient a f b).
  { intros os fs b H Hb. right. apply list_elem_of_In, in_flat_map in Hb as ([d b'|] & Ho & Hb); [|done].
    destruct Hb as [->|[]]. by eapply H, list_elem_of_In. }
  destruct ev as [b ua|q payload| | |]; cbn [server_step]; unfold sent_down.
  - unfold handleClientFrame. cbn [down_pushed]. destruct (DecodeHeader b) as [hdr| |] eqn:Eh;
      [|by intros [= <- <-]; apply steps_same; [done..|intros ? ?%elem_of_nil]..].
    assert (Hq : is_u32 (f_seq hdr)) by (by eapply wf_seq, DecodeHeader_wf).
    destruct (HasFlag hdr FlagFirst); cbn [negb andb]; intros H.
    + assert (E : handle_first addr_string v e hdr b ua s = (s', out)) by congruence.
      pose proof (handle_first_coding e hdr b ua s x en Hx Hen) as H1. rewrite E in H1.
      exists [], [], en. split_and!; [done..|]. by intros ? ?%elem_of_nil.
    + apply steps_same; [done|by eapply handle_data_encs|]. case_bool_decide as Hg; [|by intros ? ?%elem_of_nil].
      destruct (handle_data_sends addr_string v e hdr b ua s s' out p x Hq Hg Hx H) as [_ Hs].
      intros c Hcin. left. apply list_elem_of_In, in_flat_map in Hcin as ([d b'|] & Ho & Hb); [|done]. destruct Hb as [->|[]].
      destruct (Hs d c) as (n & ts & Hseal); [by apply list_elem_of_In|]. rewrite Ha in Hseal. eexists. split; [exact Hseal|].
      split; [by apply new_frame_wf; [|done|apply u32_range]|done].
  - intros H. destruct (egress_codec e q payload s s' out x en Hx Ha Hen H) as (ops & fs & en' & R1 & E1 & C1 & HS).
    exists ops, fs, en'. split_and!; [done..|]. case_decide as Hq; [|by intros ? ?%elem_of_nil]. intros b. by apply Hwire, HS.
  - unfold fecTick. intros ([s1 o1] & H1 & H)%bind_Ok. cbn [fst snd] in H. destruct (Decoder_Tick _ _) as [ds d]. injection H as <- _.
    destruct (tick_codec e _ s s1 o1 x en Hx Ha Hen H1) as (ops & fs & en' & R1 & E1 & C1 & HS).
    exists ops, fs, en'. split_and!; [done..|]. intros b. by apply Hwire.
  - intros [= <- <-]. destruct (health_codec e s en Hc) as (ops & fs & en' & R1 & E1 & C1 & ->).
    exists ops, [], en'. split_and!; [done..|]. by intros ? ?%elem_of_nil.
  - intros [= <- <-]. apply steps_same; [done|apply sweep_same|by intros ? ?%elem_of_nil].
Qed.
End server.

(** ** The decoder of the client *)

Section client.
  Context {Inner R : Type} (inner_string : Inner → string).
  Context `{!Rand R} {rsl : ReedSolomon} {cph : Ciphers} {dhx : X25519}.
  Context (unmarshal : list byte → option ServerAnnounce).
  Context `{!RangeOrder Z frame, !RangeOrder Z (list byte), !RangeOrder blockKey blockState}.
  Context (cc : client_cfg).

  Implicit Types (c : Client.client Inner R) (out : list (client_output Inner)).

(** The client decodes what all its WANs receive with the decoder [d] at [y]. *)
Record hears (y : nat) (d : Decoder) c : Prop := {
  hr_cross : k_crossPath (cl_codecs c) = true;
  hr_slot : k_xdec (cl_codecs c) = Some y;
  hr_wans : ∀ i q, slot_dec i c = Some q → q = y;
  hr_dec : decoders c !! y = Some d;
}.

Lemma hears_keeps y d d' c c' : hears y d c → ckeeps c c' → decoders c' !! y = Some d' → hears y d' c'.
Proof.
  intros [C1 C2 C3 _] [_ _ Hw _] Hd. unfold wiring in Hw. injection Hw as E1 _ E2 E3 _ _.
  split; [congruence..| |done]. intros i q. unfold slot_dec. rewrite E3. apply C3.
Qed.

(** What a step does with the decoder and the delivery buffer: nothing but
    statistics, the decoding of one authentic frame that is no PONG, or a tick. *)
Definition decodes_down (a : AEAD) (now : time) (ev : client_event Inner) (d d' : Decoder) c c' out : Prop :=
  (same_blocks d d' ∧ still c c' out) ∨
  (∃ i b plain f path fs gs, ev = CRecv i b ∧ Open a DirServerToClient b = Ok plain ∧ Decode plain = Ok f ∧
     HasFlag f FlagPong = false ∧ Decoder_Push now path f d = Ok (fs, d') ∧
     Delivery_Push now (cl_delivery c) fs = (gs, cl_delivery c') ∧ hands gs out) ∨
  (∃ fs gs1 gs2 dl, Decoder_Tick now d = (fs, d') ∧ Delivery_Push now (cl_delivery c) fs = (gs1, dl) ∧
     Delivery_Tick now dl = (gs2, cl_delivery c') ∧ hands (gs1 ++ gs2) out).

Lemma decodes_idle a now ev y d c c' out :
  hears y d c → decoders c' = decoders c → still c c' out →
  ∃ d', decoders c' !! y = Some d' ∧ decodes_down a now ev d d' c c' out.
Proof. intros Hh Hd Hs. exists d. rewrite Hd. split; [apply Hh|]. left. split; [apply same_blocks_refl|done]. Qed.

(** A call of the shared decoder. *)
Lemma hears_call {A} y d o (f : Decoder → res unit (A * Decoder)) c r :
  decoders c !! y = Some d → (∀ q, o = Some q → q = y) → call_dec o f c = Ok r →
  ∃ d', f d = Ok (r.1, d') ∧ decoders r.2 !! y = Some d'.
Proof.
  intros Hd Ho (_ & q & d0 & d' & -> & E1 & E2 & E3)%call_dec_at. rewrite (Ho q eq_refl) in E1, E3.
  rewrite Hd in E1. injection E1 as <-. exists d'. split; [done|]. rewrite E3. apply lookup_insert_eq.
Qed.

Lemma fecTick_decodes a now y d c c' out :
  hears y d c → client_fecTick now c = Ok (c', out) →
  ∃ d', decoders c' !! y = Some d' ∧ decodes_down a now CFecTick d d' c c' out.
Proof.
  intros Hh. unfold client_fecTick. rewrite (hr_cross _ _ _ Hh). intros ([c1 o1] & H1 & H)%bind_Ok.
  apply bind_Ok in H1 as (r & Hr & H1). apply bind_Ok in H1 as ([c3 o3] & H3 & H1).
  apply bind_Ok in H1 as ([ds c4] & H4 & H1). cbn [fst snd] in *.
  pose proof (call_enc_still _ _ _ _ Hr) as S1. destruct (call_enc_at _ _ _ _ Hr) as [D1 _].
  pose proof (sendCrossEncoded_still _ _ _ _ H3) as S3. pose proof (sendCrossEncoded_codecs _ _ _ _ H3) as K3.
  assert (D3 : decoders c3 = decoders c) by (unfold decoders in *; by rewrite K3).
  assert (Hq : ∀ q, k_xdec (cl_codecs c) = Some q → q = y) by (intros q; rewrite (hr_slot _ _ _ Hh); by intros [= <-]).
  destruct (hears_call y d _ _ c3 _ ltac:(rewrite D3; apply Hh) Hq H4) as (d' & Et & D4).
  cbn [fst snd] in Et, D4. injection Et as Et. pose proof (call_dec_still _ _ _ _ H4) as S4. cbn [snd] in S4.
  destruct (still_trans _ _ _ _ _ S1 (still_trans _ _ _ _ _ S3 S4)) as [Hdl Ho]. cbn [app] in Ho.
  unfold push_delivery in H1. rewrite Hdl in H1. destruct (Delivery_Push now (cl_delivery c) ds) as [gs1 dl] eqn:Ep.
  injection H1 as <- <-. unfold tick_delivery in H. cbn [set_delivery cl_delivery] in H.
  destruct (Delivery_Tick now dl) as [gs2 dl2] eqn:Ed. injection H as <- <-. exists d'. split; [exact D4|].
  right. right. exists ds, gs1, gs2, dl. split_and!; [by rewrite Et|done..|].
  rewrite app_nil_r in Ho. unfold hands, delivered_by in *. rewrite !flat_map_app, Ho. cbn [app].
  pose proof (deliverToWG_hands gs1 c4) as E1. pose proof (deliverToWG_hands gs2 (set_delivery dl c4)) as E2.
  unfold deliverToWG, hands in *. cbn [set_delivery cl_sess] in *. destruct (c_wgAddr (cl_sess c4)); [|by left].
  right. unfold delivered_by in *. rewrite fmap_app. f_equal; clear.
  - induction gs1 as [|g gs IH]; [done|]. cbn. by f_equal.
  - induction gs2 as [|g gs IH]; [done|]. cbn. by f_equal.
Qed.

Lemma health_wan_decoders now i c c' y d :
  hears y d c → health_wan now i c = Ok c' → ∃ d', decoders c' !! y = Some d' ∧ same_blocks d d'.
Proof.
  intros Hh. unfold health_wan. destruct (cl_links c !! i); [|intros [= <-]; exists d; split; [apply Hh|apply same_blocks_refl]].
  pose proof (λ q, hr_wans _ _ _ Hh i q) as Hi.
  intros (r1 & E1 & H)%bind_Ok. destruct (hears_call y d _ _ _ _ (hr_dec _ _ _ Hh) Hi E1) as (d1 & F1 & G1).
  apply bind_Ok in H as (r2 & E2 & H). destruct (hears_call y d1 _ _ _ _ G1 Hi E2) as (d2 & F2 & G2).
  apply bind_Ok in H as (r3 & [D3 _]%call_enc_at & H). injection H as <-. exists d2. split.
  - match goal with |- context [decoders (set_csched ?s (on_link ?i ?f ?c))] => change (decoders (set_csched s (on_link i f c))) with (decoders c) end.
    by rewrite D3.
  - injection F1 as _ <-. injection F2 as _ <-. by split_and!.
Qed.

Lemma health_wans_decoders now ids c c' y d :
  hears y d c → health_wans now ids c = Ok c' → ∃ d', decoders c' !! y = Some d' ∧ same_blocks d d'.
Proof.
  revert c d. induction ids as [|i ids IH]; intros c d Hh; cbn [health_wans].
  { intros [= <-]. exists d. split; [apply Hh|apply same_blocks_refl]. }
  intros (c1 & H1 & H)%bind_Ok. destruct (health_wan_decoders now i c c1 y d Hh H1) as (d1 & Hd1 & S1).
  destruct (IH c1 d1) as (d2 & Hd2 & S2); [|done|].
  - eapply hears_keeps; [exact Hh|eapply silent_ckeeps, health_wan_silent, H1|done].
  - exists d2. split; [done|]. by eapply same_blocks_trans.
Qed.

Lemma ingress_decoders now ad payload c c' out :
  k_crossPath (cl_codecs c) = true → ingress inner_string now ad payload c = Ok (c', out) → decoders c' = decoders c.
Proof.
  intros Hc. unfold ingress.
  match goal with |- context [if ?b then c else set_sess ?y c] =>
    set (c1 := if b then c else set_sess y c); assert (E1 : cl_codecs c1 = cl_codecs c) by (unfold c1; by destruct b) end.
  clearbody c1. unfold decoders. rewrite <-E1 in Hc |- *. destruct (_ <? _); [by intros [= <- _]|].
  destruct (cl_session c1); [|by intros [= <- _]]. cbn [sess_seq Client_NextSeq set_sess cl_codecs]. rewrite Hc.
  intros (r & [D1 _]%call_enc_at & H)%bind_Ok. apply sendCrossEncoded_codecs in H. rewrite H. exact D1.
Qed.

Lemma client_step_decodes a now ev y d c c' out :
  cl_session c = Some a → hears y d c → client_step inner_string unmarshal cc now ev c = Ok (c', out) →
  ∃ d', hears y d' c' ∧ decodes_down a now ev d d' c c' out.
Proof.
  intros Hs Hh H. pose proof (step_established _ _ _ _ _ _ _ _ _ Hs H) as K.
  assert (Hd : ∃ d', decoders c' !! y = Some d' ∧ decodes_down a now ev d d' c c' out);
    [|destruct Hd as (d' & Hd & ?); exists d'; split; [by eapply hears_keeps|done]].
  destruct ev as [i|i|i|i sealed|ad payload| |]; cbn [client_step] in H.
  - pose proof (handshake_still cc i c) as St. pose proof (handshake_codecs cc i c) as Sc.
    assert (E : handshake_send cc i c = (c', out)) by congruence. rewrite E in St, Sc.
    apply decodes_idle; [done|by unfold decoders; cbn [fst] in Sc; rewrite Sc|done].
  - pose proof (keepalive_still now i c) as St. pose proof (keepalive_codecs now i c) as Sc.
    assert (E : keepalive_send now i c = (c', out)) by congruence. rewrite E in St, Sc.
    apply decodes_idle; [done|by unfold decoders; cbn [fst] in Sc; rewrite Sc|done].
  - unfold keepalive_tick in H. set (c1 := on_link i (probe_outcome cc now) c) in *.
    pose proof (keepalive_still now i c1) as St. pose proof (keepalive_codecs now i c1) as Sc.
    assert (E : keepalive_send now i c1 = (c', out)) by congruence. rewrite E in St, Sc.
    apply decodes_idle; [done|by unfold decoders; cbn [fst] in Sc; rewrite Sc|done].
  - destruct (recv_pushes unmarshal cc a now i sealed c c' out Hs H)
      as [[St Sc]|(plain & f & fs & gs & c2 & c3 & Ho & Hde & Hpong & Hcod & H3 & Sc & Hp & Hg)].
    + apply decodes_idle; [done|by unfold decoders; rewrite Sc|done].
    + assert (Hq : ∀ q, slot_dec i c2 = Some q → q = y)
        by (intros q; unfold slot_dec; rewrite Hcod; apply (hr_wans _ _ _ Hh i)).
      destruct (hears_call y d _ _ c2 _ ltac:(unfold decoders; rewrite Hcod; apply Hh) Hq H3) as (d' & Hpush & Hd').
      exists d'. split; [unfold decoders; rewrite Sc; exact Hd'|]. right. left.
      by exists i, sealed, plain, f, (wan_id i c2), fs, gs.
  - apply decodes_idle; [done|eapply ingress_decoders; [apply Hh|exact H]|by eapply ingress_still].
  - by eapply fecTick_decodes.
  - apply bind_Ok in H as (c1 & H1 & H). injection H as <- <-.
    destruct (health_wans_decoders _ _ _ _ _ _ Hh H1) as (d' & Hd' & Sb). exists d'. split; [done|]. left.
    split; [done|by eapply health_still].
Qed.
End client.

(** ** The way down through the network *)

(** Numbers in increasing order are distinct, and not more than their range. *)
Lemma sorted_numbers (l : list Z) m n :
  StronglySorted Z.lt l → Forall (λ q, m ≤ q < n) l → NoDup l ∧ (l = [] ∨ Z.of_nat (length l) ≤ n - m).
Proof.
  intros Hl. revert m. induction Hl as [|q l Hl IH Hq]; intros m Hr; [split; [constructor|by left]|].
  apply Forall_cons in Hr as [Hqr Hr].
  destruct (IH (q + 1)) as [Hnd Hlen].
  { rewrite !Forall_forall in *. intros r Hin. specialize (Hq r Hin). specialize (Hr r Hin). lia. }
  split; [constructor; [|done]|right].
  - intros Hin. rewrite Forall_forall in Hq. specialize (Hq q Hin). lia.
  - cbn [length]. destruct Hlen as [->|Hlen]; cbn [length]; lia.
Qed.

Section downlink.
  Context {Addr Inner R : Type} (addr_string : Addr → string) (inner_string : Inner → string).
  Context `{!Rand R} {rsl : ReedSolomon} {cph : Ciphers} {dhx : X25519}.
  Context `{!RangeOrder Z firstWindow, !RangeOrder Z ptr, !RangeOrder Z (list byte),
            !RangeOrder blockKey blockState, !RangeOrder Z (sessState Addr R), !RangeOrder string (pathState Addr),
            !RangeOrder Z frame}.
  Context (unmarshal : list byte → option ServerAnnounce).
  Context (v : server_cfg) (cc : client_cfg) (p : ptr) (sock : Z).

  Implicit Types (t : ends Addr Inner R).

Notation step := (tunnel_step addr_string inner_string unmarshal v cc p sock).
Notation run := (tunnel_run addr_string inner_string unmarshal v cc p sock).

(** The numbers the datagrams of a run take from the counter of the session. *)
Definition down_number t (ev : tunnel_event Addr Inner R) : list Z :=
  match ev with TServer _ sev => map f_seq (down_pushed v p sev (en_server t)) | _ => [] end.

Fixpoint down_numbers (evs : list (tunnel_event Addr Inner R)) t : list Z :=
  match evs with
  | [] => []
  | ev :: evs => down_number t ev ++ match step ev t with Ok t => down_numbers evs t | _ => [] end
  end.

(** A datagram of WireGuard is not empty and fits a UDP datagram. *)
Definition down_datagram (ev : tunnel_event Addr Inner R) : Prop :=
  match ev with TServer _ (EvEgress _ b) => 0 < Z.of_nat (length b) < 2 ^ 16 | _ => True end.

(** A PONG, or what the encoder passed on or sealed. *)
Definition coded_down (id k : Z) (a : AEAD) (U : list frame) (bl : list block) (b : list byte) : Prop :=
  ∃ f, sealing DirServerToClient a f b ∧ wf_frame f ∧
    (f_flags f = FlagPong ∨ ∃ g, on_wire k id U bl g ∧ sent_as g f).

(** The server's side: the codec [en] of the session has passed on [U] and sealed
    the blocks [bl] out of the datagrams [P]. *)
Record down_sender (a : AEAD) (id k : Z) (nums : list Z) t
    (en : Encoder) (U : list frame) (bl : list block) (P : list frame) : Prop := {
  ds_coding : coding p en (en_server t);
  ds_enc : enc_ok en;
  ds_sealed : sealed_so_far k id U bl P en;
  ds_pushes : pushes_ok id P;
  ds_plain : Forall plain_frame P;
  ds_nums : map f_seq P = nums;
  ds_taken : map f_payload P `sublist_of` en_egressed t;
  ds_wire : ∀ b, b ∈ en_down t → coded_down id k a U bl b;
}.

(** [g] carries one of the datagrams [P] under its number. *)
Definition carries (P : list frame) (g : frame) : Prop := ∃ f, f ∈ P ∧ numbered f = numbered g.

(** The client's side: its decoder has handed out the frames [D] of blocks, the
    delivery buffer has released [O], of which [H] went to WireGuard. *)
Record down_receiver (id k : Z) (y : nat) (pd : Params) t (bl : list block) (P : list frame)
    (d : Decoder) (D : list (blockKey * frame)) (O H : list frame) : Prop := {
  dr_hears : hears y d (en_client t);
  dr_follows : follows id k pd (own_book id bl) D d;
  dr_lone : lone id d;
  dr_inv : dinv (cl_delivery (en_client t)) O;
  dr_from : ∀ g, g ∈ O ∨ d_pending (cl_delivery (en_client t)) !! f_seq g = Some g → carries P g;
  dr_handed : H `sublist_of` O;
  dr_delivered : f_payload <$> H = en_delivered t;
}.

Lemma receiver_grows id k y pd t t' bl P d D O H x P' :
  en_client t' = en_client t → en_delivered t' = en_delivered t →
  down_receiver id k y pd t bl P d D O H → down_receiver id k y pd t' (bl ++ x) (P ++ P') d D O H.
Proof.
  intros E1 E2 [H1 H2 H3 H4 H5 H6 H7]. split; rewrite ?E1, ?E2; try done.
  - eapply follows_mono; [|exact H2]. intros key b. apply own_book_mono.
  - intros g Hg. destruct (H5 g Hg) as (f & Hf & E). exists f. rewrite elem_of_app. auto.
Qed.

(** The frame of a datagram is one the encoder may be given. *)
Lemma down_pushed_fit e sev id (s : Server.server Addr R) x :
  is_u64 id → session_at p s = Some x → s_ID x = id → down_datagram (TServer e sev) →
  Forall (push_ok id) (down_pushed v p sev s) ∧ Forall plain_frame (down_pushed v p sev s) ∧
  map f_payload (down_pushed v p sev s) `sublist_of` egressed_by p sev.
Proof.
  intros Hid Hx Hi Hd. destruct sev as [b ua|q b| | |]; cbn [down_pushed egressed_by]; try by split_and!.
  case_decide as Hq; [subst q|by split_and!]. rewrite Hx.
  destruct (_ <? _); [split; [constructor|split; [constructor|apply sublist_nil_l]]|]. cbn in Hd. split_and!; [| |done].
  - apply Forall_singleton. by split; try apply u32_range.
  - apply Forall_singleton. split; [|split; [done|]].
    + apply new_frame_wf; [done|by rewrite Hi|apply u32_range].
    + cbn. intros ->. cbn in Hd. lia.
Qed.

Lemma coded_down_server a id k y pd nums e ev t t' en U bl P d D O H :
  is_u64 id → 1 ≤ k ≤ 255 → down_datagram (TServer e ev) →
  NoDup (nums ++ down_number t (TServer e ev)) → Z.of_nat (length (nums ++ down_number t (TServer e ev))) < 2 ^ 32 →
  link_ok p sock a id t → down_sender a id k nums t en U bl P → down_receiver id k y pd t bl P d D O H →
  step (TServer e ev) t = Ok t' →
  ∃ en U bl P, down_sender a id k (nums ++ down_number t (TServer e ev)) t' en U bl P ∧
    down_receiver id k y pd t' bl P d D O H.
Proof.
  intros Hid Hk Hdg Hnd Hlen [_ _ Hok (x & Hx & Ha & _ & Hi) _] [C1 C2 C3 C4 C5 C6 C7 C8] Hr Hst.
  cbn [tunnel_step down_number] in *. apply bind_Ok in Hst as ([s' out] & Hs & Hst). injection Hst as <-. cbn [fst snd].
  assert (Hen : s_Enc x = Some en) by (unfold coding, field in C1; rewrite Hx in C1; by injection C1).
  destruct (down_pushed_fit e ev id (en_server t) x Hid Hx Hi Hdg) as (F1 & F2 & F3).
  destruct (server_step_codec addr_string v p a e ev _ _ _ x en Hok ltac:(by rewrite Hi) Hx Ha Hen Hs) as (ops & fs & en' & Er & Ep & Hc' & He).
  set (pu := down_pushed v p ev (en_server t)) in *.
  assert (HP : pushes_ok id (P ++ pu)).
  { split; [apply Forall_app; split; [apply C4|done]|by rewrite map_app, C6|].
    rewrite <-C6, <-map_app, length_map in Hlen. exact Hlen. }
  assert (Hpl : Forall plain_frame (P ++ pu)) by (by apply Forall_app).
  rewrite <-Ep in HP. destruct (run_sealed k id Hk ops U bl P en fs en' HP C2 C3 Er) as (u & z & Hsl & Ho & Hw). rewrite Ep in Hsl, HP.
  exists en', (U ++ u), (bl ++ z), (P ++ pu). split; [|by eapply receiver_grows; [| |exact Hr]].
  split; cbn [en_server en_down en_egressed]; try done.
  - by rewrite map_app, C6.
  - rewrite map_app. by apply sublist_app.
  - intros b [Hb|Hb]%elem_of_app.
    + destruct (C8 b Hb) as (f & S1 & S2 & Hor). exists f. split_and!; [done..|].
      destruct Hor as [?|(g & Hg & Hsent)]; [by left|right]. exists g. split; [by apply on_wire_mono|done].
    + destruct (He b Hb) as [(f & S1 & S2 & S3)|(g & f & Hg & Hsent & S1)]; [exists f; split_and!; [done..|by left]|].
      rewrite Forall_forall in Hw. specialize (Hw g Hg). exists f. split; [done|].
      split; [|right; by exists g]. eapply on_wire_wf in Hw; [|done..].
      destruct Hsent as [->|(_ & q & Hq & ->)]; [done|by apply wf_set_seq].
Qed.

(** What comes out of a block was pushed, and so was what is passed on. *)
Lemma block_carries id k pd U bl P en D d E :
  sealed_so_far k id U bl P en → follows id k pd (own_book id bl) (D ++ E) d → Forall (carries P) (map hand E).
Proof.
  intros Hs Hf. apply Forall_map, Forall_forall. intros [key f] Hin.
  destruct (fo_done _ _ _ _ _ _ Hf key f) as (_ & b & (_ & _ & Hb)%own_book_inv & Hfb); [apply elem_of_app; by right|].
  exists f. split; [|done]. eapply elem_of_submseteq; [|apply (ss_data _ _ _ _ _ _ Hs)].
  rewrite !elem_of_app. right. left. apply list_elem_of_In, in_concat. exists b.1. split; [|by apply list_elem_of_In].
  apply list_elem_of_In, list_elem_of_fmap. exists b. split; [done|by eapply list_elem_of_lookup_2].
Qed.

(** An authentic frame that is no PONG makes the decoder hand out datagrams. *)
Lemma recv_decodes a id k pd U bl P en D d d' b plain f path now fs `{!AEADLaws a} :
  CrossPath pd = true → Enabled pd = true → pushes_ok id P → sealed_so_far k id U bl P en →
  coded_down id k a U bl b → Open a DirServerToClient b = Ok plain → Decode plain = Ok f → HasFlag f FlagPong = false →
  follows id k pd (own_book id bl) D d → lone id d → Decoder_Push now path f d = Ok (fs, d') →
  ∃ E, follows id k pd (own_book id bl) (D ++ E) d' ∧ lone id d' ∧ Forall (carries P) fs.
Proof.
  intros Hcr Hon HP Hs (f0 & Hs0 & Hwf & Hor) Ho Hd Hpong Hf Hl Hpush.
  destruct (sealing_opens _ _ _ _ Hwf Hs0) as (n & plain0 & Ho0 & Hd0 & Hn).
  assert (plain0 = plain) as -> by congruence. rewrite Hd in Hd0. injection Hd0 as ->.
  destruct Hor as [Hpf|(g & Hgw & Hsent)].
  { unfold HasFlag in Hpong. cbn [f_flags set_version set_block] in Hpong. rewrite Hpf in Hpong. discriminate Hpong. }
  pose proof (λ key b, own_book_sound id k U bl P en key b HP Hs) as Hbook.
  destruct (own_frame id k pd Hcr U bl P en g f0 n path HP Hs Hgw Hsent Hn) as (Hfid & Hcase).
  destruct (push_lone id now path _ d fs d' (fo_known _ _ _ _ _ _ Hf) Hl Hfid Hpush) as [Hl' Hses].
  destruct Hcase as [(u & Hu & Hun & Hseq & Hpay)|(Hun & Hgid & Hgen & Heq)].
  - destruct (push_follows id k pd _ Hbook Hon _ path _ D _ fs _ Hf (λ _, or_introl Hun) Hpush) as (E & Eo & Hf').
    rewrite Hun, !own_all in Eo; [|by apply Forall_singleton|done]. exists E. split_and!; [done..|]. rewrite Eo.
    apply Forall_app. split; [|by eapply block_carries]. apply Forall_singleton. exists u.
    split; [eapply elem_of_submseteq; [exact Hu|by eapply sealed_passes]|]. unfold numbered. by rewrite Hseq, Hpay.
  - rewrite Heq in Hpush by (by rewrite (fo_params _ _ _ _ _ _ Hf)).
    destruct (push_follows id k pd _ Hbook Hon _ path _ D _ fs _ Hf (λ _, Hgen) Hpush) as (E & Eo & Hf').
    rewrite Hun, own_all in Eo by done. exists E. split_and!; [done..|]. rewrite Eo. by eapply block_carries.
Qed.

Lemma tick_decodes id k pd U bl P en D d now :
  Enabled pd = true → pushes_ok id P → sealed_so_far k id U bl P en → follows id k pd (own_book id bl) D d → lone id d →
  ∃ E, follows id k pd (own_book id bl) (D ++ E) (Decoder_Tick now d).2 ∧ lone id (Decoder_Tick now d).2 ∧
    Forall (carries P) (Decoder_Tick now d).1.
Proof.
  intros Hon HP Hs Hf Hl.
  pose proof (λ key b, own_book_sound id k U bl P en key b HP Hs) as Hbook.
  destruct (tick_lone id now d Hl) as [Hl' Hses]. destruct (tick_follows id k pd _ Hbook Hon now D d Hf) as (E & Eo & Hf').
  rewrite own_all in Eo by done. exists E. split_and!; [done..|]. rewrite Eo. by eapply block_carries.
Qed.

(** The delivery buffer is given frames that carry datagrams. *)
Lemma push_carries (P : list frame) now dl O fs gs dl' :
  now ≠ 0 → Forall seq_ok (map f_seq P) → dinv dl O → (∀ g, g ∈ O ∨ d_pending dl !! f_seq g = Some g → carries P g) →
  Forall (carries P) fs → Delivery_Push now dl fs = (gs, dl') →
  dinv dl' (O ++ gs) ∧ ∀ g, g ∈ O ++ gs ∨ d_pending dl' !! f_seq g = Some g → carries P g.
Proof.
  intros Hnow Hq Hinv Hfrom Hfs Hp.
  assert (Hqs : Forall (λ f, seq_ok (f_seq f)) fs).
  { eapply Forall_impl; [exact Hfs|]. intros g (f & Hf & [= E _]). rewrite Forall_forall in Hq. rewrite <-E.
    apply Hq, list_elem_of_fmap. by exists f. }
  pose proof (Delivery_Push_inv now dl O fs Hinv Hqs Hnow) as H. rewrite Hp in H. destruct H as (H1 & _ & _ & H2).
  split; [done|]. rewrite Forall_forall in Hfs. intros g. rewrite elem_of_app.
  intros [[Hg|Hg]|Hg]; [apply Hfrom; by left| |].
  - destruct (H2 g (or_introl Hg)) as [?|?]; auto.
  - destruct (H2 g (or_intror Hg)) as [?|?]; auto.
Qed.

Lemma tick_carries (P : list frame) now dl O gs dl' :
  dinv dl O → (∀ g, g ∈ O ∨ d_pending dl !! f_seq g = Some g → carries P g) → Delivery_Tick now dl = (gs, dl') →
  dinv dl' (O ++ gs) ∧ ∀ g, g ∈ O ++ gs ∨ d_pending dl' !! f_seq g = Some g → carries P g.
Proof.
  intros Hinv Hfrom Ht. pose proof (Delivery_Tick_inv now dl O Hinv) as H. rewrite Ht in H. destruct H as (H1 & _ & H2).
  split; [done|]. intros g. rewrite elem_of_app. intros [[Hg|Hg]|Hg]; apply Hfrom; auto.
Qed.

Lemma coded_down_client a id k y pd nums now ev t t' en U bl P d D O H :
  AEADLaws a → CrossPath pd = true → Enabled pd = true → Forall seq_ok nums →
  admissible a t (TClient now ev) → link_ok p sock a id t → down_sender a id k nums t en U bl P →
  down_receiver id k y pd t bl P d D O H → step (TClient now ev) t = Ok t' →
  down_sender a id k nums t' en U bl P ∧ ∃ d D O H, down_receiver id k y pd t' bl P d D O H.
Proof.
  intros La Hcr Hon Hq [Hnow Had] [Hkey _ _ _ _] [C1 C2 C3 C4 C5 C6 C7 C8] [R1 R2 R3 R4 R5 R6 R7] Hst.
  cbn [tunnel_step] in Hst. apply bind_Ok in Hst as ([c' out] & Hc & Hst). injection Hst as <-. cbn [fst snd].
  split; [by split|]. rewrite <-C6 in Hq.
  destruct (client_step_decodes inner_string unmarshal cc a now ev y d _ _ _ Hkey R1 Hc) as (d' & Hh & Hdec).
  assert (Hfin : ∀ D' gs, follows id k pd (own_book id bl) D' d' → lone id d' → hands gs out →
    dinv (cl_delivery c') (O ++ gs) ∧ (∀ g, g ∈ O ++ gs ∨ d_pending (cl_delivery c') !! f_seq g = Some g → carries P g) →
    ∃ d D O H, down_receiver id k y pd (mkEnds c' (en_server t) (en_up t ++ sent_up out) (en_down t)
      (en_ingested t ++ ingested_by ev) (en_served t) (en_egressed t) (en_delivered t ++ delivered_by out)) bl P d D O H).
  { intros D' gs Hf Hl Hg [Hi Hc']. destruct (sublist_hands H O gs out R6 Hg) as (H' & HS & HP).
    exists d', D', (O ++ gs), H'. split; try done. cbn. by rewrite HP, R7. }
  destruct Hdec as [[(B1 & B2 & B3 & B4) [E1 E2]]|[(i & b & plain & f & path & fs & gs & -> & Ho & Hd & Hpong & Hpush & Hp & Hg)|
    (fs & gs1 & gs2 & dl & Ht & Hp & Hdt & Hg)]].
  - pose proof (λ key b, own_book_sound id k U bl P en key b C4 C3) as Hbook.
    apply (Hfin D []); [by apply (follows_same id k pd _ Hbook D d)|intros key st; rewrite B2; apply R3|by left|]. by rewrite app_nil_r, E1.
  - assert (Hb : coded_down id k a U bl b) by (apply C8, Had; unfold opens; by rewrite Ho).
    destruct (recv_decodes a id k pd U bl P en D d d' b plain f path now fs Hcr Hon C4 C3 Hb Ho Hd Hpong R2 R3 Hpush) as (E & Hf & Hl & Hfs).
    apply (Hfin (D ++ E) gs); [done..|]. exact (push_carries P now _ O fs gs _ ltac:(lia) Hq R4 R5 Hfs Hp).
  - destruct (tick_decodes id k pd U bl P en D d now Hon C4 C3 R2 R3) as (E & Hf & Hl & Hfs). rewrite Ht in Hf, Hl, Hfs.
    destruct (push_carries P now _ O fs gs1 dl ltac:(lia) Hq R4 R5 Hfs Hp) as [Hi1 Hc1].
    destruct (tick_carries P now dl (O ++ gs1) gs2 _ Hi1 Hc1 Hdt) as [Hi2 Hc2]. rewrite <-app_assoc in Hi2, Hc2.
    by apply (Hfin (D ++ E) (gs1 ++ gs2)).
Qed.

(** The whole invariant, over a run. *)
Definition coded_down_inv (a : AEAD) (id k : Z) (y : nat) (pd : Params) (nums : list Z) t : Prop :=
  link_ok p sock a id t ∧
  ∃ en U bl P d D O H, down_sender a id k nums t en U bl P ∧ down_receiver id k y pd t bl P d D O H.

Lemma coded_down_consume a id k y pd nums i t t' :
  step (TConsume i) t = Ok t' → link_ok p sock a id t' → coded_down_inv a id k y pd nums t →
  coded_down_inv a id k y pd nums t'.
Proof.
  intros Hst Hl [_ (en & U & bl & P & d & D & O & H & [C1 C2 C3 C4 C5 C6 C7 C8] & [R1 R2 R3 R4 R5 R6 R7])]. split; [done|].
  cbn [tunnel_step] in Hst. pose proof (consume_keeps i (en_client t)) as K.
  assert (E : cl_codecs (consume i (en_client t)).1 = cl_codecs (en_client t) ∧
    cl_delivery (consume i (en_client t)).1 = cl_delivery (en_client t)).
  { unfold consume. destruct (_ ≫= _) as [s|]; [|done]. by destruct (popNext s). }
  destruct (consume i (en_client t)) as [c' bs]. injection Hst as <-. cbn [fst snd] in *. destruct E as [E1 E2].
  exists en, U, bl, P, d, D, O, H. split; [by split|].
  split; cbn [en_client en_delivered]; rewrite ?E2; try done.
  eapply hears_keeps; [exact R1|exact K|]. unfold decoders. rewrite E1. apply R1.
Qed.

Lemma coded_down_run a id k y pd evs nums t t' :
  AEADLaws a → is_u64 id → 1 ≤ k ≤ 255 → CrossPath pd = true → Enabled pd = true → Forall down_datagram evs →
  StronglySorted Z.lt (nums ++ down_numbers evs t) → Forall seq_ok (nums ++ down_numbers evs t) →
  admissible_run addr_string inner_string unmarshal v cc p sock a evs t → run evs t = Ok t' →
  coded_down_inv a id k y pd nums t →
  ∃ nums', StronglySorted Z.lt nums' ∧ coded_down_inv a id k y pd nums' t'.
Proof.
  intros La Hid Hk Hcr Hon. revert nums t. induction evs as [|ev evs IH]; intros nums t Hdg Hso Hq Had Hr Hi;
    cbn [tunnel_run] in Hr.
  { injection Hr as <-. exists nums. cbn [down_numbers] in Hso. by rewrite app_nil_r in Hso. }
  apply bind_Ok in Hr as (t1 & H1 & Hr). cbn [admissible_run down_numbers] in Had, Hso, Hq. rewrite H1 in Had, Hso, Hq.
  destruct Had as [Ha1 Ha2]. apply Forall_cons_1 in Hdg as [Hd1 Hdg]. rewrite app_assoc in Hso, Hq.
  apply (IH (nums ++ down_number t ev) t1); try done. clear IH Ha2 Hr Hdg.
  pose proof (StronglySorted_app_1_l _ _ _ Hso) as Hso1. apply Forall_app in Hq as [Hq1 _].
  assert (Hl1 : link_ok p sock a id t1) by (by eapply link_step; [..|apply Hi]).
  destruct ev as [now ev|i|e ev]; cbn [down_number] in *; rewrite ?app_nil_r in *; [|by eapply coded_down_consume|].
  - destruct Hi as [Hl (en & U & bl & P & d & D & O & H & Hs & Hrc)]. split; [done|].
    destruct (coded_down_client a id k y pd nums now ev t t1 en U bl P d D O H La Hcr Hon Hq1 Ha1 Hl Hs Hrc H1)
      as (Hs' & d' & D' & O' & H' & Hrc'). by exists en, U, bl, P, d', D', O', H'.
  - destruct Hi as [Hl (en & U & bl & P & d & D & O & H & Hs & Hrc)]. split; [done|].
    destruct (sorted_numbers _ 1 (2 ^ 31) Hso1 Hq1) as [Hnd Hlen].
    assert (Hlen' : Z.of_nat (length (nums ++ down_number t (TServer e ev))) < 2 ^ 32).
    { cbn [down_number]. destruct Hlen as [->|?]; [done|lia]. }
    destruct (coded_down_server a id k y pd nums e ev t t1 en U bl P d D O H Hid Hk Hd1 Hnd Hlen' Hl Hs Hrc H1)
      as (en' & U' & bl' & P' & Hs' & Hrc'). by exists en', U', bl', P', d, D, O, H.
Qed.

(** What the logs say about the two WireGuard sides. *)
Lemma coded_delivered a id k y pd nums t :
  StronglySorted Z.lt nums → coded_down_inv a id k y pd nums t → en_delivered t `sublist_of` en_egressed t.
Proof.
  intros Hso [_ (en & U & bl & P & d & D & O & H & [_ _ _ _ _ C6 C7 _] & [_ _ _ R4 R5 R6 R7])].
  rewrite <-R7. etrans; [|exact C7].
  assert (HDn : (numbered <$> H) `sublist_of` (numbered <$> P)).
  { etrans; [by apply sublist_fmap, R6|]. apply numbered_sublist.
    - rewrite <-list_fmap_compose. exact (di_sorted _ _ R4).
    - rewrite <-list_fmap_compose. change (StronglySorted Z.lt (map f_seq P)). by rewrite C6.
    - intros z (g & -> & Hg)%list_elem_of_fmap. destruct (R5 g (or_introl Hg)) as (f & Hf & <-).
      apply list_elem_of_fmap. by exists f. }
  apply (sublist_fmap snd) in HDn. by rewrite <-!list_fmap_compose in HDn.
Qed.

(** The two ends at the start of the coding: the session codes with the encoder
    [en] just built from [pr], the client files by session what all its WANs
    receive, in a decoder that holds nothing. *)
Record down_starts (pr : Params) (y : nat) (en : Encoder) (d : Decoder) t : Prop := {
  dn_coding : coding p en (en_server t);
  dn_new : NewEncoder pr = Ok en;
  dn_data : 1 ≤ DataShards (e_params en) ≤ 255;
  dn_parity : 1 ≤ ParityShards pr < 2 ^ 16;
  dn_hears : hears y d (en_client t);
  dn_on : Enabled (dec_params d) = true;
  dn_cross : CrossPath (dec_params d) = true;
  dn_known : known d;
  dn_fresh : blocks d = ∅;
}.

End downlink.
