(* ===== verification/EndToEnd.v ===== *)
(** * An established tunnel at work

    Runs of the whole tunnel over a network that reorders, repeats, loses,
    redirects and forges, on the sample client and server: datagrams in both
    directions, and a block of the shared erasure code going up. *)

From S2P Require Import Prelude Float64 Frame Replay Delivery Health SendQueue Scheduler FecCodec FecEncoder FecDecoder FecRecovery FecStreams FecIsolation Sha256 Crypto Session Config TunnelParams Server Client ClientProps Wire Handshake Tunnel Uplink CodedUplink Downlink CodedDownlink.

#[local] Open Scope string_scope.
#[local] Open Scope Z_scope.
#[local] Open Scope list_scope.

Section demo.
#[local] Existing Instances key_order sum_ciphers dh_exchange.

Abbreviation id_string := (λ a : string, a).

(** The sample server without FEC. *)
Definition plain_cfg : server_cfg :=
  mkServerCfg (v_psk demo_cfg) (v_cipher demo_cfg) (v_baseAEAD demo_cfg) plain_params (v_ann demo_cfg)
    (v_schedMode demo_cfg) (v_balanceBy demo_cfg) (v_capacityCap demo_cfg) (v_health demo_cfg) (v_mtu demo_cfg).

Definition plain_tunnel : ends string string unit := mkEnds plain_client plain_server [] [] [] [] [] [].

Abbreviation plain_key := (sum_aead sample_key).
Abbreviation plain_run := (tunnel_run id_string id_string demo_unmarshal plain_cfg demo_ccfg 0%nat 109).

Definition quiet_env (n : Z) : env unit := mkEnv (unix_nano (n * second)) None None tt.
Abbreviation at_client n ev := (TClient (unix_nano (n * second)) ev).
Abbreviation at_server n ev := (TServer (quiet_env n) ev).

Definition inner (n : byte) : list byte := [x45; n; x02; x03].
Definition take_in (n : Z) (b : byte) : tunnel_event string string unit :=
  at_client n (CIngress "127.0.0.1:51820" (inner b)).
Definition send_out (n : Z) (b : byte) : tunnel_event string string unit := at_server n (EvEgress 0%nat (inner b)).

(** The frames of the first datagrams, up and down. *)
Definition ends_of (r : res unit (ends string string unit)) : ends string string unit := ok_or plain_tunnel r.
Definition first_steps : list (tunnel_event string string unit) :=
  [take_in 1 x0a; take_in 2 x0b; take_in 2 x0c; send_out 3 x1a; send_out 3 x1b; send_out 3 x1c].
Definition on_the_wire : ends string string unit := ends_of (plain_run first_steps plain_tunnel).
Definition up_frame (k : nat) : list byte := default [] (en_up on_the_wire !! k).
Definition down_frame (k : nat) : list byte := default [] (en_down on_the_wire !! k).

(** Frames arrive out of order, twice, from elsewhere, forged; the third one in
    each direction is lost. *)
Definition demo_steps : list (tunnel_event string string unit) :=
  first_steps ++
  [at_server 4 (EvFrame (up_frame 1) (Some "10.0.0.1:4000")); at_server 4 (EvFrame (up_frame 0) (Some "10.0.0.2:4000"));
   at_server 4 (EvFrame (up_frame 1) (Some "10.6.6.6:1")); at_server 4 (EvFrame (<[30%nat := xff]> (up_frame 2)) None);
   at_client 5 (CRecv 1 (down_frame 1)); at_client 5 (CRecv 0 (down_frame 0)); at_client 5 (CRecv 0 (down_frame 1));
   at_client 5 (CRecv 0 (<[30%nat := xff]> (down_frame 2))); at_client 6 CFecTick; TConsume 0;
   at_server 6 EvFecTick; at_server 7 EvHealthTick; at_client 7 CHealthTick; at_client 8 (CHandshake 0)].
Definition demo_tunnel : ends string string unit := ends_of (plain_run demo_steps plain_tunnel).

Lemma demo_tunnel_facts :
  is_Ok (plain_run demo_steps plain_tunnel) = true ∧
  check_run id_string id_string demo_unmarshal plain_cfg demo_ccfg 0%nat 109 plain_key demo_steps plain_tunnel = true ∧
  en_ingested demo_tunnel = [inner x0a; inner x0b; inner x0c] ∧ en_served demo_tunnel = [inner x0b; inner x0a] ∧
  en_egressed demo_tunnel = [inner x1a; inner x1b; inner x1c] ∧ en_delivered demo_tunnel = [inner x1a; inner x1b].
Proof. split_and!; vm_compute; reflexivity. Qed.

(** ** The state after the key exchange *)

Lemma plain_server_ok : server_ok plain_server.
Proof.
  split; cbn.
  - unfold Count. cbn. rewrite map_size_singleton. unfold maxSessions. lia.
  - apply table_ok_empty.
  - intros id st. cbn. rewrite lookup_singleton_Some. intros [_ <-]. cbn. rewrite map_size_empty. lia.
  - intros q x. unfold session_at. cbn. rewrite lookup_singleton_Some. intros [_ <-]. exists []. apply default_window_inv.
  - intros id q. rewrite lookup_singleton_Some. intros [<- <-]. exists plain_session. split; [|done].
    unfold session_at. cbn. apply lookup_singleton_eq.
  - intros q x. unfold session_at. cbn. rewrite lookup_singleton_Some. intros [_ <-]. apply sum_aead_laws.
Qed.

Lemma plain_session_only q x : session_at q plain_server = Some x → q = 0%nat ∧ x = plain_session.
Proof. unfold session_at. cbn. rewrite lookup_singleton_Some. by intros [<- <-]. Qed.

Lemma plain_codecs_off :
  forallb (λ en, negb (Enabled (e_params en))) (map_to_list (h_encs (k_heap (cl_codecs plain_client)))).*2 = true ∧
  forallb (λ d, negb (Enabled (dec_params d))) (map_to_list (h_decs (k_heap (cl_codecs plain_client)))).*2 = true ∧
  Enabled (e_params plain_enc) = false ∧ queues plain_client = [None; None] ∧ c_ID (cl_sess plain_client) = 77.
Proof. split_and!; vm_compute; reflexivity. Qed.

Lemma forallb_lookup {A} (f : A → bool) (m : gmap nat A) k x :
  forallb f (map_to_list m).*2 = true → m !! k = Some x → f x = true.
Proof.
  intros Hm Hk%elem_of_map_to_list. rewrite forallb_forall in Hm. apply Hm, list_elem_of_In, list_elem_of_fmap.
  by exists (k, x).
Qed.

Lemma plain_client_off : client_off plain_client.
Proof.
  destruct plain_codecs_off as (He & Hd & _). split; intros k y Hk; apply negb_true_iff.
  - exact (forallb_lookup _ _ _ _ He Hk).
  - exact (forallb_lookup _ _ _ _ Hd Hk).
Qed.

Lemma plain_server_off : server_off plain_server.
Proof.
  destruct plain_codecs_off as (_ & _ & He & _). split; [reflexivity|]. intros q x en [_ ->]%plain_session_only.
  intros [= <-]. exact He.
Qed.

Lemma plain_established : established 0%nat 109 plain_key plain_tunnel.
Proof.
  destruct plain_codecs_off as (_ & _ & _ & Hq & Hid). split; cbn [plain_tunnel en_client en_server].
  - reflexivity.
  - rewrite Hid. unfold_int. lia.
  - exists plain_session. rewrite Hid. split_and!; reflexivity.
  - by intros q x [-> _]%plain_session_only.
  - exact plain_server_ok.
  - intros b (s & Hin & _). rewrite Hq in Hin. exfalso. by repeat apply elem_of_cons in Hin as [[=]|Hin]; apply elem_of_nil in Hin.
  - split_and!; reflexivity.
Qed.

Lemma uplink_integrity_witness :
  en_served demo_tunnel = [inner x0b; inner x0a] ∧ en_served demo_tunnel ⊆+ en_ingested demo_tunnel.
Proof.
  destruct demo_tunnel_facts as (B & Hc & _ & Hs & _). split; [exact Hs|]. pose proof demo_laws as L.
  exact (uplink_integrity id_string id_string demo_unmarshal plain_cfg demo_ccfg 0%nat 109 plain_key plain_tunnel
    demo_steps demo_tunnel plain_established plain_client_off plain_server_off eq_refl (sum_aead_laws _)
    (check_run_sound _ _ _ _ _ _ _ _ _ _ Hc) (ok_or_Ok _ _ B)).
Defined.


(** ** A block of the shared code going up *)

(** The announce of cross-path coding, three data frames and a parity frame to
    the block, and the two ends after it. *)
Definition cross_fec : FEC := mkFEC true FECCrosspath 3 (of_Z 5) 8 f0 f0 f0 f0 (of_dec 2 10).
Definition cross_params : Params := ok_or plain_params (fecParamsFor cross_fec 1380 None).
Definition cross_enc : Encoder := ok_or null_enc (NewEncoder cross_params).
Definition cross_codecs : codecs :=
  (applyAnnounce (λ _, Some (mkAnnounce AnnounceVersion 1380 cross_fec)) [x7b; x7d] (cl_codecs plain_client)).2.
Definition cross_slot : nat := default 0%nat (k_xenc cross_codecs).
Definition cross_dslot : nat := default 0%nat (k_xdec cross_codecs).
Definition cross_dec : Decoder := NewDecoder cross_params.
Definition cross_cfg : server_cfg :=
  mkServerCfg (v_psk demo_cfg) (v_cipher demo_cfg) (v_baseAEAD demo_cfg) cross_params (v_ann demo_cfg)
    (v_schedMode demo_cfg) (v_balanceBy demo_cfg) (v_capacityCap demo_cfg) (v_health demo_cfg) (v_mtu demo_cfg).
Definition cross_server : server string unit :=
  set_dec (NewDecoder cross_params) (on_session 0%nat (set_codec cross_enc []) plain_server).
Definition cross_tunnel : ends string string unit :=
  mkEnds (set_codecs cross_codecs plain_client) cross_server [] [] [] [] [] [].
Abbreviation cross_run := (tunnel_run id_string id_string demo_unmarshal cross_cfg demo_ccfg 0%nat 109).

Definition block_steps : list (tunnel_event string string unit) := [take_in 1 x0a; take_in 1 x0b; take_in 1 x0c].
Definition cross_frame (k : nat) : list byte := default [] (en_up (ends_of (cross_run block_steps cross_tunnel)) !! k).

(** Up: the parity frame comes first and from elsewhere; the second data frame is
    lost, a forgery of it arrives; the third one arrives twice. Then four
    datagrams are sent down, a block and a block cut short. *)
Definition both_steps : list (tunnel_event string string unit) :=
  block_steps ++
  [at_server 2 (EvFrame (cross_frame 3) (Some "10.6.6.6:1")); at_server 2 (EvFrame (cross_frame 2) (Some "10.0.0.1:4000"));
   at_server 2 (EvFrame (<[30%nat := xff]> (cross_frame 1)) None); at_server 2 (EvFrame (cross_frame 2) None);
   at_server 2 (EvFrame (cross_frame 0) (Some "10.0.0.2:4000")); take_in 3 x0d;
   send_out 3 x1a; send_out 3 x1b; send_out 3 x1c; send_out 3 x1d; at_server 4 EvFecTick].
Definition cross_back (k : nat) : list byte := default [] (en_down (ends_of (cross_run both_steps cross_tunnel)) !! k).

(** Down: again the parity frame first, a frame twice, one lost and forged. *)
Definition cross_steps : list (tunnel_event string string unit) :=
  both_steps ++
  [at_client 5 (CRecv 0 (cross_back 3)); at_client 5 (CRecv 1 (cross_back 2)); at_client 5 (CRecv 1 (cross_back 2));
   at_client 5 (CRecv 1 (<[30%nat := xff]> (cross_back 1))); at_client 5 (CRecv 0 (cross_back 0));
   at_client 6 (CRecv 1 (cross_back 4)); at_client 7 CFecTick; at_client 8 CFecTick].
Definition cross_end : ends string string unit := ends_of (cross_run cross_steps cross_tunnel).

Lemma cross_facts :
  is_Ok (cross_run cross_steps cross_tunnel) = true ∧
  check_run id_string id_string demo_unmarshal cross_cfg demo_ccfg 0%nat 109 plain_key cross_steps cross_tunnel = true ∧
  numbers id_string id_string demo_unmarshal cross_cfg demo_ccfg 0%nat 109 cross_steps cross_tunnel = [1; 2; 3; 5] ∧
  down_numbers id_string id_string demo_unmarshal cross_cfg demo_ccfg 0%nat 109 cross_steps cross_tunnel = [1; 2; 3; 5] ∧
  en_served cross_end = [inner x0a; inner x0b; inner x0c] ∧
  en_delivered cross_end = [inner x1a; inner x1b; inner x1c; inner x1d].
Proof. split_and!; vm_compute; reflexivity. Qed.

Lemma cross_built : fecParamsFor cross_fec 1380 None = Ok cross_params ∧ NewEncoder cross_params = Ok cross_enc.
Proof.
  assert (F : is_Ok (fecParamsFor cross_fec 1380 None) = true ∧ is_Ok (NewEncoder cross_params) = true)
    by (split; vm_compute; reflexivity).
  destruct F as [F1 F2]. split; [exact (ok_or_Ok plain_params _ F1)|exact (ok_or_Ok null_enc _ F2)].
Qed.

(** The client's codecs after the announce: one pair for all its WANs. *)
Lemma cross_adopted :
  k_crossPath cross_codecs = true ∧
  Forall (λ w, wc_enc w = k_xenc cross_codecs ∧ wc_dec w = k_xdec cross_codecs) (k_wans cross_codecs) ∧
  enc_at (k_xenc cross_codecs) cross_codecs = Some cross_enc ∧
  dec_at (k_xdec cross_codecs) cross_codecs = Some cross_dec.
Proof.
  destruct cross_built as [Hp He].
  destruct (announce_adopted (λ _, Some (mkAnnounce AnnounceVersion 1380 cross_fec)) cross_fec 1380 cross_params
    cross_enc [x7b; x7d] (cl_codecs plain_client)) as (k' & Hk & _ & Hx & _ & Hsh & _).
  { vm_compute. reflexivity. } { exact Hp. } { exact He. } { discriminate. } { reflexivity. } { intros E. discriminate E. }
  assert (E : cross_codecs = k') by (unfold cross_codecs; by rewrite Hk).
  change (k_crossPath k' = true) in Hx. rewrite Hx in Hsh. rewrite E. split; [exact Hx|exact Hsh].
Qed.

Lemma at_slot {A} (o : option nat) (m : gmap nat A) x : (p ← o; m !! p) = Some x → o = Some (default 0%nat o) ∧ m !! default 0%nat o = Some x.
Proof. destruct o; [done|discriminate]. Qed.

Lemma cross_codes : codes cross_slot cross_enc (en_client cross_tunnel).
Proof.
  destruct cross_adopted as (Hx & _ & He & _). destruct (at_slot _ _ _ He) as [H1 H2].
  split; [exact Hx|exact H1|exact H2].
Qed.

Lemma cross_hears : hears cross_dslot cross_dec (en_client cross_tunnel).
Proof.
  destruct cross_adopted as (Hx & Hw & _ & Hd). destruct (at_slot _ _ _ Hd) as [H1 H2].
  split; [exact Hx|exact H1| |exact H2]. intros i q. unfold slot_dec. change (cl_codecs (en_client cross_tunnel)) with cross_codecs.
  destruct (k_wans cross_codecs !! i) as [w|] eqn:E; [|discriminate]. cbn [mbind option_bind].
  destruct (proj1 (Forall_lookup _ _) Hw i w E) as [_ ->]. rewrite H1. intros H. symmetry. exact (inj Some _ _ H).
Qed.

Lemma cross_starts : coding_starts cross_params cross_slot cross_enc cross_tunnel.
Proof.
  assert (F : DataShards (e_params cross_enc) = 3 ∧ ParityShards cross_params = 1 ∧ Enabled cross_params = true ∧
    CrossPath cross_params = true) by (split_and!; vm_compute; reflexivity).
  destruct F as (Hk & Hp & He & Hc). split.
  - exact cross_codes.
  - exact (proj2 cross_built).
  - rewrite Hk. lia.
  - rewrite Hp. lia.
  - exact He.
  - exact Hc.
  - intros p rs E. discriminate E.
  - intros key st E. discriminate E.
Qed.

(** The key exchange stands whatever codecs it leaves. *)
Lemma established_codecs p sock a k d en pub (c : client string unit) (s : server string unit) :
  established p sock a (mkEnds c s [] [] [] [] [] []) →
  established p sock a (mkEnds (set_codecs k c) (set_dec d (on_session p (set_codec en pub) s)) [] [] [] [] [] []).
Proof.
  intros [H1 H2 (x & Hx & Hxa & Hxs & Hxi) H4 [K1 K2 K3 K4 K5 K6] H6 H7]. cbn [en_client en_server] in *.
  assert (Hs : ∀ q z, session_at q (set_dec d (on_session p (set_codec en pub) s)) = Some z →
    ∃ y, session_at q s = Some y ∧ s_ID z = s_ID y ∧ s_aead z = s_aead y ∧ s_egress z = s_egress y ∧ s_replay z = s_replay y).
  { intros q z. change (session_at q (set_dec d ?s)) with (session_at q s). rewrite session_on_session.
    case_decide as Hq; [subst q|intros Hz; by exists z]. intros (y & Hy & ->)%fmap_Some. by exists y. }
  split; cbn [en_client en_server]; try done.
  - exists (set_codec en pub x). split_and!; [|done..]. change (session_at p (on_session p (set_codec en pub) s) = Some (set_codec en pub x)).
    rewrite session_on_session, decide_True, Hx by done. done.
  - intros q z (y & Hy & _ & _ & -> & _)%Hs. by apply H4.
  - split; try done.
    + intros q z (y & Hy & _ & _ & _ & ->)%Hs. by eapply K4.
    + intros id q Hq. destruct (K5 id q Hq) as (y & Hy & Hi). unfold session_at in *. cbn.
      destruct (decide (q = p)) as [->|Hne]; [exists (set_codec en pub y); rewrite lookup_alter_eq, Hy|exists y; rewrite lookup_alter_ne by done]; done.
    + intros q z (y & Hy & _ & -> & _)%Hs. by eapply K6.
Qed.

Lemma cross_established : established 0%nat 109 plain_key cross_tunnel.
Proof. apply established_codecs. exact plain_established. Qed.

Lemma coded_uplink_integrity_witness :
  en_served cross_end = [inner x0a; inner x0b; inner x0c] ∧ en_served cross_end ⊆+ en_ingested cross_end.
Proof.
  destruct cross_facts as (B & Hc & Hn & _ & Hs & _). split; [exact Hs|]. pose proof demo_laws as L.
  refine (coded_uplink_integrity id_string id_string demo_unmarshal cross_cfg demo_ccfg 0%nat 109 plain_key cross_params
    cross_slot cross_enc cross_tunnel cross_steps cross_end cross_established (sum_aead_laws _) cross_starts _ _ _
    (check_run_sound _ _ _ _ _ _ _ _ _ _ Hc) (ok_or_Ok _ _ B)).
  - unfold cross_steps, both_steps, block_steps. cbn [app].
    repeat (apply Forall_cons_2; [first [exact I|split; reflexivity]|]). apply Forall_nil_2.
  - rewrite Hn. apply (bool_decide_unpack _). vm_compute. exact I.
  - rewrite Hn. reflexivity.
Defined.

Lemma cross_down_starts : down_starts 0%nat cross_params cross_dslot cross_enc cross_dec cross_tunnel.
Proof.
  destruct cross_starts as [_ Hn Hk Hp He Hc Hkn _]. split.
  - assert (H : coding 0%nat plain_enc plain_server).
    { unfold coding, field, session_at. cbn [plain_server sv_world heap]. by rewrite lookup_singleton_eq. }
    exact (coding_set 0%nat plain_enc cross_enc (λ _, []) plain_server H).
  - exact Hn.
  - exact Hk.
  - exact Hp.
  - exact cross_hears.
  - exact He.
  - exact Hc.
  - exact Hkn.
  - reflexivity.
Qed.

End demo.
