(* ===== verification/Reload.v ===== *)
(** * Runtime reload (internal/tunnel/reload.go)

    Which configuration changes a running client or server takes over, and what
    they change. *)

From S2P Require Import Prelude Float64 Frame Replay Delivery Health Scheduler FecCodec FecEncoder FecDecoder Crypto Session Config TunnelParams Client Server.

#[local] Open Scope string_scope.
#[local] Open Scope Z_scope.
#[local] Open Scope list_scope.

Inductive reload_error := ErrReloadRequiresRestart | ErrParams (e : string).

(** [a != b] on strings. *)
Definition differ (a b : string) : bool := negb (String.eqb a b).

(** The comparison of one WAN. *)
Definition wan_changed (a b : WAN) : bool :=
  differ (w_ID a) (w_ID b) || differ (w_Transport a) (w_Transport b) || differ (w_Iface a) (w_Iface b) ||
  differ (w_LocalIP a) (w_LocalIP b) || negb (w_FIB a =? w_FIB b).

(** The comparison of the scalar fields. *)
Definition client_changed (st nc : Config) : bool :=
  differ (cfg_Listen nc) (cfg_Listen st) || differ (cfg_Server nc) (cfg_Server st) ||
  differ (cfg_WGPeer nc) (cfg_WGPeer st) || differ (cfg_SessionID nc) (cfg_SessionID st) ||
  negb (cfg_MTU nc =? cfg_MTU st) || differ (cfg_Transport nc) (cfg_Transport st) ||
  differ (cr_Key (cfg_Crypto nc)) (cr_Key (cfg_Crypto st)) ||
  differ (cr_Cipher (cfg_Crypto nc)) (cr_Cipher (cfg_Crypto st)) ||
  differ (fec_Mode (cfg_FEC nc)) (fec_Mode (cfg_FEC st)) ||
  differ (sc_Mode (cfg_Scheduler nc)) (sc_Mode (cfg_Scheduler st)) ||
  differ (sc_Affinity (cfg_Scheduler nc)) (sc_Affinity (cfg_Scheduler st)) ||
  differ (sc_BalanceBy (cfg_Scheduler nc)) (sc_BalanceBy (cfg_Scheduler st)) ||
  negb (length (cfg_WANs nc) =? length (cfg_WANs st))%nat.

(** [clientReloadable(st, nc)]: the error, if any. *)
Definition clientReloadable (st nc : Config) : option reload_error :=
  if client_changed st nc then Some ErrReloadRequiresRestart
  else if existsb (λ ab, wan_changed ab.1 ab.2) (zip (cfg_WANs st) (cfg_WANs nc))
  then Some ErrReloadRequiresRestart
  else None.

(** The comparison of [Server.Reload], without the capacity cap. *)
Definition server_changed (st nc : Config) : bool :=
  differ (cfg_Listen nc) (cfg_Listen st) || differ (cfg_WGPeer nc) (cfg_WGPeer st) ||
  differ (cfg_SessionID nc) (cfg_SessionID st) || differ (cfg_Transport nc) (cfg_Transport st) ||
  negb (cfg_MTU nc =? cfg_MTU st) || differ (fec_Mode (cfg_FEC nc)) (fec_Mode (cfg_FEC st)) ||
  differ (cr_Key (cfg_Crypto nc)) (cr_Key (cfg_Crypto st)) ||
  differ (cr_Cipher (cfg_Crypto nc)) (cr_Cipher (cfg_Crypto st)) ||
  differ (sc_Mode (cfg_Scheduler nc)) (sc_Mode (cfg_Scheduler st)) ||
  differ (sc_BalanceBy (cfg_Scheduler nc)) (sc_BalanceBy (cfg_Scheduler st)).

(** ** The parts of a configuration a running tunnel cannot change *)

(** Addresses, key, cipher, MTU, modes and the WANs with their bindings. *)
Definition client_structure (c : Config) :=
  ((cfg_Listen c, cfg_Server c, cfg_WGPeer c, cfg_SessionID c, cfg_MTU c, cfg_Transport c),
   (cr_Key (cfg_Crypto c), cr_Cipher (cfg_Crypto c), fec_Mode (cfg_FEC c)),
   (sc_Mode (cfg_Scheduler c), sc_Affinity (cfg_Scheduler c), sc_BalanceBy (cfg_Scheduler c)),
   (λ w, (w_ID w, w_Transport w, w_Iface w, w_LocalIP w, w_FIB w)) <$> cfg_WANs c).
Definition server_structure (c : Config) :=
  ((cfg_Listen c, cfg_WGPeer c, cfg_SessionID c, cfg_MTU c, cfg_Transport c),
   (cr_Key (cfg_Crypto c), cr_Cipher (cfg_Crypto c), fec_Mode (cfg_FEC c)),
   (sc_Mode (cfg_Scheduler c), sc_BalanceBy (cfg_Scheduler c))).

Lemma differ_false a b : differ a b = false ↔ a = b.
Proof. unfold differ. rewrite negb_false_iff. apply String.eqb_eq. Qed.

Lemma zneq_false a b : negb (a =? b) = false ↔ a = b.
Proof. rewrite negb_false_iff. apply Z.eqb_eq. Qed.

Lemma wan_changed_false a b :
  wan_changed a b = false ↔
  (w_ID b, w_Transport b, w_Iface b, w_LocalIP b, w_FIB b) = (w_ID a, w_Transport a, w_Iface a, w_LocalIP a, w_FIB a).
Proof.
  unfold wan_changed. rewrite !orb_false_iff, !differ_false, zneq_false. split; [intros; destruct_and!; congruence|].
  intros [= -> -> -> -> ->]. by split_and!.
Qed.

Lemma wans_changed_false (ws ws' : list WAN) :
  length ws' = length ws →
  existsb (λ ab, wan_changed ab.1 ab.2) (zip ws ws') = false ↔
  (λ w, (w_ID w, w_Transport w, w_Iface w, w_LocalIP w, w_FIB w)) <$> ws' =
  (λ w, (w_ID w, w_Transport w, w_Iface w, w_LocalIP w, w_FIB w)) <$> ws.
Proof.
  revert ws'. induction ws as [|w ws IH]; intros [|w' ws'] Hlen; try done. injection Hlen as Hlen.
  cbn [zip zip_with existsb fst snd fmap list_fmap]. rewrite orb_false_iff, wan_changed_false. specialize (IH ws' Hlen).
  split; [intros [H1 H2]; f_equal; [exact H1|by apply IH]|].
  intros H. split; [exact (inj Some _ _ (f_equal head H))|apply IH; exact (f_equal tail H)].
Qed.

Lemma client_changed_false st nc :
  client_changed st nc = false ↔
  (client_structure nc).1 = (client_structure st).1 ∧ length (cfg_WANs nc) = length (cfg_WANs st).
Proof.
  unfold client_changed, client_structure. cbn [fst]. rewrite !orb_false_iff, !differ_false, zneq_false, negb_false_iff, Nat.eqb_eq.
  split; [intros; destruct_and!; split; congruence|]. intros [[= H1 H2 H3 H4 H5 H6 H7 H8 H9 H10 H11 H12] H]. by split_and!.
Qed.

(** [clientReloadable] accepts exactly the configurations of the same structure. *)
Lemma clientReloadable_spec st nc :
  clientReloadable st nc = if decide (client_structure nc = client_structure st) then None else Some ErrReloadRequiresRestart.
Proof.
  assert (H : client_changed st nc = false ∧
      existsb (λ ab, wan_changed ab.1 ab.2) (zip (cfg_WANs st) (cfg_WANs nc)) = false ↔
    client_structure nc = client_structure st).
  { rewrite client_changed_false. split.
    - intros [[H1 Hl] H2]. apply wans_changed_false in H2; [|done]. by apply injective_projections.
    - intros E. pose proof (f_equal snd E) as E2. cbn in E2. assert (Hl := f_equal length E2). rewrite !length_fmap in Hl.
      split; [split; [by rewrite E|done]|]. by apply wans_changed_false. }
  unfold clientReloadable. destruct (decide _) as [E|E].
  - apply H in E as [-> ->]. done.
  - destruct (client_changed st nc); [done|]. destruct (existsb _ _); [done|]. by destruct E; apply H.
Qed.

Lemma server_changed_false st nc : server_changed st nc = false ↔ server_structure nc = server_structure st.
Proof.
  unfold server_changed, server_structure. rewrite !orb_false_iff, !differ_false, zneq_false.
  split; [intros; destruct_and!; congruence|]. intros [= H1 H2 H3 H4 H5 H6 H7 H8 H9 H10]. by split_and!.
Qed.

Section reload.
  Context {Addr Inner R : Type} {rsl : ReedSolomon}.

(** The loop over the WANs of [Client.Reload], from index [i]; an error leaves
    the WANs before it reloaded. [st] is the running configuration [c.cfg]. *)
Fixpoint reload_wans (st nc : Config) (i n : nat) (c : client Inner R) : option reload_error * client Inner R :=
  match n with
  | O => (None, c)
  | S n =>
      match cfg_WANs nc !! i with
      | None => reload_wans st nc (S i) n c
      | Some w =>
          let c := set_csched (AddPath (wan_id i c) (of_Z (w_CapacityMbps w)) (cl_sched c)) c in
          match fecParamsFor (cfg_FEC st) (cfg_MTU st) (Some w) with
          | Ok params =>
              reload_wans st nc (S i) n
                (on_link i (λ l, with_health (Monitor_Reload (l_health l)
                   (healthOptions (cfg_Health nc) (monitorMaxLoss params))) l) c)
          | Err e => (Some (ErrParams e), c)
          | Panic => (Some (ErrParams ""), c)
          end
      end
  end.

(** [Client.Reload(nc)]. *)
Definition Client_Reload (st nc : Config) (c : client Inner R) : option reload_error * client Inner R :=
  match clientReloadable st nc with
  | Some e => (Some e, c)
  | None =>
      let '(err, c) := reload_wans st nc 0 (length (cl_links c)) c in
      match err with
      | Some e => (Some e, c)
      | None =>
          (None, set_delivery (Delivery_Reload (cl_delivery c) (of_ms (GapTimeoutMS (cfg_Delivery nc)))
                   (MaxPending (cfg_Delivery nc))) c)
      end
  end.

(** [Server.Reload(nc)]: every monitor of every session. *)
Definition reload_path (nc : Config) (p : Params) (ps : pathState Addr) : pathState Addr :=
  mkPathState (ps_addr ps) (ps_capacity ps)
    (Monitor_Reload (ps_health ps) (healthOptions (cfg_Health nc) (monitorMaxLoss p)))
    (ps_lastArrive ps) (ps_lastKeepalive ps) (ps_pathSeq ps).

Definition Server_Reload (v : server_cfg) (st nc : Config) (s : server Addr R) : option reload_error * server Addr R :=
  if server_changed st nc then (Some ErrReloadRequiresRestart, s)
  else if negb (sc_CapacityCapMbps (cfg_Scheduler nc) =.? sc_CapacityCapMbps (cfg_Scheduler st))
  then (Some ErrReloadRequiresRestart, s)
  else
    (None, mkServer (sv_world s)
       ((λ st, mkSessState (st_sched st) (reload_path nc (v_fecParams v) <$> st_paths st) (st_lastSeen st)) <$> sv_states s)
       (sv_dec s)).

(** ** What a reload leaves alone *)

(** Monitors: their estimates and their state. *)
Definition same_health (m m' : Monitor) : Prop :=
  state m' = state m ∧ loss m' = loss m ∧ rtt m' = rtt m ∧ jitter m' = jitter m ∧ misses m' = misses m ∧
  missSince m' = missSince m ∧ condSince m' = condSince m ∧ revived m' = revived m ∧ inBandBad m' = inBandBad m.

#[export] Instance same_health_preorder : PreOrder same_health.
Proof.
  unfold same_health. split; [intros x; by split_and!|]. intros m1 m2 m3 ? ?. destruct_and!. split_and!; congruence.
Qed.

Lemma Monitor_Reload_same m o : same_health m (Monitor_Reload m o).
Proof. by split_and!. Qed.

(** A WAN of the client: everything but its monitor's thresholds. *)
Definition link_kept (l l' : wanLink) : Prop :=
  same_health (l_health l) (l_health l') ∧ l' = with_health (l_health l') l.

#[export] Instance link_kept_preorder : PreOrder link_kept.
Proof.
  split; [by intros []|]. intros l1 l2 l3 [A1 A2] [B1 B2]. split; [by etrans|].
  rewrite B2, A2. by destruct l1.
Qed.

(** A client reload: identity, key, codecs, queues, counters, probes and the
    frames held for delivery stay. *)
Record reloaded (c c' : client Inner R) : Prop := {
  re_sess : cl_sess c' = cl_sess c;
  re_session : cl_session c' = cl_session c;
  re_codecs : cl_codecs c' = cl_codecs c;
  re_links : Forall2 link_kept (cl_links c) (cl_links c');
  re_delivery : d_next (cl_delivery c') = d_next (cl_delivery c) ∧
    d_pending (cl_delivery c') = d_pending (cl_delivery c) ∧ d_gapSince (cl_delivery c') = d_gapSince (cl_delivery c);
}.

#[export] Instance reloaded_preorder : PreOrder reloaded.
Proof.
  split; [intros x; by split|]. intros c1 c2 c3 [A1 A2 A3 A4 A5] [B1 B2 B3 B4 B5]. split; [congruence..| |].
  - by etrans.
  - destruct_and!. split_and!; congruence.
Qed.

(** A path of a server session: everything but its monitor's thresholds; and the
    states of all sessions, key by key. *)
Definition path_kept (ps ps' : pathState Addr) : Prop :=
  same_health (ps_health ps) (ps_health ps') ∧ ps_addr ps' = ps_addr ps ∧ ps_capacity ps' = ps_capacity ps ∧
  ps_lastArrive ps' = ps_lastArrive ps ∧ ps_lastKeepalive ps' = ps_lastKeepalive ps ∧ ps_pathSeq ps' = ps_pathSeq ps.
Definition state_kept (st st' : sessState Addr R) : Prop :=
  st_sched st' = st_sched st ∧ st_lastSeen st' = st_lastSeen st ∧
  ∀ k, option_Forall2 path_kept (st_paths st !! k) (st_paths st' !! k).

#[export] Instance path_kept_preorder : PreOrder path_kept.
Proof.
  unfold path_kept. split; [intros x; split_and!; try done; reflexivity|]. intros x y z ? ?. destruct_and!. split_and!; try congruence. by etrans.
Qed.

#[export] Instance state_kept_preorder : PreOrder state_kept.
Proof.
  split; [intros x; split_and!; try done; intros k; reflexivity|]. intros x y z (A1 & A2 & A3) (B1 & B2 & B3). split_and!; [congruence..|].
  intros k. exact (transitivity (A3 k) (B3 k)).
Qed.

(** A server reload: sessions, keys, windows, decoder, paths and endpoints stay. *)
Record server_kept (s s' : server Addr R) : Prop := {
  sk_world : sv_world s' = sv_world s;
  sk_dec : sv_dec s' = sv_dec s;
  sk_states : ∀ id, option_Forall2 state_kept (sv_states s !! id) (sv_states s' !! id);
}.

#[export] Instance server_kept_preorder : PreOrder server_kept.
Proof.
  split; [intros x; split; try done; intros id; reflexivity|]. intros x y z [A1 A2 A3] [B1 B2 B3]. split; [congruence..|]. intros id. exact (transitivity (A3 id) (B3 id)).
Qed.

Lemma Server_Reload_kept v st nc (s : server Addr R) : server_kept s (Server_Reload v st nc s).2.
Proof.
  unfold Server_Reload. repeat case_match; [done..|]. split; [done..|]. intros id. cbn. rewrite lookup_fmap.
  destruct (sv_states s !! id) as [x|]; constructor. split_and!; [done..|]. intros k. cbn. rewrite lookup_fmap.
  destruct (st_paths x !! k); constructor. by split_and!.
Qed.

Lemma reload_wans_reloaded st nc i n c : reloaded c (reload_wans st nc i n c).2.
Proof.
  revert i c. induction n as [|n IH]; intros i c; cbn [reload_wans]; [done|].
  destruct (cfg_WANs nc !! i) as [w|]; [|apply IH]. set (c1 := set_csched _ c).
  assert (H1 : reloaded c c1) by by split.
  destruct (fecParamsFor _ _ _) as [p| |]; [|done..].
  etrans; [exact H1|]. etrans; [|apply IH].
  split; [done..| |done]. unfold on_link. cbn. apply Forall2_same_length_lookup_2; [by rewrite length_alter|].
  intros j l l' Hl. cbn in Hl. change (cl_links c1) with (cl_links c). rewrite list_lookup_alter.
  case_decide as Hd; [subst j|]; rewrite Hl; intros E; apply (inj Some) in E; subst l'; [|done].
  by split; [apply Monitor_Reload_same|].
Qed.

Lemma Client_Reload_reloaded st nc (c : client Inner R) : reloaded c (Client_Reload st nc c).2.
Proof.
  unfold Client_Reload. destruct (clientReloadable st nc); [done|].
  pose proof (reload_wans_reloaded st nc 0 (length (cl_links c)) c) as H.
  destruct (reload_wans _ _ _ _ c) as [[e|] c1]; [done|]. by destruct H.
Qed.

(** Reload is refused whole or leaves the running tunnel alone. It is refused with
    the restart error, and changes nothing, unless the structure is the running
    one, and at the server the capacity cap too; and whatever it does, it keeps
    sessions, keys, replay windows, codecs, queues, paths and the estimate and
    state of every health monitor. *)
Theorem reload_safe v st nc (c : client Inner R) (s : server Addr R) :
  let rc := Client_Reload st nc c in
  let rs := Server_Reload v st nc s in
  (client_structure nc ≠ client_structure st → rc = (Some ErrReloadRequiresRestart, c)) ∧
  (server_structure nc ≠ server_structure st ∨
     (sc_CapacityCapMbps (cfg_Scheduler nc) =.? sc_CapacityCapMbps (cfg_Scheduler st)) = false →
   rs = (Some ErrReloadRequiresRestart, s)) ∧
  reloaded c rc.2 ∧ server_kept s rs.2.
Proof.
  cbn zeta. split_and!.
  - intros H. unfold Client_Reload. rewrite clientReloadable_spec. by rewrite decide_False.
  - intros H. unfold Server_Reload. destruct (server_changed st nc) eqn:E; [done|].
    apply server_changed_false in E. destruct H as [H| ->]; done.
  - apply Client_Reload_reloaded.
  - apply Server_Reload_kept.
Qed.
End reload.
