(* ===== verification/Ipv4.v ===== *)
(** * Raw IPv4 helpers (internal/transport/icmp.go, faketcp.go)

    What the two raw-socket transports share: addresses, the RFC 1071 checksum
    they both carry and the checks on a received IPv4 header. The checksum loops
    are compared with one's complement arithmetic, that is with the sum of the
    16-bit words modulo 65535. *)

From S2P Require Import Prelude.
From stdpp Require Import pretty.

#[local] Open Scope Z_scope.

Definition ipHdrLen : nat := 20.

(** ** Addresses *)

(** [net.IP] is its bytes; [ip.To4()], where [None] is the nil slice. *)
Definition To4 (ip : list byte) : option (list byte) :=
  if (length ip =? 4)%nat then Some ip
  else if (length ip =? 16)%nat && bool_decide (take 12 ip = replicate 10 x00 ++ [xff; xff]) then
    Some (drop 12 ip)
  else None.

Definition IPv4zero : list byte := [x00; x00; x00; x00].

(** [a.Equal(b)]. *)
Definition IP_Equal (a b : list byte) : bool :=
  match To4 a, To4 b with
  | Some a, Some b => bool_decide (a = b)
  | None, None => bool_decide (a = b)
  | _, _ => false
  end.

Record UDPAddr := mkUDPAddr { ua_IP : list byte; ua_Port : Z }.

#[export] Instance UDPAddr_eq_dec : EqDecision UDPAddr.
Proof. solve_decision. Defined.

(** [ip.String()] of an IPv4 address, and [addrKey(a)], its [String()]; the
    transports print no other addresses. *)
Definition IP_String (ip : list byte) : string :=
  match default [] (To4 ip) with
  | [a; b; c; d] =>
      (pretty (b2z a) +:+ "." +:+ pretty (b2z b) +:+ "." +:+ pretty (b2z c) +:+ "." +:+ pretty (b2z d))%string
  | _ => ""%string
  end.
Definition addrKey (a : UDPAddr) : string := (IP_String (ua_IP a) +:+ ":" +:+ pretty (ua_Port a))%string.

Definition is_ip4 (ip : list byte) : Prop := length ip = 4%nat.

Lemma To4_ip4 ip : is_ip4 ip → To4 ip = Some ip.
Proof. unfold is_ip4, To4. by intros ->. Qed.

Lemma IP_Equal_refl ip : is_ip4 ip → IP_Equal ip ip = true.
Proof. intros H. unfold IP_Equal. rewrite To4_ip4 by done. by apply bool_decide_true. Qed.

(** ** The checksum *)

(** [uint32(x)<<8 | uint32(y)]. *)
Definition be16 (x y : byte) : Z := Z.lor (Z.shiftl (b2z x) 8) (b2z y).

(** The summing loop on a uint32, with the odd byte last. *)
Fixpoint add_words (b : list byte) (sum : Z) : Z :=
  match b with
  | x :: y :: b => add_words b (u32 (sum + be16 x y))
  | [x] => u32 (sum + Z.shiftl (b2z x) 8)
  | [] => sum
  end.

(** The loop [for sum>>16 != 0]; [None] when [n] rounds are not enough. *)
Fixpoint fold_carry (n : nat) (sum : Z) : option Z :=
  if Z.shiftr sum 16 =? 0 then Some sum
  else match n with
       | O => None
       | S n => fold_carry n (u32 (Z.land sum 0xffff + Z.shiftr sum 16))
       end.

(** Two rounds are enough for a uint32 ([fold_carry_onec]). *)
Definition finish_sum (sum : Z) : Z :=
  match fold_carry 2 sum with
  | Some s => u16 (Z.lnot (u16 s))
  | None => 0
  end.

Definition ipChecksum (b : list byte) : Z := finish_sum (add_words b 0).
Definition icmpChecksum (b : list byte) : Z := finish_sum (add_words b 0).

(** [checksumWithPseudo(src, dst, tcp)]. *)
Definition checksumWithPseudo (src dst tcp : list byte) : Z :=
  let sum := add_words (default [] (To4 src)) 0 in
  let sum := add_words (default [] (To4 dst)) sum in
  let sum := u32 (sum + 6) in
  let sum := u32 (sum + u32 (Z.of_nat (length tcp))) in
  finish_sum (add_words tcp sum).

(** ** A received IPv4 header *)

(** [int(b[0]&0x0f) * 4] and [b[0]>>4]. *)
Definition header_len (b : list byte) : nat := Z.to_nat (Z.land (b2z (nth 0 b x00)) 0x0f * 4).
Definition ip_version (b : list byte) : Z := Z.shiftr (b2z (nth 0 b x00)) 4.

(** The end of the datagram as its total length field gives it. *)
Definition total_len (b : list byte) : nat :=
  let total := Z.to_nat (be_get (slice 2 4 b)) in
  if (total =? 0)%nat || (length b <? total)%nat then length b else total.

(** The checks both parsers make: long enough for both headers, IPv4, the
    protocol, not a fragment. *)
Definition header_ok (minLen : nat) (proto : Z) (b : list byte) : bool :=
  (ip_version b =? 4) && (ipHdrLen <=? header_len b)%nat && (header_len b + minLen <=? length b)%nat &&
  (b2z (nth 9 b x00) =? proto) && (Z.land (be_get (slice 6 8 b)) 0x1fff =? 0).

(** ** One's complement arithmetic *)

(** The sum of the big-endian words. *)
Fixpoint wsum (b : list byte) : Z :=
  match b with
  | x :: y :: b => 256 * b2z x + b2z y + wsum b
  | [x] => 256 * b2z x
  | [] => 0
  end.

(** The canonical representative: positive unless the sum is zero. *)
Definition onec (s : Z) : Z := if s =? 0 then 0 else (s - 1) mod 65535 + 1.

(** All ones: what a valid packet sums to. *)
Definition sum_ok (s : Z) : Prop := 0 < s ∧ s mod 65535 = 0.

Lemma be16_eq x y : be16 x y = 256 * b2z x + b2z y.
Proof.
  unfold be16. pose proof (b2z_range y). rewrite Z.shiftl_mul_pow2 by lia.
  rewrite Z.lor_comm, <-Z.add_nocarry_lor.
  - lia.
  - apply Z.bits_inj'. intros n Hn. rewrite Z.land_spec, Z.bits_0.
    destruct (Z.ltb_spec n 8); [by rewrite Z.mul_pow2_bits_low, andb_false_r by lia|].
    rewrite <-(Z.mod_small (b2z y) (2 ^ 8)) by lia. by rewrite Z.mod_pow2_bits_high by lia.
Qed.

(** Induction on a byte string two bytes at a time. *)
Lemma pair_ind (P : list byte → Prop) :
  P [] → (∀ x, P [x]) → (∀ x y b, P b → P (x :: y :: b)) → ∀ b, P b.
Proof.
  intros H0 H1 H2. assert (∀ n b, (length b ≤ n)%nat → P b) as H; [|intros b; by apply (H (length b))].
  induction n as [|n IH]; intros [|x [|y b]] Hl; cbn in Hl; try lia; auto. apply H2, IH. lia.
Qed.

Lemma wsum_bound b : 0 ≤ wsum b ∧ 2 * wsum b ≤ 65535 * (Z.of_nat (length b) + 1).
Proof.
  induction b as [|x|x y b IH] using pair_ind; cbn [wsum length]; [lia| |].
  - pose proof (b2z_range x). lia.
  - pose proof (b2z_range x). pose proof (b2z_range y). lia.
Qed.

Lemma wsum_app a b : Nat.even (length a) = true → wsum (a ++ b) = wsum a + wsum b.
Proof.
  induction a as [|x|x y a IH] using pair_ind; cbn [app wsum length Nat.even]; [lia|done|].
  intros H. rewrite IH by done. lia.
Qed.

Lemma wsum_put2 z : is_u16 z → wsum (be_put 2 z) = z.
Proof.
  intros Hz. cbn [be_put wsum]. rewrite !b2z_z2b. unfold_int.
  change (256 ^ Z.of_nat 1) with 256. change (256 ^ Z.of_nat 0) with 1. rewrite Z.div_1_r.
  rewrite (Z.mod_small (z / 256)) by (split; [apply Z.div_pos; lia|apply Z.div_lt_upper_bound; lia]).
  pose proof (Z.div_mod z 256). lia.
Qed.

(** The 32-bit loop computes the sum as long as it fits. *)
Lemma add_words_wsum b s : 0 ≤ s → s + wsum b < 2 ^ 32 → add_words b s = s + wsum b.
Proof.
  revert s. induction b as [|x|x y b IH] using pair_ind; intros s Hs Hb; cbn [add_words wsum] in *; [lia| |].
  - pose proof (b2z_range x). rewrite Z.shiftl_mul_pow2 by lia. rewrite u32_small by (unfold_int; lia). lia.
  - pose proof (b2z_range x). pose proof (b2z_range y). pose proof (wsum_bound b).
    rewrite be16_eq, u32_small by (unfold_int; lia). rewrite IH; lia.
Qed.

Lemma onec_range s : 0 ≤ s → 0 ≤ onec s ≤ 65535.
Proof. intros. unfold onec. destruct (Z.eqb_spec s 0); [lia|]. pose proof (Z.mod_pos_bound (s - 1) 65535). lia. Qed.

Lemma onec_mod s : 0 ≤ s → ∃ k, s = onec s + 65535 * k.
Proof.
  intros. unfold onec. destruct (Z.eqb_spec s 0); [by exists 0|].
  exists ((s - 1) / 65535). pose proof (Z.div_mod (s - 1) 65535). lia.
Qed.

Lemma onec_small s : 0 ≤ s ≤ 65535 → onec s = s.
Proof. intros. unfold onec. destruct (Z.eqb_spec s 0); [lia|]. rewrite Z.mod_small; lia. Qed.

Lemma onec_shift s k : 0 < s → 0 < s + 65535 * k → onec (s + 65535 * k) = onec s.
Proof.
  intros. unfold onec. destruct (Z.eqb_spec s 0), (Z.eqb_spec (s + 65535 * k) 0); try lia.
  replace (s + 65535 * k - 1) with (s - 1 + k * 65535) by lia. by rewrite Z.mod_add.
Qed.

(** Two rounds bring any 32-bit sum into 16 bits. *)
Lemma fold_carry_onec s : is_u32 s → fold_carry 2 s = Some (onec s).
Proof.
  intros Hs. unfold_int.
  assert (Hround : ∀ s, 0 ≤ s < 2 ^ 32 → s / 65536 ≠ 0 →
    u32 (Z.land s 65535 + Z.shiftr s 16) = s - 65535 * (s / 65536)).
  { intros t Ht _. change 65535 with (Z.ones 16) at 1. rewrite Z.land_ones, Z.shiftr_div_pow2 by lia.
    change (2 ^ 16) with 65536. pose proof (Z.div_mod t 65536). pose proof (Z.mod_pos_bound t 65536).
    assert (t / 65536 < 65536) by (apply Z.div_lt_upper_bound; lia). pose proof (Z.div_pos t 65536).
    rewrite u32_small by (unfold_int; lia). lia. }
  assert (Hsh : ∀ t, Z.shiftr t 16 = t / 65536) by (intros; by rewrite Z.shiftr_div_pow2 by lia).
  cbn [fold_carry]. rewrite !Hsh. destruct (Z.eqb_spec (s / 65536) 0) as [E|E].
  { f_equal. symmetry. apply onec_small. apply Z.div_small_iff in E; lia. }
  rewrite <-!Hsh, Hround by done. rewrite Hsh.
  set (s1 := s - 65535 * (s / 65536)).
  pose proof (Z.div_mod s 65536). pose proof (Z.mod_pos_bound s 65536). pose proof (Z.div_pos s 65536).
  assert (s / 65536 < 65536) by (apply Z.div_lt_upper_bound; lia).
  assert (Hs1 : 0 < s1) by (unfold s1; lia).
  assert (Ho : onec s1 = onec s) by (rewrite <-(onec_shift s1 (s / 65536)) by (unfold s1 in *; lia); f_equal; unfold s1; lia).
  destruct (Z.eqb_spec (s1 / 65536) 0) as [E1|E1].
  { f_equal. rewrite <-Ho. symmetry. apply onec_small. apply Z.div_small_iff in E1; lia. }
  rewrite <-!Hsh, Hround by lia. rewrite Hsh.
  assert (65536 ≤ s1 ≤ 131070) as Hr1.
  { destruct (Z.lt_ge_cases s1 65536); [by rewrite Z.div_small in E1 by lia|unfold s1 in *; lia]. }
  assert (s1 / 65536 = 1) as E2 by (symmetry; apply (Z.div_unique s1 65536 1 (s1 - 65536)); lia).
  rewrite E2. rewrite Z.div_small by lia. cbn [Z.eqb]. f_equal.
  rewrite <-Ho, <-(onec_shift s1 (-1)) by lia. symmetry. apply onec_small. lia.
Qed.

Lemma finish_onec s : is_u32 s → finish_sum s = 65535 - onec s.
Proof.
  intros Hs. unfold finish_sum. rewrite fold_carry_onec by done.
  pose proof (onec_range s ltac:(unfold_int; lia)). unfold u16 at 2. rewrite (Z.mod_small (onec s)) by lia.
  unfold_int. rewrite <-(Z.mod_add (Z.lnot _) 1) by lia. rewrite Z.mod_small; unfold Z.lnot; lia.
Qed.

(** A packet is valid when it sums to all ones. *)
Lemma finish_valid s : is_u32 s → finish_sum s = 0 ↔ sum_ok s.
Proof.
  intros Hs. rewrite finish_onec by done. unfold sum_ok, onec, is_u32 in *.
  destruct (Z.eqb_spec s 0) as [->|]; [split; intros; [lia|lia]|].
  pose proof (Z.mod_pos_bound (s - 1) 65535). split.
  - intros E. split; [lia|]. replace s with (s - 1 + 1) by lia.
    rewrite <-Z.add_mod_idemp_l by lia. replace ((s - 1) mod 65535) with 65534 by lia. done.
  - intros [_ E]. replace (s - 1) with (s + (-1)) by lia. rewrite <-Z.add_mod_idemp_l, E by lia. done.
Qed.

(** Writing the checksum over a zero field makes the packet valid; writing its
    complement does so exactly when the packet was all ones before. *)
Lemma fill_valid s : 0 ≤ s → sum_ok (s + (65535 - onec s)).
Proof.
  intros Hs. destruct (onec_mod s Hs) as [k Hk]. pose proof (onec_range s Hs).
  assert (s + (65535 - onec s) = 65535 * (k + 1)) as -> by lia. split.
  - destruct (Z.eq_dec s 0) as [->|]; [unfold onec in *; cbn in *; lia|].
    destruct (Z.le_gt_cases 0 k); [lia|]. nia.
  - rewrite Z.mul_comm. by apply Z.mod_mul.
Qed.

Lemma flip_valid s : 0 < s → sum_ok (s + onec s) ↔ s mod 65535 = 0.
Proof.
  intros Hs. destruct (onec_mod s ltac:(lia)) as [k Hk]. pose proof (onec_range s ltac:(lia)).
  unfold sum_ok. replace (s + onec s) with (2 * s + (- k) * 65535) by lia.
  rewrite Z.mod_add by lia. split.
  - intros [_ E]. apply Z.mod_divide in E; [|lia]. apply Z.mod_divide; [lia|].
    apply (Z.gauss 65535 2); [|done]. exact E.
  - intros E. split; [lia|]. apply Z.mod_divide in E as [c ->]; [|lia].
    replace (2 * (c * 65535)) with (2 * c * 65535) by lia. by apply Z.mod_mul.
Qed.

(** ** Datagrams with a well-formed header *)

Lemma slice_app_l {A} lo hi (a b : list A) : (hi ≤ length a)%nat → slice lo hi (a ++ b) = slice lo hi a.
Proof.
  intros H. unfold slice. destruct (Nat.le_gt_cases lo hi).
  - rewrite drop_app_le by lia. rewrite take_app_le; [done|]. rewrite length_drop. lia.
  - replace (hi - lo)%nat with 0%nat by lia. by rewrite !take_0.
Qed.

Lemma nth_app_l {A} n (a b : list A) d : (n < length a)%nat → nth n (a ++ b) d = nth n a d.
Proof. intros. by apply app_nth1. Qed.

Lemma total_len_le b : (total_len b ≤ length b)%nat.
Proof.
  unfold total_len. generalize (Z.to_nat (be_get (slice 2 4 b))) as n. intros n.
  destruct (Nat.eqb_spec n 0), (Nat.ltb_spec (length b) n); cbn [orb]; lia.
Qed.

Lemma length_slice {A} lo hi (l : list A) : (hi ≤ length l)%nat → length (slice lo hi l) = (hi - lo)%nat.
Proof. intros. unfold slice. rewrite length_take, length_drop. lia. Qed.

(** An unfragmented IPv4 header, options included, of a datagram of [total]
    bytes; a router may change whatever else it holds. *)
Record ip_header (h : list byte) (proto total : Z) (src dst : list byte) : Prop := {
  ih_version : ip_version h = 4;
  ih_len : header_len h = length h;
  ih_min : (ipHdrLen ≤ length h)%nat;
  ih_total : be_get (slice 2 4 h) = total;
  ih_frag : Z.land (be_get (slice 6 8 h)) 0x1fff = 0;
  ih_proto : b2z (nth 9 h x00) = proto;
  ih_src : slice 12 16 h = src;
  ih_dst : slice 16 20 h = dst;
}.

(** What the parsers read of such a datagram, whatever follows it. *)
Lemma ip_header_reads h proto r src dst pad minLen :
  ip_header h proto (Z.of_nat (length h + length r)) src dst → (minLen ≤ length r)%nat →
  let b := h ++ r ++ pad in
  header_ok minLen proto b = true ∧ header_len b = length h ∧ total_len b = (length h + length r)%nat ∧
  slice (header_len b) (total_len b) b = r ∧ slice 12 16 b = src ∧ slice 16 20 b = dst.
Proof.
  intros [V L M T F P S D] Hm b. unfold ipHdrLen in M.
  assert (H0 : header_len b = length h) by (unfold header_len, b; rewrite nth_app_l by lia; exact L).
  assert (HT : total_len b = (length h + length r)%nat).
  { unfold total_len, b. rewrite slice_app_l by lia. rewrite T, Nat2Z.id, !length_app.
    rewrite (proj2 (Nat.eqb_neq _ _)) by lia. rewrite (proj2 (Nat.ltb_ge _ _)) by lia. done. }
  split_and!; try done.
  - unfold header_ok. rewrite H0. unfold ip_version, b in *. rewrite !nth_app_l by lia.
    rewrite slice_app_l by lia. rewrite F, V, P, !length_app. cbn [Z.eqb Pos.eqb andb]. rewrite Z.eqb_refl.
    unfold ipHdrLen. rewrite !(proj2 (Nat.leb_le _ _)) by lia. done.
  - rewrite H0, HT. unfold slice, b. rewrite drop_app_length' by done.
    replace (length h + length r - length h)%nat with (length r) by lia. by rewrite take_app_length'.
  - unfold b. by rewrite slice_app_l by lia.
  - unfold b. by rewrite slice_app_l by lia.
Qed.

(** What may happen to a segment between two raw sockets: the IPv4 header in
    front of it is another one between the same hosts, and bytes follow it. *)
Definition in_transit (seg seg' : list byte) : Prop :=
  let n := header_len seg in
  ∃ h' pad proto src dst,
    ip_header (take n seg) proto (Z.of_nat (length seg)) src dst ∧
    ip_header h' proto (Z.of_nat (length h' + (length seg - n))) src dst ∧
    seg' = h' ++ drop n seg ++ pad.

(** The checksum of a buffer that fits a datagram. *)
Lemma icmpChecksum_onec b : Z.of_nat (length b) ≤ 65535 → icmpChecksum b = 65535 - onec (wsum b).
Proof.
  intros Hl. pose proof (wsum_bound b). unfold icmpChecksum.
  rewrite add_words_wsum by lia. rewrite finish_onec by (unfold_int; lia). done.
Qed.

Lemma icmpChecksum_valid b : Z.of_nat (length b) ≤ 65535 → icmpChecksum b = 0 ↔ sum_ok (wsum b).
Proof.
  intros Hl. pose proof (wsum_bound b). unfold icmpChecksum.
  rewrite add_words_wsum by lia. rewrite finish_valid by (unfold_int; lia). done.
Qed.
