(* ===== verification/FakeTCP.v ===== *)
(** * The FakeTCP transport (internal/transport/faketcp.go)

    Frames inside hand-made IPv4/TCP segments on a raw socket: the segment
    builder and parser, the per-peer sequence counters and the transport's
    methods. A method is one step; what it writes to the raw socket is its list
    of segments. Address resolution, the raw socket, the routing probe of
    [localIPFor] and the random numbers are inputs. *)

From S2P Require Import Prelude Ipv4.

#[local] Open Scope string_scope.
#[local] Open Scope Z_scope.
#[local] Open Scope list_scope.

Definition tcpFlagFIN : Z := 0x01.
Definition tcpFlagSYN : Z := 0x02.
Definition tcpFlagRST : Z := 0x04.
Definition tcpFlagPSH : Z := 0x08.
Definition tcpFlagACK : Z := 0x10.
Definition tcpHdrLen : nat := 20.

Definition has_bits (flags mask : Z) : bool := negb (Z.land flags mask =? 0).

(** ** Segments *)

(** [randID], [randPort] and [randSeq] of a [rand.Uint32()]. *)
Definition randID (r : Z) : Z := Z.land r 0xffff.
Definition randPort (r : Z) : Z := 1024 + r mod 60000.
Definition randSeq (r : Z) : Z := r.

(** [tcpChecksum] and [validTCPChecksum]. *)
Definition tcpChecksum (src dst tcp : list byte) : Z := checksumWithPseudo src dst tcp.
Definition validTCPChecksum (src dst tcp : list byte) : bool :=
  (tcpHdrLen <=? length tcp)%nat && (checksumWithPseudo src dst tcp =? 0).

(** [buildSegment]; [rnd] is the random number of the identification field. *)
Definition buildSegment (rnd : Z) (src dst : list byte) (srcPort dstPort seq ack flags : Z)
    (payload : list byte) : list byte :=
  let total := (ipHdrLen + tcpHdrLen + length payload)%nat in
  let seg := replicate total x00 in
  let seg := put_at 0 [x45] seg in
  let seg := put_at 2 (be_put 2 (u16 (Z.of_nat total))) seg in
  let seg := put_at 4 (be_put 2 (u16 (randID rnd))) seg in
  let seg := put_at 8 (be_put 1 64) seg in
  let seg := put_at 9 (be_put 1 6) seg in
  let seg := put_at 12 (take 4 (default [] (To4 src))) seg in
  let seg := put_at 16 (take 4 (default [] (To4 dst))) seg in
  let seg := put_at 10 (be_put 2 (ipChecksum (take ipHdrLen seg))) seg in
  let seg := put_at ipHdrLen (be_put 2 srcPort) seg in
  let seg := put_at (ipHdrLen + 2) (be_put 2 dstPort) seg in
  let seg := put_at (ipHdrLen + 4) (be_put 4 seq) seg in
  let seg := put_at (ipHdrLen + 8) (be_put 4 ack) seg in
  let seg := put_at (ipHdrLen + 12) (be_put 1 (Z.shiftl 5 4)) seg in
  let seg := put_at (ipHdrLen + 13) (be_put 1 flags) seg in
  let seg := put_at (ipHdrLen + 14) (be_put 2 65535) seg in
  let seg := put_at (ipHdrLen + tcpHdrLen) payload seg in
  put_at (ipHdrLen + 16) (be_put 2 (tcpChecksum src dst (drop ipHdrLen seg))) seg.

(** What [parseSegment] returns for a usable segment. *)
Record segment := mkSegment {
  sg_payload : list byte;
  sg_src : UDPAddr;
  sg_dstPort : Z;
  sg_syn : bool;
  sg_seq : Z;
}.

(** [parseSegment(b)]; a cut behind the total length, or a segment too short for
    its flags, is a slice or index out of range. *)
Definition parseSegment (b : list byte) : res unit (option segment) :=
  if negb (header_ok tcpHdrLen 6 b) then Ok None
  else
    let ihl := header_len b in
    let total := total_len b in
    if (total <? ihl)%nat then Panic
    else
      let tcp := slice ihl total b in
      if (length tcp <=? 13)%nat then Panic
      else
        let flags := b2z (nth 13 tcp x00) in
        let srcIP := slice 12 16 b in
        let off := Z.to_nat (Z.shiftr (b2z (nth 12 tcp x00)) 4 * 4) in
        if has_bits flags (Z.lor tcpFlagRST tcpFlagFIN) then Ok None
        else if negb (validTCPChecksum srcIP (slice 16 20 b) tcp) then Ok None
        else if (off <? tcpHdrLen)%nat || (length tcp <? off)%nat then Ok None
        else
          Ok (Some (mkSegment (drop off tcp) (mkUDPAddr srcIP (be_get (slice 0 2 tcp))) (be_get (slice 2 4 tcp))
                      (has_bits flags tcpFlagSYN) (be_get (slice 4 8 tcp)))).

Definition seqAdvance (dataLen : nat) : Z := if (0 <? dataLen)%nat then u32 (Z.of_nat dataLen) else 1.

(** ** The transport *)

Record peerState := mkPeer {
  p_mySeq : Z;       (* uint32 *)
  p_peerSeq : Z;
  p_sent : bool;
}.

(** [FakeTCP]; the raw socket [fd] is -1 when closed. *)
Record FakeTCP := mkFakeTCP {
  ft_fd : Z;
  ft_srv : bool;
  ft_clientDstIP : list byte;
  ft_clientSrcPort : Z;
  ft_clientDstPort : Z;
  ft_serverPort : Z;
  ft_peers : gmap string peerState;
  ft_srcFor : gmap string (list byte);
}.

Inductive transport_error :=
| ErrAlreadyOpen | ErrResolve | ErrNotIPv4 | ErrSocket | ErrNotOpen | ErrBadPeer | ErrBadRequest
| ErrWrite.

(** What a step draws from its environment. *)
Record tcp_env := mkTcpEnv {
  te_socket : option Z;                         (* openRawSocket *)
  te_route : list byte → option (list byte);    (* the local address a dial to it has *)
  te_port : Z; te_seq : Z; te_id : Z;           (* rand.Uint32 *)
}.

Definition NewFakeTCP : FakeTCP := mkFakeTCP (-1) false [] 0 0 0 ∅ ∅.

Definition set_peers (m : gmap string peerState) (f : FakeTCP) : FakeTCP :=
  mkFakeTCP (ft_fd f) (ft_srv f) (ft_clientDstIP f) (ft_clientSrcPort f) (ft_clientDstPort f)
    (ft_serverPort f) m (ft_srcFor f).
Definition set_srcFor (m : gmap string (list byte)) (f : FakeTCP) : FakeTCP :=
  mkFakeTCP (ft_fd f) (ft_srv f) (ft_clientDstIP f) (ft_clientSrcPort f) (ft_clientDstPort f)
    (ft_serverPort f) (ft_peers f) m.

(** [localIPFor(dst)]: only an address the probe found is cached. *)
Definition localIPFor (e : tcp_env) (dst : list byte) (f : FakeTCP) : list byte * FakeTCP :=
  let key := IP_String dst in
  match ft_srcFor f !! key with
  | Some ip => (ip, f)
  | None =>
      match (ip ← te_route e dst; To4 ip) with
      | Some ip => (ip, set_srcFor (<[key := ip]> (ft_srcFor f)) f)
      | None => (IPv4zero, f)
      end
  end.

Definition clientSrcIP (f : FakeTCP) : list byte := default IPv4zero (ft_srcFor f !! IP_String (ft_clientDstIP f)).

Section open.
  (** [net.ResolveUDPAddr("udp", s)]. *)
  Context (ResolveUDPAddr : string → option UDPAddr).

Definition tcp_openClient (e : tcp_env) (local remote : string) (f : FakeTCP) : option transport_error * FakeTCP :=
  match ResolveUDPAddr remote with
  | None => (Some ErrResolve, f)
  | Some raddr =>
      match To4 (ua_IP raddr) with
      | None => (Some ErrNotIPv4, f)
      | Some dstIP =>
          let '(srcIP, f) := localIPFor e dstIP f in
          let srcPort := match ResolveUDPAddr local with
                         | Some laddr => if 0 <? ua_Port laddr then u16 (ua_Port laddr) else u16 (randPort (te_port e))
                         | None => u16 (randPort (te_port e))
                         end in
          match te_socket e with
          | None => (Some ErrSocket, f)
          | Some fd =>
              (None, mkFakeTCP fd false dstIP srcPort (u16 (ua_Port raddr)) (ft_serverPort f)
                       (<["server" := mkPeer (randSeq (te_seq e)) 0 false]> (ft_peers f))
                       (<[IP_String dstIP := srcIP]> (ft_srcFor f)))
          end
      end
  end.

(** A nil or unspecified listen address ([IsUnspecified], all zero) is accepted. *)
Definition tcp_openServer (e : tcp_env) (local : string) (f : FakeTCP) : option transport_error * FakeTCP :=
  match ResolveUDPAddr local with
  | None => (Some ErrResolve, f)
  | Some laddr =>
      let ip := ua_IP laddr in
      if negb (length ip =? 0)%nat && bool_decide (To4 ip = None) && negb (forallb (λ x, bool_decide (x = x00)) ip)
      then (Some ErrNotIPv4, f)
      else match te_socket e with
      | None => (Some ErrSocket, f)
      | Some fd => (None, mkFakeTCP fd true (ft_clientDstIP f) (ft_clientSrcPort f) (ft_clientDstPort f)
                            (u16 (ua_Port laddr)) (ft_peers f) (ft_srcFor f))
      end
  end.

Definition tcp_Open (e : tcp_env) (local remote : string) (f : FakeTCP) : option transport_error * FakeTCP :=
  if 0 <=? ft_fd f then (Some ErrAlreadyOpen, f)
  else if negb (String.eqb remote "") then tcp_openClient e local remote f
  else tcp_openServer e local f.
End open.

Definition tcp_Close (f : FakeTCP) : FakeTCP :=
  mkFakeTCP (-1) (ft_srv f) (ft_clientDstIP f) (ft_clientSrcPort f) (ft_clientDstPort f)
    (ft_serverPort f) (ft_peers f) (ft_srcFor f).

(** [writeRaw]: a write to a closed socket fails. *)
Definition writeRaw (f : FakeTCP) (seg : list byte) : option transport_error * list (list byte) :=
  if ft_fd f <? 0 then (Some ErrWrite, []) else (None, [seg]).

(** The flags of the next segment: a SYN first, then data. *)
Definition next_flags (st : peerState) (first : Z) : Z :=
  if p_sent st then Z.lor tcpFlagPSH tcpFlagACK else first.
Definition advance (st : peerState) (n : nat) : peerState :=
  mkPeer (u32 (p_mySeq st + seqAdvance n)) (p_peerSeq st) true.

(** [Send(b)]. *)
Definition tcp_Send (e : tcp_env) (b : list byte) (f : FakeTCP) :
    option transport_error * FakeTCP * list (list byte) :=
  match ft_peers f !! "server" with
  | None => (Some ErrNotOpen, f, [])
  | Some st =>
      let seg := buildSegment (te_id e) (clientSrcIP f) (ft_clientDstIP f) (ft_clientSrcPort f) (ft_clientDstPort f)
                   (p_mySeq st) (p_peerSeq st) (next_flags st tcpFlagSYN) b in
      let f := set_peers (<["server" := advance st (length b)]> (ft_peers f)) f in
      let '(err, out) := writeRaw f seg in (err, f, out)
  end.

(** [SendTo(addr, b)]; [None] is an address that is not a UDP address. *)
Definition tcp_SendTo (e : tcp_env) (addr : option UDPAddr) (b : list byte) (f : FakeTCP) :
    option transport_error * FakeTCP * list (list byte) :=
  match (ua ← addr; dst ← To4 (ua_IP ua); Some (ua, dst)) with
  | None => (Some ErrBadPeer, f, [])
  | Some (ua, dstIP) =>
      let key := addrKey ua in
      let '(srcIP, f) := localIPFor e dstIP f in
      let st := default (mkPeer (randSeq (te_seq e)) 0 false) (ft_peers f !! key) in
      let seg := buildSegment (te_id e) srcIP dstIP (ft_serverPort f) (u16 (ua_Port ua)) (p_mySeq st) (p_peerSeq st)
                   (next_flags st (Z.lor tcpFlagSYN tcpFlagACK)) b in
      let f := set_peers (<[key := advance st (length b)]> (ft_peers f)) f in
      let '(err, out) := writeRaw f seg in (err, f, out)
  end.

(** The filter of [Recv]: the server checks the port, the client the port and
    the source. *)
Definition tcp_accepts (sg : segment) (f : FakeTCP) : bool :=
  if ft_srv f then sg_dstPort sg =? ft_serverPort f
  else (sg_dstPort sg =? ft_clientSrcPort f) && IP_Equal (ua_IP (sg_src sg)) (ft_clientDstIP f).

(** The number [Recv] notes: one more than a SYN's, else behind the data. *)
Definition expected_seq (syn : bool) (seq : Z) (b : list byte) : Z :=
  if syn then u32 (seq + 1) else u32 (seq + u32 (Z.max 1 (Z.of_nat (length b)))).

(** One datagram read by [Recv]: [None] when the loop goes on to the next. *)
Definition tcp_recv (e : tcp_env) (b : list byte) (f : FakeTCP) :
    res unit (option (list byte * UDPAddr) * FakeTCP) :=
  let? o := parseSegment b in
  match o with
  | None => Ok (None, f)
  | Some sg =>
      if negb (tcp_accepts sg f) then Ok (None, f)
      else
        let key := if ft_srv f then addrKey (sg_src sg) else "server" in
        let st := default (mkPeer (randSeq (te_seq e)) 0 false) (ft_peers f !! key) in
        let next := expected_seq (sg_syn sg) (sg_seq sg) (sg_payload sg) in
        Ok (Some (sg_payload sg, sg_src sg), set_peers (<[key := mkPeer (p_mySeq st) next (p_sent st)]> (ft_peers f)) f)
  end.

(** ** The layout of a segment *)

Definition ip_bytes (total id ck : Z) (src dst : list byte) : list byte :=
  [x45; x00] ++ be_put 2 total ++ be_put 2 id ++ [x00; x00; x40; x06] ++ be_put 2 ck ++ src ++ dst.
Definition tcp_bytes (sp dp seq ack flags ck : Z) (payload : list byte) : list byte :=
  be_put 2 sp ++ be_put 2 dp ++ be_put 4 seq ++ be_put 4 ack ++ [x50; z2b flags; xff; xff] ++
  be_put 2 ck ++ [x00; x00] ++ payload.

(** The IP header with its checksum. *)
Definition seg_header (total id : Z) (src dst : list byte) : list byte :=
  ip_bytes total id (ipChecksum (ip_bytes total id 0 src dst)) src dst.

Lemma take_4 ip : is_ip4 ip → take 4 ip = ip.
Proof. intros H. by rewrite take_ge by (rewrite H; lia). Qed.

Lemma buildSegment_layout rnd src dst sp dp seq ack flags payload :
  is_ip4 src → is_ip4 dst →
  buildSegment rnd src dst sp dp seq ack flags payload =
    seg_header (u16 (Z.of_nat (40 + length payload))) (u16 (randID rnd)) src dst ++
    tcp_bytes sp dp seq ack flags (tcpChecksum src dst (tcp_bytes sp dp seq ack flags 0 payload)) payload.
Proof.
  intros Hs Hd. unfold buildSegment. cbv zeta. rewrite !To4_ip4 by done. cbv [from_option id]. rewrite !take_4 by done.
  change (ipHdrLen + tcpHdrLen + length payload)%nat with (40 + length payload)%nat.
  set (total := u16 (Z.of_nat (40 + length payload))). set (id := u16 (randID rnd)).
  destruct src as [|s1 [|s2 [|s3 [|s4 [|]]]]]; try done. destruct dst as [|d1 [|d2 [|d3 [|d4 [|]]]]]; try done.
  set (src := [s1; s2; s3; s4]). set (dst := [d1; d2; d3; d4]).
  assert (E1 : put_at 16 dst (put_at 12 src (put_at 9 (be_put 1 6) (put_at 8 (be_put 1 64)
    (put_at 4 (be_put 2 id) (put_at 2 (be_put 2 total) (put_at 0 [x45] (replicate (40 + length payload) x00))))))) =
    ip_bytes total id 0 src dst ++ replicate 20 x00 ++ replicate (length payload) x00).
  { unfold put_at, ip_bytes. cbn [be_put length Nat.add replicate app take drop src dst]. done. }
  rewrite E1. clear E1. rewrite (take_app_length' (ip_bytes total id 0 src dst)) by done.
  unfold seg_header. set (ck := ipChecksum _).
  assert (E2 : put_at 10 (be_put 2 ck) (ip_bytes total id 0 src dst ++ replicate 20 x00 ++ replicate (length payload) x00) =
    ip_bytes total id ck src dst ++ replicate 20 x00 ++ replicate (length payload) x00).
  { unfold put_at, ip_bytes. cbn [be_put length Nat.add replicate app take drop src dst]. done. }
  rewrite E2. clear E2. generalize ck as c. intros c. clear ck.
  assert (Hip : length (ip_bytes total id c src dst) = 20%nat) by done.
  assert (P : ∀ off x r, put_at (ipHdrLen + off) x (ip_bytes total id c src dst ++ r) =
    ip_bytes total id c src dst ++ put_at off x r).
  { intros off x r. unfold put_at. rewrite take_app_ge, drop_app_ge by (rewrite Hip; unfold ipHdrLen; lia).
    rewrite Hip. unfold ipHdrLen. rewrite <-app_assoc. do 3 f_equal; [lia|f_equal; lia]. }
  change (put_at ipHdrLen) with (put_at (ipHdrLen + 0)). rewrite !P.
  assert (E3 : put_at tcpHdrLen payload (put_at 14 (be_put 2 65535) (put_at 13 (be_put 1 flags)
    (put_at 12 (be_put 1 (Z.shiftl 5 4)) (put_at 8 (be_put 4 ack) (put_at 4 (be_put 4 seq) (put_at 2 (be_put 2 dp)
    (put_at 0 (be_put 2 sp) (replicate 20 x00 ++ replicate (length payload) x00)))))))) =
    tcp_bytes sp dp seq ack flags 0 payload).
  { assert (Hr : take (length payload) payload = payload) by (by apply take_ge).
    unfold put_at, tcp_bytes, tcpHdrLen. cbn [be_put length Nat.add replicate app take drop].
    rewrite drop_ge by (rewrite length_replicate; lia). rewrite app_nil_r.
    change (256 ^ Z.of_nat 0) with 1. rewrite !Z.div_1_r. done. }
  rewrite E3. rewrite drop_app_length' by done.
  generalize (tcpChecksum src dst (tcp_bytes sp dp seq ack flags 0 payload)) as tc. intros tc. f_equal.
Qed.

Lemma buildSegment_header src dst n id ck :
  is_ip4 src → is_ip4 dst → Z.of_nat (40 + n) ≤ 65535 →
  ip_header (ip_bytes (u16 (Z.of_nat (40 + n))) id ck src dst) 6 (Z.of_nat (20 + (20 + n))) src dst.
Proof.
  intros Hs Hd Hn. destruct src as [|s1 [|s2 [|s3 [|s4 [|]]]]]; try done.
  destruct dst as [|d1 [|d2 [|d3 [|d4 [|]]]]]; try done.
  split; try done. unfold ip_bytes, slice. cbn [be_put app drop take Nat.sub].
  change ([z2b (u16 (Z.of_nat (40 + n)) / 256 ^ Z.of_nat 1); z2b (u16 (Z.of_nat (40 + n)) / 256 ^ Z.of_nat 0)])
    with (be_put 2 (u16 (Z.of_nat (40 + n)))).
  rewrite be_get_put. change (256 ^ Z.of_nat 2) with (2 ^ 16). unfold_int. rewrite Z.mod_mod, Z.mod_small by lia. lia.
Qed.

Lemma length_tcp_bytes sp dp seq ack flags ck payload :
  length (tcp_bytes sp dp seq ack flags ck payload) = (20 + length payload)%nat.
Proof. unfold tcp_bytes. rewrite !length_app, !length_be_put. cbn. lia. Qed.

(** The checksum field: what the segment sums to without it, and with it. *)
Lemma tcp_bytes_sum sp dp seq ack flags ck payload :
  is_u16 ck → wsum (tcp_bytes sp dp seq ack flags ck payload) = wsum (tcp_bytes sp dp seq ack flags 0 payload) + ck.
Proof.
  intros Hc. unfold tcp_bytes. rewrite !app_assoc.
  assert (H : ∀ x c r, Nat.even (length x) = true → is_u16 c → wsum ((x ++ be_put 2 c) ++ r) = wsum x + c + wsum r).
  { intros x c r Hx Hu. rewrite <-app_assoc, wsum_app by done. rewrite (wsum_app (be_put 2 c)) by done.
    rewrite wsum_put2 by done. lia. }
  rewrite <-!(app_assoc _ [x00; x00] payload), !H; [lia|..]; try done; unfold_int; lia.
Qed.

Lemma checksum_pseudo_onec src dst tcp :
  is_ip4 src → is_ip4 dst → Z.of_nat (length tcp) ≤ 65535 →
  ∃ s, 0 ≤ s ∧ is_u32 (s + wsum tcp) ∧ checksumWithPseudo src dst tcp = 65535 - onec (s + wsum tcp) ∧
    ∀ tcp', length tcp' = length tcp → checksumWithPseudo src dst tcp' = 65535 - onec (s + wsum tcp').
Proof.
  intros Hs Hd Hl. exists (wsum src + wsum dst + 6 + Z.of_nat (length tcp)).
  pose proof (wsum_bound src) as B1. pose proof (wsum_bound dst) as B2. rewrite Hs in B1. rewrite Hd in B2.
  assert (H : ∀ t, length t = length tcp →
    is_u32 (wsum src + wsum dst + 6 + Z.of_nat (length tcp) + wsum t) ∧
    checksumWithPseudo src dst t = 65535 - onec (wsum src + wsum dst + 6 + Z.of_nat (length tcp) + wsum t)).
  { intros t Ht. pose proof (wsum_bound t) as B3. rewrite Ht in B3.
    assert (is_u32 (wsum src + wsum dst + 6 + Z.of_nat (length tcp) + wsum t)) as Hu by (unfold_int; lia).
    split; [done|]. unfold checksumWithPseudo. rewrite !To4_ip4 by done. cbv [from_option id]. rewrite Ht.
    rewrite (add_words_wsum src) by (unfold_int; lia). rewrite (add_words_wsum dst) by (unfold_int; lia).
    rewrite !u32_small by (unfold_int; rewrite ?Z.mod_small by lia; lia).
    rewrite add_words_wsum by (unfold_int; lia). rewrite finish_onec; [f_equal; f_equal; lia|].
    rewrite Z.add_0_l. exact Hu. }
  destruct (H tcp eq_refl) as [H1 H2]. split_and!; [lia|done|done|]. intros t Ht. by destruct (H t Ht).
Qed.

(** A segment carries a valid checksum. *)
Lemma segment_checksum src dst sp dp seq ack flags payload :
  is_ip4 src → is_ip4 dst → Z.of_nat (20 + length payload) ≤ 65535 →
  let ck := tcpChecksum src dst (tcp_bytes sp dp seq ack flags 0 payload) in
  validTCPChecksum src dst (tcp_bytes sp dp seq ack flags ck payload) = true.
Proof.
  intros Hs Hd Hl ck. set (t0 := tcp_bytes sp dp seq ack flags 0 payload) in *.
  destruct (checksum_pseudo_onec src dst t0 Hs Hd) as (s & H0 & Hu & Hc & Ht);
    [unfold t0; rewrite length_tcp_bytes; lia|].
  unfold validTCPChecksum. rewrite length_tcp_bytes. cbn [Nat.leb tcpHdrLen Nat.add andb]. apply Z.eqb_eq.
  rewrite Ht by (unfold t0; by rewrite !length_tcp_bytes).
  pose proof (wsum_bound t0). pose proof (onec_range (s + wsum t0) ltac:(lia)).
  assert (Hck : ck = 65535 - onec (s + wsum t0)) by exact Hc.
  rewrite tcp_bytes_sum by (unfold_int; lia). fold t0. rewrite Hck.
  replace (s + (wsum t0 + (65535 - onec (s + wsum t0)))) with (s + wsum t0 + (65535 - onec (s + wsum t0))) by lia.
  destruct (fill_valid (s + wsum t0) ltac:(lia)) as [P1 P2].
  set (v := s + wsum t0 + _) in *. apply Z.mod_divide in P2 as [k Hk]; [|lia].
  rewrite Hk. replace (k * 65535) with (65535 + 65535 * (k - 1)) by lia. rewrite onec_shift by lia. by rewrite onec_small.
Qed.

Lemma parse_tcp h src dst sp dp seq ack flags payload pad :
  is_ip4 src → is_ip4 dst → is_u16 sp → is_u16 dp → is_u32 seq → 0 ≤ flags < 256 →
  has_bits flags (Z.lor tcpFlagRST tcpFlagFIN) = false → Z.of_nat (20 + length payload) ≤ 65535 →
  ip_header h 6 (Z.of_nat (length h + (20 + length payload))) src dst →
  parseSegment (h ++ tcp_bytes sp dp seq ack flags (tcpChecksum src dst (tcp_bytes sp dp seq ack flags 0 payload)) payload ++ pad) =
  Ok (Some (mkSegment payload (mkUDPAddr src sp) dp (has_bits flags tcpFlagSYN) seq)).
Proof.
  intros Hs Hd Hsp Hdp Hq Hf Hrst Hl Hh. set (ck := tcpChecksum _ _ _).
  pose proof (segment_checksum src dst sp dp seq ack flags payload Hs Hd Hl) as Hck. cbn zeta in Hck. fold ck in Hck.
  set (r := tcp_bytes sp dp seq ack flags ck payload) in *.
  assert (Hr : length r = (20 + length payload)%nat) by apply length_tcp_bytes.
  rewrite <-Hr in Hh. destruct (ip_header_reads h 6 r src dst pad tcpHdrLen Hh) as (A1 & A2 & A3 & A4 & A5 & A6);
    [rewrite Hr; unfold tcpHdrLen; lia|]. unfold parseSegment. rewrite A1, A4, A5, A6, Hck. cbn [negb].
  rewrite (proj2 (Nat.ltb_ge (total_len _) _)) by (rewrite A2, A3; lia).
  rewrite (proj2 (Nat.leb_gt _ _)) by lia.
  assert (N13 : b2z (nth 13 r x00) = flags) by (change (nth 13 r x00) with (z2b flags); rewrite b2z_z2b, Z.mod_small; lia).
  rewrite N13, Hrst. change (Z.to_nat (Z.shiftr (b2z (nth 12 r x00)) 4 * 4)) with 20%nat.
  change (20 <? tcpHdrLen)%nat with false. rewrite (proj2 (Nat.ltb_ge _ _)) by lia. cbn [orb].
  change (drop 20 r) with payload. change (slice 0 2 r) with (be_put 2 sp). change (slice 2 4 r) with (be_put 2 dp).
  change (slice 4 8 r) with (be_put 4 seq). unfold_int. rewrite !be_get_put_small; done.
Qed.

Lemma parse_in_transit rnd src dst sp dp seq ack flags payload seg' :
  is_ip4 src → is_ip4 dst → is_u16 sp → is_u16 dp → is_u32 seq → 0 ≤ flags < 256 →
  has_bits flags (Z.lor tcpFlagRST tcpFlagFIN) = false → Z.of_nat (40 + length payload) ≤ 65535 →
  in_transit (buildSegment rnd src dst sp dp seq ack flags payload) seg' →
  parseSegment seg' = Ok (Some (mkSegment payload (mkUDPAddr src sp) dp (has_bits flags tcpFlagSYN) seq)).
Proof.
  intros Hs Hd Hsp Hdp Hq Hf Hrst Hl (h' & pad & proto & src' & dst' & H1 & H2 & ->).
  pose proof (buildSegment_layout rnd src dst sp dp seq ack flags payload Hs Hd) as E.
  set (h := seg_header _ _ _ _) in E. set (r := tcp_bytes _ _ _ _ _ (tcpChecksum _ _ _) _) in E.
  assert (Hh : ip_header h 6 (Z.of_nat (20 + (20 + length payload))) src dst) by (by apply buildSegment_header).
  assert (Hn : length h = 20%nat) by (by rewrite <-(ih_len _ _ _ _ _ Hh)).
  assert (Hr : length r = (20 + length payload)%nat) by apply length_tcp_bytes.
  rewrite E in *. assert (Hhl : header_len (h ++ r) = 20%nat) by reflexivity. rewrite Hhl in *.
  rewrite take_app_length' in H1 by done. rewrite drop_app_length' by done.
  assert (proto = 6 ∧ src' = src ∧ dst' = dst) as (-> & -> & ->).
  { destruct H1 as [_ _ _ _ _ P1 S1 D1], Hh as [_ _ _ _ _ P2 S2 D2]. split_and!; congruence. }
  apply parse_tcp; try done; [lia|]. rewrite length_app, Hn, Hr in H2.
  by replace (20 + (20 + length payload) - 20)%nat with (20 + length payload)%nat in H2 by lia.
Qed.

Lemma in_transit_refl rnd src dst sp dp seq ack flags payload :
  is_ip4 src → is_ip4 dst → Z.of_nat (40 + length payload) ≤ 65535 →
  in_transit (buildSegment rnd src dst sp dp seq ack flags payload) (buildSegment rnd src dst sp dp seq ack flags payload).
Proof.
  intros Hs Hd Hl. rewrite buildSegment_layout by done. set (h := seg_header _ _ _ _). set (r := tcp_bytes _ _ _ _ _ _ _).
  assert (Hh : ip_header h 6 (Z.of_nat (20 + (20 + length payload))) src dst) by (by apply buildSegment_header).
  assert (Hn : length h = 20%nat) by (by rewrite <-(ih_len _ _ _ _ _ Hh)).
  assert (Hr : length r = (20 + length payload)%nat) by apply length_tcp_bytes.
  exists h, [], 6, src, dst. change (header_len (h ++ r)) with 20%nat.
  rewrite take_app_length', drop_app_length', length_app, Hn, Hr by done.
  split_and!; [done| |by rewrite app_nil_r]. by replace (20 + (20 + length payload) - 20)%nat with (20 + length payload)%nat by lia.
Qed.

Lemma seg_header_checksum total id src dst :
  is_ip4 src → is_ip4 dst → is_u16 id → is_u16 total → ipChecksum (seg_header total id src dst) = 0.
Proof.
  intros Hs Hd Hid Ht.
  assert (Hw : ∀ ck, is_u16 ck → wsum (ip_bytes total id ck src dst) = wsum (ip_bytes total id 0 src dst) + ck).
  { intros ck Hc. unfold ip_bytes. rewrite !(wsum_app [_; _]), !(wsum_app (be_put 2 _)) by done.
    rewrite !(wsum_app [_; _; _; _]), !(wsum_app (be_put 2 _)) by done. rewrite !wsum_put2 by (done || (unfold_int; lia)). lia. }
  assert (Hb : ∀ ck, 0 ≤ wsum (ip_bytes total id ck src dst) ≤ 65535 * 12).
  { intros ck. pose proof (wsum_bound (ip_bytes total id ck src dst)) as H.
    assert (length (ip_bytes total id ck src dst) = 20%nat) as E by (unfold ip_bytes; rewrite !length_app, Hs, Hd; done).
    rewrite E in H. lia. }
  unfold ipChecksum, seg_header. pose proof (Hb 0). set (s := wsum (ip_bytes total id 0 src dst)) in *.
  assert (Hc : ipChecksum (ip_bytes total id 0 src dst) = 65535 - onec s).
  { unfold ipChecksum. rewrite add_words_wsum by (fold s; lia). apply finish_onec. fold s. unfold_int. lia. }
  pose proof (onec_range s ltac:(lia)). rewrite Hc. set (ck := 65535 - onec s) in *.
  pose proof (Hb ck). rewrite add_words_wsum by lia. apply finish_valid; [unfold_int; lia|].
  rewrite Hw by (unfold ck; unfold_int; lia). rewrite Z.add_0_l. apply fill_valid. lia.
Qed.

(** C32 — Segments. A segment the transport builds carries a valid header
    checksum, and its receiver gets back the payload, the sender's address, the
    port, the sequence number and the SYN bit, the TCP checksum filled in by
    the code being accepted by the code. This holds for the segment as built and
    for any datagram with another IPv4 header between the same hosts
    (identification, TTL, options, header checksum) and with bytes left behind
    it, so hosts and routers on the way do not matter. *)
Theorem segment_roundtrip rnd src dst sp dp seq ack flags payload :
  is_ip4 src → is_ip4 dst → is_u16 sp → is_u16 dp → is_u32 seq → 0 ≤ flags < 256 →
  has_bits flags (Z.lor tcpFlagRST tcpFlagFIN) = false → Z.of_nat (40 + length payload) ≤ 65535 →
  let seg := buildSegment rnd src dst sp dp seq ack flags payload in
  ipChecksum (take ipHdrLen seg) = 0 ∧ in_transit seg seg ∧
  ∀ seg', in_transit seg seg' →
    parseSegment seg' = Ok (Some (mkSegment payload (mkUDPAddr src sp) dp (has_bits flags tcpFlagSYN) seq)).
Proof.
  intros Hs Hd Hsp Hdp Hq Hf Hrst Hl seg. split_and!.
  - unfold seg. rewrite buildSegment_layout by done. rewrite take_app_length' by (unfold seg_header, ip_bytes; rewrite !length_app, Hs, Hd; done).
    apply seg_header_checksum; try done; apply Z.mod_pos_bound; lia.
  - by apply in_transit_refl.
  - intros seg'. by apply parse_in_transit.
Qed.

(** ** Two transports that talk to each other *)

(** An open client whose segments leave from [ip] and go to the server at [dst]. *)
Record client_at (f : FakeTCP) (ip dst : list byte) (st : peerState) : Prop := {
  ca_fd : 0 ≤ ft_fd f;
  ca_srv : ft_srv f = false;
  ca_dst : ft_clientDstIP f = dst;
  ca_src : clientSrcIP f = ip;
  ca_port : is_u16 (ft_clientSrcPort f);
  ca_dport : is_u16 (ft_clientDstPort f);
  ca_peer : ft_peers f !! "server" = Some st;
  ca_seq : is_u32 (p_mySeq st);
}.

Lemma open_client_at Resolve e local remote raddr fd dst :
  Resolve remote = Some raddr → To4 (ua_IP raddr) = Some dst → te_socket e = Some fd → 0 ≤ fd → remote ≠ "" →
  is_u32 (te_seq e) →
  ∃ f, tcp_Open Resolve e local remote NewFakeTCP = (None, f) ∧
    client_at f (localIPFor e dst NewFakeTCP).1 dst (mkPeer (te_seq e) 0 false).
Proof.
  intros Hr H4 Hs Hfd Hne Hq. unfold tcp_Open. rewrite (proj2 (String.eqb_neq _ _)) by done. cbn [NewFakeTCP ft_fd Z.leb negb].
  change (0 <=? -1) with false. cbn iota. unfold tcp_openClient. rewrite Hr, H4, Hs.
  destruct (localIPFor e dst NewFakeTCP) as [ip f0]. eexists. split; [reflexivity|]. cbn [fst].
  split; cbn [ft_fd ft_srv ft_clientDstIP ft_clientSrcPort ft_clientDstPort ft_peers ft_srcFor p_mySeq]; try done.
  - unfold clientSrcIP. cbn [ft_srcFor ft_clientDstIP]. by rewrite lookup_insert_eq.
  - destruct (Resolve local) as [l|]; [destruct (0 <? _)|]; apply Z.mod_pos_bound; lia.
  - apply Z.mod_pos_bound; lia.
  - by rewrite lookup_insert_eq.
Qed.

Lemma next_flags_ok st first :
  first = tcpFlagSYN ∨ first = Z.lor tcpFlagSYN tcpFlagACK →
  0 ≤ next_flags st first < 256 ∧ has_bits (next_flags st first) (Z.lor tcpFlagRST tcpFlagFIN) = false ∧
  has_bits (next_flags st first) tcpFlagSYN = negb (p_sent st).
Proof. unfold next_flags. intros [->| ->]; by destruct (p_sent st). Qed.

(** The acknowledgement number of a segment. *)
Definition seg_ack (seg : list byte) : Z := be_get (slice 28 32 seg).

Lemma buildSegment_ack rnd src dst sp dp seq ack flags payload :
  is_ip4 src → is_ip4 dst → is_u32 ack → seg_ack (buildSegment rnd src dst sp dp seq ack flags payload) = ack.
Proof.
  intros Hs Hd Ha. rewrite buildSegment_layout by done. unfold seg_ack.
  destruct src as [|s1 [|s2 [|s3 [|s4 [|]]]]]; try done. destruct dst as [|d1 [|d2 [|d3 [|d4 [|]]]]]; try done.
  change (slice 28 32 _) with (be_put 4 ack). by apply be_get_put_small.
Qed.

Lemma client_sends f ip dst st e b :
  client_at f ip dst st → is_ip4 ip → is_ip4 dst → Z.of_nat (40 + length b) ≤ 65535 →
  ∃ f' seg, tcp_Send e b f = (None, f', [seg]) ∧ client_at f' ip dst (advance st (length b)) ∧
    ft_clientSrcPort f' = ft_clientSrcPort f ∧ in_transit seg seg ∧
    ∀ seg', in_transit seg seg' → parseSegment seg' =
      Ok (Some (mkSegment b (mkUDPAddr ip (ft_clientSrcPort f)) (ft_clientDstPort f) (negb (p_sent st)) (p_mySeq st))).
Proof.
  intros [A1 A2 A3 A4 A5 A6 A7 A8] Hip Hdst Hl. unfold tcp_Send. rewrite A7, A3, A4.
  set (seg := buildSegment _ _ _ _ _ _ _ _ _). eexists _, seg.
  destruct (next_flags_ok st tcpFlagSYN) as (F1 & F2 & F3); [by left|]. split_and!.
  - unfold writeRaw. cbn [set_peers ft_fd]. by rewrite (proj2 (Z.ltb_ge _ _)) by lia.
  - split; cbn [set_peers ft_fd ft_srv ft_clientDstIP ft_clientSrcPort ft_clientDstPort ft_peers]; try done.
    + by rewrite lookup_insert_eq.
    + apply u32_range.
  - done.
  - by apply in_transit_refl.
  - intros seg' Ht. rewrite <-F3. by eapply parse_in_transit.
Qed.

Lemma server_receives e seg' b a syn seq g :
  ft_srv g = true → parseSegment seg' = Ok (Some (mkSegment b a (ft_serverPort g) syn seq)) →
  let p := default (mkPeer (randSeq (te_seq e)) 0 false) (ft_peers g !! addrKey a) in
  tcp_recv e seg' g = Ok (Some (b, a),
    set_peers (<[addrKey a := mkPeer (p_mySeq p) (expected_seq syn seq b) (p_sent p)]> (ft_peers g)) g).
Proof.
  intros Hs Hp p. unfold tcp_recv. rewrite Hp. cbn [res_bind]. unfold tcp_accepts. rewrite Hs.
  cbn [sg_dstPort sg_src sg_payload sg_syn sg_seq]. by rewrite Z.eqb_refl.
Qed.

Lemma server_sends e ip port b g p dst :
  0 ≤ ft_fd g → ft_peers g !! addrKey (mkUDPAddr ip port) = Some p → (localIPFor e ip g).1 = dst →
  is_ip4 ip → is_ip4 dst → is_u16 port → is_u16 (ft_serverPort g) → is_u32 (p_mySeq p) → is_u32 (p_peerSeq p) →
  Z.of_nat (40 + length b) ≤ 65535 →
  ∃ g' seg, tcp_SendTo e (Some (mkUDPAddr ip port)) b g = (None, g', [seg]) ∧ seg_ack seg = p_peerSeq p ∧ in_transit seg seg ∧
    ∀ seg', in_transit seg seg' → ∃ syn,
      parseSegment seg' = Ok (Some (mkSegment b (mkUDPAddr dst (ft_serverPort g)) port syn (p_mySeq p))).
Proof.
  intros Hfd Hp Hr Hip Hdst Hport Hsp Hq Ha Hl. unfold tcp_SendTo. cbn [mbind option_bind ua_IP ua_Port].
  rewrite To4_ip4 by done. cbn [mbind option_bind].
  assert (Hr' : (localIPFor e ip g).1 = dst ∧ ft_fd (localIPFor e ip g).2 = ft_fd g ∧
    ft_peers (localIPFor e ip g).2 = ft_peers g ∧ ft_serverPort (localIPFor e ip g).2 = ft_serverPort g).
  { split; [done|]. unfold localIPFor. destruct (ft_srcFor g !! IP_String ip); [done|]. by destruct (te_route e ip ≫= To4). }
  destruct (localIPFor e ip g) as [src g1]. cbn [fst snd] in Hr'. destruct Hr' as (-> & R2 & R3 & R4).
  rewrite R3, R4, Hp. cbv [from_option id].
  change (ua_Port (mkUDPAddr ip port)) with port. assert (Hu : u16 port = port) by (by apply Z.mod_small). rewrite Hu.
  destruct (next_flags_ok p (Z.lor tcpFlagSYN tcpFlagACK)) as (F1 & F2 & _); [by right|].
  set (seg := buildSegment _ _ _ _ _ _ _ _ _). eexists _, seg. split_and!.
  - unfold writeRaw. cbn [set_peers ft_fd]. by rewrite R2, (proj2 (Z.ltb_ge _ _)) by lia.
  - by apply buildSegment_ack.
  - by apply in_transit_refl.
  - intros seg' Ht. eexists. refine (parse_in_transit _ _ _ _ _ _ _ _ _ _ _ _ _ _ _ _ _ _ Ht); done.
Qed.

Lemma client_receives_segment e f ip dst st seg' b port syn seq :
  client_at f ip dst st → is_ip4 dst →
  parseSegment seg' = Ok (Some (mkSegment b (mkUDPAddr dst port) (ft_clientSrcPort f) syn seq)) →
  ∃ f', tcp_recv e seg' f = Ok (Some (b, mkUDPAddr dst port), f').
Proof.
  intros [_ A2 A3 _ _ _ _ _] Hd Hp. unfold tcp_recv. rewrite Hp. cbn [res_bind]. unfold tcp_accepts. rewrite A2, A3.
  cbn [sg_dstPort sg_src sg_payload ua_IP]. rewrite Z.eqb_refl, IP_Equal_refl by done. cbn [andb negb]. eauto.
Qed.

(** C33 — An exchange over FakeTCP. A client's frame, in transit, comes out of
    the server's receive loop unchanged and with the client's address; an answer
    the server then sends to that address, over the route back to the client,
    passes the client's filter and comes out of its receive loop unchanged; and
    once the client's first segment is out, the answer acknowledges exactly the
    sequence number the client goes on with, like a TCP connection. The first
    segment, a SYN that carries data, is acknowledged without its data. *)
Theorem faketcp_exchange f ip dst st g gfd e1 e2 e3 e4 b1 b2 :
  client_at f ip dst st → is_ip4 ip → is_ip4 dst →
  ft_fd g = gfd → 0 ≤ gfd → ft_srv g = true → ft_serverPort g = ft_clientDstPort f →
  (localIPFor e3 ip g).1 = dst → is_u32 (te_seq e2) → is_u32 (te_seq e3) →
  (∀ k p, ft_peers g !! k = Some p → is_u32 (p_mySeq p)) →
  Z.of_nat (40 + length b1) ≤ 65535 → Z.of_nat (40 + length b2) ≤ 65535 →
  ∃ f' seg1, tcp_Send e1 b1 f = (None, f', [seg1]) ∧ in_transit seg1 seg1 ∧
  ∀ seg1', in_transit seg1 seg1' →
    let client := mkUDPAddr ip (ft_clientSrcPort f) in
    ∃ g' g'' seg2, tcp_recv e2 seg1' g = Ok (Some (b1, client), g') ∧
      tcp_SendTo e3 (Some client) b2 g' = (None, g'', [seg2]) ∧ in_transit seg2 seg2 ∧
      seg_ack seg2 = u32 (p_mySeq st + if p_sent st then Z.max 1 (Z.of_nat (length b1)) else 1) ∧
      (p_sent st = true → ft_peers f' !! "server" = Some (mkPeer (seg_ack seg2) (p_peerSeq st) true)) ∧
      ∀ seg2', in_transit seg2 seg2' →
        ∃ f'', tcp_recv e4 seg2' f' = Ok (Some (b2, mkUDPAddr dst (ft_serverPort g)), f'').
Proof.
  intros Hf Hip Hdst Hgfd Hfd0 Hsrv Hport Hroute Hq2 Hq3 Hpeers Hl1 Hl2.
  destruct (client_sends f ip dst st e1 b1 Hf Hip Hdst Hl1) as (f' & seg1 & E1 & Hf' & Hpp & Hr1 & Hp1).
  exists f', seg1. split; [exact E1|]. split; [exact Hr1|]. intros seg1' Ht1. cbn zeta. pose proof Hf as [_ _ _ _ A5 A6 _ A8].
  set (client := mkUDPAddr ip (ft_clientSrcPort f)). specialize (Hp1 _ Ht1). rewrite <-Hport in Hp1.
  rewrite (server_receives e2 seg1' b1 client _ _ g Hsrv Hp1). cbn zeta.
  set (p0 := default _ _). set (p := mkPeer _ (expected_seq _ _ _) _).
  set (g' := set_peers _ g). exists g'.
  assert (Hp0 : is_u32 (p_mySeq p0)).
  { unfold p0. destruct (ft_peers g !! addrKey client) eqn:Ek; [by eapply Hpeers|exact Hq2]. }
  assert (Hnext : is_u32 (p_peerSeq p)) by (unfold p, expected_seq; cbn; destruct (negb _); apply u32_range).
  destruct (server_sends e3 ip (ft_clientSrcPort f) b2 g' p dst) as (g'' & seg2 & E2 & Hack & Hr2 & Hp2); try done.
  - cbn. lia.
  - unfold g'. cbn [set_peers ft_peers]. by rewrite lookup_insert_eq.
  - rewrite <-Hroute. unfold localIPFor. change (ft_srcFor g') with (ft_srcFor g).
    destruct (ft_srcFor g !! IP_String ip); [done|]. by destruct (te_route e3 ip ≫= To4).
  - change (is_u16 (ft_serverPort g)). by rewrite Hport.
  - assert (Hack' : seg_ack seg2 = u32 (p_mySeq st + if p_sent st then Z.max 1 (Z.of_nat (length b1)) else 1)).
    { rewrite Hack. cbn [p p_peerSeq]. unfold expected_seq. destruct (p_sent st); cbn [negb]; [|done].
      by rewrite (u32_small (Z.max 1 _)) by (unfold_int; lia). }
    exists g'', seg2. split; [done|]. split; [done|]. split; [done|]. split; [done|]. split.
    + intros Hsent. rewrite Hack', Hsent. destruct Hf' as [_ _ _ _ _ _ -> _]. unfold advance, seqAdvance. do 4 f_equal.
      destruct (Nat.ltb_spec 0 (length b1)); [rewrite u32_small by (unfold_int; lia)|]; lia.
    + intros seg2' Ht2. destruct (Hp2 _ Ht2) as [syn Hps]. rewrite <-Hpp in Hps.
      by eapply client_receives_segment.
Qed.

(** ** Datagrams that crash the parser *)

(** [parseSegment] trusts the total length field: a datagram long enough for
    both headers whose field ends it before the flags of the TCP header is an
    index out of range. The kernel does not deliver such datagrams. *)
Lemma parseSegment_panics b :
  parseSegment b = Panic ↔ header_ok tcpHdrLen 6 b = true ∧ (total_len b < header_len b + 14)%nat.
Proof.
  unfold parseSegment. destruct (header_ok tcpHdrLen 6 b); cbn [negb]; [|split; [done|intros [? _]; done]].
  destruct (Nat.ltb_spec (total_len b) (header_len b)) as [H|H]; [split; [split; [done|lia]|done]|].
  rewrite (length_slice _ (total_len b)) by apply total_len_le.
  destruct (Nat.leb_spec (total_len b - header_len b) 13); [split; [split; [done|lia]|done]|].
  split; [|intros [_ ?]; lia]. by repeat case_match.
Qed.

(** ** Witnesses: a client and a server with one-line environments *)

Definition demo_ip (n : byte) : list byte := [x0a; x00; x00; n].

Lemma segment_roundtrip_witness :
  parseSegment (buildSegment 7 (demo_ip x01) (demo_ip x02) 40000 443 1000 5 (Z.lor tcpFlagPSH tcpFlagACK) [x48; x69]) =
  Ok (Some (mkSegment [x48; x69] (mkUDPAddr (demo_ip x01) 40000) 443 false 1000)).
Proof.
  destruct (segment_roundtrip 7 (demo_ip x01) (demo_ip x02) 40000 443 1000 5 (Z.lor tcpFlagPSH tcpFlagACK) [x48; x69])
    as (_ & Ht & Hp); [done|done|unfold_int; lia|unfold_int; lia|unfold_int; lia|by vm_compute|done|by vm_compute|].
  exact (Hp _ Ht).
Defined.

Definition demo_tcp_env : tcp_env := mkTcpEnv (Some 3) (λ dst, Some (if bool_decide (dst = demo_ip x02) then demo_ip x01 else demo_ip x02)) 5000 77 9.
Definition demo_tcp_client : FakeTCP :=
  (tcp_Open (λ _, Some (mkUDPAddr (demo_ip x02) 443)) demo_tcp_env "" "example:443" NewFakeTCP).2.
Definition demo_tcp_server : FakeTCP :=
  (tcp_Open (λ _, Some (mkUDPAddr [] 443)) demo_tcp_env ":443" "" NewFakeTCP).2.

Lemma faketcp_exchange_witness :
  ∃ f' seg1 g', tcp_Send demo_tcp_env [x01; x02] demo_tcp_client = (None, f', [seg1]) ∧
    tcp_recv demo_tcp_env seg1 demo_tcp_server = Ok (Some ([x01; x02], mkUDPAddr (demo_ip x01) 443), g').
Proof.
  destruct (faketcp_exchange demo_tcp_client (demo_ip x01) (demo_ip x02) (mkPeer 77 0 false) demo_tcp_server 3
    demo_tcp_env demo_tcp_env demo_tcp_env demo_tcp_env [x01; x02] [x03]) as (f' & seg1 & E & H); [|done|done|done|lia|done|done|done|by vm_compute|by vm_compute|done|by vm_compute|by vm_compute|].
  { by split; vm_compute. }
  destruct H as [Ht H]. destruct (H seg1 Ht) as (g' & _ & _ & R & _). by exists f', seg1, g'.
Defined.
