(* ===== verification/Icmp.v ===== *)
(** * The ICMP transport (internal/transport/icmp.go)

    Frames inside echo requests and replies: the packet builder and parser, the
    marker the two ends recognise each other's requests by (a deliberately wrong
    checksum) and the server's reply queues, drained by the requests of the
    client. A method is one step; what it writes to the raw socket is its list of
    packets with their destinations. Address resolution, the raw socket and the
    random identifier are inputs. *)

From S2P Require Import Prelude Ipv4 FakeTCP.

#[local] Open Scope string_scope.
#[local] Open Scope Z_scope.
#[local] Open Scope list_scope.

Definition icmpTypeEchoReply : Z := 0.
Definition icmpTypeEchoRequest : Z := 8.
Definition icmpHdrLen : nat := 8.
Definition maxQueuePerPeer : Z := Z.shiftl 1 20.

(** ** Packets *)

(** [buildEcho(typ, id, seq, payload, corruptCS)]. *)
Definition buildEcho (typ id seq : Z) (payload : list byte) (corruptCS : bool) : list byte :=
  let pkt := replicate (icmpHdrLen + length payload) x00 in
  let pkt := put_at 0 (be_put 1 typ) pkt in
  let pkt := put_at 4 (be_put 2 id) pkt in
  let pkt := put_at 6 (be_put 2 (u16 seq)) pkt in
  let pkt := put_at icmpHdrLen payload pkt in
  let pkt := put_at 2 (be_put 2 (icmpChecksum pkt)) pkt in
  if corruptCS then put_at 2 (be_put 2 (u16 (Z.lnot (be_get (slice 2 4 pkt))))) pkt else pkt.

(** What [parseEcho] returns for an echo packet. *)
Record echo := mkEcho {
  ec_payload : list byte;
  ec_src : UDPAddr;
  ec_type : Z;
  ec_id : Z;
  ec_csOK : bool;
}.

(** [parseEcho(b)]; a cut behind the total length, or a packet cut before the end
    of its ICMP header, is a slice or index out of range. *)
Definition parseEcho (b : list byte) : res unit (option echo) :=
  if negb (header_ok icmpHdrLen 1 b) then Ok None
  else
    let ihl := header_len b in
    let total := total_len b in
    if (total <? ihl)%nat then Panic
    else
      let icmp := slice ihl total b in
      if (length icmp =? 0)%nat then Panic
      else
        let rtype := b2z (nth 0 icmp x00) in
        if negb (rtype =? icmpTypeEchoRequest) && negb (rtype =? icmpTypeEchoReply) then Ok None
        else if (length icmp <? icmpHdrLen)%nat then Panic
        else Ok (Some (mkEcho (drop icmpHdrLen icmp) (mkUDPAddr (slice 12 16 b) 0) rtype
                         (be_get (slice 4 6 icmp)) (icmpChecksum icmp =? 0))).

(** [reqICMPOffset(b)]: [None] is -1. *)
Definition reqICMPOffset (b : list byte) : option nat :=
  if (length b <? ipHdrLen)%nat then None
  else if (header_len b <? ipHdrLen)%nat || (length b <? header_len b + icmpHdrLen)%nat then None
  else Some (header_len b).

(** ** The transport *)

Record ICMP := mkICMP {
  ic_fd : Z;                (* -1 when closed *)
  ic_srv : bool;
  ic_clientDstIP : list byte;
  ic_myID : Z;              (* uint16 *)
  ic_mySeq : Z;             (* uint32 *)
  ic_replyQueue : gmap string (list (list byte));
  ic_queueBytes : gmap string Z;
}.

Definition NewICMP : ICMP := mkICMP (-1) false [] 0 0 ∅ ∅.

Definition set_queue (key : string) (q : list (list byte)) (n : Z) (i : ICMP) : ICMP :=
  mkICMP (ic_fd i) (ic_srv i) (ic_clientDstIP i) (ic_myID i) (ic_mySeq i)
    (<[key := q]> (ic_replyQueue i)) (<[key := n]> (ic_queueBytes i)).

(** A missing map entry reads as nil and as 0. *)
Definition queue_of (key : string) (i : ICMP) : list (list byte) := default [] (ic_replyQueue i !! key).
Definition bytes_of_queue (key : string) (i : ICMP) : Z := default 0 (ic_queueBytes i !! key).

Section open.
  (** [net.ResolveUDPAddr("udp", s)], the socket call and [rand.Uint32()]. *)
  Context (ResolveUDPAddr : string → option UDPAddr) (sock : option Z) (rnd : Z).

Definition icmp_openClient (remote : string) (i : ICMP) : option transport_error * ICMP :=
  match ResolveUDPAddr remote with
  | None => (Some ErrResolve, i)
  | Some raddr =>
      match To4 (ua_IP raddr) with
      | None => (Some ErrNotIPv4, i)
      | Some ip =>
          match sock with
          | None => (Some ErrSocket, i)
          | Some fd => (None, mkICMP fd false ip (u16 (randPort rnd)) (ic_mySeq i) (ic_replyQueue i) (ic_queueBytes i))
          end
      end
  end.

Definition icmp_openServer (local : string) (i : ICMP) : option transport_error * ICMP :=
  match ResolveUDPAddr local with
  | None => (Some ErrResolve, i)
  | Some laddr =>
      let ip := ua_IP laddr in
      if negb (length ip =? 0)%nat && bool_decide (To4 ip = None) && negb (forallb (λ x, bool_decide (x = x00)) ip)
      then (Some ErrNotIPv4, i)
      else match sock with
      | None => (Some ErrSocket, i)
      | Some fd => (None, mkICMP fd true (ic_clientDstIP i) (ic_myID i) (ic_mySeq i) (ic_replyQueue i) (ic_queueBytes i))
      end
  end.

Definition icmp_Open (local remote : string) (i : ICMP) : option transport_error * ICMP :=
  if 0 <=? ic_fd i then (Some ErrAlreadyOpen, i)
  else if negb (String.eqb remote "") then icmp_openClient remote i
  else icmp_openServer local i.
End open.

Definition icmp_Close (i : ICMP) : ICMP :=
  mkICMP (-1) (ic_srv i) (ic_clientDstIP i) (ic_myID i) (ic_mySeq i) (ic_replyQueue i) (ic_queueBytes i).

(** [sendTo(pkt, dst)]. *)
Definition icmp_sendTo (pkt dst : list byte) (i : ICMP) : option transport_error * list (list byte * list byte) :=
  if ic_fd i <? 0 then (Some ErrNotOpen, []) else (None, [(pkt, dst)]).

(** [Send(b)]. *)
Definition icmp_Send (b : list byte) (i : ICMP) : option transport_error * ICMP * list (list byte * list byte) :=
  let seq := u32 (ic_mySeq i + 1) in
  let i := mkICMP (ic_fd i) (ic_srv i) (ic_clientDstIP i) (ic_myID i) seq (ic_replyQueue i) (ic_queueBytes i) in
  let '(err, out) := icmp_sendTo (buildEcho icmpTypeEchoRequest (ic_myID i) seq b true) (ic_clientDstIP i) i in
  (err, i, out).

(** [SendTo(addr, b)]: queues for the peer; an overflow drops the oldest payload. *)
Definition icmp_SendTo (addr : option UDPAddr) (b : list byte) (i : ICMP) : option transport_error * ICMP :=
  match (ua ← addr; _ ← To4 (ua_IP ua); Some ua) with
  | None => (Some ErrBadPeer, i)
  | Some ua =>
      let key := addrKey ua in
      let i := if maxQueuePerPeer <? bytes_of_queue key i + Z.of_nat (length b) then
                 match queue_of key i with
                 | p :: q => set_queue key q (bytes_of_queue key i - Z.of_nat (length p)) i
                 | [] => i
                 end
               else i in
      (None, set_queue key (queue_of key i ++ [b]) (bytes_of_queue key i + Z.of_nat (length b)) i)
  end.

(** The assembly of a reply: the loop stops at the first payload that does not
    fit any more. *)
Definition maxReply : nat := 1472 - icmpHdrLen.
Fixpoint fill_reply (q : list (list byte)) (reply : list byte) : list byte :=
  match q with
  | [] => reply
  | p :: q => if (maxReply <? length reply + length p)%nat then reply else fill_reply q (reply ++ p)
  end.

(** [sendEchoReply(src, reqPkt, reply)]; [None] is the error of a bad request. *)
Definition echo_reply (reqPkt reply : list byte) : option (list byte) :=
  off ← reqICMPOffset reqPkt;
  let out := replicate (icmpHdrLen + length reply) x00 in
  let out := put_at 0 (slice off (off + icmpHdrLen) reqPkt) out in
  let out := put_at 0 (be_put 1 icmpTypeEchoReply) out in
  let out := put_at 2 (be_put 2 0) out in
  let out := put_at icmpHdrLen reply out in
  Some (put_at 2 (be_put 2 (icmpChecksum out)) out).

Definition sendEchoReply (src : UDPAddr) (reqPkt reply : list byte) (i : ICMP) :
    option transport_error * list (list byte * list byte) :=
  match echo_reply reqPkt reply with
  | None => (Some ErrBadRequest, [])
  | Some out => icmp_sendTo out (default [] (To4 (ua_IP src))) i
  end.

(** One datagram read by [Recv]: the loop goes on, ends with an error, or returns
    a payload and its source. *)
Inductive recv_result := RNext | RErr (e : transport_error) | RGot (b : list byte) (a : UDPAddr).

(** The server's branch: an echo request with a wrong checksum drains the queue
    of its source into the reply. *)
Definition icmp_serve (b : list byte) (ec : echo) (i : ICMP) : recv_result * ICMP * list (list byte * list byte) :=
  if negb (ec_type ec =? icmpTypeEchoRequest) || ec_csOK ec then (RNext, i, [])
  else
    let key := addrKey (ec_src ec) in
    let q := queue_of key i in
    let i := set_queue key [] 0 i in
    let '(err, out) := sendEchoReply (ec_src ec) b (fill_reply q []) i in
    (match err with Some e => RErr e | None => RGot (ec_payload ec) (ec_src ec) end, i, out).

(** The client's: a reply of the server to its own identifier, checksum right. *)
Definition icmp_take (ec : echo) (i : ICMP) : recv_result :=
  if negb (ec_type ec =? icmpTypeEchoReply) || negb (ec_csOK ec) || negb (ec_id ec =? ic_myID i) ||
     negb (IP_Equal (ua_IP (ec_src ec)) (ic_clientDstIP i))
  then RNext else RGot (ec_payload ec) (ec_src ec).

(** [b] is what the read returned; [sendEchoReply] is handed the whole read
    buffer, of which it looks at nothing behind [b]. *)
Definition icmp_recv (b : list byte) (i : ICMP) : res unit (recv_result * ICMP * list (list byte * list byte)) :=
  let? o := parseEcho b in
  match o with
  | None => Ok (RNext, i, [])
  | Some ec => if ic_srv i then Ok (icmp_serve b ec i) else Ok (icmp_take ec i, i, [])
  end.

(** * Properties *)

(** ** The wire format *)

Definition echo_bytes (typ ck id seq : Z) (payload : list byte) : list byte :=
  be_put 1 typ ++ [x00] ++ be_put 2 ck ++ be_put 2 id ++ be_put 2 seq ++ payload.

(** The sum of a request's words without its checksum. *)
Definition echo_sum (typ id seq : Z) (payload : list byte) : Z := wsum (echo_bytes typ 0 id (u16 seq) payload).

Lemma length_echo_bytes typ ck id seq payload : length (echo_bytes typ ck id seq payload) = (8 + length payload)%nat.
Proof. unfold echo_bytes. rewrite !length_app, !length_be_put. cbn. lia. Qed.

Lemma echo_bytes_sum typ ck id seq payload :
  is_u16 ck → wsum (echo_bytes typ ck id seq payload) = wsum (echo_bytes typ 0 id seq payload) + ck.
Proof.
  intros Hc. unfold echo_bytes.
  assert (H : ∀ a b c r, is_u16 c → wsum ([a; b] ++ be_put 2 c ++ r) = wsum [a; b] + c + wsum r).
  { intros a b c r Hu. rewrite wsum_app by done. rewrite (wsum_app (be_put 2 c)) by done. rewrite wsum_put2 by done. lia. }
  change (be_put 1 typ ++ [x00] ++ be_put 2 ck ++ be_put 2 id ++ be_put 2 seq ++ payload) with
    ([z2b (typ / 256 ^ Z.of_nat 0); x00] ++ be_put 2 ck ++ be_put 2 id ++ be_put 2 seq ++ payload).
  change (be_put 1 typ ++ [x00] ++ be_put 2 0 ++ be_put 2 id ++ be_put 2 seq ++ payload) with
    ([z2b (typ / 256 ^ Z.of_nat 0); x00] ++ be_put 2 0 ++ be_put 2 id ++ be_put 2 seq ++ payload).
  rewrite (H _ _ ck), (H _ _ 0) by (done || by unfold_int). lia.
Qed.

Lemma put_checksum typ ck ck' id seq payload :
  put_at 2 (be_put 2 ck') (echo_bytes typ ck id seq payload) = echo_bytes typ ck' id seq payload.
Proof. done. Qed.

Lemma buildEcho_layout typ id seq payload corruptCS :
  let ck := icmpChecksum (echo_bytes typ 0 id (u16 seq) payload) in
  buildEcho typ id seq payload corruptCS =
    echo_bytes typ (if corruptCS then u16 (Z.lnot (ck mod 65536)) else ck) id (u16 seq) payload.
Proof.
  intros ck. unfold buildEcho.
  assert (E : put_at icmpHdrLen payload (put_at 6 (be_put 2 (u16 seq)) (put_at 4 (be_put 2 id)
    (put_at 0 (be_put 1 typ) (replicate (icmpHdrLen + length payload) x00)))) =
    echo_bytes typ 0 id (u16 seq) payload).
  { unfold put_at, echo_bytes, icmpHdrLen. cbn [be_put length Nat.add replicate app take drop].
    rewrite drop_0, take_0, app_nil_l.
    rewrite drop_ge by (rewrite length_replicate; lia). by rewrite app_nil_r. }
  rewrite E, put_checksum. fold ck. destruct corruptCS; [|done]. rewrite put_checksum. do 2 f_equal.
  change (slice 2 4 (echo_bytes typ ck id (u16 seq) payload)) with (be_put 2 ck). by rewrite be_get_put.
Qed.

(** The checksum of a corrupted packet is the complement of the right one. *)
Lemma buildEcho_checksum typ id seq payload corruptCS :
  Z.of_nat (8 + length payload) ≤ 65535 → 0 < echo_sum typ id seq payload →
  icmpChecksum (buildEcho typ id seq payload corruptCS) = 0 ↔
    corruptCS = false ∨ echo_sum typ id seq payload mod 65535 = 0.
Proof.
  intros Hl Hp. rewrite buildEcho_layout. rewrite icmpChecksum_valid by (rewrite length_echo_bytes; lia).
  rewrite icmpChecksum_onec by (rewrite length_echo_bytes; lia). fold (echo_sum typ id seq payload).
  pose proof (onec_range (echo_sum typ id seq payload) ltac:(lia)) as Ho.
  assert (Hn : u16 (Z.lnot ((65535 - onec (echo_sum typ id seq payload)) mod 65536)) = onec (echo_sum typ id seq payload)).
  { rewrite Z.mod_small by lia. unfold u16, Z.lnot. change (2 ^ 16) with 65536.
    rewrite <-(Z.mod_add _ 1) by lia. rewrite Z.mod_small; lia. }
  rewrite Hn, echo_bytes_sum by (destruct corruptCS; unfold_int; lia). fold (echo_sum typ id seq payload).
  destruct corruptCS.
  - rewrite flip_valid by lia. split; [by right|]. by intros [|].
  - split; [by left|intros _]. apply fill_valid. lia.
Qed.

Lemma buildEcho_valid typ id seq payload :
  Z.of_nat (8 + length payload) ≤ 65535 → icmpChecksum (buildEcho typ id seq payload false) = 0.
Proof.
  intros Hl. rewrite buildEcho_layout. rewrite icmpChecksum_valid by (rewrite length_echo_bytes; lia).
  rewrite icmpChecksum_onec by (rewrite length_echo_bytes; lia).
  pose proof (wsum_bound (echo_bytes typ 0 id (u16 seq) payload)).
  pose proof (onec_range (wsum (echo_bytes typ 0 id (u16 seq) payload)) ltac:(lia)).
  rewrite echo_bytes_sum by (unfold_int; lia). apply fill_valid. lia.
Qed.

Lemma request_sum_pos id seq payload : 0 < echo_sum icmpTypeEchoRequest id seq payload.
Proof.
  unfold echo_sum, echo_bytes.
  change (be_put 1 icmpTypeEchoRequest ++ [x00] ++ be_put 2 0 ++ be_put 2 id ++ be_put 2 (u16 seq) ++ payload) with
    ([x08; x00] ++ be_put 2 0 ++ be_put 2 id ++ be_put 2 (u16 seq) ++ payload).
  rewrite wsum_app by done. change (wsum [x08; x00]) with 2048.
  pose proof (wsum_bound (be_put 2 0 ++ be_put 2 id ++ be_put 2 (u16 seq) ++ payload)). lia.
Qed.

(** What the other end reads of an echo packet behind any IPv4 header between
    the same hosts. *)
Lemma parse_echo_bytes h src dst typ ck id seq payload pad :
  typ = icmpTypeEchoRequest ∨ typ = icmpTypeEchoReply → is_u16 id →
  ip_header h 1 (Z.of_nat (length h + (8 + length payload))) src dst →
  let pkt := echo_bytes typ ck id seq payload in
  parseEcho (h ++ pkt ++ pad) = Ok (Some (mkEcho payload (mkUDPAddr src 0) typ id (icmpChecksum pkt =? 0))).
Proof.
  intros Ht Hid Hh pkt. assert (Hr : length pkt = (8 + length payload)%nat) by apply length_echo_bytes.
  rewrite <-Hr in Hh. destruct (ip_header_reads h 1 pkt src dst pad icmpHdrLen Hh) as (A1 & A2 & A3 & A4 & A5 & A6);
    [rewrite Hr; unfold icmpHdrLen; lia|]. unfold parseEcho. rewrite A1, A4, A5. cbn [negb].
  rewrite (proj2 (Nat.ltb_ge (total_len _) _)) by (rewrite A2, A3; lia).
  rewrite (proj2 (Nat.eqb_neq _ _)) by lia. rewrite (proj2 (Nat.ltb_ge (length pkt) _)) by (unfold icmpHdrLen; lia).
  assert (N0 : b2z (nth 0 pkt x00) = typ).
  { change (nth 0 pkt x00) with (z2b (typ / 256 ^ Z.of_nat 0)). rewrite b2z_z2b. by destruct Ht as [->| ->]. }
  rewrite N0. change (drop icmpHdrLen pkt) with payload. change (slice 4 6 pkt) with (be_put 2 id).
  rewrite be_get_put_small by (unfold_int; done). by destruct Ht as [->| ->].
Qed.

Lemma parse_buildEcho h src dst typ id seq payload corruptCS pad :
  typ = icmpTypeEchoRequest ∨ typ = icmpTypeEchoReply → is_u16 id →
  ip_header h 1 (Z.of_nat (length h + (8 + length payload))) src dst →
  let pkt := buildEcho typ id seq payload corruptCS in
  parseEcho (h ++ pkt ++ pad) = Ok (Some (mkEcho payload (mkUDPAddr src 0) typ id (icmpChecksum pkt =? 0))).
Proof. intros. subst pkt. rewrite buildEcho_layout. by eapply parse_echo_bytes. Qed.

(** A packet as the receiver's raw socket hands it over: behind an IPv4 header
    from [src] and, with padding or an older read, in front of other bytes. *)
Definition delivered (src pkt b : list byte) : Prop :=
  ∃ h pad dst, ip_header h 1 (Z.of_nat (length h + length pkt)) src dst ∧ b = h ++ pkt ++ pad.

Lemma length_buildEcho typ id seq payload corruptCS :
  length (buildEcho typ id seq payload corruptCS) = (8 + length payload)%nat.
Proof. rewrite buildEcho_layout. apply length_echo_bytes. Qed.

Lemma delivered_short src pkt b : delivered src pkt b → Z.of_nat (length pkt) ≤ 65535.
Proof.
  intros (h & pad & dst & Hh & _). pose proof (be_get_range (slice 2 4 h)) as H.
  rewrite (ih_total _ _ _ _ _ Hh), length_slice in H by (pose proof (ih_min _ _ _ _ _ Hh); unfold ipHdrLen in *; lia).
  change (256 ^ Z.of_nat (4 - 2)) with 65536 in H. lia.
Qed.

(** ** The reply *)

(** The reply holds the longest prefix of the queue that fits. *)
Lemma fill_reply_prefix q r :
  (length r ≤ maxReply)%nat →
  ∃ n, (n ≤ length q)%nat ∧ fill_reply q r = r ++ concat (take n q) ∧
    (length (r ++ concat (take n q)) ≤ maxReply)%nat ∧
    (n < length q → maxReply < length (r ++ concat (take (S n) q)))%nat.
Proof.
  revert r. induction q as [|p q IH]; intros r Hr.
  { exists 0%nat. cbn. rewrite app_nil_r. split_and!; [lia|done|done|lia]. }
  cbn [fill_reply]. destruct (Nat.ltb_spec maxReply (length r + length p)) as [Hl|Hl].
  - exists 0%nat. cbn [take concat length app]. rewrite !app_nil_r, length_app.
    split_and!; [lia|done|done|lia].
  - destruct (IH (r ++ p)) as (n & Hn & E & H1 & H2); [by rewrite length_app|].
    exists (S n). cbn [length]. rewrite E. cbn [take concat]. rewrite <-!app_assoc in *.
    split_and!; [lia|done|done|]. intros Hlt. specialize (H2 ltac:(lia)).
    exact H2.
Qed.

(** A reply mirrors the identifier and the sequence number of its request, its
    checksum is right, and what the read buffer holds behind the datagram does
    not matter. *)
Lemma echo_reply_mirrors h src dst ck id seq payload pad reply :
  is_u16 seq → ip_header h 1 (Z.of_nat (length h + (8 + length payload))) src dst →
  echo_reply (h ++ echo_bytes icmpTypeEchoRequest ck id seq payload ++ pad) reply =
    Some (buildEcho icmpTypeEchoReply id seq reply false).
Proof.
  intros Hs Hh. set (pkt := echo_bytes _ ck id seq payload).
  assert (Hr : length pkt = (8 + length payload)%nat) by apply length_echo_bytes. rewrite <-Hr in Hh.
  destruct (ip_header_reads h 1 pkt src dst pad icmpHdrLen Hh) as (_ & A2 & _);
    [rewrite Hr; unfold icmpHdrLen; lia|].
  pose proof (ih_min _ _ _ _ _ Hh) as Hm. unfold ipHdrLen in Hm.
  unfold echo_reply, reqICMPOffset. rewrite A2. unfold ipHdrLen, icmpHdrLen. rewrite !length_app.
  rewrite !(proj2 (Nat.ltb_ge _ _)) by lia. cbn [orb option_bind mbind].
  assert (E : slice (length h) (length h + 8) (h ++ pkt ++ pad) = echo_bytes icmpTypeEchoRequest ck id seq []).
  { unfold slice. rewrite drop_app_length' by done. by replace (length h + 8 - length h)%nat with 8%nat by lia. }
  rewrite E, buildEcho_layout. f_equal. assert (Hu : u16 seq = seq) by (by apply Z.mod_small). rewrite Hu.
  assert (E2 : put_at 8 reply (put_at 2 (be_put 2 0) (put_at 0 (be_put 1 icmpTypeEchoReply)
    (put_at 0 (echo_bytes icmpTypeEchoRequest ck id seq []) (replicate (8 + length reply) x00)))) =
    echo_bytes icmpTypeEchoReply 0 id seq reply).
  { unfold put_at, echo_bytes. cbn [be_put length Nat.add replicate app take drop].
    rewrite !drop_0, !take_0. cbn [app take drop]. rewrite drop_ge by (rewrite length_replicate; lia). by rewrite app_nil_r. }
  rewrite E2. apply put_checksum.
Qed.

(** ** Requests and pings *)

(** What a server that is open does with a request. *)
Lemma serve_request i src id seq payload corruptCS b :
  ic_srv i = true → 0 ≤ ic_fd i → is_ip4 src → is_u16 id →
  delivered src (buildEcho icmpTypeEchoRequest id seq payload corruptCS) b →
  icmp_recv b i =
    if decide (corruptCS = true ∧ echo_sum icmpTypeEchoRequest id seq payload mod 65535 ≠ 0) then
      let key := addrKey (mkUDPAddr src 0) in
      Ok (RGot payload (mkUDPAddr src 0), set_queue key [] 0 i,
          [(buildEcho icmpTypeEchoReply id (u16 seq) (fill_reply (queue_of key i) []) false, src)])
    else Ok (RNext, i, []).
Proof.
  intros Hsrv Hfd Hip Hid Hd. pose proof (delivered_short _ _ _ Hd) as Hl. rewrite length_buildEcho in Hl.
  destruct Hd as (h & pad & dst & Hh & ->).
  pose proof (buildEcho_checksum icmpTypeEchoRequest id seq payload corruptCS Hl (request_sum_pos id seq payload)) as Hck.
  rewrite length_buildEcho in Hh. unfold icmp_recv.
  rewrite (parse_buildEcho h src dst) by (done || by left). cbn [res_bind]. rewrite Hsrv. unfold icmp_serve.
  cbn [ec_type ec_csOK ec_src ec_payload]. rewrite Z.eqb_refl. cbn [negb orb].
  destruct (Z.eqb_spec (icmpChecksum (buildEcho icmpTypeEchoRequest id seq payload corruptCS)) 0) as [E|E].
  { rewrite decide_False; [done|]. intros [-> Hs]. apply Hck in E as [|]; done. }
  rewrite decide_True.
  2: { destruct corruptCS; [split; [done|]; intros Hs; apply E, Hck; by right|]. exfalso. apply E, Hck. by left. }
  unfold sendEchoReply. rewrite buildEcho_layout at 1.
  rewrite (echo_reply_mirrors h src dst) by (done || apply Z.mod_pos_bound; lia).
  unfold icmp_sendTo. cbn [ic_fd set_queue ua_IP]. rewrite To4_ip4 by done.
  by rewrite (proj2 (Z.ltb_ge _ _)) by lia.
Qed.

(** A payload of whole words has an end of two bytes that makes the sum of a
    request all ones. *)
Lemma degenerate_payload typ id seq payload :
  Nat.even (length payload) = true →
  ∃ z, is_u16 z ∧ echo_sum typ id seq (payload ++ be_put 2 z) mod 65535 = 0.
Proof.
  intros He. set (s := echo_sum typ id seq payload). exists ((65535 - s mod 65535) mod 65535).
  pose proof (Z.mod_pos_bound (65535 - s mod 65535) 65535 ltac:(lia)). split; [unfold_int; lia|].
  assert (E : ∀ z, is_u16 z → echo_sum typ id seq (payload ++ be_put 2 z) = s + z).
  { intros z Hz. unfold s, echo_sum, echo_bytes. rewrite !app_assoc, wsum_app; [by rewrite wsum_put2|].
    rewrite !length_app, !length_be_put. cbn [length Nat.add]. cbn [Nat.even]. exact He. }
  rewrite E by (unfold_int; lia). rewrite Z.add_mod_idemp_r by lia. rewrite Z.mod_eq with (a := s) by lia.
  replace (s + (65535 - (s - 65535 * (s / 65535)))) with ((1 + s / 65535) * 65535) by lia. by apply Z.mod_mul.
Qed.

(** C35 — The marker of a request. An honest ping (a right checksum) never
    reaches the server: it is left to the kernel. A request of the client, whose
    checksum is inverted, is served, with its payload and its source, exactly
    when the sum of its other words is not all ones; otherwise the inverted
    checksum is valid after all and the frame is lost. Such payloads exist: any
    payload of whole words becomes one by two more bytes. *)
Theorem request_marker i src id seq payload corruptCS b :
  ic_srv i = true → 0 ≤ ic_fd i → is_ip4 src → is_u16 id →
  delivered src (buildEcho icmpTypeEchoRequest id seq payload corruptCS) b →
  let degenerate := λ payload, echo_sum icmpTypeEchoRequest id seq payload mod 65535 = 0 in
  (corruptCS = false ∨ degenerate payload → icmp_recv b i = Ok (RNext, i, [])) ∧
  (corruptCS = true → ¬ degenerate payload →
     ∃ i' out, icmp_recv b i = Ok (RGot payload (mkUDPAddr src 0), i', out)) ∧
  (∀ p, Nat.even (length p) = true → ∃ z, is_u16 z ∧ degenerate (p ++ be_put 2 z)).
Proof.
  intros Hsrv Hfd Hip Hid Hd degenerate. rewrite (serve_request i src id seq payload corruptCS b) by done.
  split_and!.
  - intros H. rewrite decide_False; [done|]. intros [-> Hn]. by destruct H.
  - intros -> Hn. rewrite decide_True by done. by eexists _, _.
  - intros p. apply degenerate_payload.
Qed.

(** ** One round of the pull protocol *)

(** The client takes a reply of its server to its own identifier. *)
Lemma take_reply i dst id seq reply b :
  ic_srv i = false → ic_clientDstIP i = dst → is_ip4 dst → ic_myID i = id → is_u16 id →
  delivered dst (buildEcho icmpTypeEchoReply id seq reply false) b →
  icmp_recv b i = Ok (RGot reply (mkUDPAddr dst 0), i, []).
Proof.
  intros Hsrv Hdst Hip Hid Hu Hd. pose proof (delivered_short _ _ _ Hd) as Hl. rewrite length_buildEcho in Hl.
  destruct Hd as (h & pad & d & Hh & ->). rewrite length_buildEcho in Hh. unfold icmp_recv.
  rewrite (parse_buildEcho h dst d) by (done || by right). rewrite buildEcho_valid by done.
  cbn [res_bind]. rewrite Hsrv. unfold icmp_take. cbn [ec_type ec_csOK ec_id ec_src ec_payload ua_IP].
  rewrite Hid, Hdst, (IP_Equal_refl dst) by exact Hip.
  by rewrite !Z.eqb_refl.
Qed.

(** C34 — One round of the pull protocol. The request the client sends gives the
    server its payload and the client's address, and empties exactly the queue
    of that address; the reply, whatever headers the two datagrams travel under
    and whatever follows them, gives the client the longest prefix of that queue
    that fits 1464 bytes - in one piece, so several queued frames arrive as one
    read, and a frame behind the prefix is gone. The request must not be one of
    the degenerate ones of the marker. *)
Theorem icmp_pull c g cip dst b :
  ic_srv c = false → 0 ≤ ic_fd c → ic_clientDstIP c = dst → is_ip4 dst → is_u16 (ic_myID c) →
  ic_srv g = true → 0 ≤ ic_fd g → is_ip4 cip →
  echo_sum icmpTypeEchoRequest (ic_myID c) (u32 (ic_mySeq c + 1)) b mod 65535 ≠ 0 →
  let key := addrKey (mkUDPAddr cip 0) in
  let q := queue_of key g in
  ∃ c' pkt, icmp_Send b c = (None, c', [(pkt, dst)]) ∧
  ∀ b1, delivered cip pkt b1 →
  ∃ g' rep n, icmp_recv b1 g = Ok (RGot b (mkUDPAddr cip 0), g', [(rep, cip)]) ∧
    queue_of key g' = [] ∧ (∀ k, k ≠ key → queue_of k g' = queue_of k g) ∧
    (n ≤ length q)%nat ∧ (length (concat (take n q)) ≤ maxReply)%nat ∧
    (n < length q → maxReply < length (concat (take (S n) q)))%nat ∧
    ∀ b2, delivered dst rep b2 → icmp_recv b2 c' = Ok (RGot (concat (take n q)) (mkUDPAddr dst 0), c', []).
Proof.
  intros Csrv Cfd Cdst Hdst Cid Gsrv Gfd Hcip Hs key q. unfold icmp_Send, icmp_sendTo. cbn [ic_fd ic_myID ic_clientDstIP].
  rewrite (proj2 (Z.ltb_ge (ic_fd c) 0)) by lia. rewrite Cdst. eexists _, _. split; [reflexivity|]. intros b1 H1.
  rewrite (serve_request g cip _ _ _ _ b1 Gsrv Gfd Hcip Cid H1), decide_True by done. cbv zeta. fold key. fold q.
  destruct (fill_reply_prefix q [] ltac:(cbn; lia)) as (n & Hn & E & Hl & Hnext). cbn [app] in E, Hl, Hnext. rewrite E.
  eexists _, _, n. split; [reflexivity|]. split; [|split; [|split; [exact Hn|split; [exact Hl|split; [exact Hnext|]]]]].
  - unfold queue_of, set_queue. cbn [ic_replyQueue]. by rewrite lookup_insert_eq.
  - intros k Hk. unfold queue_of, set_queue. cbn [ic_replyQueue]. by rewrite lookup_insert_ne.
  - intros b2 H2. eapply take_reply; [exact Csrv|reflexivity|exact Hdst|reflexivity|exact Cid|exact H2].
Qed.

(** ** The queues stay bounded *)

Section bounded.
  (** The length of the shortest payload handed to [SendTo]: for sealed frames,
      their header. *)
  Context (m : Z) (Hm : 0 < m).

(** The byte counts are right, the payloads no shorter than [m], and there are
    no more of them than [m]-byte ones fit the limit. *)
Definition queue_inv (i : ICMP) : Prop :=
  ∀ key, let q := queue_of key i in
    bytes_of_queue key i = Z.of_nat (length (concat q)) ∧ Forall (λ p, m ≤ Z.of_nat (length p)) q ∧
    Z.of_nat (length q) ≤ Z.max 1 (maxQueuePerPeer / m).

Lemma concat_lower (q : list (list byte)) :
  Forall (λ p, m ≤ Z.of_nat (length p)) q → Z.of_nat (length q) * m ≤ Z.of_nat (length (concat q)).
Proof. induction 1 as [|p q H _ IH]; cbn [concat length]; [lia|]. rewrite length_app. lia. Qed.

Lemma set_queue_same key q n i : queue_of key (set_queue key q n i) = q ∧ bytes_of_queue key (set_queue key q n i) = n.
Proof. unfold queue_of, bytes_of_queue, set_queue. cbn. by rewrite !lookup_insert_eq. Qed.

Lemma set_queue_other key k q n i :
  k ≠ key → queue_of k (set_queue key q n i) = queue_of k i ∧ bytes_of_queue k (set_queue key q n i) = bytes_of_queue k i.
Proof. intros. unfold queue_of, bytes_of_queue, set_queue. cbn. by rewrite !lookup_insert_ne. Qed.

Lemma set_queue_inv key q i :
  queue_inv i → Forall (λ p, m ≤ Z.of_nat (length p)) q → Z.of_nat (length q) ≤ Z.max 1 (maxQueuePerPeer / m) →
  queue_inv (set_queue key q (Z.of_nat (length (concat q))) i).
Proof.
  intros Hi Hq Hl k. destruct (decide (k = key)) as [->|Hk].
  - by destruct (set_queue_same key q (Z.of_nat (length (concat q))) i) as [-> ->].
  - destruct (set_queue_other key k q (Z.of_nat (length (concat q))) i Hk) as [-> ->]. apply Hi.
Qed.

Lemma SendTo_inv addr b i :
  queue_inv i → m ≤ Z.of_nat (length b) → queue_inv (icmp_SendTo addr b i).2.
Proof.
  intros Hi Hb. unfold icmp_SendTo. destruct (ua ← addr; _ ← To4 (ua_IP ua); Some ua) as [ua|]; [|done].
  cbn [snd]. generalize (addrKey ua) as key. intros key. destruct (Hi key) as (Hn & Hq & Hl).
  destruct (Z.ltb_spec maxQueuePerPeer (bytes_of_queue key i + Z.of_nat (length b))) as [Ho|Ho].
  - destruct (queue_of key i) as [|p q] eqn:E.
    + rewrite E. cbn [app]. rewrite Hn. cbn [concat length].
      replace (Z.of_nat 0 + Z.of_nat (length b)) with (Z.of_nat (length (concat [b]))) by (cbn [concat]; rewrite app_nil_r; lia).
      apply set_queue_inv; [done|by constructor|cbn [length]; lia].
    + apply Forall_cons in Hq as [Hp Hq]. destruct (set_queue_same key q (bytes_of_queue key i - Z.of_nat (length p)) i) as [-> ->].
      rewrite Hn. cbn [concat]. rewrite length_app.
      replace (Z.of_nat (length p + length (concat q)) - Z.of_nat (length p) + Z.of_nat (length b))
        with (Z.of_nat (length (concat (q ++ [b])))) by (rewrite concat_app, length_app; cbn [concat]; rewrite app_nil_r; lia).
      apply set_queue_inv; [|by apply Forall_app_2; [|constructor]|rewrite length_app; cbn [length] in *; lia].
      replace (Z.of_nat (length p + length (concat q)) - Z.of_nat (length p)) with (Z.of_nat (length (concat q))) by lia.
      apply set_queue_inv; [done|done|cbn [length] in Hl; lia].
  - rewrite Hn in *.
    replace (Z.of_nat (length (concat (queue_of key i))) + Z.of_nat (length b))
      with (Z.of_nat (length (concat (queue_of key i ++ [b])))) in * by (rewrite concat_app, length_app; cbn [concat]; rewrite app_nil_r; lia).
    assert (Hall : Forall (λ p, m ≤ Z.of_nat (length p)) (queue_of key i ++ [b])) by (by apply Forall_app_2; [|constructor]).
    apply set_queue_inv; [done|done|]. apply concat_lower in Hall.
    assert (Z.of_nat (length (queue_of key i ++ [b])) ≤ maxQueuePerPeer / m) by (apply Z.div_le_lower_bound; lia). lia.
Qed.
End bounded.

(** The life of a transport: any order of its methods. [m] bounds the payloads
    handed to [SendTo] from below, [M] from above. *)
Inductive icmp_reachable (m M : Z) : ICMP → Prop :=
| ir_new : icmp_reachable m M NewICMP
| ir_open res sock rnd local remote i : icmp_reachable m M i → icmp_reachable m M (icmp_Open res sock rnd local remote i).2
| ir_close i : icmp_reachable m M i → icmp_reachable m M (icmp_Close i)
| ir_send b i : icmp_reachable m M i → icmp_reachable m M (icmp_Send b i).1.2
| ir_sendto addr b i :
    icmp_reachable m M i → m ≤ Z.of_nat (length b) ≤ M → icmp_reachable m M (icmp_SendTo addr b i).2
| ir_recv b r i' out i : icmp_reachable m M i → icmp_recv b i = Ok (r, i', out) → icmp_reachable m M i'.

(** What the methods other than [SendTo] do to the queues: nothing, or they
    empty one. *)
Lemma recv_queues b i r i' out :
  icmp_recv b i = Ok (r, i', out) → i' = i ∨ ∃ key, i' = set_queue key [] 0 i.
Proof.
  unfold icmp_recv. destruct (parseEcho b) as [[ec|]| |]; cbn [res_bind]; [|intros [= <- <- <-]; by left|done|done].
  destruct (ic_srv i); [|intros [= <- <- <-]; by left]. unfold icmp_serve.
  destruct (_ || _); [intros [= <- <- <-]; by left|].
  destruct (sendEchoReply _ _ _ _) as [err o]. intros [= <- <- <-]. right. by eexists.
Qed.

Lemma Open_queues res sock rnd local remote i :
  let i' := (icmp_Open res sock rnd local remote i).2 in
  ic_replyQueue i' = ic_replyQueue i ∧ ic_queueBytes i' = ic_queueBytes i.
Proof.
  unfold icmp_Open, icmp_openClient, icmp_openServer.
  repeat first [case_match|done].
Qed.

Lemma queue_inv_ext m i i' :
  ic_replyQueue i' = ic_replyQueue i → ic_queueBytes i' = ic_queueBytes i → queue_inv m i → queue_inv m i'.
Proof. unfold queue_inv, queue_of, bytes_of_queue. by intros -> ->. Qed.

(** A property of payloads that [SendTo] only ever puts payloads with into the
    queues holds of all of them. *)
Lemma SendTo_forall (P : list byte → Prop) addr b i :
  (∀ key, Forall P (queue_of key i)) → P b → ∀ key, Forall P (queue_of key (icmp_SendTo addr b i).2).
Proof.
  intros Hi Hb key. unfold icmp_SendTo. destruct (ua ← addr; _ ← To4 (ua_IP ua); Some ua) as [ua|]; [|apply Hi].
  cbn [snd]. generalize (addrKey ua) as k. intros k.
  assert (H : ∀ i0 n, (∀ key, Forall P (queue_of key i0)) → Forall P (queue_of key (set_queue k (queue_of k i0 ++ [b]) n i0))).
  { intros i0 n H0. destruct (decide (key = k)) as [->|Hk].
    - destruct (set_queue_same k (queue_of k i0 ++ [b]) n i0) as [-> _]. by apply Forall_app_2; [|constructor].
    - by destruct (set_queue_other k key (queue_of k i0 ++ [b]) n i0 Hk) as [-> _]. }
  destruct (_ <? _); [|by apply H]. destruct (queue_of k i) as [|p q] eqn:E; [by apply H|]. apply H.
  intros k'. destruct (decide (k' = k)) as [->|Hk].
  - destruct (set_queue_same k q (bytes_of_queue k i - Z.of_nat (length p)) i) as [-> _].
    pose proof (Hi k) as F. rewrite E in F. by apply Forall_cons in F as [_ ?].
  - by destruct (set_queue_other k k' q (bytes_of_queue k i - Z.of_nat (length p)) i Hk) as [-> _].
Qed.

Lemma reachable_queue_inv m M i :
  0 < m → icmp_reachable m M i → queue_inv m i ∧ ∀ key, Forall (λ p, Z.of_nat (length p) ≤ M) (queue_of key i).
Proof.
  intros Hm. induction 1 as [|res sock rnd local remote i _ [IH IM]|i _ [IH IM]|b i _ [IH IM]|addr b i _ [IH IM] Hb|b r i' out i _ [IH IM] E].
  - split; [|done]. intros key. split; [done|]. split; [done|]. change (0 ≤ Z.max 1 (maxQueuePerPeer / m)). lia.
  - destruct (Open_queues res sock rnd local remote i) as [E1 E2]. split; [by eapply queue_inv_ext|].
    intros key. unfold queue_of. rewrite E1. apply IM.
  - done.
  - unfold icmp_Send. destruct (icmp_sendTo _ _ _). done.
  - split; [apply SendTo_inv; [done|done|lia]|]. apply (SendTo_forall (λ p, Z.of_nat (length p) ≤ M)); [done|lia].
  - apply recv_queues in E as [->|[key ->]]; [done|]. split.
    + apply (set_queue_inv m key []); [done|done|]. change (0 ≤ Z.max 1 (maxQueuePerPeer / m)). lia.
    + intros k. destruct (decide (k = key)) as [->|Hk].
      * by destruct (set_queue_same key [] 0 i) as [-> _].
      * by destruct (set_queue_other key k [] 0 i Hk) as [-> _].
Qed.

Lemma concat_upper M (q : list (list byte)) :
  Forall (λ p, Z.of_nat (length p) ≤ M) q → Z.of_nat (length (concat q)) ≤ Z.of_nat (length q) * M.
Proof. induction 1 as [|p q H _ IH]; cbn [concat length]; [lia|]. rewrite length_app. lia. Qed.

(** The reply queues are bounded. Whatever the order of the calls, the byte
    count of a queue is the bytes it holds; when every payload handed to [SendTo]
    has between [m] and [M] bytes a queue holds at most as many payloads as
    [m]-byte ones fit 1 MiB, hence at most that many times [M] bytes. (The 1 MiB
    of the code is not a bound of the bytes: an overflow drops one payload,
    however small.) *)
Theorem icmp_queue_bounded m M i key :
  0 < m ≤ M → icmp_reachable m M i →
  let q := queue_of key i in
  bytes_of_queue key i = Z.of_nat (length (concat q)) ∧
  Z.of_nat (length q) ≤ Z.max 1 (maxQueuePerPeer / m) ∧
  bytes_of_queue key i ≤ Z.max 1 (maxQueuePerPeer / m) * M.
Proof.
  intros Hm Hr q. destruct (reachable_queue_inv m M i ltac:(lia) Hr) as [Hi HM].
  destruct (Hi key) as (Hn & _ & Hl). specialize (HM key). fold q in Hn, Hl, HM. split_and!; [done|done|].
  rewrite Hn. pose proof (concat_upper M q HM). nia.
Qed.

(** An overflow drops one payload, whatever its size: a queue of small payloads
    at the limit grows by the difference with every large one. *)
Lemma overflow_drops_one ua b p q i :
  is_ip4 (ua_IP ua) → queue_of (addrKey ua) i = p :: q →
  maxQueuePerPeer < bytes_of_queue (addrKey ua) i + Z.of_nat (length b) →
  let i' := (icmp_SendTo (Some ua) b i).2 in
  queue_of (addrKey ua) i' = q ++ [b] ∧
  bytes_of_queue (addrKey ua) i' = bytes_of_queue (addrKey ua) i - Z.of_nat (length p) + Z.of_nat (length b).
Proof.
  intros Hip Hq Ho. unfold icmp_SendTo. cbn [mbind option_bind]. rewrite To4_ip4 by done. cbn [mbind option_bind snd].
  rewrite Hq. rewrite (proj2 (Z.ltb_lt _ _)) by lia.
  set (i1 := set_queue _ _ _ i). destruct (set_queue_same (addrKey ua) q (bytes_of_queue (addrKey ua) i - Z.of_nat (length p)) i) as [E1 E2].
  fold i1 in E1, E2. rewrite E1, E2. apply set_queue_same.
Qed.

(** ** Malformed datagrams *)

Lemma parseEcho_panics b :
  parseEcho b = Panic ↔ header_ok icmpHdrLen 1 b = true ∧
    ((total_len b < header_len b + 1)%nat ∨
     (total_len b < header_len b + 8)%nat ∧
       (nth 0 (slice (header_len b) (total_len b) b) x00 = x08 ∨ nth 0 (slice (header_len b) (total_len b) b) x00 = x00)).
Proof.
  unfold parseEcho. destruct (header_ok icmpHdrLen 1 b); cbn [negb]; [|split; [done|by intros [? _]]].
  destruct (Nat.ltb_spec (total_len b) (header_len b)) as [H|H]; [split; [split; [done|left; lia]|done]|].
  pose proof (length_slice (header_len b) (total_len b) b (total_len_le b)) as Hs.
  set (icmp := slice _ _ b) in *. rewrite Hs.
  destruct (Nat.eqb_spec (total_len b - header_len b) 0); [split; [split; [done|left; lia]|done]|].
  assert (Hz : ∀ x n, b2z x = b2z n → x = n) by (intros x ?; apply b2z_inj).
  destruct (Z.eqb_spec (b2z (nth 0 icmp x00)) icmpTypeEchoRequest) as [E1|E1];
    [|destruct (Z.eqb_spec (b2z (nth 0 icmp x00)) icmpTypeEchoReply) as [E2|E2]]; cbn [negb andb].
  3: { split; [done|]. intros [_ [?|[_ [E|E]]]]; [lia|by rewrite E in E1|by rewrite E in E2]. }
  all: unfold icmpHdrLen; destruct (Nat.ltb_spec (total_len b - header_len b) 8).
  - split; [intros _|done]. split; [done|]. right. split; [lia|]. left. by apply (Hz _ x08).
  - split; [done|]. intros [_ [?|[? _]]]; lia.
  - split; [intros _|done]. split; [done|]. right. split; [lia|]. right. by apply (Hz _ x00).
  - split; [done|]. intros [_ [?|[? _]]]; lia.
Qed.

(** C36 — Malformed input of the raw sockets. Both parsers are total on the
    datagrams a kernel hands over, whose length is that of their total length
    field: they return a packet or ignore the datagram. They do trust that field.
    On a datagram of their protocol that is long enough for both headers they are
    out of range, and the receiving goroutine panics, exactly in these cases: the
    TCP parser when the field leaves fewer than 14 bytes behind the IPv4 header,
    as it reads up to the flags; the ICMP parser when it leaves none, or fewer
    than 8 with the type of an echo request or reply in the first one. A cut of
    14 to 19 bytes in TCP, or within another type of ICMP, does not panic. *)
Theorem parsers_panic_iff b :
  (total_len b = length b → parseSegment b ≠ Panic ∧ parseEcho b ≠ Panic) ∧
  (parseSegment b = Panic ↔ header_ok tcpHdrLen 6 b = true ∧ (total_len b < header_len b + 14)%nat) ∧
  (parseEcho b = Panic ↔ header_ok icmpHdrLen 1 b = true ∧
    ((total_len b < header_len b + 1)%nat ∨
     (total_len b < header_len b + 8)%nat ∧
       (nth 0 (slice (header_len b) (total_len b) b) x00 = x08 ∨ nth 0 (slice (header_len b) (total_len b) b) x00 = x00))).
Proof.
  split_and!.
  - assert (Hok : ∀ n p, header_ok n p b = true → (header_len b + n ≤ length b)%nat).
    { unfold header_ok. intros n p H. rewrite !andb_true_iff, !Nat.leb_le in H. lia. }
    intros Ht. rewrite parseSegment_panics, parseEcho_panics, Ht. split.
    + intros [H ?]. apply Hok in H. unfold tcpHdrLen in H. lia.
    + intros [H [?|[? _]]]; apply Hok in H; unfold icmpHdrLen in H; lia.
  - apply parseSegment_panics.
  - apply parseEcho_panics.
Qed.

(** ** Witnesses *)

Definition demo_icmp_client : ICMP :=
  (icmp_Open (λ _, Some (mkUDPAddr (demo_ip x02) 0)) (Some 3) 77 "" "example" NewICMP).2.
Definition demo_icmp_server : ICMP :=
  (icmp_SendTo (Some (mkUDPAddr (demo_ip x01) 0)) [x63; x64]
    (icmp_SendTo (Some (mkUDPAddr (demo_ip x01) 0)) [x61; x62]
      (icmp_Open (λ _, Some (mkUDPAddr [] 0)) (Some 4) 78 ":0" "" NewICMP).2).2).2.

(** The 20 bytes of a header in front of [n] bytes of ICMP. *)
Definition demo_header (src dst : list byte) (n : nat) : list byte :=
  ip_bytes (Z.of_nat (20 + n)) 7 0 src dst.
Definition demo_icmp_header (src dst : list byte) (n : nat) : list byte :=
  put_at 9 [x01] (demo_header src dst n).

Lemma request_marker_witness :
  icmp_recv (demo_icmp_header (demo_ip x01) (demo_ip x02) 11 ++ buildEcho 8 5 1 [x61; x62; x63] false ++ [x00]) demo_icmp_server =
    Ok (RNext, demo_icmp_server, []) ∧
  (∃ i' out, icmp_recv (demo_icmp_header (demo_ip x01) (demo_ip x02) 11 ++ buildEcho 8 5 1 [x61; x62; x63] true ++ [x00]) demo_icmp_server =
    Ok (RGot [x61; x62; x63] (mkUDPAddr (demo_ip x01) 0), i', out)).
Proof.
  assert (Hd : ∀ c, delivered (demo_ip x01) (buildEcho icmpTypeEchoRequest 5 1 [x61; x62; x63] c)
    (demo_icmp_header (demo_ip x01) (demo_ip x02) 11 ++ buildEcho 8 5 1 [x61; x62; x63] c ++ [x00])).
  { intros c. exists (demo_icmp_header (demo_ip x01) (demo_ip x02) 11), [x00], (demo_ip x02).
    split; [|done]. destruct c; by split; vm_compute. }
  split.
  - destruct (request_marker demo_icmp_server (demo_ip x01) 5 1 [x61; x62; x63] false
      (demo_icmp_header (demo_ip x01) (demo_ip x02) 11 ++ buildEcho 8 5 1 [x61; x62; x63] false ++ [x00])) as (H & _ & _);
      [done|by vm_compute|done|by vm_compute|apply Hd|exact (H (or_introl eq_refl))].
  - destruct (request_marker demo_icmp_server (demo_ip x01) 5 1 [x61; x62; x63] true
      (demo_icmp_header (demo_ip x01) (demo_ip x02) 11 ++ buildEcho 8 5 1 [x61; x62; x63] true ++ [x00])) as (_ & H & _);
      [done|by vm_compute|done|by vm_compute|apply Hd|exact (H eq_refl ltac:(by vm_compute))].
Defined.

Lemma icmp_pull_witness :
  ∃ c' pkt, icmp_Send [x68; x69] demo_icmp_client = (None, c', [(pkt, demo_ip x02)]) ∧
    ∃ g' rep, icmp_recv (demo_icmp_header (demo_ip x01) (demo_ip x02) 10 ++ pkt ++ []) demo_icmp_server =
      Ok (RGot [x68; x69] (mkUDPAddr (demo_ip x01) 0), g', [(rep, demo_ip x01)]) ∧
      queue_of (addrKey (mkUDPAddr (demo_ip x01) 0)) g' = [].
Proof.
  destruct (icmp_pull demo_icmp_client demo_icmp_server (demo_ip x01) (demo_ip x02) [x68; x69]) as (c' & pkt & E & H);
    [done|by vm_compute|done|done|by vm_compute|done|by vm_compute|done|by vm_compute|].
  exists c', pkt. split; [exact E|].
  destruct (H (demo_icmp_header (demo_ip x01) (demo_ip x02) 10 ++ pkt ++ [])) as (g' & rep & n & R & Q & _).
  { vm_compute in E. injection E as _ <-. exists (demo_icmp_header (demo_ip x01) (demo_ip x02) 10), [], (demo_ip x02).
    split; [by split; vm_compute|done]. }
  exists g', rep. split; [exact R|exact Q].
Defined.

Lemma icmp_queue_bounded_witness :
  bytes_of_queue "10.0.0.1:0" demo_icmp_server ≤ Z.max 1 (maxQueuePerPeer / 2) * 2.
Proof.
  destruct (icmp_queue_bounded 2 2 demo_icmp_server "10.0.0.1:0") as (_ & _ & H); [lia| |exact H].
  unfold demo_icmp_server. apply ir_sendto; [|by vm_compute]. apply ir_sendto; [|by vm_compute].
  apply ir_open, ir_new.
Defined.

(** ICMP datagrams whose total length field ends them right behind the IPv4
    header, and three bytes into an echo request. *)
Lemma parsers_panic_iff_witness :
  let cut := put_at 9 [x01] (ip_bytes 20 7 0 (demo_ip x01) (demo_ip x02)) ++ replicate 8 x08 in
  let inside := put_at 2 [x00; x17] cut in
  parseEcho (ip_bytes 20 7 0 (demo_ip x01) (demo_ip x02) ++ replicate 8 x08) ≠ Panic ∧
  parseEcho cut = Panic ∧ parseEcho inside = Panic.
Proof.
  intros cut inside. split; [by vm_compute|].
  destruct (parsers_panic_iff cut) as (_ & _ & H). destruct (parsers_panic_iff inside) as (_ & _ & H').
  split; [apply H|apply H']; (split; [by vm_compute|]).
  - left. vm_compute. lia.
  - right. split; [vm_compute; lia|left; vm_compute; reflexivity].
Defined.
