(* ===== verification/Transports.v ===== *)
(** * The transport interface and its sockets (internal/transport/transport.go,
    bind.go, bind_linux.go, bind_freebsd.go, bind_other.go, udp.go, faketcp_raw.go,
    icmp_raw.go, faketcp_other.go; newTransport of internal/tunnel/tunnel.go)

    How a socket is opened and pinned to an uplink, the plain UDP transport, and
    the interface the tunnel uses all three transports through. The system is an
    environment that answers every call; what a socket ends up pinned to is part
    of the result, and the open descriptors are a set, so that a leaked or an
    unpinned socket can be stated. *)

From S2P Require Import Prelude Float64 Replay Config Ipv4 FakeTCP Icmp.

#[local] Open Scope string_scope.
#[local] Open Scope Z_scope.
#[local] Open Scope list_scope.

(** ** Pinning a socket to an uplink *)

Record Bind := mkBind {
  b_Iface : string;
  b_LocalIP : string;
  b_FIB : Z;
}.

(** [b.Empty()]: no binding was configured. *)
Definition Empty (b : Bind) : bool :=
  String.eqb (b_Iface b) "" && String.eqb (b_LocalIP b) "" && (b_FIB b <? 0).

(** The errors the code tells apart. *)
Inductive sys_error := EPERM | EACCES | ErrDeviceBindUnsupported | EOther.
Inductive bind_error := Sys (e : sys_error) | NeedLocalIP (e : sys_error) | BadLocalIP.

#[export] Instance sys_error_eq_dec : EqDecision sys_error.
Proof. solve_decision. Defined.

(** What a socket is pinned to. *)
Inductive pin := Unpinned | Device (iface : string) | Fib (fib : Z) | Source (ip : list byte).

#[export] Instance pin_eq_dec : EqDecision pin.
Proof. solve_decision. Defined.

(** The three build variants. *)
Inductive platform := Linux | FreeBSD | OtherOS.

(** The system, as one call to [Open] sees it. *)
Record net_env := mkNetEnv {
  ne_os : platform;
  ne_bindtodevice : string → option sys_error;         (* SO_BINDTODEVICE *)
  ne_setfib : Z → option sys_error;                    (* SO_SETFIB *)
  ne_connect : option (list byte) → option sys_error;  (* dial, bind: from a source address *)
  ne_ParseIP : string → option (list byte);
  ne_resolve : string → option UDPAddr;                (* net.ResolveUDPAddr *)
  ne_socket : gset Z → option Z;                       (* a new descriptor *)
  ne_hdrincl : option sys_error;                       (* IP_HDRINCL *)
  ne_route : list byte → option (list byte);
  ne_rand : Z;                                         (* rand.Uint32 *)
}.

(** A descriptor the system hands out is not in use. *)
Definition env_fresh (e : net_env) : Prop := ∀ F fd, ne_socket e F = Some fd → 0 ≤ fd ∧ fd ∉ F.

Section bind.
  Context (e : net_env).

(** A [setsockopt] that pins. *)
Definition pinned (r : option sys_error) (p : pin) : res sys_error pin :=
  match r with None => Ok p | Some e => Err e end.

(** [setDeviceBinding] of the three build variants, and the one of the build. *)
Definition setDeviceBinding_linux (iface : string) (fib : Z) : res sys_error pin :=
  if String.eqb iface "" then Ok Unpinned else pinned (ne_bindtodevice e iface) (Device iface).
Definition setDeviceBinding_freebsd (iface : string) (fib : Z) : res sys_error pin :=
  if 0 <=? fib then pinned (ne_setfib e fib) (Fib fib) else Err ErrDeviceBindUnsupported.
Definition setDeviceBinding_other (iface : string) (fib : Z) : res sys_error pin :=
  if String.eqb iface "" then Ok Unpinned else Err EOther.

Definition setDeviceBinding (iface : string) (fib : Z) : res sys_error pin :=
  match ne_os e with
  | Linux => setDeviceBinding_linux iface fib
  | FreeBSD => setDeviceBinding_freebsd iface fib
  | OtherOS => setDeviceBinding_other iface fib
  end.

(** The errors that fall back to the source address. *)
Definition fallback (e : sys_error) : bool := bool_decide (e ∈ [EPERM; EACCES; ErrDeviceBindUnsupported]).

(** [dialUDP] through a control hook, from a source address. *)
Definition dial_device (iface : string) (fib : Z) : res sys_error pin :=
  let? p := setDeviceBinding iface fib in pinned (ne_connect e None) p.

(** The part of [dialBound] behind the device branch. *)
Definition dial_source (b : Bind) : res bind_error pin :=
  if negb (String.eqb (b_LocalIP b) "") then
    match ne_ParseIP e (b_LocalIP b) with
    | None => Err BadLocalIP
    | Some ip => match ne_connect e (Some ip) with None => Ok (Source ip) | Some x => Err (Sys x) end
    end
  else match ne_connect e None with None => Ok Unpinned | Some x => Err (Sys x) end.

(** [u.dialBound(raddr)]. *)
Definition dialBound (b : Bind) : res bind_error pin :=
  if negb (String.eqb (b_Iface b) "") || (0 <=? b_FIB b) then
    match dial_device (b_Iface b) (b_FIB b) with
    | Ok p => Ok p
    | Err x => if negb (fallback x) then Err (Sys x)
               else if String.eqb (b_LocalIP b) "" then Err (NeedLocalIP x)
               else dial_source b
    | Panic => Panic
    end
  else dial_source b.

(** [bindLocalIP(fd, localIP)]: a nil [To4] is refused. *)
Definition bindLocalIP (localIP : string) : res bind_error pin :=
  match (ip ← ne_ParseIP e localIP; To4 ip) with
  | None => Err BadLocalIP
  | Some ip => match ne_connect e (Some ip) with None => Ok (Source ip) | Some x => Err (Sys x) end
  end.

(** [bindToRaw(fd, bind)]. *)
Definition bindToRaw (b : Bind) : res bind_error pin :=
  if negb (String.eqb (b_Iface b) "") then
    match setDeviceBinding (b_Iface b) (b_FIB b) with
    | Ok p => Ok p
    | Err x => if negb (String.eqb (b_LocalIP b) "") && fallback x then bindLocalIP (b_LocalIP b) else Err (Sys x)
    | Panic => Panic
    end
  else if negb (String.eqb (b_LocalIP b) "") then bindLocalIP (b_LocalIP b)
  else Ok Unpinned.

(** ** Sockets *)

(** The raw transports where there are no raw sockets (faketcp_other.go): every
    call fails, and [localIPFor] does not probe. *)
Definition openRawSocket_other (b : Bind) (F : gset Z) : option (Z * pin) * gset Z := (None, F).
Definition openICMPSocket_other (b : Bind) (F : gset Z) : option (Z * pin) * gset Z := (None, F).
Definition sendICMP_other (fd : Z) (pkt dst : list byte) : option transport_error * list (list byte) :=
  (Some ErrNotOpen, []).
Definition closeRawSocket_other (fd : Z) : option transport_error := Some ErrNotOpen.
Definition writeRaw_other (fd : Z) (seg dst : list byte) : Z * option transport_error := (0, Some ErrNotOpen).
Definition readRaw_other (fd : Z) (buf : list byte) : Z * option transport_error := (0, Some ErrNotOpen).
Definition localIPFor_other (dst : list byte) : list byte := IPv4zero.

(** The routing probe of [localIPFor]; without it the answer is that of the
    stub. *)
Definition route_probe (dst : list byte) : option (list byte) :=
  match ne_os e with OtherOS => None | _ => ne_route e dst end.

(** [openRawSocket], [openICMPSocket]: what fails behind the socket call closes
    the descriptor again. *)
Definition openRawSocket (b : Bind) (F : gset Z) : option (Z * pin) * gset Z :=
  match ne_os e, ne_socket e F with
  | OtherOS, _ => openRawSocket_other b F
  | _, None => (None, F)
  | _, Some fd =>
      let F' := {[fd]} ∪ F in
      match ne_hdrincl e with
      | Some _ => (None, F' ∖ {[fd]})
      | None => match bindToRaw b with Ok p => (Some (fd, p), F') | _ => (None, F' ∖ {[fd]}) end
      end
  end.

Definition openICMPSocket (b : Bind) (F : gset Z) : option (Z * pin) * gset Z :=
  match ne_os e, ne_socket e F with
  | OtherOS, _ => openICMPSocket_other b F
  | _, None => (None, F)
  | _, Some fd =>
      let F' := {[fd]} ∪ F in
      match bindToRaw b with Ok p => (Some (fd, p), F') | _ => (None, F' ∖ {[fd]}) end
  end.

(** [net.ListenUDP] and a successful dial: one descriptor. *)
Definition ListenUDP (F : gset Z) : option Z * gset Z :=
  match ne_socket e F with Some fd => (Some fd, {[fd]} ∪ F) | None => (None, F) end.

Definition dial_bound (b : Bind) (F : gset Z) : option (Z * pin) * gset Z :=
  match dialBound b with
  | Ok p => match ne_socket e F with Some fd => (Some (fd, p), {[fd]} ∪ F) | None => (None, F) end
  | _ => (None, F)
  end.
End bind.

(** ** The plain UDP transport *)

(** A connection is an object: it stays in the transport after it was closed. *)
Record UDPConn := mkConn { uc_fd : Z; uc_open : bool }.
Record UDP := mkUDP { u_conn : option UDPConn; u_remoteIP : option UDPAddr }.

Definition NewUDP : UDP := mkUDP None None.

(** The fields every transport is constructed with. *)
Record endpoint := mkEndpoint { ep_id : string; ep_local : string; ep_remote : string; ep_bind : Bind }.

Definition udp_openClient (e : net_env) (x : endpoint) (u : UDP) (F : gset Z) : option transport_error * UDP * gset Z :=
  match ne_resolve e (ep_remote x) with
  | None => (Some ErrResolve, u, F)
  | Some raddr =>
      match dial_bound e (ep_bind x) F with
      | (None, F) => (Some ErrSocket, u, F)
      | (Some (fd, _), F) => (None, mkUDP (Some (mkConn fd true)) (Some raddr), F)
      end
  end.

Definition udp_Open (e : net_env) (x : endpoint) (u : UDP) (F : gset Z) : option transport_error * UDP * gset Z :=
  if negb (String.eqb (ep_remote x) "") then udp_openClient e x u F
  else match ne_resolve e (ep_local x) with
  | None => (Some ErrResolve, u, F)
  | Some _ =>
      match ListenUDP e F with
      | (None, F) => (Some ErrSocket, u, F)
      | (Some fd, F) => (None, mkUDP (Some (mkConn fd true)) (u_remoteIP u), F)
      end
  end.

(** A write through a nil connection is an error as well. *)
Definition conn_open (c : option UDPConn) : bool := match c with Some c => uc_open c | None => false end.

Definition udp_Send (b : list byte) (u : UDP) : option transport_error * UDP * list (list byte) :=
  match u_remoteIP u with
  | None => (Some ErrNotOpen, u, [])
  | Some _ => if conn_open (u_conn u) then (None, u, [b]) else (Some ErrWrite, u, [])
  end.

(** A connected socket refuses explicit destinations. *)
Definition udp_SendTo (addr : option UDPAddr) (b : list byte) (u : UDP) : option transport_error * list (UDPAddr * list byte) :=
  match addr with
  | None => (Some ErrBadPeer, [])
  | Some a => if conn_open (u_conn u) && bool_decide (u_remoteIP u = None) then (None, [(a, b)]) else (Some ErrWrite, [])
  end.

(** [conn.Close()]: the second time an error. *)
Definition udp_Close (u : UDP) (F : gset Z) : UDP * gset Z :=
  match u_conn u with
  | Some c => if uc_open c then (mkUDP (Some (mkConn (uc_fd c) false)) (u_remoteIP u), F ∖ {[uc_fd c]}) else (u, F)
  | None => (u, F)
  end.

(** ** The interface *)

Class Transport (T : Type) := {
  tr_New : T;
  tr_Open : net_env → endpoint → T → gset Z → option transport_error * T * gset Z;
  tr_Send : net_env → list byte → T → option transport_error * T * list (list byte);
  tr_Close : T → gset Z → T * gset Z;
  tr_fd : T → option Z;  (* the descriptor it holds *)
}.

(** What the tunnel relies on. *)
Class TransportLaws (T : Type) `{Transport T} := {
  new_closed : tr_fd tr_New = None;
  open_Ok e x t F t' F' : env_fresh e → tr_fd t = None → tr_Open e x t F = (None, t', F') →
    ∃ fd, tr_fd t' = Some fd ∧ (fd ∉ F) ∧ F' = {[fd]} ∪ F;
  open_error e x t F err t' F' : env_fresh e → tr_fd t = None → tr_Open e x t F = (Some err, t', F') →
    tr_fd t' = None ∧ F' = F;
  close_open t F fd : tr_fd t = Some fd → ∃ t', tr_Close t F = (t', F ∖ {[fd]}) ∧ tr_fd t' = None;
  close_closed t F : tr_fd t = None → tr_Close t F = (t, F);
  send_closed e b t : tr_fd t = None → ∃ err t', tr_Send e b t = (Some err, t', []);
}.

(** The descriptor of a raw transport. *)
Definition raw_fd (fd : Z) : option Z := if fd <? 0 then None else Some fd.

#[export] Instance udp_transport : Transport UDP := {|
  tr_New := NewUDP;
  tr_Open := udp_Open;
  tr_Send := λ _, udp_Send;
  tr_Close := udp_Close;
  tr_fd u := (c ← u_conn u; if uc_open c then Some (uc_fd c) else None);
|}.

(** The raw transports make their socket call last: an error before it leaves
    the descriptors alone. *)
#[export] Instance faketcp_transport : Transport FakeTCP := {|
  tr_New := NewFakeTCP;
  tr_Open e x f F :=
    let '(s, F') := openRawSocket e (ep_bind x) F in
    let env := mkTcpEnv (fst <$> s) (route_probe e) (ne_rand e) (ne_rand e) (ne_rand e) in
    let '(err, f') := tcp_Open (ne_resolve e) env (ep_local x) (ep_remote x) f in
    (err, f', match err with None => F' | Some _ => F end);
  tr_Send e b f := tcp_Send (mkTcpEnv None (route_probe e) (ne_rand e) (ne_rand e) (ne_rand e)) b f;
  tr_Close f F := match raw_fd (ft_fd f) with Some fd => (tcp_Close f, F ∖ {[fd]}) | None => (f, F) end;
  tr_fd f := raw_fd (ft_fd f);
|}.

#[export] Instance icmp_transport : Transport ICMP := {|
  tr_New := NewICMP;
  tr_Open e x i F :=
    let '(s, F') := openICMPSocket e (ep_bind x) F in
    let '(err, i') := icmp_Open (ne_resolve e) (fst <$> s) (ne_rand e) (ep_local x) (ep_remote x) i in
    (err, i', match err with None => F' | Some _ => F end);
  tr_Send e b i := let '(err, i, out) := icmp_Send b i in (err, i, out.*1);
  tr_Close i F := match raw_fd (ic_fd i) with Some fd => (icmp_Close i, F ∖ {[fd]}) | None => (i, F) end;
  tr_fd i := raw_fd (ic_fd i);
|}.

(** A value of the interface type. *)
Inductive transport := TrUDP (u : UDP) | TrFakeTCP (f : FakeTCP) | TrICMP (i : ICMP).

(** Calls a method of the dynamic type and wraps the receiver again. *)
Definition in_udp {A B} (r : A * UDP * B) : A * transport * B := (r.1.1, TrUDP r.1.2, r.2).
Definition in_tcp {A B} (r : A * FakeTCP * B) : A * transport * B := (r.1.1, TrFakeTCP r.1.2, r.2).
Definition in_icmp {A B} (r : A * ICMP * B) : A * transport * B := (r.1.1, TrICMP r.1.2, r.2).

#[export] Instance any_transport : Transport transport := {|
  tr_New := TrUDP tr_New;
  tr_Open e x t F := match t with
    | TrUDP u => in_udp (tr_Open e x u F) | TrFakeTCP f => in_tcp (tr_Open e x f F) | TrICMP i => in_icmp (tr_Open e x i F) end;
  tr_Send e b t := match t with
    | TrUDP u => in_udp (tr_Send e b u) | TrFakeTCP f => in_tcp (tr_Send e b f) | TrICMP i => in_icmp (tr_Send e b i) end;
  tr_Close t F := match t with
    | TrUDP u => prod_map TrUDP id (tr_Close u F) | TrFakeTCP f => prod_map TrFakeTCP id (tr_Close f F)
    | TrICMP i => prod_map TrICMP id (tr_Close i F) end;
  tr_fd t := match t with TrUDP u => tr_fd u | TrFakeTCP f => tr_fd f | TrICMP i => tr_fd i end;
|}.

(** [newTransport(wcfg, serverAddr)] and the choice of [NewServer]. *)
Definition newTransport (w : WAN) (serverAddr : string) : option (endpoint * transport) :=
  let x := mkEndpoint (w_ID w) "" serverAddr (mkBind (w_Iface w) (w_LocalIP w) (w_FIB w)) in
  if String.eqb (w_Transport w) TransportFakeTCP then Some (x, TrFakeTCP NewFakeTCP)
  else if String.eqb (w_Transport w) TransportICMP then Some (x, TrICMP NewICMP)
  else if String.eqb (w_Transport w) TransportUDP then Some (x, TrUDP NewUDP)
  else None.

Definition server_transport (transport listen : string) : endpoint * Transports.transport :=
  let x := mkEndpoint "wan" listen "" (mkBind "" "" 0) in
  if String.eqb transport TransportFakeTCP then (x, TrFakeTCP NewFakeTCP)
  else if String.eqb transport TransportICMP then (x, TrICMP NewICMP)
  else (x, TrUDP NewUDP).

(** * Properties *)

(** ** The implementations keep the laws *)

(** A socket call gives a new descriptor or leaves them as they were. *)
Definition socket_result {A} (r : option (Z * A) * gset Z) (F : gset Z) : Prop :=
  match r with
  | (Some (fd, _), F') => 0 ≤ fd ∧ (fd ∉ F) ∧ F' = {[fd]} ∪ F
  | (None, F') => F' = F
  end.

Lemma undo_open (fd : Z) (F : gset Z) : fd ∉ F → ({[fd]} ∪ F) ∖ {[fd]} = F.
Proof. set_solver. Qed.

Lemma openRawSocket_result e b F : env_fresh e → socket_result (openRawSocket e b F) F.
Proof.
  intros He. unfold openRawSocket, socket_result.
  destruct (ne_os e), (ne_socket e F) as [fd|] eqn:Es; try done;
    destruct (He F fd Es) as [? ?]; destruct (ne_hdrincl e); rewrite ?undo_open by done; try done;
    destruct (bindToRaw e b); rewrite ?undo_open by done; done.
Qed.

Lemma openICMPSocket_result e b F : env_fresh e → socket_result (openICMPSocket e b F) F.
Proof.
  intros He. unfold openICMPSocket, socket_result.
  destruct (ne_os e), (ne_socket e F) as [fd|] eqn:Es; try done;
    destruct (He F fd Es) as [? ?]; destruct (bindToRaw e b); rewrite ?undo_open by done; done.
Qed.

Lemma dial_bound_result e b F : env_fresh e → socket_result (dial_bound e b F) F.
Proof.
  intros He. unfold dial_bound, socket_result. destruct (dialBound e b); try done.
  destruct (ne_socket e F) as [fd|] eqn:Es; [|done]. by destruct (He F fd Es).
Qed.

Lemma raw_fd_pos fd : 0 ≤ fd → raw_fd fd = Some fd.
Proof. intros. unfold raw_fd. by rewrite (proj2 (Z.ltb_ge _ _)) by lia. Qed.

Lemma raw_fd_None fd : raw_fd fd = None ↔ fd < 0.
Proof. unfold raw_fd. destruct (Z.ltb_spec fd 0); split; done || lia. Qed.

Lemma tcp_Open_fd res env local remote f :
  ft_fd f < 0 →
  match tcp_Open res env local remote f with
  | (None, f') => ∃ fd, te_socket env = Some fd ∧ ft_fd f' = fd
  | (Some _, f') => ft_fd f' = ft_fd f
  end.
Proof.
  intros Hf. unfold tcp_Open. rewrite (proj2 (Z.leb_gt _ _)) by lia. destruct (negb _).
  - unfold tcp_openClient. destruct (res remote) as [raddr|]; [|done]. destruct (To4 _) as [dst|]; [|done].
    destruct (localIPFor env dst f) as [src f1] eqn:El.
    assert (ft_fd f1 = ft_fd f) as Hfd by (unfold localIPFor in El; repeat case_match; simplify_eq; done).
    destruct (te_socket env) as [fd|]; [by exists fd|done].
  - unfold tcp_openServer. destruct (res local) as [laddr|]; [|done]. destruct (_ && _ && _); [done|].
    destruct (te_socket env) as [fd|]; [by exists fd|done].
Qed.

Lemma icmp_Open_fd res sock rnd local remote i :
  ic_fd i < 0 →
  match icmp_Open res sock rnd local remote i with
  | (None, i') => ∃ fd, sock = Some fd ∧ ic_fd i' = fd
  | (Some _, i') => ic_fd i' = ic_fd i
  end.
Proof.
  intros Hi. unfold icmp_Open. rewrite (proj2 (Z.leb_gt _ _)) by lia. destruct (negb _).
  - unfold icmp_openClient. destruct (res remote) as [raddr|]; [|done]. destruct (To4 _); [|done].
    destruct sock as [fd|]; [by exists fd|done].
  - unfold icmp_openServer. destruct (res local) as [laddr|]; [|done]. destruct (_ && _ && _); [done|].
    destruct sock as [fd|]; [by exists fd|done].
Qed.

(** Without raw sockets, opening a raw transport fails and opens nothing, and
    the source address of every destination is the unspecified one. *)
Lemma no_raw_sockets e x f i F :
  ne_os e = OtherOS → ft_fd f < 0 → ic_fd i < 0 →
  (∃ err f', tr_Open e x f F = (Some err, f', F) ∧ tr_fd f' = None) ∧
  (∃ err i', tr_Open e x i F = (Some err, i', F) ∧ tr_fd i' = None).
Proof.
  intros Hos Hf Hi. cbn [tr_Open faketcp_transport icmp_transport tr_fd]. unfold openRawSocket, openICMPSocket.
  rewrite Hos. unfold openRawSocket_other, openICMPSocket_other. cbn [fmap option_fmap option_map]. split.
  - match goal with |- context [tcp_Open ?r ?en ?l ?rm f] => pose proof (tcp_Open_fd r en l rm f Hf) as H end.
    destruct (tcp_Open _ _ _ _ f) as [[err|] f']; [|by destruct H as (fd & E & _)].
    exists err, f'. by rewrite raw_fd_None, H.
  - match goal with |- context [icmp_Open ?r ?so ?n ?l ?rm i] => pose proof (icmp_Open_fd r so n l rm i Hi) as H end.
    destruct (icmp_Open _ _ _ _ _ i) as [[err|] i']; [|by destruct H as (fd & E & _)].
    exists err, i'. by rewrite raw_fd_None, H.
Qed.

Lemma no_probe e env dst f :
  ne_os e = OtherOS → te_route env = route_probe e → ft_srcFor f !! IP_String dst = None →
  localIPFor env dst f = (localIPFor_other dst, f).
Proof. intros Hos Hr Hc. unfold localIPFor. rewrite Hc, Hr. unfold route_probe. by rewrite Hos. Qed.

#[export] Instance udp_laws : TransportLaws UDP.
Proof.
  split.
  - done.
  - intros e x u F u' F' He _. cbn [tr_Open udp_transport]. unfold udp_Open, udp_openClient, ListenUDP.
    destruct (negb _).
    + destruct (ne_resolve e _); [|done]. pose proof (dial_bound_result e (ep_bind x) F He) as Hd.
      destruct (dial_bound e (ep_bind x) F) as [[[fd p]|] F1]; [|done]. intros [= <- <-].
      destruct Hd as (_ & ? & ?). by exists fd.
    + destruct (ne_resolve e _); [|done]. destruct (ne_socket e F) as [fd|] eqn:Es; [|done]. intros [= <- <-].
      destruct (He F fd Es). by exists fd.
  - intros e x u F err u' F' He Hu. cbn [tr_Open udp_transport]. unfold udp_Open, udp_openClient, ListenUDP.
    destruct (negb _).
    + destruct (ne_resolve e _); [|by intros [= _ <- <-]]. pose proof (dial_bound_result e (ep_bind x) F He) as Hd.
      destruct (dial_bound e (ep_bind x) F) as [[[fd p]|] F1]; [done|]. intros [= _ <- <-]. done.
    + destruct (ne_resolve e _); [|by intros [= _ <- <-]]. destruct (ne_socket e F); [done|]. by intros [= _ <- <-].
  - intros [[[fd' o]|] r] F fd; cbn; [|done]. unfold udp_Close. cbn. destruct o; [|done]. intros [= ->]. by eexists.
  - intros [[[fd' o]|] r] F; cbn; [|done]. unfold udp_Close. cbn. by destruct o.
  - intros e b [[[fd' o]|] [r|]]; cbn; unfold udp_Send; cbn; [|by repeat eexists..].
    destruct o; [done|]. by repeat eexists.
Qed.

#[export] Instance faketcp_laws : TransportLaws FakeTCP.
Proof.
  split.
  - done.
  - intros e x f F f' F' He Hf%raw_fd_None. cbn [tr_Open faketcp_transport].
    pose proof (openRawSocket_result e (ep_bind x) F He) as Hs. destruct (openRawSocket _ _ _) as [s F1].
    set (env := mkTcpEnv _ _ _ _ _). pose proof (tcp_Open_fd (ne_resolve e) env (ep_local x) (ep_remote x) f Hf) as Ho.
    destruct (tcp_Open _ _ _ _ f) as [[err|] f1]; [done|]. intros [= <- <-]. destruct Ho as (fd & Hfd & Ef).
    destruct s as [[fd' p]|]; [|done]. injection Hfd as ->. destruct Hs as (? & ? & ?). exists fd. cbn [tr_fd faketcp_transport icmp_transport].
    split; [|done]. rewrite Ef. by apply raw_fd_pos.
  - intros e x f F err f' F' He Hf%raw_fd_None. cbn [tr_Open faketcp_transport].
    destruct (openRawSocket _ _ _) as [s F1]. set (env := mkTcpEnv _ _ _ _ _).
    pose proof (tcp_Open_fd (ne_resolve e) env (ep_local x) (ep_remote x) f Hf) as Ho.
    destruct (tcp_Open _ _ _ _ f) as [[err'|] f1]; [|done].
    intros [= _ <- <-]. split; [|done]. apply raw_fd_None. lia.
  - intros f F fd. cbn [tr_fd tr_Close faketcp_transport]. intros ->. by eexists.
  - intros f F. cbn [tr_fd tr_Close faketcp_transport]. by intros ->.
  - intros e b f Hf%raw_fd_None. cbn [tr_Send faketcp_transport]. unfold tcp_Send.
    destruct (ft_peers f !! "server") as [st|]; [|by repeat eexists]. unfold writeRaw. cbn [ft_fd set_peers].
    rewrite (proj2 (Z.ltb_lt _ _)) by lia. by repeat eexists.
Qed.

#[export] Instance icmp_laws : TransportLaws ICMP.
Proof.
  split.
  - done.
  - intros e x i F i' F' He Hi%raw_fd_None. cbn [tr_Open icmp_transport].
    pose proof (openICMPSocket_result e (ep_bind x) F He) as Hs. destruct (openICMPSocket _ _ _) as [s F1].
    pose proof (icmp_Open_fd (ne_resolve e) (fst <$> s) (ne_rand e) (ep_local x) (ep_remote x) i Hi) as Ho.
    destruct (icmp_Open _ _ _ _ _ i) as [[err|] i1]; [done|]. intros [= <- <-]. destruct Ho as (fd & Hfd & Ef).
    destruct s as [[fd' p]|]; [|done]. injection Hfd as ->. destruct Hs as (? & ? & ?). exists fd. cbn [tr_fd faketcp_transport icmp_transport].
    split; [|done]. rewrite Ef. by apply raw_fd_pos.
  - intros e x i F err i' F' He Hi%raw_fd_None. cbn [tr_Open icmp_transport].
    destruct (openICMPSocket _ _ _) as [s F1].
    pose proof (icmp_Open_fd (ne_resolve e) (fst <$> s) (ne_rand e) (ep_local x) (ep_remote x) i Hi) as Ho.
    destruct (icmp_Open _ _ _ _ _ i) as [[err'|] i1]; [|done].
    intros [= _ <- <-]. split; [|done]. apply raw_fd_None. lia.
  - intros i F fd. cbn [tr_fd tr_Close icmp_transport]. intros ->. by eexists.
  - intros i F. cbn [tr_fd tr_Close icmp_transport]. by intros ->.
  - intros e b i Hi%raw_fd_None. cbn [tr_Send icmp_transport]. unfold icmp_Send, icmp_sendTo. cbn [ic_fd].
    rewrite (proj2 (Z.ltb_lt _ _)) by lia. by repeat eexists.
Qed.

#[export] Instance any_laws : TransportLaws transport.
Proof.
  split.
  - exact (new_closed (T := UDP)).
  - intros e x [u|f|i] F t' F' He Ht; cbn [tr_fd any_transport] in Ht; cbn [tr_Open any_transport];
      unfold in_udp, in_tcp, in_icmp; destruct (tr_Open e x _ F) as [[err t1] F1] eqn:E;
      intros [= -> <- <-]; cbn [tr_fd any_transport]; by eapply open_Ok; [exact He|exact Ht|].
  - intros e x [u|f|i] F err t' F' He Ht; cbn [tr_fd any_transport] in Ht; cbn [tr_Open any_transport];
      unfold in_udp, in_tcp, in_icmp; destruct (tr_Open e x _ F) as [[err' t1] F1] eqn:E;
      intros [= -> <- <-]; cbn [tr_fd any_transport]; by eapply open_error; [exact He|exact Ht|].
  - intros [u|f|i] F fd Ht; cbn [tr_fd any_transport] in Ht; cbn [tr_Close any_transport];
      destruct (close_open _ F _ Ht) as (t' & -> & ?); by eexists.
  - intros [u|f|i] F Ht; cbn [tr_fd any_transport] in Ht; cbn [tr_Close any_transport]; by rewrite close_closed.
  - intros e b [u|f|i] Ht; cbn [tr_fd any_transport] in Ht; cbn [tr_Send any_transport];
      unfold in_udp, in_tcp, in_icmp; destruct (send_closed e b _ Ht) as (err & t' & ->); by eexists _, _.
Qed.

Lemma newTransport_closed w server x t : newTransport w server = Some (x, t) → tr_fd t = None.
Proof. unfold newTransport. repeat case_match; intros [= <- <-]; done. Qed.

Lemma server_transport_closed tr listen : tr_fd (server_transport tr listen).2 = None.
Proof. unfold server_transport. by repeat case_match. Qed.

(** ** What a socket is pinned to *)

(** The pin is one the configuration asks for. *)
Definition asked_for (e : net_env) (b : Bind) (p : pin) : Prop :=
  match p with
  | Unpinned => b_Iface b = "" ∧ b_LocalIP b = ""
  | Device i => i = b_Iface b
  | Fib f => f = b_FIB b ∧ 0 ≤ f
  | Source ip => ∃ ip', ne_ParseIP e (b_LocalIP b) = Some ip' ∧ (ip = ip' ∨ To4 ip' = Some ip)
  end.

Lemma pinned_Ok r p q : pinned r p = Ok q → r = None ∧ q = p.
Proof. destruct r; [done|]. by intros [= ->]. Qed.

Lemma setDeviceBinding_asked e b p :
  b_Iface b ≠ "" → setDeviceBinding e (b_Iface b) (b_FIB b) = Ok p → asked_for e b p ∧ p ≠ Unpinned.
Proof.
  intros Hi. apply String.eqb_neq in Hi as Hi'. unfold setDeviceBinding, setDeviceBinding_linux, setDeviceBinding_freebsd, setDeviceBinding_other.
  rewrite Hi'. destruct (ne_os e); [| |done].
  - intros [_ ->]%pinned_Ok. done.
  - destruct (Z.leb_spec 0 (b_FIB b)); [|done]. intros [_ ->]%pinned_Ok. done.
Qed.

Lemma dial_source_asked e b p : b_Iface b = "" ∨ b_LocalIP b ≠ "" → dial_source e b = Ok p → asked_for e b p.
Proof.
  unfold dial_source. intros H. destruct (String.eqb_spec (b_LocalIP b) "") as [El|El]; cbn [negb].
  - destruct (ne_connect e None); [done|]. intros [= <-]. destruct H as [H|H]; done.
  - destruct (ne_ParseIP e (b_LocalIP b)) as [ip|] eqn:Ep; [|done]. destruct (ne_connect e (Some ip)); [done|].
    intros [= <-]. exists ip. auto.
Qed.

Lemma bindLocalIP_asked e b p : bindLocalIP e (b_LocalIP b) = Ok p → asked_for e b p.
Proof.
  unfold bindLocalIP. destruct (ne_ParseIP e (b_LocalIP b)) as [ip|] eqn:Ep; [|done]. cbn [mbind option_bind].
  destruct (To4 ip) as [ip4|] eqn:E4; [|done]. destruct (ne_connect _ _); [done|]. intros [= <-]. exists ip. auto.
Qed.

(** Uplink pinning. A raw socket, and a UDP socket whose [fib] is negative,
    is never silently left unpinned: if opening succeeds it is pinned to the
    device, the routing table or the source address of the configuration, or the
    configuration names neither device nor source. With a [fib] that is not
    negative - as with the zero value of a configuration without one - the UDP
    transport takes the device branch instead: on Linux a WAN configured by
    [local_ip] alone is dialled unpinned, on FreeBSD the device and the source
    address give way to that routing table. *)
Theorem uplink_binding e b p :
  (bindToRaw e b = Ok p → asked_for e b p) ∧
  (b_FIB b < 0 → dialBound e b = Ok p → asked_for e b p) ∧
  (ne_os e = Linux → b_Iface b = "" → 0 ≤ b_FIB b → ne_connect e None = None → dialBound e b = Ok Unpinned) ∧
  (ne_os e = FreeBSD → 0 ≤ b_FIB b → ne_setfib e (b_FIB b) = None → ne_connect e None = None →
     dialBound e b = Ok (Fib (b_FIB b))).
Proof.
  split_and!.
  - unfold bindToRaw. destruct (String.eqb_spec (b_Iface b) "") as [Ei|Ei]; cbn [negb].
    + destruct (String.eqb_spec (b_LocalIP b) "") as [El|El]; cbn [negb]; [by intros [= <-]|apply bindLocalIP_asked].
    + destruct (setDeviceBinding _ _ _) as [q|x|] eqn:Es; [intros [= <-]; by destruct (setDeviceBinding_asked e b q Ei Es)| |done].
      destruct (_ && _); [apply bindLocalIP_asked|done].
  - intros Hf. unfold dialBound. rewrite (proj2 (Z.leb_gt _ _)) by lia. rewrite orb_false_r.
    destruct (String.eqb_spec (b_Iface b) "") as [Ei|Ei]; cbn [negb]; [apply dial_source_asked; by left|].
    unfold dial_device. destruct (setDeviceBinding _ _ _) as [q|x|] eqn:Es; cbn [res_bind]; [| |done].
    + destruct (setDeviceBinding_asked e b q Ei Es) as [Hq _].
      destruct (ne_connect e None) as [x|]; cbn [pinned]; [|by intros [= <-]].
      destruct (negb _); [done|]. destruct (String.eqb_spec (b_LocalIP b) ""); [done|]. apply dial_source_asked; by right.
    + destruct (negb _); [done|]. destruct (String.eqb_spec (b_LocalIP b) ""); [done|]. apply dial_source_asked; by right.
  - intros Ho Ei Hf Hc. unfold dialBound, dial_device, setDeviceBinding, setDeviceBinding_linux. rewrite Ho, Ei, Hc.
    rewrite (proj2 (Z.leb_le _ _)) by lia. by rewrite orb_true_r.
  - intros Ho Hf Hs Hc. unfold dialBound, dial_device, setDeviceBinding, setDeviceBinding_freebsd. rewrite Ho.
    rewrite (proj2 (Z.leb_le _ _)) by lia. rewrite orb_true_r, Hs. cbn [pinned res_bind]. by rewrite Hc.
Qed.

(** A Linux system that lets this process do everything. *)
Definition demo_net : net_env :=
  mkNetEnv Linux (λ _, None) (λ _, None) (λ _, None)
    (λ s, if String.eqb s "10.0.0.1" then Some (demo_ip x01) else None)
    (λ _, Some (mkUDPAddr (demo_ip x02) 443)) (λ F, Some (Z.of_nat (fresh (set_map (D := gset nat) Z.to_nat F))))
    None (λ _, Some (demo_ip x01)) 5000.

Lemma uplink_binding_witness :
  dialBound demo_net (mkBind "" "10.0.0.1" 0) = Ok Unpinned ∧
  asked_for demo_net (mkBind "" "10.0.0.1" (-1)) (Source (demo_ip x01)).
Proof.
  split.
  - destruct (uplink_binding demo_net (mkBind "" "10.0.0.1" 0) Unpinned) as (_ & _ & H & _).
    exact (H eq_refl eq_refl ltac:(by vm_compute) eq_refl).
  - destruct (uplink_binding demo_net (mkBind "" "10.0.0.1" (-1)) (Source (demo_ip x01))) as (_ & H & _).
    exact (H ltac:(by vm_compute) eq_refl).
Defined.
