(* ===== verification/Lifecycle.v ===== *)
(** * Start and shutdown (Start and Run of internal/tunnel/tunnel.go and server.go)

    Which sockets the tunnel holds: [Start] of both sides with its error paths,
    and the closings of [Run]. The client is proved against the transport
    interface, for any implementation that keeps its laws. The loops [Run] starts
    are the event handlers of Client.v and Server.v; of [Run] itself the closings
    are modelled, in whatever order and however often they happen. *)

From S2P Require Import Prelude Float64 Frame Replay Delivery Health Scheduler FecCodec FecEncoder FecDecoder Crypto Session Config TunnelParams Server Ipv4 FakeTCP Icmp Transports.

#[local] Open Scope string_scope.
#[local] Open Scope Z_scope.
#[local] Open Scope list_scope.

(** ** The client *)

Section client.
  Context {T : Type} `{TransportLaws T}.

(** A WAN with the fields its transport was constructed with. *)
Definition wan : Type := endpoint * T.

Record client_sockets := mkClientSockets { cs_ingress : option UDPConn; cs_wans : list wan }.

(** The loop of [Start]: the first error ends it. Every call has its own answers
    of the system. *)
Fixpoint open_wans (env : nat → net_env) (i : nat) (ws : list wan) (F : gset Z) :
    option transport_error * list wan * gset Z :=
  match ws with
  | [] => (None, [], F)
  | (x, t) :: ws =>
      match tr_Open (env i) x t F with
      | (Some err, t, F) => (Some err, (x, t) :: ws, F)
      | (None, t, F) => let '(err, ws, F) := open_wans env (S i) ws F in (err, (x, t) :: ws, F)
      end
  end.

(** [for _, w := range c.wans { w.tr.Close() }]. *)
Fixpoint close_wans (ws : list wan) (F : gset Z) : list wan * gset Z :=
  match ws with
  | [] => ([], F)
  | (x, t) :: ws =>
      let '(t, F) := tr_Close t F in
      let '(ws, F) := close_wans ws F in ((x, t) :: ws, F)
  end.

Definition close_conn (c : option UDPConn) (F : gset Z) : option UDPConn * gset Z :=
  match c with
  | Some c => if uc_open c then (Some (mkConn (uc_fd c) false), F ∖ {[uc_fd c]}) else (Some c, F)
  | None => (None, F)
  end.

(** [c.Start()]. *)
Definition Client_Start (env : nat → net_env) (listen : string) (c : client_sockets) (F : gset Z) :
    option transport_error * client_sockets * gset Z :=
  match ne_resolve (env 0%nat) listen with
  | None => (Some ErrResolve, c, F)
  | Some _ =>
      match ListenUDP (env 0%nat) F with
      | (None, F) => (Some ErrSocket, c, F)
      | (Some fd, F) =>
          match open_wans env 1 (cs_wans c) F with
          | (None, ws, F) => (None, mkClientSockets (Some (mkConn fd true)) ws, F)
          | (Some err, ws, F) =>
              let '(conn, F) := close_conn (Some (mkConn fd true)) F in
              let '(ws, F) := close_wans ws F in
              (Some err, mkClientSockets conn ws, F)
          end
      end
  end.

(** The closings of [Run], which come from the watcher of the context, the end of
    the ingress loop and the deferred calls. *)
Definition close_client (cF : client_sockets * gset Z) : client_sockets * gset Z :=
  let '(conn, F) := close_conn (cs_ingress cF.1) cF.2 in
  let '(ws, F) := close_wans (cs_wans cF.1) F in
  (mkClientSockets conn ws, F).

(** The descriptors of a list of WANs. *)
Definition wan_fds (ws : list wan) : list Z := omap (λ w, tr_fd w.2) ws.
Definition all_closed (ws : list wan) : Prop := Forall (λ w, tr_fd w.2 = None) ws.
Definition all_open (ws : list wan) : Prop := Forall (λ w, is_Some (tr_fd w.2)) ws.

Lemma all_closed_fds ws : all_closed ws ↔ wan_fds ws = [].
Proof.
  unfold all_closed, wan_fds. induction ws as [|[x t] ws IH]; cbn; [done|]. rewrite Forall_cons, IH. cbn.
  destruct (tr_fd t); split; try done; by intros [].
Qed.

(** The opening loop: the new descriptors are those of the WANs it opened. *)
Lemma open_wans_spec env i ws F :
  (∀ i, env_fresh (env i)) → all_closed ws →
  let '(err, ws', F') := open_wans env i ws F in
  NoDup (wan_fds ws') ∧ (∀ fd, fd ∈ wan_fds ws' → fd ∉ F) ∧ F' = list_to_set (wan_fds ws') ∪ F ∧
  ws'.*1 = ws.*1 ∧ (err = None → all_open ws').
Proof.
  intros He. revert i F. induction ws as [|[x t] ws IH]; intros i F Hc; cbn [open_wans].
  { split_and!; [constructor|by intros ? ?%elem_of_nil|set_solver|done|by constructor]. }
  apply Forall_cons in Hc as [Ht Hc]. cbn [snd] in Ht.
  destruct (tr_Open (env i) x t F) as [[[err|] t1] F1] eqn:E.
  - apply open_error in E as [E ->]; [|done..]. apply all_closed_fds in Hc.
    change (wan_fds ((x, t1) :: ws)) with (match tr_fd t1 with Some fd => fd :: wan_fds ws | None => wan_fds ws end).
    rewrite E, Hc. split_and!; [constructor|by intros ? ?%elem_of_nil|set_solver|done|done].
  - apply open_Ok in E as (fd & E & Hfd & ->); [|done..].
    specialize (IH (S i) ({[fd]} ∪ F) Hc). destruct (open_wans env (S i) ws _) as [[err ws'] F'].
    destruct IH as (Hn & Hd & -> & Hx & Ho).
    change (wan_fds ((x, t1) :: ws')) with (match tr_fd t1 with Some fd => fd :: wan_fds ws' | None => wan_fds ws' end).
    rewrite E. split_and!.
    + apply NoDup_cons. split; [|done]. intros Hin. apply Hd in Hin. set_solver.
    + intros fd' [->|Hin]%elem_of_cons; [done|]. apply Hd in Hin. set_solver.
    + cbn [list_to_set]. set_solver.
    + cbn. by rewrite Hx.
    + intros Hn'. constructor; [by exists fd|by apply Ho].
Qed.

Lemma close_wans_spec ws F :
  let '(ws', F') := close_wans ws F in
  all_closed ws' ∧ F' = F ∖ list_to_set (wan_fds ws) ∧ ws'.*1 = ws.*1.
Proof.
  revert F. induction ws as [|[x t] ws IH]; intros F; cbn [close_wans].
  { split_and!; [constructor|set_solver|done]. }
  change (wan_fds ((x, t) :: ws)) with (match tr_fd t with Some fd => fd :: wan_fds ws | None => wan_fds ws end).
  destruct (tr_fd t) as [fd|] eqn:E.
  - destruct (close_open _ F _ E) as (t' & -> & Ht'). specialize (IH (F ∖ {[fd]})).
    destruct (close_wans ws _) as [ws' F']. destruct IH as (Hc & -> & Hx).
    split_and!; [by constructor|cbn [list_to_set]; set_solver|cbn; by rewrite Hx].
  - rewrite close_closed by done. specialize (IH F). destruct (close_wans ws F) as [ws' F'].
    destruct IH as (Hc & -> & Hx). split_and!; [by constructor|done|cbn; by rewrite Hx].
Qed.

Lemma close_wans_closed ws F : all_closed ws → close_wans ws F = (ws, F).
Proof.
  intros Hc. induction Hc as [|[x t] ws Ht _ IH]; cbn [close_wans]; [done|]. cbn [snd] in Ht.
  by rewrite close_closed, IH by done.
Qed.

Lemma close_conn_again fd F : close_conn (Some (mkConn fd false)) F = (Some (mkConn fd false), F).
Proof. done. Qed.

(** A client after [Start]: the ingress and every WAN hold a descriptor of their
    own, none of them among those open before. *)
Definition client_up (c : client_sockets) (F F' : gset Z) : Prop :=
  ∃ fd, cs_ingress c = Some (mkConn fd true) ∧ all_open (cs_wans c) ∧ NoDup (fd :: wan_fds (cs_wans c)) ∧
    (∀ x, x ∈ fd :: wan_fds (cs_wans c) → x ∉ F) ∧ F' = list_to_set (fd :: wan_fds (cs_wans c)) ∪ F.

(** A client that holds nothing. *)
Definition client_down (c : client_sockets) : Prop := conn_open (cs_ingress c) = false ∧ all_closed (cs_wans c).

Lemma restored (fd : Z) (l : list Z) (F : gset Z) :
  (∀ x, x ∈ fd :: l → x ∉ F) → ((list_to_set l ∪ ({[fd]} ∪ F)) ∖ {[fd]}) ∖ list_to_set l = F.
Proof.
  intros Hd. apply set_eq. intros y. specialize (Hd y). rewrite elem_of_cons in Hd.
  rewrite !elem_of_difference, !elem_of_union, elem_of_list_to_set, elem_of_singleton. tauto.
Qed.

Lemma Client_Start_result env listen c F :
  (∀ i, env_fresh (env i)) → client_down c → cs_ingress c = None →
  match Client_Start env listen c F with
  | (Some _, c', F') => F' = F ∧ client_down c'
  | (None, c', F') => client_up c' F F' ∧ (cs_wans c').*1 = (cs_wans c).*1
  end.
Proof.
  intros He [Hi Hc] Hi0. unfold Client_Start. destruct (ne_resolve _ _) as [a|]; [|done].
  unfold ListenUDP. destruct (ne_socket (env 0%nat) F) as [fd|] eqn:Es; [|done].
  destruct (He 0%nat F fd Es) as [_ Hfd].
  pose proof (open_wans_spec env 1 (cs_wans c) ({[fd]} ∪ F) He Hc) as Ho.
  destruct (open_wans env 1 (cs_wans c) _) as [[err ws] F1]. destruct Ho as (Hn & Hd & -> & Hx & Hall).
  assert (Hd' : fd ∉ wan_fds ws) by (intros Hin; apply Hd in Hin; set_solver).
  assert (Hd2 : ∀ x, x ∈ fd :: wan_fds ws → x ∉ F)
    by (intros x [->|Hin]%elem_of_cons; [done|apply Hd in Hin; set_solver]).
  destruct err as [err|].
  - cbn [close_conn uc_open uc_fd]. pose proof (close_wans_spec ws ((list_to_set (wan_fds ws) ∪ ({[fd]} ∪ F)) ∖ {[fd]})) as Hcl.
    destruct (close_wans ws _) as [ws' F2]. destruct Hcl as (H1 & -> & _). split; [by apply restored|done].
  - split; [|done]. exists fd. cbn [cs_wans]. split_and!; [done|by apply Hall|by constructor|done|].
    cbn [list_to_set]. set_solver.
Qed.

Lemma close_client_down c F : client_down c → close_client (c, F) = (c, F).
Proof.
  intros [Hi Hc]. unfold close_client. cbn [fst snd]. destruct c as [[[fd o]|] ws]; cbn in *;
    [destruct o; [done|]; cbn|]; by rewrite close_wans_closed.
Qed.

Lemma close_client_up c F F' : client_up c F F' → ∃ c', close_client (c, F') = (c', F) ∧ client_down c'.
Proof.
  intros (fd & Hi & _ & _ & Hd & ->). unfold close_client. cbn [fst snd]. rewrite Hi. cbn [close_conn uc_open uc_fd].
  set (F0 := _ ∖ {[fd]}). pose proof (close_wans_spec (cs_wans c) F0) as Hcl.
  destruct (close_wans (cs_wans c) F0) as [ws' F2]. destruct Hcl as (H1 & -> & _).
  exists (mkClientSockets (Some (mkConn fd false)) ws'). split; [|by split]. f_equal. etrans; [|exact (restored fd (wan_fds (cs_wans c)) F Hd)].
  unfold F0. cbn [list_to_set]. f_equal. f_equal. set_solver.
Qed.

(** C37 — The sockets of a client. [Start] opens everything or leaves nothing
    behind: on an error no descriptor is left open and no WAN holds one, whatever
    failed; on success every WAN and the ingress hold a descriptor of their own.
    The closings of [Run] give all of them back however often they run, and a
    send through a closed WAN fails. *)
Theorem client_lifecycle env listen c F :
  (∀ i, env_fresh (env i)) → client_down c → cs_ingress c = None →
  match Client_Start env listen c F with
  | (Some err, c', F') => F' = F ∧ client_down c'
  | (None, c', F') =>
      client_up c' F F' ∧ (cs_wans c').*1 = (cs_wans c).*1 ∧
      ∀ n, let '(c2, F2) := Nat.iter (S n) close_client (c', F') in
        F2 = F ∧ client_down c2 ∧
        ∀ e b x t, (x, t) ∈ cs_wans c2 → ∃ err t', tr_Send e b t = (Some err, t', [])
  end.
Proof.
  intros He Hc Hi. pose proof (Client_Start_result env listen c F He Hc Hi) as Hs.
  destruct (Client_Start env listen c F) as [[[err|] c'] F']; [done|]. destruct Hs as [Hup Hx].
  split; [exact Hup|]. split; [exact Hx|]. intros n. apply close_client_up in Hup as (c2 & E & Hdown).
  assert (Hiter : Nat.iter (S n) close_client (c', F') = (c2, F)).
  { induction n as [|n IH]; [exact E|]. by rewrite Nat.iter_succ, IH, close_client_down. }
  rewrite Hiter. split_and!; [done|done|]. intros e b x t Hin. apply send_closed.
  exact (proj1 (Forall_forall _ _) (proj2 Hdown) (x, t) Hin).
Qed.
End client.

(** ** The server *)

(** [s.Start()]: an address of the inner peer that does not resolve closes the
    listening socket again. *)
Definition Server_Start (e : net_env) (wgpeer : string) (x : endpoint) (t : transport) (F : gset Z) :
    option transport_error * transport * option UDPAddr * gset Z :=
  match tr_Open e x t F with
  | (Some err, t, F) => (Some err, t, None, F)
  | (None, t, F) =>
      match ne_resolve e wgpeer with
      | None => let '(t, F) := tr_Close t F in (Some ErrResolve, t, None, F)
      | Some a => (None, t, Some a, F)
      end
  end.

Lemma Server_Start_result ne wgpeer x t0 F :
  env_fresh ne → tr_fd t0 = None →
  match Server_Start ne wgpeer x t0 F with
  | (Some _, t, _, F1) => F1 = F ∧ tr_fd t = None
  | (None, t, a, F1) => is_Some a ∧ ∃ fd, tr_fd t = Some fd ∧ (fd ∉ F) ∧ F1 = {[fd]} ∪ F
  end.
Proof.
  intros Hf H0. unfold Server_Start. destruct (tr_Open ne x t0 F) as [[[e1|] t1] F2] eqn:Eo.
  - by apply open_error in Eo as [E ->].
  - apply open_Ok in Eo as (fd & E & Hfd & ->); [|done..]. destruct (ne_resolve ne wgpeer) as [addr|].
    + split; [done|]. by exists fd.
    + destruct (close_open t1 ({[fd]} ∪ F) fd E) as (t2 & -> & E2). by rewrite undo_open.
Qed.

Section server.
  Context {Addr R : Type} (addr_string : Addr → string).
  Context `{!Rand R} {rsl : ReedSolomon} {cph : Ciphers} {dhx : X25519}.
  Context (cfg : server_cfg).
  Context `{!RangeOrder Z firstWindow, !RangeOrder Z ptr, !RangeOrder Z (list byte),
            !RangeOrder blockKey blockState, !RangeOrder Z (sessState Addr R), !RangeOrder string (pathState Addr)}.

(** The deferred calls of [Run], behind the sweep of the context watcher. *)
Definition Server_shutdown (t : transport) (F : gset Z) (s : server Addr R) : transport * gset Z * server Addr R :=
  let s := set_world (CloseAll (sv_world s)) s in
  let '(t, F) := tr_Close t F in (t, F, s).

(** The socket of every session that left the table is closed. *)
Definition no_leak (s : server Addr R) : Prop :=
  ∀ p x c, session_at p s = Some x → s_egress x = Some c →
    sessions (mgr (sv_world s)) !! s_ID x = Some p ∨ c ∈ closed (sv_world s).

Lemma evolves_no_leak s s' : evolves s s' → no_leak s → no_leak s'.
Proof.
  intros [Em Eh _ Ec _ _] Hn p x' c Hx' Hc. specialize (Eh p). rewrite Hx' in Eh. unfold keeps_opt in Eh.
  destruct (session_at p s) as [x|] eqn:Hx; [|done]. destruct Eh as (Hid & _ & Heg & _).
  rewrite Em, Ec, Hid. apply (Hn p x c Hx). congruence.
Qed.

(** Closing more sockets leaks nothing. *)
Lemma closing_no_leak m w s :
  sv_world s = w → sessions m = sessions (mgr w) → no_leak s →
  ∀ cl, closed w ⊆ cl → no_leak (set_world (mkWorld m (heap w) cl) s).
Proof.
  intros <- Hm Hn cl Hcl p x c Hx Hc. cbn [set_world sv_world mgr closed]. rewrite Hm.
  destruct (Hn p x c Hx Hc); [by left|right]. set_solver.
Qed.

Lemma create_session_no_leak e id seq f s :
  Get (mgr (sv_world s)) id = None → no_leak s → no_leak (create_session cfg e id seq f s).2.
Proof.
  intros Hget Hn. unfold create_session. destruct (maxSessions <=? _)%nat; [done|].
  destruct (CheckFirst_entry (mgr (sv_world s)) id seq (e_now e)) as (_ & _ & Hs).
  destruct (CheckFirstReplay (mgr (sv_world s)) id seq (e_now e)) as [ok m]. cbn [snd] in Hs. cbn zeta.
  pose proof (λ cl, closing_no_leak m _ s eq_refl Hs Hn cl) as Hcl.
  destruct (negb ok); [by apply Hcl|]. destruct (_ <? _)%nat; [by apply Hcl|].
  destruct (e_priv e); [|by apply Hcl]. destruct (ECDHShared _ _); [|by apply Hcl..].
  destruct (e_dial e) as [c|]; [|by apply Hcl].
  destruct (NewAEAD _ _); [|apply Hcl; cbn; set_solver..].
  destruct (NewEncoder _); [|apply Hcl; cbn; set_solver..].
  unfold alloc, Put. cbn [heap mgr closed set_world sv_world snd fst]. rewrite lookup_insert_eq.
  set (p := fresh _). set (x := SetEgress _ _). intros q y d. unfold session_at. cbn [sv_world heap set_world mgr closed].
  change (s_ID x) with id. rewrite lookup_insert_Some. intros [[<- <-]|[Hq Hy]] Hd.
  - left. cbn [sessions]. by rewrite lookup_insert_eq.
  - destruct (Hn q y d Hy Hd) as [Ht|]; [left|by right]. cbn [sessions]. rewrite Hs.
    rewrite lookup_insert_ne; [done|]. intros Hid. unfold Get in Hget. congruence.
Qed.

Lemma handle_first_no_leak e hdr sealed ua s :
  is_u32 (f_seq hdr) → no_leak s → no_leak (handle_first addr_string cfg e hdr sealed ua s).1.
Proof.
  intros Hq Hn. unfold handle_first. destruct ua as [ua|]; [|done].
  destruct (Open _ _ _) as [plain| |]; [|done..]. destruct (Decode plain) as [f| |]; [|done..].
  cbn zeta. set (r := match Get _ _ with Some p => _ | None => _ end).
  assert (Hr : no_leak r.2).
  { unfold r. destruct (Get (mgr (sv_world s)) (f_session hdr)) eqn:E; [done|]. by apply create_session_no_leak. }
  destruct r as [[p|] s1]; cbn [snd] in Hr; [|done].
  pose proof (check_replay_evolves p (f_seq hdr) s1 Hq) as H2.
  destruct (check_replay p (f_seq hdr) s1) as [ok s2]. cbn [snd] in H2.
  destruct ok; cbn [negb]; [|by eapply evolves_no_leak].
  eapply evolves_no_leak; [|exact Hr]. eapply evolves_trans; [exact H2|].
  eapply evolves_trans; [apply touch_evolves|]. eapply evolves_trans; [apply registerPath_evolves|apply sendAck_evolves].
Qed.

Lemma sweep_no_leak e s : server_ok s → no_leak s → no_leak (sweep e s).
Proof.
  intros Hok Hn. unfold sweep.
  pose proof (expire_exact (sv_world s) sessionTTL (e_now e)) as Hx.
  destruct (Expire (sv_world s) sessionTTL (e_now e)) as [n w]. destruct Hx as (Ht & Hc & Hh & _ & _).
  pose proof (ExpireFirsts_sessions (mgr w) sessionTTL (e_now e)) as Hm.
  destruct (ExpireFirsts (mgr w) sessionTTL (e_now e)) as [n' m]. cbn [snd] in Hm.
  destruct (foldl _ _ _) as [u states]. intros p x c. unfold session_at. cbn [sv_world heap mgr closed].
  rewrite Hh, Hm, Hc. intros Hx Hd. destruct (Hn p x c Hx Hd) as [Hp|]; [|by right; left].
  rewrite Ht, Hp. destruct (idle (heap (sv_world s)) p (e_now e - sessionTTL)) eqn:Ei; [|by left].
  right. right. by exists (s_ID x), p, x.
Qed.

Lemma step_no_leak e ev s s' out :
  server_ok s → no_leak s → server_step addr_string cfg e ev s = Ok (s', out) → no_leak s'.
Proof.
  intros Hok Hn. assert (Hev : evolves s s' → no_leak s') by (intros H; by eapply evolves_no_leak).
  destruct ev as [sealed ua|p payload| | |]; cbn [server_step].
  - unfold handleClientFrame. destruct (DecodeHeader sealed) as [hdr| |] eqn:Eh; [|by intros [= <- <-]..].
    assert (Hseq : is_u32 (f_seq hdr)) by (by eapply wf_seq, DecodeHeader_wf).
    destruct (HasFlag hdr FlagFirst).
    + intros H. assert (handle_first addr_string cfg e hdr sealed ua s = (s', out)) as E by congruence.
      pose proof (handle_first_no_leak e hdr sealed ua s Hseq Hn) as Hf. by rewrite E in Hf.
    + intros H. apply Hev. by eapply handle_data_evolves.
  - intros H. apply Hev. by eapply egress_evolves.
  - intros H. apply Hev. by eapply fecTick_evolves.
  - intros [= <- <-]. apply Hev, healthTick_evolves.
  - intros [= <- <-]. by apply sweep_no_leak.
Qed.

Lemma run_no_leak evs s s' out :
  Forall env_ok evs → server_ok s → no_leak s → server_run addr_string cfg evs s = Ok (s', out) → no_leak s'.
Proof.
  intros Hev. revert s out. induction Hev as [|[e ev] evs He _ IH]; intros s out Hok Hn; cbn [server_run].
  { by intros [= <- <-]. }
  intros H. apply bind_Ok in H as ([s1 o1] & H1 & H). apply bind_Ok in H as ([s2 o2] & H2 & H).
  cbn [fst snd] in *. injection H as <- <-.
  destruct (step_ok _ _ _ _ _ _ _ He Hok H1) as [Hok1 _]. eapply IH; [exact Hok1| |exact H2].
  eapply step_no_leak; [exact Hok|exact Hn|exact H1].
Qed.

(** C38 — The sockets of a server. [Start] with an error leaves no descriptor open.
    After any run the socket of every session that was ever created is still in
    the session table or closed, so expired sessions leak none; shutting down
    then leaves the table empty and every socket closed, whatever the order of
    the map, and gives the listening descriptor back. *)
Theorem server_sockets ne wgpeer x t0 F err t a F1 evs s out :
  env_fresh ne → tr_fd t0 = None → Server_Start ne wgpeer x t0 F = (err, t, a, F1) →
  Forall env_ok evs → server_run addr_string cfg evs (NewServer_state cfg) = Ok (s, out) →
  (is_Some err → F1 = F ∧ tr_fd t = None) ∧
  (err = None → is_Some a ∧ is_Some (tr_fd t)) ∧
  no_leak s ∧
  let '(t', F', s') := Server_shutdown t F1 s in
  tr_fd t' = None ∧ F' = F ∧ sessions (mgr (sv_world s')) = ∅ ∧
  ∀ p y c, session_at p s' = Some y → s_egress y = Some c → c ∈ closed (sv_world s').
Proof.
  intros Hf H0 Hst He Hr. assert (Hn : no_leak s).
  { eapply run_no_leak; [exact He|apply NewServer_ok| |exact Hr]. by intros p y c. }
  assert (Ht : (is_Some err → F1 = F ∧ tr_fd t = None) ∧ (err = None → is_Some a ∧ is_Some (tr_fd t)) ∧
    ∃ t', tr_Close t F1 = (t', F) ∧ tr_fd t' = None).
  { pose proof (Server_Start_result ne wgpeer x t0 F Hf H0) as Hs. rewrite Hst in Hs. destruct err as [err|].
    - destruct Hs as [-> E]. split_and!; [done|done|]. exists t. by rewrite close_closed.
    - destruct Hs as (Ha & fd & E & Hfd & ->). destruct (close_open t ({[fd]} ∪ F) fd E) as (t2 & Ec & E2).
      rewrite undo_open in Ec by done. split_and!; [by intros []|by rewrite E|by exists t2]. }
  destruct Ht as (Ht1 & Ht2 & t' & Hc & Ht'). split_and!; [exact Ht1|exact Ht2|exact Hn|].
  unfold Server_shutdown. rewrite Hc. destruct (CloseAll_spec (sv_world s)) as (H1 & H2 & H3).
  split_and!; [done|done|exact H1|]. intros p y c. unfold session_at. cbn [set_world sv_world]. rewrite H2, H3.
  intros Hx Hd. destruct (Hn p y c Hx Hd) as [Hp|]; [right|by left]. by exists (s_ID y), p, y.
Qed.
End server.

(** ** Witnesses *)

Section demo.
#[local] Existing Instances key_order sum_ciphers dh_exchange.

Lemma demo_net_fresh : env_fresh demo_net.
Proof.
  intros F fd E. cbn in E. apply (inj Some) in E. subst fd. split; [lia|].
  pose proof (is_fresh (set_map (D := gset nat) Z.to_nat F)) as Hn. intros Hin. apply Hn.
  apply elem_of_map. eexists. split; [|exact Hin]. by rewrite Nat2Z.id.
Qed.

(** A UDP and an ICMP uplink. *)
Definition demo_sockets : client_sockets (T := transport) :=
  mkClientSockets None
    [(mkEndpoint "w1" "" "vpn:443" (mkBind "eth0" "" (-1)), TrUDP NewUDP);
     (mkEndpoint "w2" "" "vpn:443" (mkBind "" "10.0.0.1" (-1)), TrICMP NewICMP)].

Lemma client_lifecycle_witness :
  ∃ c F, Client_Start (λ _, demo_net) ":5182" demo_sockets ∅ = (None, c, F) ∧
    (Nat.iter 3 close_client (c, F)).2 = ∅.
Proof.
  pose proof (client_lifecycle (λ _, demo_net) ":5182" demo_sockets ∅ (λ _, demo_net_fresh)) as H.
  destruct (Client_Start (λ _, demo_net) ":5182" demo_sockets ∅) as [[[err|] c] F] eqn:E.
  - exfalso. assert (Hn : (Client_Start (λ _, demo_net) ":5182" demo_sockets ∅).1.1 = None) by (vm_compute; reflexivity).
    rewrite E in Hn. done.
  - exists c, F. split; [exact eq_refl|].
    destruct H as (_ & _ & Hn); [split; [exact eq_refl|repeat constructor]|exact eq_refl|]. specialize (Hn 2%nat).
    destruct (Nat.iter 3 close_client (c, F)) as [c2 F2]. exact (proj1 Hn).
Defined.

Lemma server_sockets_witness :
  no_leak demo_end ∧ sessions (mgr (sv_world demo_end)) ≠ ∅.
Proof.
  destruct demo_run_facts as [B C]. split.
  - destruct (Server_Start demo_net "10.0.0.9:51820" (server_transport "udp" ":443").1 (server_transport "udp" ":443").2 ∅)
      as [[[err t] a] F1] eqn:E.
    destruct (server_sockets (λ x : string, x) demo_cfg demo_net "10.0.0.9:51820" (server_transport "udp" ":443").1
      (server_transport "udp" ":443").2 ∅ err t a F1 demo_events demo_end _ demo_net_fresh eq_refl E demo_env_ok (result_of _ B))
      as (_ & _ & H & _). exact H.
  - intros E. unfold Count in C. rewrite E, map_size_empty in C. exact (O_S _ C).
Defined.
End demo.
