(* ===== verification/Telemetry.v ===== *)
(** * Telemetry snapshots (internal/tunnel/stats.go)

    [Snapshot] of both sides as functions of their state: what the HTTP endpoint
    and the periodic log marshal. A nil codec pointer panics as it does in the
    loops; formatting the time is left to the reader of [sn_Time]. *)

From S2P Require Import Prelude Float64 Frame Replay Delivery Health SendQueue Scheduler FecCodec FecEncoder FecDecoder Crypto Session Config TunnelParams Server Client.

#[local] Open Scope string_scope.
#[local] Open Scope Z_scope.
#[local] Open Scope list_scope.

Record WANStats := mkWANStats {
  ws_ID : string;
  ws_Transport : string;
  ws_State : string;
  ws_LossPct : f64;
  ws_RTTMs : f64;
  ws_JitterMs : f64;
  ws_CapacityMbps : f64;
  ws_FramesSent : Z;      (* uint64 *)
  ws_Pongs : Z;
  ws_MissedProbes : Z;
  ws_LastRxAgeMs : Z;     (* int64 *)
  ws_QueueDrops : Z;
}.

Record FECStats := mkFECStats {
  fs_CrossPath : bool;
  fs_DataShards : Z;
  fs_BlocksSent : Z;
  fs_FramesLost : Z;
  fs_Recovered : Z;
  fs_CodingOn : bool;
}.

Record DeliveryStats := mkDeliveryStats { ds_Pending : Z; ds_MaxPending : Z; ds_Drops : Z }.

Record Snapshot := mkSnapshot {
  sn_Time : time;
  sn_Mode : string;
  sn_UptimeSec : f64;
  sn_Sessions : Z;
  sn_WANs : list WANStats;
  sn_FEC : FECStats;
  sn_Delivery : DeliveryStats;
}.

(** [d.Seconds()], [d.Milliseconds()] and [float64(d) / float64(time.Millisecond)]. *)
Definition Seconds (d : duration) : f64 := of_Z (Z.quot d second) ⊞ (of_Z (Z.rem d second) ⊘ of_Z 1000000000).
Definition Milliseconds (d : duration) : Z := Z.quot d millisecond.
Definition millis (d : duration) : f64 := of_Z d ⊘ of_Z millisecond.

(** ** The client *)

Section client.
  Context {Addr R : Type} {rsl : ReedSolomon}.

(** The entry of one WAN. *)
Definition wan_stats (now : time) (w : wanCodec) (l : wanLink) : WANStats :=
  let m := l_health l in
  mkWANStats (w_ID (wc_cfg w)) (w_Transport (wc_cfg w)) (State_String (state m))
    (loss m ⊠ of_Z 100) (millis (rtt m)) (millis (jitter m)) (of_Z (w_CapacityMbps (wc_cfg w)))
    (l_framesSent l) (l_pongs l) (l_missedProbes l)
    (if 0 <? l_lastRx l then Milliseconds (time_sub now (unix_nano (l_lastRx l))) else 0)
    (match l_q l with Some q => (stats q).2 | None => 0 end).

(** The counters summed over codecs. *)
Record totals := mkTotals { to_blocks : Z; to_lost : Z; to_recv : Z; to_coding : bool }.

Definition deref {A} (o : option A) : res unit A := match o with Some a => Ok a | None => Panic end.

(** One WAN of the loop under [codecMu]. *)
Definition add_wan (k : codecs) (t : totals) (w : wanCodec) : res unit totals :=
  let? e := deref (enc_at (wc_enc w) k) in
  let? d := deref (dec_at (wc_dec w) k) in
  let '(l, r) := Decoder_Stats d in
  Ok (mkTotals (u64 (to_blocks t + Encoder_Stats e)) (u64 (to_lost t + l)) (u64 (to_recv t + r))
        (to_coding t || CodingOn e)).

Fixpoint add_wans (k : codecs) (t : totals) (ws : list wanCodec) : res unit totals :=
  match ws with
  | [] => Ok t
  | w :: ws => let? t := add_wan k t w in add_wans k t ws
  end.

Definition codec_totals (k : codecs) : res unit totals :=
  if k_crossPath k then
    let? e := deref (enc_at (k_xenc k) k) in
    let? d := deref (dec_at (k_xdec k) k) in
    let '(l, r) := Decoder_Stats d in
    Ok (mkTotals (Encoder_Stats e) l r false)
  else add_wans k (mkTotals 0 0 0 false) (k_wans k).

(** The number of data shards: the shared encoder's, or the first WAN's. *)
Definition snapshot_shards (k : codecs) : res unit Z :=
  let? n := match k_xenc k with
            | Some _ => let? e := deref (enc_at (k_xenc k) k) in Ok (DataShards (e_params e))
            | None => Ok 0
            end in
  if n =? 0 then
    match k_wans k with
    | w :: _ => let? e := deref (enc_at (wc_enc w) k) in Ok (DataShards (e_params e))
    | [] => Ok 0
    end
  else Ok n.

(** [c.Snapshot()]. *)
Definition Client_Snapshot (now start : time) (c : client Addr R) : res unit Snapshot :=
  let k := cl_codecs c in
  let wans := zip_with (wan_stats now) (k_wans k) (cl_links c) in
  let? t := codec_totals k in
  let? shards := snapshot_shards k in
  Ok (mkSnapshot now "client" (Seconds (time_sub now start)) 0 wans
        (mkFECStats (k_crossPath k) shards (to_blocks t) (to_lost t) (to_recv t) (to_coding t || k_crossPath k))
        (mkDeliveryStats (pendingCount (cl_delivery c)) (d_maxPending (cl_delivery c)) (dropsTotal (cl_delivery c)))).
End client.

(** ** The server *)

(** [strings.Contains(s, sub)]. *)
Fixpoint Contains (s sub : string) : bool :=
  String.prefix sub s || match s with EmptyString => false | String _ s => Contains s sub end.

(** [strings.EqualFold(s, t)] for a [t] of lower-case ASCII letters other than k:
    beside the two cases of a letter, the long s (U+017F) folds to s. *)
Definition lower (a : Ascii.ascii) : Ascii.ascii :=
  let n := Ascii.nat_of_ascii a in
  if (65 <=? n)%nat && (n <=? 90)%nat then Ascii.ascii_of_nat (n + 32) else a.
Fixpoint EqualFold (s t : string) : bool :=
  match t, s with
  | EmptyString, EmptyString => true
  | String c t, String a s =>
      if Ascii.eqb (lower a) c then EqualFold s t
      else match s with
           | String b s =>
               Ascii.eqb c (Ascii.ascii_of_nat 115) && Ascii.eqb a (Ascii.ascii_of_nat 197) &&
               Ascii.eqb b (Ascii.ascii_of_nat 191) && EqualFold s t
           | EmptyString => false
           end
  | _, _ => false
  end.

Definition zero_stats (k : string) : WANStats := mkWANStats k "" "" f0 f0 f0 f0 0 0 0 0 0.

(** One path of a scheduler against the entry under assembly. *)
Definition take_path (k : string) (w : WANStats) (pi : string * f64 * string * f64) : WANStats :=
  let '(id, cap, st, l) := pi in
  if Contains k id || String.eqb id k then
    mkWANStats (ws_ID w) (ws_Transport w) st (if f0 <.? l then l ⊠ of_Z 100 else ws_LossPct w)
      (ws_RTTMs w) (ws_JitterMs w) cap (ws_FramesSent w) (ws_Pongs w) (ws_MissedProbes w)
      (ws_LastRxAgeMs w) (ws_QueueDrops w)
  else w.

Definition report (k : string) (ps : list (string * f64 * string * f64)) : WANStats :=
  foldl (take_path k) (zero_stats k) ps.

Section server.
  Context {Addr R : Type}.
  Context `{!RangeOrder Z (sessState Addr R), !RangeOrder string (pathState Addr), !RangeOrder string WANStats}.

(** The loops over the sessions and their paths: [seen] and [byKey]. *)
Definition snap_path (st : sessState Addr R) (acc : gset string * gmap string WANStats) (kv : string * pathState Addr) :
    gset string * gmap string WANStats :=
  if bool_decide (kv.1 ∈ acc.1) then acc
  else ({[kv.1]} ∪ acc.1, <[kv.1 := report kv.1 (Paths (st_sched st))]> acc.2).

Definition snap_session (acc : gset string * gmap string WANStats) (kv : Z * sessState Addr R) :
    gset string * gmap string WANStats :=
  foldl (snap_path kv.2) acc (range (st_paths kv.2)).

(** [s.Snapshot()]; [c] is the server's configuration. *)
Definition Server_Snapshot (now start : time) (c : Config) (s : server Addr R) : Snapshot :=
  let byKey := (foldl snap_session (∅, ∅) (range (sv_states s))).2 in
  let '(lost, recv) := Decoder_Stats (sv_dec s) in
  mkSnapshot now "server" (Seconds (time_sub now start)) (Z.of_nat (size (sv_states s))) (range byKey).*2
    (mkFECStats (EqualFold (fec_Mode (cfg_FEC c)) "crosspath") (fec_DataShards (cfg_FEC c)) 0 lost recv true)
    (mkDeliveryStats 0 0 0).
End server.

(** * Properties *)

(** ** Which paths a server reports *)

Section server_snapshot.
  Context {Addr R : Type}.
  Context `{!RangeOrder Z (sessState Addr R), !RangeOrder string (pathState Addr), !RangeOrder string WANStats}.

(** A session of the server has the path [k]. *)
Definition has_path (s : server Addr R) (k : string) (st : sessState Addr R) : Prop :=
  ∃ id, sv_states s !! id = Some st ∧ is_Some (st_paths st !! k).

(** [byKey] has an entry for exactly the keys seen, each made from a session that
    has the path. *)
Definition snap_inv (s : server Addr R) (acc : gset string * gmap string WANStats) : Prop :=
  dom acc.2 = acc.1 ∧
  ∀ k w, acc.2 !! k = Some w → ∃ st, has_path s k st ∧ w = report k (Paths (st_sched st)).

Lemma snap_path_inv s st acc kv :
  snap_inv s acc → has_path s kv.1 st → snap_inv s (snap_path st acc kv) ∧ (snap_path st acc kv).1 = {[kv.1]} ∪ acc.1.
Proof.
  intros [Hd Hw] Hk. unfold snap_path. case_bool_decide as Hin.
  - split; [done|]. set_solver.
  - split; [|done]. split; cbn [fst snd].
    + rewrite dom_insert_L. set_solver.
    + intros k w. rewrite lookup_insert_Some. intros [[<- <-]|[_ H]]; [by exists st|by apply Hw].
Qed.

Lemma snap_session_inv s acc id st :
  snap_inv s acc → sv_states s !! id = Some st →
  snap_inv s (snap_session acc (id, st)) ∧ (snap_session acc (id, st)).1 = dom (st_paths st) ∪ acc.1.
Proof.
  intros Hi Hst. unfold snap_session. cbn [snd].
  assert (H : ∀ l acc, snap_inv s acc → (∀ k ps, (k, ps) ∈ l → st_paths st !! k = Some ps) →
    snap_inv s (foldl (snap_path st) acc l) ∧ (foldl (snap_path st) acc l).1 = list_to_set l.*1 ∪ acc.1).
  { clear acc Hi. intros l. induction l as [|[k ps] l IH]; intros acc Hi Hl; cbn [foldl fmap list_fmap list_to_set fst].
    { split; [done|]. set_solver. }
    destruct (snap_path_inv s st acc (k, ps) Hi) as [H1 H2].
    { exists id. split; [done|]. exists ps. apply Hl, elem_of_cons. by left. }
    destruct (IH _ H1) as [H3 H4]; [intros k' ps' ?; apply Hl, elem_of_cons; by right|].
    split; [done|]. rewrite H4, H2. cbn [fst]. set_solver. }
  destruct (H (range (st_paths st)) acc Hi) as [H1 H2]; [intros k ps; by rewrite elem_of_range|].
  split; [done|]. rewrite H2. f_equal. apply set_eq. intros k. rewrite elem_of_list_to_set, elem_of_dom, list_elem_of_fmap.
  split; [intros ([k' ps] & -> & Hk%elem_of_range); by exists ps|].
  intros [ps Hps]. exists (k, ps). split; [done|]. by apply elem_of_range.
Qed.

Lemma snapshot_fold s :
  let acc := foldl snap_session (∅, ∅) (range (sv_states s)) in
  snap_inv s acc ∧ ∀ k, k ∈ acc.1 ↔ ∃ st, has_path s k st.
Proof.
  assert (H : ∀ l acc, snap_inv s acc → (∀ id st, (id, st) ∈ l → sv_states s !! id = Some st) →
    snap_inv s (foldl snap_session acc l) ∧
    ∀ k, k ∈ (foldl snap_session acc l).1 ↔ k ∈ acc.1 ∨ ∃ id st, (id, st) ∈ l ∧ is_Some (st_paths st !! k)).
  { intros l. induction l as [|[id st] l IH]; intros acc Hi Hl; cbn [foldl].
    { split; [done|]. intros k. split; [by left|]. intros [?|(id & st & Hin & _)]; [done|by apply elem_of_nil in Hin]. }
    destruct (snap_session_inv s acc id st Hi) as [H1 H2]; [apply Hl, elem_of_cons; by left|].
    destruct (IH _ H1) as [H3 H4]; [intros id' st' ?; apply Hl, elem_of_cons; by right|].
    split; [done|]. intros k. rewrite H4, H2, elem_of_union, elem_of_dom. setoid_rewrite elem_of_cons. naive_solver. }
  destruct (H (range (sv_states s)) (∅, ∅)) as [H1 H2].
  - split; cbn [fst snd]; [apply dom_empty_L|]. intros k w. by rewrite lookup_empty.
  - intros id st. by rewrite elem_of_range.
  - split; [done|]. intros k. rewrite H2. unfold has_path. setoid_rewrite elem_of_range. set_solver.
Qed.

(** The entry of a path is exact when no other path of its scheduler has a key
    contained in its own. *)
Lemma report_exact k cap st l ps :
  (k, cap, st, l) ∈ ps → NoDup (map (λ pi, pi.1.1.1) ps) →
  (∀ id cap' st' l', (id, cap', st', l') ∈ ps → Contains k id = true → id = k) →
  let w := report k ps in
  ws_ID w = k ∧ ws_State w = st ∧ ws_CapacityMbps w = cap ∧ ws_LossPct w = if f0 <.? l then l ⊠ of_Z 100 else f0.
Proof.
  intros Hin Hnd Hex. unfold report.
  assert (Hskip : ∀ ps w, (∀ id cap' st' l', (id, cap', st', l') ∈ ps → Contains k id = false ∧ id ≠ k) →
    foldl (take_path k) w ps = w).
  { intros qs. induction qs as [|[[[id c'] s'] l'] qs IH]; intros w H; [done|]. cbn [foldl].
    destruct (H id c' s' l') as [H1 H2]; [apply elem_of_cons; by left|].
    apply String.eqb_neq in H2. unfold take_path at 2. rewrite H1, H2. cbn [orb]. apply IH.
    intros ? ? ? ? ?. eapply H, elem_of_cons. by right. }
  apply list_elem_of_split in Hin as (l1 & l2 & ->).
  rewrite map_app in Hnd. cbn [map fst] in Hnd. apply NoDup_app in Hnd as (_ & Hnd1 & Hnd2). apply NoDup_cons in Hnd2 as [Hnd2 _].
  assert (Hother : ∀ id cap' st' l', (id, cap', st', l') ∈ l1 ∨ (id, cap', st', l') ∈ l2 → Contains k id = false ∧ id ≠ k).
  { intros id c' s' l' Hin. assert (Hne : id ≠ k).
    { intros ->. destruct Hin as [Hin|Hin].
      - apply (Hnd1 k); [|apply elem_of_cons; by left]. apply list_elem_of_fmap. by exists (k, c', s', l').
      - apply Hnd2. apply list_elem_of_fmap. by exists (k, c', s', l'). }
    split; [|done]. destruct (Contains k id) eqn:E; [|done]. exfalso. apply Hne, (Hex id c' s' l'); [|done].
    apply elem_of_app. rewrite elem_of_cons. tauto. }
  rewrite foldl_app, (Hskip l1) by (intros; apply (Hother id cap' st' l'); by left). cbn [foldl].
  rewrite Hskip by (intros; apply (Hother id cap' st' l'); by right).
  unfold take_path. rewrite String.eqb_refl, orb_true_r. by split_and!.
Qed.

(** The snapshot of a server. In whatever order the maps are visited, it has
    one entry for each path key any session has, and none else; it counts the
    sessions with scheduling state; and an entry reports capacity, state and loss
    of that path as the scheduler of one of those sessions holds them, provided
    no other key of that scheduler is a substring of it. *)
Theorem server_snapshot_paths now start c s :
  let sn := Server_Snapshot now start c s in
  NoDup (ws_ID <$> sn_WANs sn) ∧ sn_Sessions sn = Z.of_nat (size (sv_states s)) ∧
  (∀ k, k ∈ ws_ID <$> sn_WANs sn ↔ ∃ st, has_path s k st) ∧
  ∀ w, w ∈ sn_WANs sn → ∃ st, has_path s (ws_ID w) st ∧
    ∀ cap state l, let ps := Paths (st_sched st) in
      (ws_ID w, cap, state, l) ∈ ps → NoDup (map (λ pi, pi.1.1.1) ps) →
      (∀ id cap' st' l', (id, cap', st', l') ∈ ps → Contains (ws_ID w) id = true → id = ws_ID w) →
      ws_State w = state ∧ ws_CapacityMbps w = cap ∧ ws_LossPct w = if f0 <.? l then l ⊠ of_Z 100 else f0.
Proof.
  cbn zeta. unfold Server_Snapshot. destruct (snapshot_fold s) as [[Hd Hw] Hk].
  set (byKey := (foldl snap_session (∅, ∅) (range (sv_states s))).2) in *.
  destruct (Decoder_Stats (sv_dec s)) as [lost recv]. cbn [sn_WANs sn_Sessions].
  assert (Hid : ∀ k ps, ws_ID (report k ps) = k).
  { intros k ps. unfold report. assert (H : ∀ w, ws_ID (foldl (take_path k) w ps) = ws_ID w); [|by rewrite H].
    induction ps as [|[[[id c'] s'] l'] ps IH]; intros w; [done|]. cbn [foldl]. rewrite IH. unfold take_path. by destruct (_ || _). }
  assert (Hids : ws_ID <$> (range byKey).*2 = (range byKey).*1).
  { rewrite <-list_fmap_compose. apply list_fmap_ext. intros i [k w] Hi. cbn.
    apply list_elem_of_lookup_2, elem_of_range, Hw in Hi as (st & _ & ->). apply Hid. }
  rewrite Hids. split_and!.
  - assert (Hp : (range byKey).*1 ≡ₚ (map_to_list byKey).*1) by (by rewrite range_perm). rewrite Hp. apply NoDup_fst_map_to_list.
  - done.
  - intros k. rewrite <-Hk, <-Hd, elem_of_dom, list_elem_of_fmap. split.
    + intros ([k' w] & -> & H%elem_of_range). by exists w.
    + intros [w H]. exists (k, w). split; [done|]. by apply elem_of_range.
  - intros w ([k w'] & -> & H%elem_of_range)%list_elem_of_fmap. cbn [snd] in *. apply Hw in H as (st & Hst & ->).
    exists st. rewrite Hid. split; [done|]. intros cap state l Hin Hnd Hex.
    by destruct (report_exact k cap state l _ Hin Hnd Hex) as (_ & ? & ? & ?).
Qed.
End server_snapshot.

(** A path whose key contains another's is reported with the other's state. *)
Example report_confuses_paths :
  let w := report "10.0.0.1:4000" [("10.0.0.1:4000", of_Z 50, "healthy", f0); ("10.0.0.1:400", of_Z 20, "down", f0)] in
  ws_ID w = "10.0.0.1:4000" ∧ ws_State w = "down" ∧ ws_CapacityMbps w = of_Z 20.
Proof. by vm_compute. Qed.

(** ** The totals of a client *)

Section client_snapshot.
  Context {Addr R : Type} {rsl : ReedSolomon}.

(** With a codec pair per WAN the counters are the sums over the WANs, modulo
    2^64. *)
Lemma add_wans_sums k ws t :
  (∀ w, w ∈ ws → is_Some (enc_at (wc_enc w) k) ∧ is_Some (dec_at (wc_dec w) k)) →
  ∃ t', add_wans k t ws = Ok t' ∧
    u64 (to_blocks t') = u64 (to_blocks t + foldr (λ w n, match enc_at (wc_enc w) k with Some e => Encoder_Stats e + n | None => n end) 0 ws) ∧
    u64 (to_lost t') = u64 (to_lost t + foldr (λ w n, match dec_at (wc_dec w) k with Some d => (Decoder_Stats d).1 + n | None => n end) 0 ws) ∧
    to_coding t' = to_coding t || existsb (λ w, match enc_at (wc_enc w) k with Some e => CodingOn e | None => false end) ws.
Proof.
  revert t. induction ws as [|w ws IH]; intros t Hw; cbn [add_wans foldr existsb].
  { exists t. rewrite !Z.add_0_r, orb_false_r. done. }
  destruct (Hw w) as [[e He] [d Hd]]; [apply elem_of_cons; by left|].
  unfold add_wan. rewrite He, Hd. cbn [deref res_bind]. destruct (Decoder_Stats d) as [l r] eqn:Es. cbn [res_bind].
  destruct (IH (mkTotals (u64 (to_blocks t + Encoder_Stats e)) (u64 (to_lost t + l)) (u64 (to_recv t + r)) (to_coding t || CodingOn e)))
    as (t' & E1 & E2 & E3 & E4); [intros w' ?; apply Hw, elem_of_cons; by right|].
  assert (Hu : ∀ a b c, u64 (u64 (a + b) + c) = u64 (a + (b + c))).
  { intros a b c. unfold u64. rewrite Z.add_mod_idemp_l by lia. f_equal. lia. }
  exists t'. cbn [to_blocks to_lost to_coding fst] in *. rewrite E2, E3, E4, !Hu, orb_assoc. done.
Qed.

(** A snapshot of a client whose codec slots are filled does not fail, has an
    entry per WAN in the order of the configuration, and copies the mode. *)
Lemma client_snapshot_total now start (c : client Addr R) :
  let k := cl_codecs c in
  (∀ w, w ∈ k_wans k → is_Some (enc_at (wc_enc w) k) ∧ is_Some (dec_at (wc_dec w) k)) →
  (k_crossPath k = true → is_Some (k_xenc k)) →
  (∀ p, k_xenc k = Some p → is_Some (enc_at (Some p) k) ∧ is_Some (dec_at (k_xdec k) k)) →
  length (k_wans k) = length (cl_links c) →
  ∃ sn, Client_Snapshot now start c = Ok sn ∧ ws_ID <$> sn_WANs sn = (λ w, w_ID (wc_cfg w)) <$> k_wans k ∧
    fs_CrossPath (sn_FEC sn) = k_crossPath k ∧ (k_crossPath k = true → fs_CodingOn (sn_FEC sn) = true).
Proof.
  cbn zeta. intros Hw Hc Hx Hl. unfold Client_Snapshot. cbn zeta.
  assert (Ht : ∃ t, codec_totals (cl_codecs c) = Ok t).
  { unfold codec_totals. destruct (k_crossPath (cl_codecs c)).
    - destruct (Hc eq_refl) as [p Ep]. destruct (Hx p Ep) as [[e He] [d Hd]]. rewrite Ep, He, Hd. cbn [deref res_bind].
      destruct (Decoder_Stats d). by eexists.
    - destruct (add_wans_sums (cl_codecs c) (k_wans (cl_codecs c)) (mkTotals 0 0 0 false) Hw) as (t & -> & _). by exists t. }
  destruct Ht as [t ->]. cbn [res_bind].
  assert (Hs : ∃ n, snapshot_shards (cl_codecs c) = Ok n).
  { unfold snapshot_shards.
    assert (Hfirst : ∃ n, match k_wans (cl_codecs c) with
      | w :: _ => let? e := deref (enc_at (wc_enc w) (cl_codecs c)) in Ok (DataShards (e_params e)) | [] => Ok 0 end = @Ok unit _ n).
    { destruct (k_wans (cl_codecs c)) as [|w ws]; [by exists 0|]. destruct (Hw w) as [[e ->] _]; [apply elem_of_cons; by left|].
      cbn [deref res_bind]. by eexists. }
    destruct (k_xenc (cl_codecs c)) as [p|] eqn:Ep.
    - destruct (Hx p eq_refl) as [[e ->] _]. cbn [deref res_bind]. destruct (_ =? 0); [exact Hfirst|by eexists].
    - cbn [res_bind Z.eqb]. exact Hfirst. }
  destruct Hs as [n ->]. cbn [res_bind]. eexists. split; [reflexivity|]. cbn [sn_WANs sn_FEC fs_CrossPath fs_CodingOn].
  split_and!; [|done|intros ->; apply orb_true_r].
  generalize (cl_links c) Hl. generalize (k_wans (cl_codecs c)). clear. intros ws. induction ws as [|w ws IH]; intros [|l ls] Hl;
    [done|done|done|]. cbn [zip_with fmap list_fmap]. f_equal. apply IH. by injection Hl.
Qed.
End client_snapshot.

Section demo.
#[local] Existing Instances key_order sum_ciphers dh_exchange.

Lemma server_snapshot_paths_witness :
  NoDup (ws_ID <$> sn_WANs (Server_Snapshot (unix_nano 0) 0 sample_server demo_end)) ∧
  ws_ID <$> sn_WANs (Server_Snapshot (unix_nano 0) 0 sample_server demo_end) = ["10.0.0.1:4000"].
Proof.
  split; [|vm_compute; reflexivity].
  exact (proj1 (server_snapshot_paths (unix_nano 0) 0 sample_server demo_end)).
Defined.
End demo.
