(* ===== verification/Process.v ===== *)
(** * The process (cmd/flexbraid/main.go; Load of internal/config/config.go)

    Reading the configuration, start-up with its exit codes, and the SIGHUP loop.
    The file system and the YAML decoder answer as inputs of a step: [None] is a
    file that cannot be read, a document that does not decode. *)

From S2P Require Import Prelude Float64 Frame Replay Delivery Health Scheduler FecCodec FecEncoder FecDecoder Crypto Session Config TunnelParams Server Client ClientProps Handshake Reload Ipv4 FakeTCP Icmp Transports Lifecycle.

#[local] Open Scope string_scope.
#[local] Open Scope Z_scope.
#[local] Open Scope list_scope.

(** [slog.Level]. *)
Inductive slog_level := LevelDebug | LevelInfo | LevelWarn | LevelError.

Definition parseLevel (s : string) : slog_level :=
  if String.eqb s "debug" then LevelDebug
  else if String.eqb s "warn" then LevelWarn
  else if String.eqb s "error" then LevelError
  else LevelInfo.

(** What [serveTelemetry] starts: the period of the log, the HTTP endpoint. *)
Definition telemetry_interval (t : Telemetry) : option duration :=
  if f0 <.? t_IntervalSec t then
    let i := of_units (t_IntervalSec t) second in
    Some (if i <? 100 * millisecond then 100 * millisecond else i)
  else None.

Definition telemetry_http (t : Telemetry) : option (string * string) :=
  if negb (String.eqb (t_Listen t) "") then Some (t_Listen t, t_Path t) else None.

Section process.
  Context {Addr R Doc : Type} `{!Rand R} {rsl : ReedSolomon} {cph : Ciphers} {dhx : X25519}.
  Context (ResolveUDPAddr SplitHostPort : string → bool) (marshal : ServerAnnounce → list byte).
  (** The YAML decoder with [KnownFields]. *)
  Context (decode : Doc → option Config).

(** [Load(path)] of a file with that content. *)
Definition Load (file : option Doc) : res string Config :=
  match file with
  | None => Err "read config"
  | Some data =>
      match decode data with
      | None => Err "parse config"
      | Some c => Validate ResolveUDPAddr SplitHostPort c
      end
  end.

(** The tunnel [main] constructed, with its sockets. *)
Inductive tunnel :=
| RunClient (v : client_cfg) (c : client Addr R) (socks : client_sockets (T := Transports.transport))
| RunServer (v : server_cfg) (s : server Addr R) (wanTr : Transports.transport) (peer : option UDPAddr).

(** [pr_cfg] is the configuration the tunnel was constructed with. *)
Record process := mkProcess {
  pr_cfg : Config;
  pr_level : slog_level;
  pr_run : tunnel;
}.

Inductive startup := Exit (code : Z) | Up (p : process).

(** What start-up draws from its environment. *)
Record start_env := mkStartEnv {
  se_now : time;
  se_id : option (list byte);
  se_priv : option (list byte);
  se_rand : R;
  se_net : nat → net_env;
}.

(** The transports of [NewClient]; [new_wans] has refused what [newTransport]
    does not know. *)
Definition client_transports (c : Config) : list (endpoint * Transports.transport) :=
  omap (λ w, newTransport w (cfg_Server c)) (cfg_WANs c).

(** [main] up to the start of [run]. *)
Definition main (e : start_env) (showVersion : bool) (file : option Doc) (F : gset Z) : startup * gset Z :=
  if showVersion then (Exit 0, F)
  else match Load file with
  | Ok c =>
      let level := parseLevel (lg_Level (cfg_Log c)) in
      if String.eqb (cfg_Mode c) ModeClient then
        match NewClient ResolveUDPAddr SplitHostPort (se_now e) (se_id e) (se_priv e) (se_rand e) c with
        | Ok (v, cl) =>
            match Client_Start (se_net e) (cfg_Listen c) (mkClientSockets None (client_transports c)) F with
            | (Some _, _, F) => (Exit 1, F)
            | (None, socks, F) => (Up (mkProcess c level (RunClient v cl socks)), F)
            end
        | _ => (Exit 1, F)
        end
      else if String.eqb (cfg_Mode c) ModeServer then
        match NewServer ResolveUDPAddr SplitHostPort marshal c with
        | Ok (v, s) =>
            let '(x, t) := server_transport (cfg_Transport c) (cfg_Listen c) in
            match Server_Start (se_net e 0%nat) (cfg_WGPeer c) x t F with
            | (Some _, _, _, F) => (Exit 1, F)
            | (None, t, peer, F) => (Up (mkProcess c level (RunServer v s t peer)), F)
            end
        | _ => (Exit 1, F)
        end
      else (Exit 1, F)
  | _ => (Exit 1, F)
  end.

(** The end of [main]: [run] returned this error, if any. *)
Definition exit_code {E} (err : option E) : Z := match err with Some _ => 1 | None => 0 end.

Inductive hup_error := LoadError (e : string) | ReloadError (e : reload_error).

(** One SIGHUP. *)
Definition hup (file : option Doc) (p : process) : option hup_error * process :=
  match Load file with
  | Ok nc =>
      let '(err, run) := match pr_run p with
        | RunClient v c socks => let '(err, c) := Client_Reload (pr_cfg p) nc c in (err, RunClient v c socks)
        | RunServer v s t peer => let '(err, s) := Server_Reload v (pr_cfg p) nc s in (err, RunServer v s t peer)
        end in
      match err with
      | Some e => (Some (ReloadError e), mkProcess (pr_cfg p) (pr_level p) run)
      | None => (None, mkProcess (pr_cfg p) (parseLevel (lg_Level (cfg_Log nc))) run)
      end
  | Err e => (Some (LoadError e), p)
  | Panic => (Some (LoadError ""), p)
  end.

(** Any number of signals, each finding its own file. *)
Fixpoint hups (files : list (option Doc)) (p : process) : process :=
  match files with
  | [] => p
  | f :: files => hups files (hup f p).2
  end.

(** * Properties *)

Lemma Load_Ok file c : Load file = Ok c → Validate ResolveUDPAddr SplitHostPort c = Ok c ∧ config_ok c.
Proof.
  unfold Load. destruct file as [d|]; [|done]. destruct (decode d) as [c0|]; [|done]. apply Validate_Ok.
Qed.

Lemma client_transports_closed c : client_down (mkClientSockets None (client_transports c)).
Proof.
  split; [done|]. unfold client_transports, all_closed. cbn [cs_wans]. induction (cfg_WANs c) as [|w ws IH]; [by constructor|].
  cbn [omap list_omap]. destruct (newTransport w (cfg_Server c)) as [[x t]|] eqn:E; [|done].
  constructor; [by eapply newTransport_closed|done].
Qed.

(** Every WAN of a validated configuration has a transport. *)
Lemma client_transports_length c : config_ok c → length (client_transports c) = length (cfg_WANs c).
Proof.
  intros Hc. pose proof (co_wans _ Hc) as Hw. unfold client_transports. induction Hw as [|w ws (_ & Ht & _) _ IH]; [done|].
  cbn [omap list_omap]. unfold newTransport at 1.
  apply one_of_spec in Ht. rewrite !elem_of_cons, elem_of_nil in Ht.
  destruct Ht as [->|[->|[->|[]]]]; cbn; by rewrite IH.
Qed.

(** The tunnel and its sockets after start-up, against the descriptors before. *)
Definition up_ok (p : process) (F F' : gset Z) : Prop :=
  match pr_run p with
  | RunClient _ _ socks =>
      cfg_Mode (pr_cfg p) = ModeClient ∧ client_up socks F F' ∧ length (cs_wans socks) = length (cfg_WANs (pr_cfg p))
  | RunServer _ _ t peer =>
      cfg_Mode (pr_cfg p) = ModeServer ∧ is_Some peer ∧ ∃ fd, tr_fd t = Some fd ∧ (fd ∉ F) ∧ F' = {[fd]} ∪ F
  end.

(** C39 — Start-up. [main] either exits, with code 0 only when asked for the
    version, code 1 otherwise, and no descriptor left open; or it runs a tunnel
    of the configured mode, constructed from a configuration that passed
    validation and would pass it again unchanged, with one open transport for
    each configured WAN (client) or the listening transport and a resolved peer
    (server), each on a descriptor of its own. *)
Theorem startup_safe e showVersion file F :
  (∀ i, env_fresh (se_net e i)) →
  match main e showVersion file F with
  | (Exit code, F') => F' = F ∧ code = if showVersion then 0 else 1
  | (Up p, F') =>
      showVersion = false ∧ Load file = Ok (pr_cfg p) ∧ config_ok (pr_cfg p) ∧
      Validate ResolveUDPAddr SplitHostPort (pr_cfg p) = Ok (pr_cfg p) ∧
      pr_level p = parseLevel (lg_Level (cfg_Log (pr_cfg p))) ∧ up_ok p F F'
  end.
Proof.
  intros He. unfold main. destruct showVersion; [done|].
  destruct (Load file) as [c| |] eqn:Hl; [|done..]. destruct (Load_Ok _ _ Hl) as [Hv Hok].
  destruct (String.eqb_spec (cfg_Mode c) ModeClient) as [Hm|Hm].
  - destruct (NewClient _ _ _ _ _ _ c) as [[v cl]| |]; [|done..].
    pose proof (Client_Start_result (se_net e) (cfg_Listen c) (mkClientSockets None (client_transports c)) F He
      (client_transports_closed c) eq_refl) as Hs.
    destruct (Client_Start _ _ _ F) as [[[err|] socks] F']; [by destruct Hs|]. destruct Hs as [Hup Hx].
    split_and!; try done. split_and!; [done|done|]. cbn [pr_cfg].
    rewrite <-(client_transports_length c Hok). apply (f_equal length) in Hx. by rewrite !length_fmap in Hx.
  - destruct (String.eqb_spec (cfg_Mode c) ModeServer) as [Hm'|Hm']; [|done].
    destruct (NewServer _ _ _ c) as [[v s]| |]; [|done..].
    pose proof (server_transport_closed (cfg_Transport c) (cfg_Listen c)) as Hc.
    destruct (server_transport (cfg_Transport c) (cfg_Listen c)) as [x t].
    pose proof (Server_Start_result (se_net e 0%nat) (cfg_WGPeer c) x t F (He _) Hc) as Hs.
    destruct (Server_Start _ _ x t F) as [[[[err|] t'] peer] F']; [by destruct Hs|]. by split_and!.
Qed.

(** ** Reloading *)

(** A refusal for structural reasons comes before anything is changed. *)
Lemma reload_wans_error st nc i n (c : client Addr R) : (reload_wans st nc i n c).1 ≠ Some ErrReloadRequiresRestart.
Proof.
  revert i c. induction n as [|n IH]; intros i c; cbn [reload_wans]; [done|].
  destruct (cfg_WANs nc !! i) as [w|]; [|apply IH]. destruct (fecParamsFor _ _ _) as [p| |]; [apply IH|done|done].
Qed.

Lemma Client_Reload_refused st nc (c : client Addr R) :
  (Client_Reload st nc c).1 = Some ErrReloadRequiresRestart ↔ client_structure nc ≠ client_structure st.
Proof.
  unfold Client_Reload. rewrite clientReloadable_spec. destruct (decide _) as [E|E]; [|done]. split; [|by intros []].
  pose proof (reload_wans_error st nc 0 (length (cl_links c)) c) as H.
  by destruct (reload_wans _ _ _ _ c) as [[e|] c1]; cbn [fst] in *.
Qed.

Lemma Client_Reload_untouched st nc (c : client Addr R) :
  client_structure nc ≠ client_structure st → (Client_Reload st nc c).2 = c.
Proof. intros H. unfold Client_Reload. rewrite clientReloadable_spec. by rewrite decide_False. Qed.

(** The structure and the capacity cap of the server. *)
Definition server_fixed (st nc : Config) : Prop :=
  server_structure nc = server_structure st ∧
  (sc_CapacityCapMbps (cfg_Scheduler nc) =.? sc_CapacityCapMbps (cfg_Scheduler st)) = true.

Lemma Server_Reload_error v st nc (s : server Addr R) :
  (Server_Reload v st nc s).1 = Some ErrReloadRequiresRestart ↔ ¬ server_fixed st nc.
Proof.
  unfold Server_Reload, server_fixed. rewrite <-server_changed_false.
  destruct (server_changed st nc); [naive_solver|]. destruct (_ =.? _); naive_solver.
Qed.

Lemma Server_Reload_refused v st nc (s : server Addr R) e :
  (Server_Reload v st nc s).1 = Some e → (Server_Reload v st nc s).2 = s.
Proof. unfold Server_Reload. by repeat case_match. Qed.

(** What no signal changes: the kind of tunnel, its keys, sockets, sessions,
    codecs, queues, paths and the estimates and state of its monitors. *)
Definition run_kept (r r' : tunnel) : Prop :=
  match r, r' with
  | RunClient v c socks, RunClient v' c' socks' => v' = v ∧ socks' = socks ∧ reloaded c c'
  | RunServer v s t a, RunServer v' s' t' a' => v' = v ∧ t' = t ∧ a' = a ∧ server_kept s s'
  | _, _ => False
  end.

#[export] Instance run_kept_preorder : PreOrder run_kept.
Proof.
  split.
  - by intros [v c k|v s t a].
  - intros [v1 c1 k1|v1 s1 t1 a1] [v2 c2 k2|v2 s2 t2 a2] [v3 c3 k3|v3 s3 t3 a3]; cbn; try done.
    + intros (-> & -> & H1) (-> & -> & H2). split_and!; [done|done|by etrans].
    + intros (-> & -> & -> & H1) (-> & -> & -> & H2). split_and!; [done..|by etrans].
Qed.

Lemma hup_kept file p : pr_cfg (hup file p).2 = pr_cfg p ∧ run_kept (pr_run p) (pr_run (hup file p).2).
Proof.
  unfold hup. destruct (Load file) as [nc| |]; [|by split|by split].
  destruct (pr_run p) as [v c socks|v s t a] eqn:Er.
  - pose proof (Client_Reload_reloaded (pr_cfg p) nc c) as H.
    destruct (Client_Reload (pr_cfg p) nc c) as [[e|] c']; by split.
  - pose proof (Server_Reload_kept v (pr_cfg p) nc s) as H.
    destruct (Server_Reload v (pr_cfg p) nc s) as [[e|] s']; by split.
Qed.

Lemma hups_kept files p : pr_cfg (hups files p) = pr_cfg p ∧ run_kept (pr_run p) (pr_run (hups files p)).
Proof.
  revert p. induction files as [|f files IH]; intros p; cbn [hups]; [by split|].
  destruct (hup_kept f p) as [E1 H1], (IH (hup f p).2) as [E2 H2]. split; [congruence|]. by etrans.
Qed.

(** Whether the running tunnel can take over the configuration [nc] at all. *)
Definition compatible (p : process) (nc : Config) : Prop :=
  match pr_run p with
  | RunClient _ _ _ => client_structure nc = client_structure (pr_cfg p)
  | RunServer _ _ _ _ => server_fixed (pr_cfg p) nc
  end.

(** C40 — Reloading by signal. Whatever the files found by any number of signals,
    the running tunnel keeps its kind, keys and sockets. A client keeps its
    identity, codecs and queues, the frames held for delivery and each WAN with
    its counters; a server keeps its sessions with their keys and replay windows,
    its decoder and every session's paths, scheduler and last endpoint; and both
    keep the estimates, timers and state of every health monitor. A file that
    does not load leaves the whole process as it was, with the error reported. A
    file that loads is refused with the restart error, and then too leaves the
    process as it was, exactly when its structure is not the one the process
    started with: an address, the key, the cipher, the MTU, a coding or
    scheduling mode; at a client the number of WANs or a WAN's id, transport,
    interface, local address or routing table; at a server the capacity cap. The
    log level follows the file exactly when the reload succeeds. *)
Theorem hup_safe files file p0 :
  let p := hups files p0 in
  let '(err, p') := hup file p in
  pr_cfg p' = pr_cfg p0 ∧ run_kept (pr_run p0) (pr_run p') ∧
  (∀ e, Load file = Err e → err = Some (LoadError e) ∧ p' = p) ∧
  (∀ nc, Load file = Ok nc →
     (err = Some (ReloadError ErrReloadRequiresRestart) ↔ ¬ compatible p nc) ∧ (¬ compatible p nc → p' = p)) ∧
  (∀ nc, Load file = Ok nc → err = None → pr_level p' = parseLevel (lg_Level (cfg_Log nc))) ∧
  (is_Some err → pr_level p' = pr_level p).
Proof.
  intros p. destruct (hups_kept files p0) as [E1 H1]. fold p in E1, H1. destruct (hup_kept file p) as [E2 H2].
  destruct (hup file p) as [err p'] eqn:Eh. cbn [snd] in *. split_and!; [congruence|by etrans|..]; revert Eh; unfold hup.
  - intros Eh e Hl. rewrite Hl in Eh. by injection Eh as <- <-.
  - intros Eh nc Hl. rewrite Hl in Eh. unfold compatible. destruct (pr_run p) as [v c socks|v s t a] eqn:Er.
    + pose proof (Client_Reload_refused (pr_cfg p) nc c) as Hr. pose proof (Client_Reload_untouched (pr_cfg p) nc c) as Hu.
      destruct (Client_Reload (pr_cfg p) nc c) as [[e|] c']; injection Eh as <- <-; cbn [fst snd] in *; split.
      * rewrite <-Hr. naive_solver.
      * intros H. rewrite (Hu H), <-Er. by destruct p.
      * rewrite <-Hr. naive_solver.
      * intros H. by apply Hr in H.
    + pose proof (Server_Reload_error v (pr_cfg p) nc s) as Hr. pose proof (Server_Reload_refused v (pr_cfg p) nc s) as Hu.
      destruct (Server_Reload v (pr_cfg p) nc s) as [[e|] s']; injection Eh as <- <-; cbn [fst snd] in *; split.
      * rewrite <-Hr. naive_solver.
      * intros H. rewrite (Hu e eq_refl), <-Er. by destruct p.
      * rewrite <-Hr. naive_solver.
      * intros H. by apply Hr in H.
  - intros Eh nc Hl. rewrite Hl in Eh. destruct (match pr_run p with RunClient _ _ _ => _ | RunServer _ _ _ _ => _ end) as [[e|] r];
      by injection Eh as <- <-.
  - destruct (Load file) as [nc| |]; [|by intros [= <- <-]..].
    destruct (match pr_run p with RunClient _ _ _ => _ | RunServer _ _ _ _ => _ end) as [[e|] r]; intros [= <- <-] Hs; [done|].
    by apply is_Some_None in Hs.
Qed.
End process.

(** ** Witnesses: a client of two WANs, its file as the decoded document *)

Section demo.
#[local] Existing Instances key_order sum_ciphers dh_exchange.

Definition demo_start : start_env (R := unit) :=
  mkStartEnv (unix_nano 0) (Some (be_put 8 77)) (Some (be_put 32 4711)) tt (λ _, demo_net).

Abbreviation demo_main := (main (Addr := string) (λ _, true) (λ _, true) demo_marshal (@Some Config) demo_start).
Abbreviation demo_hup := (hup (Addr := string) (R := unit) (λ _, true) (λ _, true) (@Some Config)).

Definition is_up {A} (r : startup (Addr := string) (R := unit) * A) : bool := match r.1 with Up _ => true | Exit _ => false end.

Lemma demo_main_facts : is_up (demo_main false (Some client_document) ∅) = true.
Proof. vm_compute. reflexivity. Qed.

Lemma startup_safe_witness :
  ∃ p F, demo_main false (Some client_document) ∅ = (Up p, F) ∧ cfg_Mode (pr_cfg p) = ModeClient ∧ config_ok (pr_cfg p).
Proof.
  pose proof (startup_safe (Addr := string) (λ _, true) (λ _, true) demo_marshal (@Some Config) demo_start false
    (Some client_document) ∅ (λ _, demo_net_fresh)) as H.
  pose proof demo_main_facts as B. destruct (demo_main false (Some client_document) ∅) as [[code|p] F] eqn:E;
    [exfalso; unfold is_up in B; cbn [fst] in B; exact (diff_false_true B)|].
  destruct H as (_ & Hl & Hok & _). exists p, F. split; [exact eq_refl|]. split; [|exact Hok].
  unfold Load in Hl. assert (Hm : match Validate (λ _, true) (λ _, true) client_document with Ok c => cfg_Mode c = ModeClient | _ => True end)
    by (vm_compute; reflexivity). rewrite Hl in Hm. exact Hm.
Defined.

(** The same document with another log level. *)
Definition with_level (l : string) (c : Config) : Config :=
  mkConfig (cfg_Mode c) (cfg_Listen c) (cfg_Server c) (cfg_WGPeer c) (cfg_SessionID c) (cfg_Scheduler c) (cfg_FEC c) (cfg_MTU c)
    (cfg_WANs c) (cfg_Delivery c) (cfg_Health c) (cfg_Crypto c) (mkLog l "") (cfg_Telemetry c) (cfg_Queue c) (cfg_Transport c).
Definition demo_process : process (Addr := string) (R := unit) :=
  match (demo_main false (Some client_document) ∅).1 with
  | Up p => p
  | Exit _ => mkProcess client_document LevelInfo
      (RunClient demo_ccfg demo_c0 (mkClientSockets None []))
  end.

(** The second WAN on another interface. *)
Definition rebound_document : Config :=
  mkConfig ModeClient "127.0.0.1:51821" "192.0.2.1:4500" "" "" (mkSched "" "" "" f0)
    (mkFEC false "" 0 f0 0 f0 f0 f0 f0 f0) 0
    [mkWAN "" "" "" "" 0 50 f0 None; mkWAN "lte" "" "wwan1" "" 0 20 f0 None] (mkDelivery 0 0)
    (mkHealth f0 f0 f0 f0 f0 f0 0 f0) (mkCrypto "secret" "") (mkLog "" "") (mkTelemetry "" "" f0)
    (mkQueue (Some false) 0 "" false) "".

Lemma demo_hup_facts :
  match Load (λ _, true) (λ _, true) (@Some Config) (Some (with_level "debug" client_document)) with
  | Ok nc => parseLevel (lg_Level (cfg_Log nc)) = LevelDebug | _ => False end ∧
  (demo_hup (Some (with_level "debug" client_document)) demo_process).1 = None ∧
  is_Ok (Load (λ _, true) (λ _, true) (@Some Config) (Some rebound_document)) = true ∧
  (demo_hup (Some rebound_document) demo_process).1 = Some (ReloadError ErrReloadRequiresRestart).
Proof. vm_compute. split_and!; reflexivity. Qed.

Lemma hup_safe_witness :
  pr_level (demo_hup (Some (with_level "debug" client_document)) demo_process).2 = LevelDebug ∧
  (demo_hup (Some rebound_document) demo_process).2 = demo_process.
Proof.
  destruct demo_hup_facts as (B1 & B2 & B4 & B3). split.
  - pose proof (hup_safe (λ _, true) (λ _, true) (@Some Config) [] (Some (with_level "debug" client_document)) demo_process) as H.
    cbn [hups] in H. destruct (demo_hup (Some (with_level "debug" client_document)) demo_process) as [err p'].
    destruct H as (_ & _ & _ & _ & H & _). destruct (Load _ _ _ _) as [nc| |]; [|destruct B1|destruct B1].
    cbn [snd]. rewrite (H nc eq_refl B2). exact B1.
  - pose proof (hup_safe (λ _, true) (λ _, true) (@Some Config) [] (Some rebound_document) demo_process) as H.
    cbn [hups] in H. destruct (demo_hup (Some rebound_document) demo_process) as [err p'].
    destruct H as (_ & _ & _ & H & _). destruct (Load _ _ _ (Some rebound_document)) as [nc| |];
      [|exfalso; exact (diff_false_true B4)|exfalso; exact (diff_false_true B4)].
    cbn [fst] in B3. destruct (H nc eq_refl) as [Hi Hk]. cbn [snd]. apply Hk, Hi. exact B3.
Defined.

(** A reload that fails at the second WAN has already changed the first: here an
    override of 100 % loss, which validation accepts. *)
Definition fec_document (cap : Z) (override : option f64) : Config :=
  mkConfig ModeClient "127.0.0.1:51821" "192.0.2.1:4500" "" "" (mkSched "" "" "" f0)
    (mkFEC true "" 4 f0 0 f0 f0 f0 f0 f0) 1280
    [mkWAN "" "" "" "" 0 cap f0 None; mkWAN "lte" "" "" "" 0 20 f0 override] (mkDelivery 0 0)
    (mkHealth f0 f0 f0 f0 f0 f0 0 f0) (mkCrypto "secret" "") (mkLog "" "") (mkTelemetry "" "" f0)
    (mkQueue (Some false) 0 "" false) "".

Definition fec_process : process (Addr := string) (R := unit) :=
  match (demo_main false (Some (fec_document 50 None)) ∅).1 with
  | Up p => p
  | Exit _ => demo_process
  end.

Definition demo_weights (p : process (Addr := string) (R := unit)) : list f64 :=
  match pr_run p with RunClient _ c _ => p_capacity <$> paths (cl_sched c) | RunServer _ _ _ _ => [] end.

Example reload_partial :
  let r := demo_hup (Some (fec_document 80 (Some (of_Z 100)))) fec_process in
  match r.1 with Some (ReloadError (ErrParams _)) => true | _ => false end = true ∧
  demo_weights fec_process ≠ demo_weights r.2.
Proof. split; [vm_compute; reflexivity|]. intros E. vm_compute in E. discriminate E. Qed.
End demo.
